(* ===== verification/_CoqProject ===== *)
-Q . S2P
Prelude.v
GoStrings.v
Flags.v
Chains.v
Validation.v
Api.v
Config.v
Selectors.v
Resources.v
Forest.v
ForestWf.v
ForestWalks.v
Quotas.v
ForestReads.v
HierarchyValidator.v
NamespaceWebhooks.v
Sound.v
World.v
Anchor.v
Objects.v
Propagation.v
Convergence.v
ObjectsValidator.v
HncConfig.v
HncConfigFacts.v
GoMemory.v
DeepCopy.v
HncConfigValidator.v
HrqControllers.v
Setup.v
ManagerMain.v
HierarchyReconciler.v
HierarchyInvariant.v
TreeLabels.v
ParentSync.v
TestForests.v
System.v
Discovery.v
TreeApi.v
TreeWatch.v
ApiExtServer.v
Endpoints.v
Stats.v
Kubectl.v
KubectlFacts.v
KubectlViews.v
Migration.v
TestHarness.v
IntegTest.v
Instances.v
ForestTheorems.v
HierarchyTheorems.v
QuotaTheorems.v
AnchorTheorems.v
PropagationTheorems.v
ConfigTheorems.v
HrqTheorems.v
SystemTheorems.v
TreeApiTheorems.v
PluginTheorems.v
ToolTheorems.v
ManagerTheorems.v
SupportTheorems.v
Observations.v
