(* ===== verification/Prelude.v ===== *)
(** * Hierarchical Namespace Controller: a verification library (root file)

    HNC (kubernetes-sigs/hierarchical-namespaces) arranges the namespaces of a Kubernetes
    cluster in trees.  Its manager keeps a forest of namespaces in memory, shared under
    one lock by all its parts: reconcilers that bring the cluster and the forest in line
    with each other, and admission webhooks that reject changes which would break the
    hierarchy.  An aggregated API server lists and watches the objects of whole trees, a
    kubectl plugin is the command line of the system, and a tool migrates repositories to
    it.  This library models these parts as they are written in Go and proves what makes
    them correct.

    ** How the code is modelled

    - Go code is a function of the state it works on.  Code that can panic or loop
      returns an [outcome] ([Done], [Panics], [Diverges]); code that changes the forest is
      in the state monad [M Forest]; a reconciler threads a [World] (file World): the
      forest and the trace of what it does to the outside (API calls, enqueued requests,
      notifications), in order.
    - The answers of the API server, the admission decoder, regular expressions, label
      selectors, YAML, media types, the mapping of resources to kinds and the text form of
      quantities are parameters: records of answers, or classes with their laws
      ([RegexpLib] in Config, [SelectorLib] and [SelectorLaws] in Selectors, [ApiServer] in
      Convergence, [YamlLib] and [YamlLaws] in Migration, [Negotiation] in ApiExtServer).  Theorems hold
      for all answers.  Instances and the files of theorems have concrete ones.
    - The order in which Go ranges over a map is the class [RangeOrder] below; theorems
      hold for every order.
    - Goroutines are step relations that interleave them (Discovery: the refreshes of the
      table of types; TreeWatch: the goroutines of a watch; ManagerMain: the start of the
      process); what Go leaves open there, and in unstable sorts, is left open.
    - Namespace objects live in a heap with locations ([Forest.loc]), since Go pointers
      keep an object alive after its name has left the map: [Forest.Get], [clean] and the
      parent and child pointers alias as in the code.
    - Elsewhere objects are values.  Where the code takes a deep copy and then changes the
      object (the reconcilers compare the two), this is what GoMemory and DeepCopy justify:
      over a memory with pointers, slices and maps, the generated copies share nothing with
      their originals.
    - Loops that are not structural take fuel.  The walks over the forest get [steps f],
      more than the number of names and objects, and are proved never to run out of it
      (AncestryNames, populateDescendants, CanSetParent, checkConflictsForTree), or not to
      as long as each cycle has a halted member (GetHaltedRoot, AllowsCascadingDeletion,
      which has a cycle check of its own).  The tree command of the plugin gets two more
      than the number of namespaces, the paths of the migration tool one more than the
      number of directories; both are proved to be enough.

    ** Files

    Foundations:
    - Prelude: outcomes, state and error monads, Go maps and their ranges, list lemmas.
    - GoStrings: the parts of strings, strconv, sort and fmt that the code uses.
    - Chains: following a partial function with finite support; cycles, walks, changes.
    - Flags: the flag package and integers in Go's syntax.
    - Validation: names, label keys and values (k8s.io/apimachinery validation).
    - GoMemory: pointers, slices and maps, and the class [Copies] of correct copy routines.

    Data and libraries of the program:
    - Api: api/v1alpha2 and internal/metadata.  Config: internal/config and
      internal/webhooks.  Selectors: internal/selectors.  Resources: internal/hrq/utils.
      DeepCopy: the generated copies of api/v1alpha2, each an instance of [Copies].

    The forest (internal/forest):
    - Forest: its data and all its methods, with the type syncers (object reconcilers)
      that are registered in it.  ForestWf: the invariant [wf] (names, parent pointers and
      child maps agree), kept by every method; ancestries and cycles.  ForestWalks:
      descendants, cascading deletion, halted roots.  Quotas: limits and usages of
      namespacehrq.go.  ForestReads: code that only reads.  Sound: the invariant [sound],
      [wf] and every cycle has a halted member.

    Controllers and webhooks:
    - HierarchyReconciler, HierarchyInvariant, TreeLabels, ParentSync:
      internal/hierarchyconfig/reconciler.go and its properties.
    - HierarchyValidator: internal/hierarchyconfig/validator.go.
    - NamespaceWebhooks: internal/namespace.
    - Anchor: internal/anchor.
    - Objects, Propagation: internal/objects/reconciler.go and what it should do, as an
      abstract specification ([desired], [verdict]).  Convergence: the reconciler in a loop
      with a store that takes its writes.  ObjectsValidator: the webhook.
    - HncConfig, HncConfigFacts, HncConfigValidator: internal/hncconfig.
    - HrqControllers: internal/hrq (two reconcilers, two webhooks, the periodic repair).
    - Endpoints: the decoding of admission requests around the webhooks, the client for
      access reviews, internal/apimeta, internal/crd and the read-only client.
    - System: one run of any reconciler or webhook as a step on the forest, for any
      answers and requests; the states that sequences of such steps reach.
    - Setup: internal/setup and the SetupWithManager methods: what is registered with the
      controller manager.  ManagerMain: cmd/manager, the flags and the start.
    - TestForests: internal/foresttest, the forests that the code's own tests use.

    Around the manager:
    - Discovery, TreeApi, TreeWatch: internal/apiextension, the aggregated API server
      (types, lists, watches).  ApiExtServer: its media types, and cmd/apiextension from the
      routes to the handlers.
    - Stats: internal/stats.  Kubectl, KubectlFacts, KubectlViews: internal/kubectl.
    - Migration: tools/ans2hns.
    - TestHarness, IntegTest: pkg/testutils and internal/integtest/helpers.go, the helpers of
      the code's own tests, as steps on a cluster that is a parameter.

    Theorems, each with an application to concrete data: ForestTheorems,
    HierarchyTheorems, QuotaTheorems, AnchorTheorems, PropagationTheorems, ConfigTheorems,
    HrqTheorems, SystemTheorems, TreeApiTheorems, PluginTheorems, ToolTheorems,
    ManagerTheorems, SupportTheorems.  Observations has runs in which the code does something other than
    what it says.  Instances has the concrete forests.

    ** What is shown

    - The forest: SetParent keeps the structure and changes one parent; CanSetParent objects
      exactly to the changes that close a cycle; ancestors and descendants are exact; the
      nearest halted ancestor is found.
    - The system: in every reachable forest the structure is consistent and each cycle is
      halted; the hierarchy reconciler returns on every namespace, gives it exactly the
      parent that is asked for and writes tree labels that are exactly its ancestors and
      legal as labels; nothing is written on or below a cycle, missing copies included.
    - Admission: moves that are admitted and reconciled one after the other never close a
      cycle (overlapping ones can, and are then halted); they were granted by the access
      reviews that the case asks for (none, if the old parent is missing); which anchors, deletions and sources are admitted, exactly.
    - Propagation: the object reconciler implements the specification, whatever the API
      server answers to its writes; objects of users are only ever overwritten by a
      propagating source of an ancestor (a role binding whose update is refused as invalid
      is deleted and created again with that copy); written copies are stable; repeated reconciliation brings every copy up to date and
      then changes nothing; the webhook keeps copies intact.
    - Configuration: every kind gets the mode that spec.resources asks for; the search for
      conflicts is exact.
    - Quotas: admitted usages respect every limit above (on a cycle of parents up to the
      increase itself), rejected ones change nothing, subtree usages are the totals of the
      usages below and can be restored; what the status webhook decides and records; what
      one reconciliation of each quota object does, refused writes included.
    - Anchors: a live anchor reaches its namespace in two reconciliations; when the webhook
      admits a deletion and when the reconciler deletes the namespace.
    - The API server lists exactly the subtree, independently of the schedule of its
      concurrent requests, as far as the request sets no limit; its watches lose and reorder
      nothing, never deadlock and leave no goroutine behind; data go only to allowed
      clients, from the handler for the path; its table of types converges as long as
      refreshes do not overlap.
    - The process: the command line gives the configuration it describes or is rejected;
      what lets the start succeed or exit; webhooks and reconcilers are registered only after
      the channel of the certificates is closed, and all of them; which events wake which
      reconcilers.
    - The plugin prints each descendant once, sends exactly the requested write and shows
      the latest events; the counters of the statistics are exact modulo 2^32.
    - The migration tool infers the parents that the directories say and adds a
      configuration for exactly the namespaces that none named.
    - Deep copies have the value of the original and share no memory with it.  A step of an
      end-to-end test passes exactly when a run of its command within its time satisfies it,
      except for MustNotRun and MustNotApplyYAML, which run nothing.

    ** Not modelled

    Locking and scheduling inside one operation on the forest (the lock makes it atomic);
    logs; timeouts, rate limits and periodic timers; the libraries around the code
    (controller-runtime, client-go, cobra, mux, certificate rotation, exporters of metrics)
    beyond the behaviour that the code relies on; time.ParseDuration, the alignment of
    tables and JSON and YAML texts; the start of the API server of the integration tests
    (internal/integtest/setup.go).  Times are integers. *)

From stdpp Require Export base tactics prelude option list sorting strings gmap fin_maps countable relations.
From Stdlib Require Export ZArith Lia.


(** ** Notation scope of the development *)
Declare Scope hnc_scope.
Delimit Scope hnc_scope with hnc.

(** ** Outcomes of Go code

    A Go function that is modelled together with its failure modes returns an
    [outcome]: it finishes with a value, it panics (nil dereference, index out
    of range), or it does not return (unbounded recursion or loop, which the
    fuelled definitions report as [Diverges]). *)
Inductive outcome (A : Type) : Type :=
  | Done (a : A)
  | Panics
  | Diverges.
Arguments Done {_} _.
Arguments Panics {_}.
Arguments Diverges {_}.

#[export] Instance outcome_ret : MRet outcome := λ A a, Done a.
#[export] Instance outcome_bind : MBind outcome := λ A B k m,
  match m with Done a => k a | Panics => Panics | Diverges => Diverges end.
#[export] Instance outcome_eq_dec `{EqDecision A} : EqDecision (outcome A).
Proof. solve_decision. Defined.

(** State passing over a shared store [S], with the same failure modes. *)
Definition M (S A : Type) : Type := S → outcome (A * S).

#[export] Instance M_ret {S} : MRet (M S) := λ A a s, Done (a, s).
#[export] Instance M_bind {S} : MBind (M S) := λ A B k m s,
  match m s with Done (a, s') => k a s' | Panics => Panics | Diverges => Diverges end.

Section monad_ops.
  Context {S : Type}.
Definition get : M S S := λ s, Done (s, s).
Definition put (s : S) : M S unit := λ _, Done (tt, s).
Definition modify (g : S → S) : M S unit := λ s, Done (tt, g s).
Definition gets {A} (g : S → A) : M S A := λ s, Done (g s, s).
Definition panic {A} : M S A := λ _, Panics.
Definition lift_outcome {A} (o : outcome A) : M S A := λ s,
  match o with Done a => Done (a, s) | Panics => Panics | Diverges => Diverges end.
(** Dereference of a pointer value: nil panics. *)
Definition nonnil {A} (o : option A) : M S A :=
  match o with Some a => mret a | None => panic end.
End monad_ops.

Lemma M_bind_Done {S A B} (m : M S A) (k : A → M S B) s a s' :
  m s = Done (a, s') → (m ≫= k) s = k a s'.
Proof. intros H. unfold mbind, M_bind. by rewrite H. Qed.

Lemma M_bind_inv {S A B} (m : M S A) (k : A → M S B) s b s'' :
  (m ≫= k) s = Done (b, s'') → ∃ a s', m s = Done (a, s') ∧ k a s' = Done (b, s'').
Proof. unfold mbind, M_bind. destruct (m s) as [[a s']| |]; naive_solver. Qed.

Lemma M_bind_div {S A B} (m : M S A) (k : A → M S B) s :
  (m ≫= k) s = Diverges → m s = Diverges ∨ ∃ a s', m s = Done (a, s') ∧ k a s' = Diverges.
Proof. unfold mbind, M_bind. destruct (m s) as [[a s']| |]; naive_solver. Qed.

(** A Go function that returns a value and an error: [inl] is a non-nil error. *)
Definition E (A : Type) : Type := outcome (string + A).

#[export] Instance E_ret : MRet E := λ A a, Done (inr a).
#[export] Instance E_bind : MBind E := λ A B k m,
  match m with
  | Done (inr a) => k a
  | Done (inl err) => Done (inl err)
  | Panics => Panics
  | Diverges => Diverges
  end.
Definition fail {A} (err : string) : E A := Done (inl err).
Definition crash {A} : E A := Panics.

(** ** Go maps

    A Go map value is nil or a finite map; reads of a nil map behave as reads
    of the empty map, and [reflect.DeepEqual] tells the two apart. *)
Abbreviation gomap K V := (option (gmap K V)).

Definition items {K V} `{Countable K} (m : gomap K V) : gmap K V := default ∅ m.

(** [m[k]] of a [map[string]string]: the zero value "" when the key is absent. *)
Definition sget (m : gmap string string) (k : string) : string := default "" (m !! k).

(** The order in which [range] visits the entries of a map is not specified by
    Go.  Definitions whose result depends on it take the order from this class,
    so that their theorems hold for every order. *)
Class RangeOrder := {
  range : ∀ {K V} `{Countable K}, gmap K V → list (K * V);
  range_perm : ∀ {K V} `{Countable K} (m : gmap K V), range m ≡ₚ map_to_list m
}.

Definition keys_of `{RangeOrder} {K V} `{Countable K} (m : gmap K V) : list K := (range m).*1.

(** An order to evaluate the definitions on concrete inputs. *)
Definition canonical_order : RangeOrder :=
  {| range := λ K V _ _ m, map_to_list m; range_perm := λ K V _ _ m, reflexivity _ |}.

Section range_facts.
  Context `{RO : RangeOrder} {K V : Type} `{Countable K}.
  Implicit Types m : gmap K V.

Lemma elem_of_range m k v : (k, v) ∈ range m ↔ m !! k = Some v.
Proof. rewrite range_perm. apply elem_of_map_to_list. Qed.

Lemma elem_of_keys m k : k ∈ keys_of m ↔ is_Some (m !! k).
Proof.
  unfold keys_of. rewrite list_elem_of_fmap. split.
  - intros ([k' v] & -> & Hin). apply elem_of_range in Hin. eauto.
  - intros [v Hv]. exists (k, v). split; [done|]. by apply elem_of_range.
Qed.

Lemma NoDup_keys m : NoDup (keys_of m).
Proof.
  unfold keys_of.
  assert ((range m).*1 ≡ₚ (map_to_list m).*1) as -> by (by rewrite range_perm).
  apply NoDup_fst_map_to_list.
Qed.

Lemma length_keys m : length (keys_of m) = size m.
Proof. unfold keys_of. rewrite length_fmap, range_perm. apply length_map_to_list. Qed.

Lemma keys_empty m : keys_of m = [] ↔ m = ∅.
Proof.
  split.
  - intros Hk. apply map_size_empty_iff. by rewrite <- length_keys, Hk.
  - intros ->. apply length_zero_iff_nil. by rewrite length_keys, map_size_empty.
Qed.
End range_facts.

(** A Go map used as a set of strings: its keys, in iteration order. *)
Lemma elem_of_keys_set `{RO : RangeOrder} {V} (v : V) (X : gset string) (x : string) :
  x ∈ keys_of (set_to_map (λ k, (k, v)) X : gmap string V) ↔ x ∈ X.
Proof.
  rewrite elem_of_keys. split.
  - intros [w Hw]. apply lookup_set_to_map in Hw as (y & ? & ?); [by simplify_eq/=|done].
  - intros Hx. exists v. apply lookup_set_to_map; [done|eauto].
Qed.

(** ** Lists *)
Section list_facts.
  Context {A : Type}.
Lemma last_app_singleton (l : list A) (x : A) : last (l ++ [x]) = Some x.
Proof. apply last_snoc. Qed.

Lemma bind_nil {B} (g : A → list B) (l : list A) : l ≫= g = [] ↔ ∀ x, x ∈ l → g x = [].
Proof.
  induction l as [|x l IH]; [split; [by intros _ x ?%elem_of_nil|done]|]. rewrite bind_cons, app_nil, IH. split.
  - intros [Hx Hl] y [->|Hy]%elem_of_cons; auto.
  - intros Hall. split; [apply Hall; by left|]. intros y Hy. apply Hall. by right.
Qed.

Lemma NoDup_prefix_last (l p q : list A) m : NoDup l → p `prefix_of` l → q `prefix_of` l →
  last p = Some m → last q = Some m → p = q.
Proof.
  assert (∀ p q : list A, NoDup q → p `prefix_of` q → last p = Some m → last q = Some m → p = q) as Hone.
  { intros p' q' Hnd [t ->] Hp Hq. destruct t as [|x t]; [by rewrite app_nil_r|exfalso].
    rewrite last_app in Hq. apply NoDup_app in Hnd as (_ & Hd & _). apply (Hd m); [by eapply last_Some_elem_of|].
    destruct (last (x :: t)) eqn:Hl; [|by apply last_None in Hl]. simplify_eq. by eapply last_Some_elem_of. }
  intros Hnd Hp Hq Hlp Hlq.
  assert (∀ k, k `prefix_of` l → NoDup k) as Hpre by (intros k [t ->]; by apply NoDup_app in Hnd as [? _]).
  destruct (prefix_weak_total _ _ _ Hp Hq) as [H|H]; [|symmetry]; apply Hone; auto.
Qed.

Lemma NoDup_reverse (l : list A) : NoDup l → NoDup (reverse l).
Proof. by rewrite reverse_Permutation. Qed.

Lemma NoDup_length_bound `{Countable A} (l : list A) (X : gset A) :
  NoDup l → (∀ x, x ∈ l → x ∈ X) → length l ≤ size X.
Proof.
  intros Hnd Hsub.
  rewrite <- (size_list_to_set (C:=gset A) l Hnd). apply subseteq_size.
  intros x. rewrite elem_of_list_to_set. apply Hsub.
Qed.
End list_facts.

Lemma imp_iff (P Q R : Prop) : (P → Q ↔ R) → (P → Q) ↔ (P → R).
Proof. tauto. Qed.

(** ** Automation *)
Create HintDb hnc.

Ltac done_inv :=
  repeat match goal with
  | H : Done _ = Done _ |- _ => injection H as H; subst
  | H : mret _ _ = Done _ |- _ => unfold mret, M_ret in H
  | H : (_ ≫= _) _ = Done _ |- _ => apply M_bind_inv in H as (? & ? & ? & H)
  | H : Panics = Done _ |- _ => discriminate
  | H : Diverges = Done _ |- _ => discriminate
  end.
