(* ===== verification/GoStrings.v ===== *)
(** * The parts of Go's [strings], [strconv], [sort] and [fmt] the controller uses

    Strings are byte strings ([String.string]), as in Go.  [strings.TrimSpace]
    and the [%q] verb are modelled on ASCII text, which is what Kubernetes names,
    labels and annotations keys are made of; bytes above 127 are left alone. *)

From Stdlib Require Import Ascii.
From stdpp Require Import pretty.
From S2P Require Import Prelude.

(** ** Package strings *)
Definition HasPrefix (s p : string) : bool := String.prefix p s.

Fixpoint HasSuffix (s suf : string) : bool :=
  bool_decide (s = suf) ||
  match s with EmptyString => false | String _ s' => HasSuffix s' suf end.

Fixpoint Contains (s sub : string) : bool :=
  String.prefix sub s ||
  match s with EmptyString => false | String _ s' => Contains s' sub end.

(** [strings.Split(s, sep)] for a one-byte separator: never the empty list. *)
Fixpoint Split (s : string) (sep : ascii) : list string :=
  match s with
  | EmptyString => [""]
  | String c s' =>
      if decide (c = sep) then "" :: Split s' sep
      else match Split s' sep with
           | [] => [String c ""]
           | w :: ws => String c w :: ws
           end
  end.

(** [strings.SplitN(s, sep, 2)]: the text before the first separator and the rest. *)
Fixpoint cut (s : string) (sep : ascii) : string * option string :=
  match s with
  | EmptyString => ("", None)
  | String c s' =>
      if decide (c = sep) then ("", Some s')
      else let '(a, b) := cut s' sep in (String c a, b)
  end.

Definition SplitN2 (s : string) (sep : ascii) : list string :=
  match cut s sep with (a, Some b) => [a; b] | (a, None) => [a] end.

Fixpoint Join (l : list string) (sep : string) : string :=
  match l with
  | [] => ""
  | [x] => x
  | x :: l' => x +:+ sep +:+ Join l' sep
  end.

Fixpoint TrimLeft (s : string) : string :=
  match s with
  | EmptyString => ""
  | String c s' => if Ascii.is_space c then TrimLeft s' else s
  end.

Definition TrimSpace (s : string) : string :=
  String.rev (TrimLeft (String.rev (TrimLeft s))).

Fixpoint drop_string (n : nat) (s : string) : string :=
  match n, s with
  | S n', String _ s' => drop_string n' s'
  | _, _ => s
  end.

Definition TrimPrefix (s p : string) : string :=
  if HasPrefix s p then drop_string (String.length p) s else s.

(** ** Package strconv *)
Definition Itoa (n : nat) : string := pretty (N.of_nat n).

(** [strconv.Itoa] of a Go [int], and the wrap-around of 64-bit addition. *)
Definition ItoaZ (z : Z) : string := pretty z.
Definition wrap64 (z : Z) : Z := ((z + 2 ^ 63) mod 2 ^ 64 - 2 ^ 63)%Z.

Definition digit (c : ascii) : option Z :=
  match Ascii.is_nat c with Some n => Some (Z.of_nat n) | None => None end.

Fixpoint digits (acc : Z) (s : string) : option Z :=
  match s with
  | EmptyString => Some acc
  | String c s' => match digit c with Some d => digits (10 * acc + d) s' | None => None end
  end.

Definition int64_max : Z := 2 ^ 63 - 1.
Definition int64_min : Z := - 2 ^ 63.

(** The value [strconv.Atoi] returns next to its error: 0 on a syntax error, the
    nearest 64-bit bound on a range error. *)
Definition Atoi (s : string) : Z :=
  let clip z := Z.max int64_min (Z.min int64_max z) in
  match s with
  | EmptyString => 0
  | String c s' =>
      let unsigned t := match t with EmptyString => None | _ => digits 0 t end in
      if decide (c = "-"%char) then from_option (λ z, clip (- z)%Z) 0%Z (unsigned s')
      else if decide (c = "+"%char) then from_option clip 0%Z (unsigned s')
      else from_option clip 0%Z (unsigned s)
  end.

Definition ParseBool (s : string) : option bool :=
  if decide (s ∈ ["1"; "t"; "T"; "TRUE"; "true"; "True"]) then Some true
  else if decide (s ∈ ["0"; "f"; "F"; "FALSE"; "false"; "False"]) then Some false
  else None.

(** ** Package sort *)
Definition sort_Strings (l : list string) : list string := merge_sort String.le l.

(** ** The [%q] verb of fmt on ASCII text *)
Definition nl : string := String (Ascii.ascii_of_nat 10) EmptyString.
Definition dquote : string := String "034"%char EmptyString.

Fixpoint quote_body (s : string) : string :=
  match s with
  | EmptyString => ""
  | String c s' =>
      (if decide (c = "034"%char ∨ c = "\"%char) then String "\"%char (String c "")
       else if decide (c = "010"%char) then "\n"
       else if decide (c = "009"%char) then "\t"
       else if decide (c = "013"%char) then "\r"
       else String c "") +:+ quote_body s'
  end.

Definition quoted (s : string) : string := dquote +:+ quote_body s +:+ dquote.

(** ** Facts *)
Lemma sort_Strings_Permutation l : sort_Strings l ≡ₚ l.
Proof. apply merge_sort_Permutation. Qed.

Lemma sort_Strings_Sorted l : StronglySorted String.le (sort_Strings l).
Proof. apply (StronglySorted_merge_sort String.le). Qed.

Lemma elem_of_sort_Strings l x : x ∈ sort_Strings l ↔ x ∈ l.
Proof. by rewrite sort_Strings_Permutation. Qed.

Lemma NoDup_sort_Strings l : NoDup (sort_Strings l) ↔ NoDup l.
Proof. by rewrite sort_Strings_Permutation. Qed.

Lemma sort_Strings_nil_iff l : sort_Strings l = [] ↔ l = [].
Proof.
  rewrite <- !length_zero_iff_nil. by rewrite sort_Strings_Permutation.
Qed.

#[export] Hint Rewrite sort_Strings_nil_iff : hnc.

Lemma string_app_nil_l (s : string) : "" +:+ s = s.
Proof. done. Qed.

Lemma string_app_cons c (s t : string) : String c s +:+ t = String c (s +:+ t).
Proof. done. Qed.

Lemma HasSuffix_spec s suf : HasSuffix s suf = true ↔ ∃ p, s = p +:+ suf.
Proof.
  induction s as [|c s IH]; simpl.
  - rewrite orb_false_r, bool_decide_eq_true. split.
    + intros <-. by exists "".
    + intros [[|] Hp]; [by rewrite string_app_nil_l in Hp|done].
  - rewrite orb_true_iff, bool_decide_eq_true, IH. split.
    + intros [<-|[p ->]]; [by exists ""|by exists (String c p)].
    + intros [[|c' p] Hp]; [left; by rewrite string_app_nil_l in Hp|right].
      rewrite string_app_cons in Hp. exists p. congruence.
Qed.

Lemma string_prefix_spec (p s : string) : String.prefix p s = true ↔ ∃ t, s = p +:+ t.
Proof.
  revert s. induction p as [|c p IH]; intros s; simpl.
  - split; [intros _; by exists s|by destruct s].
  - destruct s as [|c' s]; simpl; [split; [done|by intros [t ?]]|].
    destruct (Ascii.ascii_dec c c') as [->|Hne].
    + rewrite IH. split; intros [t Ht]; exists t; rewrite string_app_cons in *; congruence.
    + split; [done|]. intros [t Ht]. rewrite string_app_cons in Ht. congruence.
Qed.

Lemma Contains_spec s sub : Contains s sub = true ↔ ∃ p t, s = p +:+ sub +:+ t.
Proof.
  induction s as [|c s IH]; cbn [Contains].
  - rewrite orb_false_r, string_prefix_spec. split.
    + intros [t Ht]. by exists "", t.
    + intros ([|] & t & Ht); [by exists t|done].
  - rewrite orb_true_iff, string_prefix_spec, IH. split.
    + intros [[t Ht]|(p & t & ->)]; [by exists "", t|by exists (String c p), t].
    + intros ([|c' p] & t & Ht); [left; by exists t|right].
      exists p, t. rewrite string_app_cons in Ht. congruence.
Qed.

Lemma string_app_assoc (a b c : string) : (a +:+ b) +:+ c = a +:+ b +:+ c.
Proof. induction a as [|x a IH]; [done|]. rewrite !string_app_cons. by rewrite IH. Qed.

Lemma string_app_nil_r (a : string) : a +:+ "" = a.
Proof. induction a as [|x a IH]; [done|]. rewrite string_app_cons. by rewrite IH. Qed.

(** *** Printing and parsing decimal numbers *)
Lemma digits_app acc s1 s2 :
  digits acc (s1 +:+ s2) = (digits acc s1) ≫= (λ a, digits a s2).
Proof.
  revert acc. induction s1 as [|c s IH]; intros acc; [done|].
  rewrite string_app_cons. cbn. destruct (digit c); [apply IH|done].
Qed.

Lemma digit_pretty (x : N) : (x < 10)%N → digit (pretty_N_char x) = Some (Z.of_N x).
Proof.
  intros Hx. assert (x ∈ [0;1;2;3;4;5;6;7;8;9])%N as Hin.
  { rewrite !elem_of_cons. lia. }
  rewrite !elem_of_cons, elem_of_nil in Hin.
  destruct_or?; by subst.
Qed.

Lemma digits_pretty_go (x : N) s :
  ∃ t, pretty_N_go x s = t +:+ s ∧ digits 0 t = Some (Z.of_N x) ∧ ((0 < x)%N → t ≠ "").
Proof.
  revert s. induction (N.lt_wf_0 x) as [x _ IH]; intros s.
  destruct (decide (x = 0)%N) as [->|Hx].
  { exists "". rewrite pretty_N_go_0. naive_solver lia. }
  rewrite pretty_N_go_step by lia.
  destruct (IH (x `div` 10)%N ltac:(apply N.div_lt; lia)
              (String (pretty_N_char (x `mod` 10)) s)) as (t & -> & Ht & _).
  exists (t +:+ String (pretty_N_char (x `mod` 10)) ""). split_and!.
  - by rewrite string_app_assoc.
  - rewrite digits_app, Ht. cbn. rewrite digit_pretty by (apply N.mod_lt; lia).
    f_equal. rewrite (N.div_mod x 10) at 3 by lia. lia.
  - intros _. by destruct t.
Qed.

Lemma digits_Itoa n : digits 0 (Itoa n) = Some (Z.of_nat n) ∧ Itoa n ≠ "".
Proof.
  unfold Itoa, pretty, pretty_N. case_decide as H.
  - split; [|done]. cbn. f_equal. lia.
  - destruct (digits_pretty_go (N.of_nat n) "") as (t & -> & Ht & Hne).
    rewrite string_app_nil_r. split; [rewrite Ht; f_equal; lia|apply Hne; lia].
Qed.

Lemma digits_not_sign acc c s z : digits acc (String c s) = Some z → c ≠ "-"%char ∧ c ≠ "+"%char.
Proof. intros H. split; intros ->; by cbn in H. Qed.

(** [strconv.Atoi] reads back what [strconv.Itoa] writes, within 64 bits. *)
Lemma Atoi_Itoa n : (Z.of_nat n ≤ int64_max)%Z → Atoi (Itoa n) = Z.of_nat n.
Proof.
  intros Hn. destruct (digits_Itoa n) as [Hd Hne].
  destruct (Itoa n) as [|c s] eqn:E; [done|].
  destruct (digits_not_sign _ _ _ _ Hd) as [Hm Hp].
  unfold Atoi. rewrite !decide_False by done. rewrite Hd. simpl.
  unfold int64_min, int64_max in *. lia.
Qed.

(** ** Go's [<] on strings *)
Lemma ltb_le (a b : string) : String.ltb a b = true → String.le a b.
Proof. unfold String.ltb, String.le, String.leb. by destruct (a ?= b)%string. Qed.

Lemma ltb_ge (a b : string) : String.ltb a b = false → String.le b a.
Proof.
  unfold String.ltb, String.le, String.leb. rewrite (String.compare_antisym b a).
  by destruct (a ?= b)%string.
Qed.

(** ** TrimSpace is idempotent *)
Lemma rev_app_spec (s t : string) : String.rev_app s t = String.rev s +:+ t.
Proof.
  unfold String.rev. revert t. induction s as [|c s IH]; intros t; [done|]. simpl.
  rewrite IH, (IH (String c "")), string_app_assoc, string_app_cons. done.
Qed.

Lemma rev_cons c s : String.rev (String c s) = String.rev s +:+ String c "".
Proof. unfold String.rev at 1. simpl. apply rev_app_spec. Qed.

Lemma rev_app (s t : string) : String.rev (s +:+ t) = String.rev t +:+ String.rev s.
Proof.
  induction s as [|c s IH]; [by rewrite string_app_nil_r|].
  rewrite string_app_cons, !rev_cons, IH, string_app_assoc. done.
Qed.

Lemma rev_involutive (s : string) : String.rev (String.rev s) = s.
Proof. induction s as [|c s IH]; [done|]. rewrite rev_cons, rev_app, IH. done. Qed.

Definition starts_black (s : string) : Prop :=
  match s with EmptyString => True | String c _ => Ascii.is_space c = false end.

Lemma TrimLeft_starts s : starts_black (TrimLeft s).
Proof. induction s as [|c s IH]; [done|]. simpl. by destruct (Ascii.is_space c) eqn:?. Qed.

Lemma TrimLeft_black s : starts_black s → TrimLeft s = s.
Proof. destruct s as [|c s]; [done|]. simpl. by intros ->. Qed.

Lemma TrimLeft_suffix s : ∃ p, s = p +:+ TrimLeft s.
Proof.
  induction s as [|c s [p Hp]]; [by exists ""|]. simpl. destruct (Ascii.is_space c); [|by exists ""].
  exists (String c p). by rewrite string_app_cons, <- Hp.
Qed.

Lemma TrimSpace_idemp s : TrimSpace (TrimSpace s) = TrimSpace s.
Proof.
  unfold TrimSpace. set (u := TrimLeft s). set (t := TrimLeft (String.rev u)).
  assert (starts_black (String.rev t)) as Hb.
  { destruct (TrimLeft_suffix (String.rev u)) as [p Hp]. fold t in Hp.
    apply (f_equal String.rev) in Hp. rewrite rev_involutive, rev_app in Hp.
    pose proof (TrimLeft_starts s) as Hu. fold u in Hu. rewrite Hp in Hu.
    destruct (String.rev t) as [|c w]; [done|]. by rewrite string_app_cons in Hu. }
  rewrite (TrimLeft_black _ Hb), rev_involutive. f_equal. apply TrimLeft_black, TrimLeft_starts.
Qed.

Lemma string_length_app (a b : string) : String.length (a +:+ b) = String.length a + String.length b.
Proof. induction a as [|c a IH]; [done|]. rewrite string_app_cons. simpl. by rewrite IH. Qed.

Lemma string_app_inj_r (a b s : string) : a +:+ s = b +:+ s → a = b.
Proof.
  intros Heq. assert (String.length a = String.length b) as Hlen.
  { apply (f_equal String.length) in Heq. rewrite !string_length_app in Heq. lia. }
  revert b Heq Hlen. induction a as [|c a IH]; intros [|d b] Heq Hlen; try done.
  rewrite !string_app_cons in Heq. injection Heq as -> Heq. f_equal. apply IH; [done|]. simpl in Hlen. lia.
Qed.

Lemma HasSuffix_app (a s : string) : HasSuffix (a +:+ s) s = true.
Proof. apply HasSuffix_spec. eauto. Qed.

(** ** Split and Join *)
Lemma Split_cons s sep : ∃ w ws, Split s sep = w :: ws.
Proof. destruct s as [|c s]; simpl; [eauto|]. case_decide; [eauto|]. destruct (Split s sep); eauto. Qed.

Lemma Join_Split s sep : Join (Split s sep) (String sep "") = s.
Proof.
  induction s as [|c s IH]; [done|]. simpl. destruct (Split_cons s sep) as (w & ws & Hs). rewrite Hs in IH |- *.
  case_decide as Hc; simpl in *.
  - subst. by destruct ws.
  - destruct ws; [congruence|]. rewrite string_app_cons. by f_equal.
Qed.

Lemma Join_removelast l sep : 1 < List.length l → Join l sep = Join (removelast l) sep +:+ sep +:+ default "" (last l).
Proof.
  induction l as [|x [|y [|z l]] IH]; simpl; intros Hl; [lia|lia|done|].
  change (Join (x :: removelast (y :: z :: l)) sep) with (x +:+ sep +:+ Join (removelast (y :: z :: l)) sep).
  simpl in IH. rewrite IH by lia. by rewrite !string_app_assoc.
Qed.

(** A text without the separator is one piece. *)
Lemma cut_none_id s sep : (cut s sep).2 = None → cut s sep = (s, None).
Proof.
  induction s as [|c s IH]; simpl; [done|]. case_decide; [done|]. destruct (cut s sep) as [a b]. simpl in *. intros ->.
  by injection (IH eq_refl) as ->.
Qed.

Lemma cut_none s sep : (cut s sep).2 = None → ∀ t, cut (s +:+ String sep t) sep = (s, Some t).
Proof.
  induction s as [|c s IH]; intros Hs t; simpl in *; [by rewrite decide_True|].
  case_decide; [done|]. destruct (cut s sep) as [a b] eqn:Hc. simpl in *. by rewrite IH.
Qed.

Lemma Split_no_sep s sep w : w ∈ Split s sep → (cut w sep).2 = None.
Proof.
  revert w. induction s as [|c s IH]; intros w; simpl; [by intros ->%list_elem_of_singleton|].
  case_decide as Hc; [intros [->|Hw]%elem_of_cons; [done|by apply IH]|].
  destruct (Split_cons s sep) as (w' & ws & Hs). rewrite Hs in *. intros [->|Hw]%elem_of_cons; [|by apply IH; right].
  simpl. rewrite decide_False by done. specialize (IH w' (list_elem_of_here _ _)). by destruct (cut w' sep).
Qed.

Lemma Split_id s sep : (cut s sep).2 = None → Split s sep = [s].
Proof.
  induction s as [|c s IH]; simpl; [done|]. case_decide; [done|]. destruct (cut s sep) as [a b]. simpl in *. intros ->. by rewrite IH.
Qed.

Lemma Split_cut a s sep : (cut a sep).2 = None → Split (a +:+ String sep s) sep = a :: Split s sep.
Proof.
  induction a as [|c a IH]; simpl; [by rewrite decide_True|]. case_decide; [done|].
  destruct (cut a sep) as [x y]. simpl in *. intros ->. by rewrite IH.
Qed.
