(* ===== verification/Flags.v ===== *)
(** * Command lines (Go's [flag] package, as cmd/manager and cmd/apiextension use it)

    A flag is a name with a setter on the variables of the program; [flag.Parse] reads arguments until the first that is
    not a flag.  The programs use the package's default set of flags, which exits with status 2 on an error and 0 after
    [-help]. *)

From Stdlib Require Import Ascii String.
From S2P Require Import Prelude GoStrings.

(** ** Integers in Go's syntax ([strconv.ParseInt] with base 0 and 64 bits) *)
Definition lower (c : ascii) : ascii := ascii_of_N (N.lor (N_of_ascii c) 32).

Definition digit_value (c : ascii) : option Z :=
  match digit c with
  | Some d => Some d
  | None =>
      let l := N_of_ascii (lower c) in
      if decide (97 ≤ l ≤ 122)%N then Some (Z.of_N l - 97 + 10)%Z else None
  end.

(** The loop of [ParseUint] with base prefixes; [None] is a syntax error. *)
Fixpoint parse_digits (base acc : Z) (s : string) : option Z :=
  match s with
  | EmptyString => Some acc
  | String "_" s => parse_digits base acc s
  | String c s =>
      match digit_value c with
      | Some d => if decide (d < base)%Z then parse_digits base (acc * base + d)%Z s else None
      | None => None
      end
  end.

(** The base that a prefix stands for, and the digits after it. *)
Definition base_prefix (s : string) : Z * string :=
  match s with
  | String "0" (String c (String d rest) as t) =>
      if decide (lower c = "b"%char) then (2%Z, String d rest)
      else if decide (lower c = "o"%char) then (8%Z, String d rest)
      else if decide (lower c = "x"%char) then (16%Z, String d rest)
      else (8%Z, t)
  | String "0" t => (8%Z, t)
  | _ => (10%Z, s)
  end.

(** [underscoreOK] without the sign: the last character seen is a digit, an underscore, or neither. *)
Inductive seen := SawStart | SawDigit | SawUnderscore | SawOther.
#[export] Instance seen_eq_dec : EqDecision seen.
Proof. solve_decision. Defined.

Fixpoint underscores_from (hex : bool) (saw : seen) (s : string) : bool :=
  match s with
  | EmptyString => bool_decide (saw ≠ SawUnderscore)
  | String c s =>
      if bool_decide (is_Some (digit c)) || hex && bool_decide (97 ≤ N_of_ascii (lower c) ≤ 102)%N then underscores_from hex SawDigit s
      else if decide (c = "_"%char) then if decide (saw = SawDigit) then underscores_from hex SawUnderscore s else false
      else if decide (saw = SawUnderscore) then false
      else underscores_from hex SawOther s
  end.

Definition underscoreOK (s : string) : bool :=
  match s with
  | String "0" (String c rest) =>
      if decide (lower c = "b"%char ∨ lower c = "o"%char ∨ lower c = "x"%char) then underscores_from (bool_decide (lower c = "x"%char)) SawDigit rest
      else underscores_from false SawStart s
  | _ => underscores_from false SawStart s
  end.

Definition has_underscore (s : string) : bool := bool_decide (is_Some (cut s "_").2).

Definition ParseUint0 (s : string) : option Z :=
  match s with
  | EmptyString => None
  | _ =>
      let '(base, t) := base_prefix s in
      match parse_digits base 0 t with
      | Some z => if has_underscore t && negb (underscoreOK s) then None else Some z
      | None => None
      end
  end.

Definition ParseInt0 (s : string) : option Z :=
  let value := match s with
    | String "-" t => Z.opp <$> ParseUint0 t
    | String "+" t => ParseUint0 t
    | _ => ParseUint0 s
    end in
  match value with
  | Some z => if decide (int64_min ≤ z ≤ int64_max)%Z then Some z else None
  | None => None
  end.

(** ** Sets of flags *)
Section flags.
  (** The variables that the flags set. *)
  Context {S : Type}.

(** [flag.Flag] with its [flag.Value]: boolean flags need no value; [None] is an error of [Set]. *)
Record Flag := mkFlag { fl_Name : string; fl_IsBool : bool; fl_Set : string → S → option S }.

Definition StringVar (name : string) (set : string → S → S) : Flag := mkFlag name false (λ v s, Some (set v s)).
Definition BoolVar (name : string) (set : bool → S → S) : Flag := mkFlag name true (λ v s, (λ b, set b s) <$> ParseBool v).
Definition IntVar (name : string) (set : Z → S → S) : Flag := mkFlag name false (λ v s, (λ z, set z s) <$> ParseInt0 v).
Definition DurationVar (ParseDuration : string → option Z) (name : string) (set : Z → S → S) : Flag :=
  mkFlag name false (λ v s, (λ z, set z s) <$> ParseDuration v).

Definition lookup_flag (flags : list Flag) (name : string) : option Flag := find (λ f, bool_decide (fl_Name f = name)) flags.

Inductive parseResult := Parsed (vars : S) (rest : list string) | Usage | BadFlag (msg : string).

(** An argument: not a flag, the end of the flags, or a flag with the value after its equals sign. *)
Inductive argument := Positional | Terminator | BadSyntax | FlagArg (name : string) (value : option string).

Definition read_argument (s : string) : argument :=
  let name_of (name : string) : argument :=
    match name with
    | EmptyString | String "-" _ | String "=" _ => BadSyntax
    | _ => let '(n, v) := cut name "=" in FlagArg n v
    end in
  match s with
  | String "-" (String "-" EmptyString) => Terminator
  | String "-" (String "-" name) => name_of name
  | String "-" (String c t) => name_of (String c t)
  | _ => Positional
  end.

(** [FlagSet.Parse] with [parseOne] inlined. *)
Fixpoint Parse (flags : list Flag) (args : list string) (vars : S) : parseResult :=
  match args with
  | [] => Parsed vars []
  | s :: args' =>
      match read_argument s with
      | Positional => Parsed vars args
      | Terminator => Parsed vars args'
      | BadSyntax => BadFlag ("bad flag syntax: " +:+ s)
      | FlagArg name value =>
          match lookup_flag flags name with
          | None => if decide (name = "help" ∨ name = "h") then Usage else BadFlag ("flag provided but not defined: -" +:+ name)
          | Some flag =>
              if fl_IsBool flag then
                match fl_Set flag (default "true" value) vars with
                | Some vars' => Parse flags args' vars'
                | None => BadFlag ("invalid boolean value for -" +:+ name)
                end
              else
                match value, args' with
                | Some v, _ =>
                    match fl_Set flag v vars with
                    | Some vars' => Parse flags args' vars'
                    | None => BadFlag ("invalid value " +:+ quoted v +:+ " for flag -" +:+ name)
                    end
                | None, v :: args'' =>
                    match fl_Set flag v vars with
                    | Some vars' => Parse flags args'' vars'
                    | None => BadFlag ("invalid value " +:+ quoted v +:+ " for flag -" +:+ name)
                    end
                | None, [] => BadFlag ("flag needs an argument: -" +:+ name)
                end
          end
      end
  end.


(** ** What is parsed *)

(** The names that can be written on a command line. *)
Definition name_ok (name : string) : bool :=
  match name with
  | EmptyString | String "-" _ | String "=" _ => false
  | _ => bool_decide ((cut name "=").2 = None)
  end.

(** [--name=value] *)
Definition assign (name value : string) : string := "--" +:+ name +:+ "=" +:+ value.

Local Arguments assign : simpl never.
Local Arguments read_argument : simpl never.

Lemma read_assign name value : name_ok name = true → read_argument (assign name value) = FlagArg name (Some value).
Proof.
  intros Hn. unfold assign. destruct name as [|c name]; [done|].
  assert (cut (String c name +:+ "=" +:+ value) "=" = (String c name, Some value)) as Hc.
  { apply cut_none. destruct c as [[] [] [] [] [] [] [] []]; try done; by apply bool_decide_eq_true in Hn. }
  change ("--" +:+ String c name +:+ "=" +:+ value) with (String "-" (String "-" (String c (name +:+ "=" +:+ value)))).
  change (String c name +:+ "=" +:+ value) with (String c (name +:+ "=" +:+ value)) in Hc.
  unfold read_argument. rewrite Hc. by destruct c as [[] [] [] [] [] [] [] []].
Qed.

(** The settings of a list of names and values, in their order. *)
Fixpoint set_all (flags : list Flag) (settings : list (string * string)) (vars : S) : option S :=
  match settings with
  | [] => Some vars
  | (name, v) :: rest =>
      match lookup_flag flags name with
      | Some f => match fl_Set f v vars with Some vars' => set_all flags rest vars' | None => None end
      | None => None
      end
  end.

(** Arguments that assign known flags are all used, in their order. *)
Lemma Parse_assignments flags settings rest vars vars' : Forall (λ nv, name_ok nv.1 = true) settings →
  set_all flags settings vars = Some vars' →
  Parse flags (((λ nv, assign nv.1 nv.2) <$> settings) ++ rest) vars = Parse flags rest vars'.
Proof.
  intros Hok. revert vars. induction Hok as [|[n v] settings Hn _ IH]; intros vars Hset; simpl in *; [by simplify_eq|].
  rewrite read_assign by done. destruct (lookup_flag flags n) as [f|]; [|done].
  destruct (fl_Set f v vars) as [vars1|] eqn:Hs; [|done]. rewrite <- (IH vars1 Hset).
  change (default "true" (Some v)) with v. rewrite Hs. by destruct (fl_IsBool f).
Qed.

(** A flag and its value in two arguments. *)
Lemma Parse_pair flags name v rest vars f : name_ok name = true → lookup_flag flags name = Some f → fl_IsBool f = false →
  Parse flags (("--" +:+ name) :: v :: rest) vars = Parse flags (assign name v :: rest) vars.
Proof.
  intros Hn Hf Hb. simpl. rewrite read_assign by done.
  assert (read_argument ("--" +:+ name) = FlagArg name None) as ->.
  { destruct name as [|c name]; [done|].
    assert (cut (String c name) "=" = (String c name, None)) as Hc.
    { apply cut_none_id. destruct c as [[] [] [] [] [] [] [] []]; try done; by apply bool_decide_eq_true in Hn. }
    change ("--" +:+ String c name) with (String "-" (String "-" (String c name))). unfold read_argument. rewrite Hc.
    by destruct c as [[] [] [] [] [] [] [] []]. }
  rewrite Hf, Hb. done.
Qed.
End flags.
Arguments Flag : clear implicits.
Arguments parseResult : clear implicits.

(** ** Integers that are printed can be read back *)
Lemma ParseInt0_examples :
  ParseInt0 "50" = Some 50%Z ∧ ParseInt0 "-0x1f" = Some (-31)%Z ∧ ParseInt0 "1_000" = Some 1000%Z ∧ ParseInt0 "0b_11" = Some 3%Z ∧
  ParseInt0 "017" = Some 15%Z ∧ ParseInt0 "1__0" = None ∧ ParseInt0 "_1" = None ∧ ParseInt0 "0x" = None ∧ ParseInt0 "08" = None ∧
  ParseInt0 "9223372036854775808" = None ∧ ParseInt0 "-9223372036854775808" = Some int64_min.
Proof. by vm_compute. Qed.
