(* ===== verification/Chains.v ===== *)
(** * Chains of a partial function with finite support

    The parent pointers of the forest are a partial function on names.  This
    file is the theory of following such a function: the list it visits until it
    stops or meets an element again, which elements it reaches, when an element
    lies on a cycle, and what changing the value at one point does. *)

From S2P Require Import Prelude.

Lemma tc_mono {A} (R R' : relation A) x y : (∀ a b, R a b → R' a b) → tc R x y → tc R' x y.
Proof. intros Hsub Ht. induction Ht; [apply tc_once|eapply tc_l]; eauto. Qed.

Section chains.
  Context {A : Type} `{Countable A} (par : A → option A).
  Implicit Types (x y z : A) (l : list A).

(** One step up. *)
Definition up : relation A := λ x y, par x = Some y.

Lemma up_det x y z : up x y → up x z → y = z.
Proof. unfold up. congruence. Qed.

(** [chain l]: each element of [l] is followed by its parent. *)
Inductive chain : list A → Prop :=
  | chain_one x : chain [x]
  | chain_cons x y l : up x y → chain (y :: l) → chain (x :: y :: l).

(** The two ways a walk from the head of [l] ends. *)
Definition ends_at_root l : Prop := ∃ r, last l = Some r ∧ par r = None.
Definition ends_in_repeat l : Prop := ∃ l' z, l = l' ++ [z] ∧ NoDup l' ∧ z ∈ l'.

(** The complete walk from [x]: it stops at a root, or at the first repetition. *)
Definition full_walk x l : Prop :=
  head l = Some x ∧ chain l ∧ ((NoDup l ∧ ends_at_root l) ∨ ends_in_repeat l).

Lemma chain_inv x y l : chain (x :: y :: l) → up x y ∧ chain (y :: l).
Proof. inversion 1; auto. Qed.

Lemma chain_nonempty : ¬ chain [].
Proof. inversion 1. Qed.

Lemma chain_snoc l x y : chain (l ++ [x]) → up x y → chain (l ++ [x; y]).
Proof.
  induction l as [|a l IH]; simpl.
  - intros _ Hu. by repeat constructor.
  - destruct l as [|b l]; simpl in *.
    + intros [Hab _]%chain_inv Hu. by repeat constructor.
    + intros [Hab Hc]%chain_inv Hu. constructor; auto.
Qed.

Lemma chain_app_l l1 l2 : l1 ≠ [] → chain (l1 ++ l2) → chain l1.
Proof.
  induction l1 as [|x l1 IH]; [done|]. intros _. destruct l1 as [|y l1]; [constructor|].
  simpl. intros [Hu Hc]%chain_inv. constructor; [done|]. by apply IH.
Qed.

Lemma chain_app_r l1 l2 : l2 ≠ [] → chain (l1 ++ l2) → chain l2.
Proof.
  induction l1 as [|x l1 IH]; [done|]. intros Hne. destruct l1 as [|y l1]; simpl.
  - destruct l2; [done|]. by intros [_ Hc]%chain_inv.
  - intros [_ Hc]%chain_inv. by apply IH.
Qed.

Lemma chain_join l1 x y l2 : chain (l1 ++ [x]) → up x y → chain (y :: l2) → chain (l1 ++ x :: y :: l2).
Proof.
  induction l1 as [|a l1 IH]; simpl; [by constructor|].
  destruct l1 as [|b l1]; simpl in *.
  - intros [Ha _]%chain_inv Hu Hc. by repeat constructor.
  - intros [Ha Hc1]%chain_inv Hu Hc. constructor; auto.
Qed.

Lemma chain_mid l1 x y l2 : chain (l1 ++ x :: y :: l2) → up x y.
Proof. intros Hc. apply chain_app_r in Hc; [|done]. by apply chain_inv in Hc as [? _]. Qed.

Lemma chain_reach x l y : chain (x :: l) → y ∈ x :: l → rtc up x y.
Proof.
  revert x. induction l as [|z l IH]; intros x Hc [->|Hin]%elem_of_cons; try done.
  - by apply elem_of_nil in Hin.
  - apply chain_inv in Hc as [Hu Hc]. eapply rtc_l; eauto.
Qed.

Lemma chain_reach_last x l y : chain (x :: l ++ [y]) → tc up x y.
Proof.
  revert x. induction l as [|z l IH]; simpl; intros x [Hu Hc]%chain_inv.
  - by apply tc_once.
  - eapply tc_l; eauto.
Qed.

(** Two chains from the same element: one is a prefix of the other. *)
Lemma chain_det l1 l2 : chain l1 → chain l2 → head l1 = head l2 →
  length l1 ≤ length l2 → l1 `prefix_of` l2.
Proof.
  intros Hc1. revert l2. induction Hc1 as [x|x y l Hu Hc IH]; intros l2 Hc2 Hh Hlen.
  - destruct l2 as [|x' l2]; simplify_eq/=. by exists l2.
  - destruct l2 as [|x' [|y' l2]]; simplify_eq/=; [lia|].
    apply chain_inv in Hc2 as [Hu' Hc2]. pose proof (up_det _ _ _ Hu Hu') as <-.
    apply prefix_cons. apply IH; simpl; [done|done|lia].
Qed.

(** Everything reachable from the head of a closed chain is in the chain. *)
Lemma reach_closed l x y :
  (∀ a b, a ∈ l → up a b → b ∈ l) → x ∈ l → rtc up x y → y ∈ l.
Proof. intros Hcl Hx Hr. induction Hr; eauto. Qed.

Lemma chain_succ l a b : chain l → a ∈ l → up a b → b ∈ l ∨ last l = Some a.
Proof.
  intros Hc. induction Hc as [x|x y l Hu Hc IH]; intros Hin Hab.
  - apply list_elem_of_singleton in Hin as ->. by right.
  - apply elem_of_cons in Hin as [->|Hin].
    + left. rewrite (up_det _ _ _ Hab Hu). set_solver.
    + destruct (IH Hin Hab) as [Hb|Hb]; [left; set_solver|right; done].
Qed.

Lemma root_walk_closed l a b : chain l → ends_at_root l → a ∈ l → up a b → b ∈ l.
Proof.
  intros Hc (r & Hr & Hp) Ha Hab. destruct (chain_succ _ _ _ Hc Ha Hab) as [|Hl]; [done|].
  unfold up in Hab. congruence.
Qed.

Lemma repeat_walk_closed l z a b : chain (l ++ [z]) → z ∈ l → a ∈ l → up a b → b ∈ l.
Proof.
  intros Hc Hz Ha Hab.
  assert (Hcl : chain l) by (eapply chain_app_l; [|done]; by intros ->; apply elem_of_nil in Hz).
  destruct (chain_succ _ _ _ Hcl Ha Hab) as [|Hl]; [done|].
  apply last_Some in Hl as [l' ->].
  rewrite <- app_assoc in Hc. apply chain_mid in Hc. by rewrite (up_det _ _ _ Hab Hc).
Qed.

(** The elements of the complete walk are exactly what can be reached. *)
Lemma full_walk_elem x l y : full_walk x l → y ∈ l ↔ rtc up x y.
Proof.
  intros (Hh & Hc & Hend). destruct l as [|x' l]; simplify_eq/=.
  split; [by apply chain_reach|]. intros Hr. destruct Hend as [[_ Hend]|(l' & z & Hl & _ & Hz)].
  - eapply reach_closed; [|constructor|done]. intros a b. by apply root_walk_closed.
  - assert (y ∈ l') as Hy; [|rewrite Hl; set_solver].
    rewrite Hl in Hc. eapply reach_closed; [| |done].
    + intros a b. by apply (repeat_walk_closed _ z).
    + destruct l'; simplify_eq/=; [by apply elem_of_nil in Hz|set_solver].
Qed.

Lemma repeat_not_NoDup l : ends_in_repeat l → ¬ NoDup l.
Proof.
  intros (l' & z & -> & _ & Hz) Hnd. apply NoDup_app in Hnd as (_ & Hd & _).
  apply (Hd z Hz). by constructor.
Qed.

Lemma full_walk_no_prefix x l1 l2 :
  full_walk x l1 → full_walk x l2 → l1 `prefix_of` l2 → l1 = l2.
Proof.
  intros (_ & Hc1 & He1) (_ & Hc2 & He2) [k ->].
  destruct k as [|y k]; [by rewrite app_nil_r|exfalso].
  destruct He1 as [[_ (r & Hr & Hp)]|Hr1].
  - apply last_Some in Hr as [l' ->]. rewrite <- app_assoc in Hc2.
    apply chain_mid in Hc2. unfold up in Hc2. congruence.
  - destruct He2 as [[Hnd _]|(l' & z & Hl & Hnd & _)].
    + apply NoDup_app in Hnd as [Hnd _]. by eapply repeat_not_NoDup.
    + destruct (exists_last (l := y :: k)) as (k' & z' & Hk); [done|].
      rewrite Hk, app_assoc in Hl. apply app_inj_tail in Hl as [Hl _]. rewrite <- Hl in Hnd.
      apply NoDup_app in Hnd as [Hnd _]. by eapply repeat_not_NoDup.
Qed.

(** The complete walk is unique. *)
Lemma full_walk_unique x l1 l2 : full_walk x l1 → full_walk x l2 → l1 = l2.
Proof.
  intros H1 H2. pose proof H1 as (Hh1 & Hc1 & _). pose proof H2 as (Hh2 & Hc2 & _).
  destruct (decide (length l1 ≤ length l2)) as [Hle|Hgt].
  - apply (full_walk_no_prefix x); [done..|]. apply chain_det; [done..|congruence|done].
  - symmetry. apply (full_walk_no_prefix x); [done..|]. apply chain_det; [done..|congruence|lia].
Qed.

(** ** Cycles *)
Definition in_cycle x : Prop := tc up x x.

Lemma tc_up_inv x z : tc up x z → ∃ y, up x y ∧ rtc up y z.
Proof. intros Ht. destruct Ht; eauto using rtc_refl, tc_rtc. Qed.

(** Whatever a member of a cycle reaches, reaches it back. *)
Lemma in_cycle_back x y : in_cycle x → rtc up x y → rtc up y x.
Proof.
  intros Hx Hr. induction Hr as [x|x y z Hu Hr IH]; [done|].
  destruct (tc_up_inv _ _ Hx) as (y' & Hu' & Hyx). pose proof (up_det _ _ _ Hu Hu') as <-.
  assert (in_cycle y) as Hy.
  { unfold in_cycle. eapply tc_rtc_l; [exact Hyx|]. by apply tc_once. }
  etrans; [by apply IH|]. done.
Qed.

Lemma in_cycle_reach x y : in_cycle x → rtc up x y → in_cycle y.
Proof.
  intros Hx Hr. pose proof (in_cycle_back _ _ Hx Hr) as Hb.
  unfold in_cycle. eapply tc_rtc_l; [exact Hb|]. eapply tc_rtc_r; [exact Hx|done].
Qed.

Lemma in_cycle_has_parent x : in_cycle x → is_Some (par x).
Proof. intros (y & Hu & _)%tc_up_inv. by exists y. Qed.

(** An element is on a cycle iff its complete walk ends with itself. *)
Lemma full_walk_cycle x l : full_walk x l →
  in_cycle x ↔ ∃ l', l = x :: l' ++ [x].
Proof.
  intros Hw. pose proof Hw as (Hh & Hc & Hend). split.
  - intros Hcyc. destruct Hend as [[_ (r & Hr & Hp)]|(l' & z & -> & Hnd & Hz)].
    { exfalso. assert (rtc up x r) as Hxr.
      { eapply full_walk_elem; [done|]. by eapply last_Some_elem_of. }
      destruct (in_cycle_has_parent r) as [? ?]; [by eapply in_cycle_reach|congruence]. }
    destruct l' as [|x' l']; [by apply elem_of_nil in Hz|].
    simpl in Hh. injection Hh as ->. exists l'. destruct (decide (z = x)) as [->|Hne]; [done|exfalso].
    apply list_elem_of_split in Hz as (l1 & l2 & Hl).
    destruct l1 as [|x' l1]; [by simplify_eq/=|]. simpl in Hl. injection Hl as <- ->.
    simpl in Hc, Hnd. assert (rtc up x z) as Hxz.
    { eapply chain_reach; [exact Hc|]. set_solver. }
    assert (x ∈ z :: l2) as Hin; [|apply NoDup_cons in Hnd as [Hnd _]; set_solver].
    eapply reach_closed; [|by constructor|by apply in_cycle_back].
    intros a b. apply (repeat_walk_closed _ z); [|set_solver].
    apply (chain_app_r (x :: l1)); [done|]. simpl. by rewrite <- app_assoc in Hc.
  - intros [l' ->]. by eapply chain_reach_last.
Qed.

(** Off a cycle, the walk of an element is the element and the walk of its parent. *)
Lemma full_walk_cons x y l : ¬ in_cycle x → up x y → full_walk y l → full_walk x (x :: l).
Proof.
  intros Hn Hu Hw. pose proof Hw as (Hh & Hc & Hend). destruct l as [|y' l]; simplify_eq/=.
  assert (x ∉ y :: l) as Hx.
  { intros Hin%(full_walk_elem _ _ _ Hw). apply Hn. eapply tc_rtc_r; [by apply tc_once|done]. }
  split_and!; [done|by constructor|].
  destruct Hend as [[Hnd (r & Hr & Hp)]|(l' & z & Hl & Hnd & Hz)].
  - left. split; [by constructor|]. exists r. by destruct l.
  - right. exists (x :: l'), z. rewrite Hl. split_and!; [done| |by right].
    constructor; [|done]. rewrite Hl in Hx. set_solver.
Qed.

(** Without cycles, the walk of an ancestor is a suffix of the walk. *)
Lemma full_walk_suffix x y lx ly : (∀ z, ¬ in_cycle z) → rtc up x y → full_walk x lx → full_walk y ly → ly `suffix_of` lx.
Proof.
  intros Hac Hr. revert lx. induction Hr as [x|x z y Hu Hr IH]; intros lx Hx Hy.
  - by rewrite (full_walk_unique _ _ _ Hx Hy).
  - destruct lx as [|x' [|z' lx]].
    + by destruct Hx.
    + destruct Hx as (Hh & _ & [[_ (r & Hr' & Hp)]|(l' & w & Hl & _ & Hw')]); simplify_eq/=.
      * unfold up in Hu. congruence.
      * destruct l' as [|? [|]]; simplify_eq/=. by apply elem_of_nil in Hw'.
    + assert (full_walk z (z' :: lx)) as Hz.
      { destruct Hx as (Hh & Hc & Hend). simpl in Hh. injection Hh as ->.
        apply chain_inv in Hc as [Hu' Hc]. pose proof (up_det _ _ _ Hu Hu') as <-. split_and!; [done..|].
        destruct Hend as [[Hnd (r & Hr' & Hp)]|(l' & w & Hl & Hnd & Hw)].
        - left. apply NoDup_cons in Hnd as [_ Hnd]. split; [done|]. by exists r.
        - exfalso. destruct l' as [|x' l']; [by apply elem_of_nil in Hw|].
          simpl in Hl. injection Hl as <- Hl.
          assert (chain (x :: z :: lx)) as Hcx by (by constructor). rewrite Hl in Hcx.
          apply list_elem_of_split in Hw as (k1 & k2 & Hk).
          apply (Hac w). rewrite (app_comm_cons _ _ x), Hk, <- app_assoc in Hcx. simpl in Hcx.
          apply chain_app_r in Hcx; [|done]. by eapply chain_reach_last. }
      apply suffix_cons_r. by apply IH.
Qed.

(** An element is below at most one root. *)
Lemma root_unique x a b : rtc up x a → rtc up x b → par a = None → par b = None → a = b.
Proof.
  intros Ha. revert b. induction Ha as [x|x y a Hu Ha IH]; intros b Hb Hpa Hpb.
  - destruct Hb as [x|x y b Hu _]; [done|]. unfold up in Hu. congruence.
  - destruct Hb as [x|x y' b Hu' Hb]; [unfold up in Hu; congruence|].
    pose proof (up_det _ _ _ Hu Hu') as <-. by apply IH.
Qed.

(** What lies strictly above an element is the rest of its walk. *)
Lemma full_walk_tail x l y : full_walk x (x :: l) → y ∈ l ↔ tc up x y.
Proof.
  intros Hw. pose proof Hw as (_ & Hc & Hend). split.
  - intros Hy. destruct l as [|z l]; [by apply elem_of_nil in Hy|].
    apply chain_inv in Hc as [Hu Hc]. eapply tc_rtc_r; [by apply tc_once|]. by eapply chain_reach.
  - intros (z & Hu & Hr)%tc_up_inv. destruct l as [|z' l].
    + destruct Hend as [[_ (r & Hr' & Hp)]|(l' & w & Hl & _ & Hw')]; simplify_eq/=.
      * unfold up in Hu. congruence.
      * destruct l' as [|? [|]]; simplify_eq/=. by apply elem_of_nil in Hw'.
    + apply chain_inv in Hc as [Hu' Hc]. pose proof (up_det _ _ _ Hu Hu') as <-.
      assert (y ∈ x :: z :: l) as Hy.
      { apply (full_walk_elem _ _ _ Hw). by eapply rtc_l. }
      apply elem_of_cons in Hy as [->|Hy]; [|done].
      assert (in_cycle x) as Hcyc by (unfold in_cycle; eapply tc_rtc_r; [by apply tc_once|done]).
      apply (full_walk_cycle _ _ Hw) in Hcyc as [l' Hl]. injection Hl as Hl. rewrite Hl. set_solver.
Qed.

(** The complete walk of a member of a cycle, read from another member. *)
Lemma full_walk_rotate x y l1 l2 :
  full_walk x ((l1 ++ y :: l2) ++ [x]) → NoDup (l1 ++ y :: l2) → in_cycle x →
  full_walk y ((y :: l2 ++ l1) ++ [y]).
Proof.
  intros (Hh & Hc & _) Hnd Hcyc. split_and!; [done| |].
  - destruct l1 as [|x' l1]; simpl in Hh; injection Hh as ->.
    + by rewrite app_nil_r.
    + assert (chain ((x :: l1 ++ [y]) ++ l2 ++ [x])) as Hc1.
      { simpl in *. by rewrite <- !app_assoc in *. }
      apply chain_app_l in Hc1; [|done].
      destruct (exists_last (l := y :: l2)) as (k & w & Hk); [done|].
      rewrite (app_comm_cons _ _ y), Hk in *. rewrite <- !app_assoc in *. simpl in *.
      assert (chain (k ++ [w; x])) as Hc2.
      { apply (chain_app_r (x :: l1)); [by destruct k|]. done. }
      apply chain_join; [|by eapply chain_mid|done].
      eapply (chain_app_l (k ++ [w]) [x]); [by destruct k|]. by rewrite <- app_assoc.
  - right. exists (y :: l2 ++ l1), y. split_and!; [done| |by constructor].
    rewrite app_comm_cons. by rewrite Permutation_app_comm.
Qed.

(** ** Acyclic functions, and a change at one point *)
Definition acyclic : Prop := ∀ x, ¬ in_cycle x.
End chains.

Section change.
  Context {A : Type} `{Countable A} (par par' : A → option A) (x : A) (o : option A).
  Context (Hx : par' x = o) (Hother : ∀ y, y ≠ x → par' y = par y).

Lemma rtc_before_change y z : rtc (up par') y z → rtc (up par) y z ∨ rtc (up par) y x.
Proof.
  induction 1 as [y|y w z Hu Hr IH]; [by left|].
  destruct (decide (y = x)) as [->|Hne]; [by right|].
  unfold up in Hu. rewrite Hother in Hu by done.
  destruct IH; [left|right]; by eapply rtc_l.
Qed.

(** Reaching the changed point does not depend on its new value. *)
Lemma rtc_to_changed y : rtc (up par') y x ↔ rtc (up par) y x.
Proof.
  split; [by intros [|]%rtc_before_change|].
  induction 1 as [|y w z Hu Hr IH]; [done|].
  destruct (decide (y = z)) as [->|Hne]; [done|].
  eapply rtc_l; [|by apply IH]. unfold up. by rewrite Hother.
Qed.

(** After the change, every cycle either was there before or goes through [x]. *)
Lemma acyclic_change : acyclic par →
  (∀ p, o = Some p → ¬ rtc (up par) p x) → acyclic par'.
Proof.
  intros Hac Hp.
  assert (¬ in_cycle par' x) as Hnx.
  { intros (p & Hu & Hr)%tc_up_inv. unfold up in Hu. rewrite Hx in Hu.
    apply rtc_to_changed in Hr. by eapply Hp. }
  intros y Hy. apply (Hac y). unfold in_cycle in *.
  assert (∀ z, rtc (up par') y z → z ≠ x) as Hav.
  { intros z Hz ->. apply Hnx. by eapply in_cycle_reach. }
  assert (∀ a b, rtc (up par') y a → tc (up par') a b → tc (up par) a b) as Hgen; [|by apply Hgen].
  intros a b Ha Ht. induction Ht as [a b Hab|a b c Hab Ht IH].
  - apply tc_once. unfold up in *. rewrite <- Hother; [done|by apply Hav].
  - eapply tc_l; [|apply IH; by eapply rtc_r].
    unfold up in *. rewrite <- Hother; [done|by apply Hav].
Qed.

(** The new edge closes a cycle iff the new parent already reached [x]. *)
Lemma new_cycle_iff p : o = Some p → in_cycle par' x ↔ rtc (up par) p x.
Proof.
  intros Ho. rewrite <- rtc_to_changed. split.
  - intros (q & Hu & Hr)%tc_up_inv. unfold up in Hu. congruence.
  - intros Hr. unfold in_cycle. eapply tc_rtc_r; [|exact Hr]. apply tc_once. unfold up. congruence.
Qed.
End change.
