(* ===== verification/Validation.v ===== *)
(** * Name and label validation (k8s.io/apimachinery, util/validation) and field errors

    The predicates of the vendored validation package that the controller calls,
    on byte strings.  An error list holds one fixed text per violated rule; the
    examples that the library appends to the texts are left out.  Field errors are
    those of the [field] package: a path, the rejected value and a detail. *)

From stdpp Require Import pretty.
From Stdlib Require Import Ascii String.
From S2P Require Import Prelude GoStrings.

Definition in_range (lo hi c : ascii) : bool :=
  (nat_of_ascii lo <=? nat_of_ascii c) && (nat_of_ascii c <=? nat_of_ascii hi).

Definition lower_alnum (c : ascii) : bool := in_range "a" "z" c || in_range "0" "9" c.
Definition alnum (c : ascii) : bool := lower_alnum c || in_range "A" "Z" c.

(** [edge(inner*edge)?]: starts and ends with [edge], [inner] in between. *)
Definition framed (edge inner : ascii → bool) (s : string) : bool :=
  match list_ascii_of_string s with
  | [] => false
  | c :: cs => edge c && forallb inner cs && (match last cs with None => true | Some d => edge d end)
  end.

Definition dns_inner (c : ascii) : bool := lower_alnum c || bool_decide (c = "-"%char).
Definition qualified_inner (c : ascii) : bool :=
  alnum c || bool_decide (c = "-"%char) || bool_decide (c = "_"%char) || bool_decide (c = "."%char).

Definition tooLong (n : nat) : string := "must be no more than " +:+ Itoa n +:+ " characters".
Definition dns1123LabelErrMsg : string :=
  "a lowercase RFC 1123 label must consist of lower case alphanumeric characters or '-', and must start and end with an alphanumeric character".
Definition dns1123SubdomainErrorMsg : string :=
  "a lowercase RFC 1123 subdomain must consist of lower case alphanumeric characters, '-' or '.', and must start and end with an alphanumeric character".
Definition qualifiedNameErrMsg : string :=
  "must consist of alphanumeric characters, '-', '_' or '.', and must start and end with an alphanumeric character".
Definition labelValueErrMsg : string :=
  "a valid label must be an empty string or consist of alphanumeric characters, '-', '_' or '.', and must start and end with an alphanumeric character".

Definition err_if (b : bool) (msg : string) : list string := if b then [msg] else [].

Definition IsDNS1123Label (v : string) : list string :=
  err_if (63 <? String.length v) (tooLong 63) ++ err_if (negb (framed lower_alnum dns_inner v)) dns1123LabelErrMsg.

Definition IsDNS1123Subdomain (v : string) : list string :=
  err_if (253 <? String.length v) (tooLong 253) ++
  err_if (negb (forallb (framed lower_alnum dns_inner) (Split v "."))) dns1123SubdomainErrorMsg.

Definition IsQualifiedName (v : string) : list string :=
  let check_name name :=
    (if bool_decide (name = "") then ["name part must be non-empty"]
     else err_if (63 <? String.length name) ("name part " +:+ tooLong 63)) ++
    err_if (negb (framed alnum qualified_inner name)) ("name part " +:+ qualifiedNameErrMsg) in
  match Split v "/" with
  | [name] => check_name name
  | [prefix; name] =>
      (if bool_decide (prefix = "") then ["prefix part must be non-empty"]
       else (λ m, "prefix part " +:+ m) <$> IsDNS1123Subdomain prefix) ++ check_name name
  | _ => ["a qualified name " +:+ qualifiedNameErrMsg +:+ " with an optional DNS subdomain prefix and '/'"]
  end.

Definition IsValidLabelValue (v : string) : list string :=
  err_if (63 <? String.length v) (tooLong 63) ++
  err_if (negb (bool_decide (v = "") || framed alnum qualified_inner v)) labelValueErrMsg.

(** ** Field errors *)
Inductive ErrorType := ErrInvalid | ErrForbidden | ErrRequired | ErrDuplicate.
#[export] Instance ErrorType_eq_dec : EqDecision ErrorType.
Proof. solve_decision. Defined.

Record fieldError := mkFieldError {
  fe_Type : ErrorType;
  fe_Field : string;
  fe_BadValue : string;
  fe_Detail : string
}.
#[export] Instance fieldError_eq_dec : EqDecision fieldError.
Proof. solve_decision. Defined.

Definition Invalid (path value detail : string) : fieldError := mkFieldError ErrInvalid path value detail.
Definition Duplicate (path value : string) : fieldError := mkFieldError ErrDuplicate path value "".

(** ** Facts *)
Lemma err_if_nil b msg : err_if b msg = [] ↔ b = false.
Proof. by destruct b. Qed.

Lemma IsDNS1123Label_nonempty v : IsDNS1123Label v = [] → v ≠ "".
Proof. intros Hv ->. done. Qed.

(** A DNS label has none of the characters that separate or negate selectors. *)
Lemma framed_chars edge inner s c : framed edge inner s = true → (∀ d, edge d = true → inner d = true) →
  c ∈ list_ascii_of_string s → inner c = true.
Proof.
  unfold framed. destruct (list_ascii_of_string s) as [|d cs]; [done|]. intros [[He Hi]%andb_true_iff _]%andb_true_iff Hsub.
  intros [->|Hc]%elem_of_cons; [auto|]. rewrite forallb_forall in Hi. by apply Hi, list_elem_of_In.
Qed.

Lemma IsDNS1123Label_chars v c : IsDNS1123Label v = [] → c ∈ list_ascii_of_string v → dns_inner c = true.
Proof.
  unfold IsDNS1123Label. intros [_ Hf]%app_nil Hc. apply err_if_nil, negb_false_iff in Hf.
  eapply framed_chars; [exact Hf| |done]. intros d Hd. unfold dns_inner. by rewrite Hd.
Qed.

(** A text without a character is not cut at it. *)
Lemma cut_absent s sep : sep ∉ list_ascii_of_string s → (cut s sep).2 = None.
Proof.
  induction s as [|c s IH]; simpl; [done|]. intros Hn. rewrite decide_False by set_solver.
  destruct (cut s sep) as [a b]. simpl in *. apply IH. set_solver.
Qed.

(** The decimal digits of a number are a label value, if there are at most 63 of them. *)
Definition is_digit (c : ascii) : bool := in_range "0" "9" c.

Lemma pretty_digit (x : N) : (x < 10)%N → is_digit (pretty_N_char x) = true.
Proof.
  intros Hx. assert (x ∈ [0;1;2;3;4;5;6;7;8;9])%N as Hin by (rewrite !elem_of_cons; lia).
  rewrite !elem_of_cons, elem_of_nil in Hin. destruct_or?; by subst.
Qed.

Lemma pretty_go_digits (k : nat) (x : N) s : (x < 10 ^ N.of_nat k)%N →
  ∃ t, pretty_N_go x s = t +:+ s ∧ String.length t ≤ k ∧ forallb is_digit (list_ascii_of_string t) = true.
Proof.
  revert k s. induction (N.lt_wf_0 x) as [x _ IH]; intros k s Hk.
  destruct (decide (x = 0)%N) as [->|Hx]; [exists ""; rewrite pretty_N_go_0; split_and!; [done|simpl; lia|done]|].
  destruct k as [|k]; [simpl in Hk; lia|]. rewrite pretty_N_go_step by lia.
  destruct (IH (x `div` 10)%N ltac:(apply N.div_lt; lia) k (String (pretty_N_char (x `mod` 10)) s)) as (t & -> & Hl & Ht).
  { apply N.Div0.div_lt_upper_bound. rewrite Nat2N.inj_succ, N.pow_succ_r' in Hk. lia. }
  exists (t +:+ String (pretty_N_char (x `mod` 10)) ""). split_and!.
  - by rewrite string_app_assoc.
  - rewrite string_length_app. simpl. lia.
  - assert (list_ascii_of_string (t +:+ String (pretty_N_char (x `mod` 10)) "") = list_ascii_of_string t ++ [pretty_N_char (x `mod` 10)]) as ->.
    { clear. induction t as [|c t IH]; simpl; [done|]. by f_equal. }
    rewrite forallb_app, Ht. simpl. by rewrite pretty_digit by (apply N.mod_lt; lia).
Qed.

Lemma digit_label c : is_digit c = true → alnum c = true ∧ qualified_inner c = true.
Proof.
  intros Hc. assert (alnum c = true) as Ha by (unfold alnum, lower_alnum; unfold is_digit in Hc; by rewrite Hc, orb_true_r).
  split; [done|]. unfold qualified_inner. by rewrite Ha.
Qed.

Lemma digits_framed s : s ≠ "" → forallb is_digit (list_ascii_of_string s) = true → framed alnum qualified_inner s = true.
Proof.
  unfold framed. destruct s as [|c s]; [done|]. intros _. cbn [list_ascii_of_string forallb]. rewrite andb_true_iff. intros [Hc Hs].
  rewrite (proj1 (digit_label c Hc)). rewrite forallb_forall in Hs.
  assert (forallb qualified_inner (list_ascii_of_string s) = true) as ->.
  { apply forallb_forall. intros d Hd. by apply digit_label, Hs. }
  simpl. destruct (last (list_ascii_of_string s)) as [d|] eqn:Hl; [|done]. apply digit_label, Hs.
  apply list_elem_of_In. by eapply last_Some_elem_of.
Qed.

Lemma Itoa_label_value n : (N.of_nat n < 10 ^ 63)%N → IsValidLabelValue (Itoa n) = [].
Proof.
  intros Hn. destruct (digits_Itoa n) as [_ Hne]. unfold Itoa, pretty, pretty_N in *. case_decide as Hz; [done|].
  destruct (pretty_go_digits 63 (N.of_nat n) "") as (t & Heq & Hl & Ht); [done|]. rewrite Heq in *. rewrite string_app_nil_r in *.
  unfold IsValidLabelValue. rewrite digits_framed, orb_true_r by done. simpl. rewrite app_nil_r. apply err_if_nil, Nat.ltb_ge. lia.
Qed.
