(* ===== verification/Api.v ===== *)
(** * API types and constants (api/v1alpha2) and the Kubernetes metadata they embed

    The custom resources of HNC as records with the fields the controller reads
    or writes, the string constants of the API, and the Kubernetes types
    ([ObjectMeta], [Condition], group/version/kind triples) they are built from.
    A timestamp is [None] for Go's zero time. *)

From S2P Require Import Prelude.

(** ** Constants *)
Definition Singleton : string := "hierarchy".
Definition HierarchyConfigurations : string := "hierarchyconfigurations".

Definition MetaGroup : string := "hnc.x-k8s.io".
Definition LabelInheritedFrom : string := MetaGroup +:+ "/inherited-from".
Definition FinalizerHasSubnamespace : string := MetaGroup +:+ "/hasSubnamespace".
Definition LabelTreeDepthSuffix : string := ".tree." +:+ MetaGroup +:+ "/depth".
Definition AnnotationManagedBy : string := MetaGroup +:+ "/managed-by".
Definition AnnotationPropagatePrefix : string := "propagate." +:+ MetaGroup.
Definition AnnotationSelector : string := AnnotationPropagatePrefix +:+ "/select".
Definition AnnotationTreeSelector : string := AnnotationPropagatePrefix +:+ "/treeSelect".
Definition AnnotationNoneSelector : string := AnnotationPropagatePrefix +:+ "/none".
Definition AnnotationAllSelector : string := AnnotationPropagatePrefix +:+ "/all".
Definition LabelManagedByApps : string := "app.kubernetes.io/managed-by".
Definition LabelIncludedNamespace : string := MetaGroup +:+ "/included-namespace".
Definition SubnamespaceOf : string := MetaGroup +:+ "/subnamespace-of".
Definition Anchors : string := "subnamespaceanchors".

Definition ConditionActivitiesHalted : string := "ActivitiesHalted".
Definition ConditionBadConfiguration : string := "BadConfiguration".
Definition ReasonAncestor : string := "AncestorHaltActivities".
Definition ReasonAnchorMissing : string := "SubnamespaceAnchorMissing".
Definition ReasonDeletingCRD : string := "DeletingCRD".
Definition ReasonIllegalManagedAnnotation : string := "IllegalManagedAnnotation".
Definition ReasonIllegalManagedLabel : string := "IllegalManagedLabel".
Definition ReasonIllegalParent : string := "IllegalParent".
Definition ReasonInCycle : string := "InCycle".
Definition ReasonParentMissing : string := "ParentMissing".

(** [type SynchronizationMode string] and its four documented values. *)
Abbreviation SynchronizationMode := string (only parsing).
Definition Propagate : SynchronizationMode := "Propagate".
Definition Ignore : SynchronizationMode := "Ignore".
Definition Remove : SynchronizationMode := "Remove".
Definition AllowPropagate : SynchronizationMode := "AllowPropagate".

(** [type SubnamespaceAnchorState string]. *)
Abbreviation SubnamespaceAnchorState := string (only parsing).
Definition Missing : SubnamespaceAnchorState := "Missing".
Definition Ok : SubnamespaceAnchorState := "Ok".
Definition Conflict : SubnamespaceAnchorState := "Conflict".
Definition Forbidden : SubnamespaceAnchorState := "Forbidden".

(** ** Kubernetes identifiers *)
Record GroupVersionKind := mkGVK { Group : string; Version : string; Kind : string }.
#[export] Instance GroupVersionKind_eq_dec : EqDecision GroupVersionKind.
Proof. solve_decision. Defined.
#[export] Instance GroupVersionKind_countable : Countable GroupVersionKind.
Proof.
  refine (inj_countable' (λ g, (Group g, Version g, Kind g))
            (λ t, mkGVK t.1.1 t.1.2 t.2) _). by intros [].
Defined.

Record NamespacedName := mkNN { nn_namespace : string; nn_name : string }.
#[export] Instance NamespacedName_eq_dec : EqDecision NamespacedName.
Proof. solve_decision. Defined.
#[export] Instance NamespacedName_countable : Countable NamespacedName.
Proof.
  refine (inj_countable' (λ n, (nn_namespace n, nn_name n)) (λ t, mkNN t.1 t.2) _).
  by intros [].
Defined.

Record UserInfo := { ui_Username : string; ui_UID : string; ui_Groups : list string; ui_Extra : gmap string (list string) }.

(** ** Object metadata *)
Record ObjectMeta := mkMeta {
  om_Name : string;
  om_Namespace : string;
  om_Labels : gomap string string;
  om_Annotations : gomap string string;
  om_Finalizers : list string;
  om_CreationTimestamp : option Z;
  om_DeletionTimestamp : option Z;
  om_ResourceVersion : string
}.
#[export] Instance ObjectMeta_eq_dec : EqDecision ObjectMeta.
Proof. solve_decision. Defined.

(** The metadata of Go's zero object. *)
Definition blankMeta : ObjectMeta := mkMeta "" "" None None [] None None "".

Definition meta_named (nm : string) : ObjectMeta := mkMeta nm "" None None [] None None "".

Definition set_om_Labels (l : gomap string string) (m : ObjectMeta) : ObjectMeta :=
  mkMeta (om_Name m) (om_Namespace m) l (om_Annotations m) (om_Finalizers m)
    (om_CreationTimestamp m) (om_DeletionTimestamp m) (om_ResourceVersion m).
Definition set_om_Annotations (a : gomap string string) (m : ObjectMeta) : ObjectMeta :=
  mkMeta (om_Name m) (om_Namespace m) (om_Labels m) a (om_Finalizers m)
    (om_CreationTimestamp m) (om_DeletionTimestamp m) (om_ResourceVersion m).
Definition set_om_Finalizers (fs : list string) (m : ObjectMeta) : ObjectMeta :=
  mkMeta (om_Name m) (om_Namespace m) (om_Labels m) (om_Annotations m) fs
    (om_CreationTimestamp m) (om_DeletionTimestamp m) (om_ResourceVersion m).
Definition set_om_NamespacedName (ns nm : string) (m : ObjectMeta) : ObjectMeta :=
  mkMeta nm ns (om_Labels m) (om_Annotations m) (om_Finalizers m)
    (om_CreationTimestamp m) (om_DeletionTimestamp m) (om_ResourceVersion m).

(** [Time.IsZero] on a timestamp (or on a nil deletion timestamp). *)
Definition IsZero (t : option Z) : bool := bool_decide (t = None).

(** controllerutil: finalizers are a list of strings without repetition. *)
Definition ContainsFinalizer (m : ObjectMeta) (f : string) : bool :=
  bool_decide (f ∈ om_Finalizers m).
Definition RemoveFinalizer (m : ObjectMeta) (f : string) : ObjectMeta :=
  set_om_Finalizers (filter (λ g, g ≠ f) (om_Finalizers m)) m.
Definition AddFinalizer (m : ObjectMeta) (f : string) : ObjectMeta :=
  if ContainsFinalizer m f then m else set_om_Finalizers (om_Finalizers m ++ [f]) m.

(** internal/metadata/metav1.go, on the metadata of the object. *)
Definition GetLabel (m : ObjectMeta) (k : string) : option string := items (om_Labels m) !! k.
Definition SetLabel (m : ObjectMeta) (k v : string) : ObjectMeta :=
  set_om_Labels (Some (<[k:=v]> (items (om_Labels m)))) m.
Definition GetAnnotation (m : ObjectMeta) (k : string) : option string :=
  items (om_Annotations m) !! k.
Definition SetAnnotation (m : ObjectMeta) (k v : string) : ObjectMeta :=
  set_om_Annotations (Some (<[k:=v]> (items (om_Annotations m)))) m.

(** ** Conditions *)
Record Condition := mkCondition {
  c_Type : string;
  c_Status : string;
  c_LastTransitionTime : option Z;
  c_Reason : string;
  c_Message : string
}.
#[export] Instance Condition_eq_dec : EqDecision Condition.
Proof. solve_decision. Defined.

Definition ConditionTrue : string := "True".

(** ** The custom resources *)
Record MetaKVP := { kvp_Key : string; kvp_Value : string }.
#[export] Instance MetaKVP_eq_dec : EqDecision MetaKVP.
Proof. solve_decision. Defined.

Record HierarchyConfigurationSpec := {
  hcs_Parent : string;
  hcs_AllowCascadingDeletion : bool;
  hcs_Labels : list MetaKVP;
  hcs_Annotations : list MetaKVP
}.
#[export] Instance HierarchyConfigurationSpec_eq_dec : EqDecision HierarchyConfigurationSpec.
Proof. solve_decision. Defined.

Record HierarchyConfigurationStatus := {
  hct_Children : list string;
  hct_Conditions : list Condition
}.
#[export] Instance HierarchyConfigurationStatus_eq_dec : EqDecision HierarchyConfigurationStatus.
Proof. solve_decision. Defined.

Record HierarchyConfiguration := {
  hc_Meta : ObjectMeta;
  hc_Spec : HierarchyConfigurationSpec;
  hc_Status : HierarchyConfigurationStatus
}.
#[export] Instance HierarchyConfiguration_eq_dec : EqDecision HierarchyConfiguration.
Proof. solve_decision. Defined.

Definition blankHC : HierarchyConfiguration :=
  {| hc_Meta := blankMeta;
     hc_Spec := {| hcs_Parent := ""; hcs_AllowCascadingDeletion := false;
                   hcs_Labels := []; hcs_Annotations := [] |};
     hc_Status := {| hct_Children := []; hct_Conditions := [] |} |}.

Record SubnamespaceAnchor := {
  sa_Meta : ObjectMeta;
  sa_Labels : list MetaKVP;
  sa_Annotations : list MetaKVP;
  sa_State : SubnamespaceAnchorState
}.
#[export] Instance SubnamespaceAnchor_eq_dec : EqDecision SubnamespaceAnchor.
Proof. solve_decision. Defined.

(** corev1.Namespace: only its metadata matters to the controller. *)
Record K8sNamespace := { kn_Meta : ObjectMeta }.
#[export] Instance K8sNamespace_eq_dec : EqDecision K8sNamespace.
Proof. solve_decision. Defined.

(** ** Unstructured objects

    [unstructured.Unstructured] is a JSON document; the controller reads its
    metadata, its top-level [type] field, and compares whole documents.  A
    top-level field is a string or any other JSON value in serialised form. *)
Inductive jval :=
  | JString (s : string)
  | JOther (raw : string).
#[export] Instance jval_eq_dec : EqDecision jval.
Proof. solve_decision. Defined.

Record Unstructured := mkObj {
  u_GVK : GroupVersionKind;
  u_Meta : ObjectMeta;
  u_Status : option jval;
  u_Content : gmap string jval
}.
#[export] Instance Unstructured_eq_dec : EqDecision Unstructured.
Proof. solve_decision. Defined.

Definition set_u_Meta (m : ObjectMeta) (o : Unstructured) : Unstructured :=
  mkObj (u_GVK o) m (u_Status o) (u_Content o).

(** ** Facts *)
Lemma ContainsFinalizer_Remove m f : ContainsFinalizer (RemoveFinalizer m f) f = false.
Proof.
  unfold ContainsFinalizer, RemoveFinalizer. simpl.
  rewrite bool_decide_eq_false, list_elem_of_filter. naive_solver.
Qed.

Lemma ContainsFinalizer_Add m f : ContainsFinalizer (AddFinalizer m f) f = true.
Proof.
  unfold AddFinalizer. destruct (ContainsFinalizer m f) eqn:E; [done|].
  unfold ContainsFinalizer. simpl. rewrite bool_decide_eq_true, elem_of_app, list_elem_of_singleton. auto.
Qed.

Lemma GetLabel_SetLabel m k v : GetLabel (SetLabel m k v) k = Some v.
Proof. unfold GetLabel, SetLabel. simpl. by rewrite lookup_insert_eq. Qed.

Lemma GetAnnotation_SetAnnotation m k v : GetAnnotation (SetAnnotation m k v) k = Some v.
Proof. unfold GetAnnotation, SetAnnotation. simpl. by rewrite lookup_insert_eq. Qed.

#[export] Hint Rewrite ContainsFinalizer_Remove ContainsFinalizer_Add
  GetLabel_SetLabel GetAnnotation_SetAnnotation : hnc.
