(* ===== verification/Config.v ===== *)
(** * Configuration of the manager (internal/config) and webhook answers (internal/webhooks)

    The command-line configuration that the reconcilers and the validators
    consult, as a record, and the answers of the admission webhooks.  Regular
    expressions are an interface: the package only compiles and matches them. *)

From S2P Require Import Prelude GoStrings Validation Api.

(** Go's [regexp]: compilation fails with a message, or gives a matcher. *)
Class RegexpLib := {
  Regexp : Type;
  Compile : string → string + Regexp;
  MatchString : Regexp → string → bool
}.

Record NoPropagationLabel := { npl_Key : string; npl_Value : string }.

Record Config `{RegexpLib} := mkConfig {
  excludedNamespaces : gset string;
  includedNamespacesRegex : option Regexp;
  includedNamespacesStr : string;
  managedLabels : list Regexp;
  managedAnnotations : list Regexp;
  hncNamespace : string;
  UnpropagatedAnnotations : list string;
  UnpropagatedLabels : list string;
  NoPropagationLabels : list NoPropagationLabel
}.

Section config.
  Context `{RX : RegexpLib}.

(** Everything unset: excluded set empty, no regexes. *)
Definition zeroConfig : Config := mkConfig RX ∅ None "" [] [] "" [] [] [].

Definition SetHNCNamespace (ns : string) (c : Config) : Config :=
  mkConfig RX (excludedNamespaces c) (includedNamespacesRegex c) (includedNamespacesStr c)
    (managedLabels c) (managedAnnotations c) ns (UnpropagatedAnnotations c) (UnpropagatedLabels c)
    (NoPropagationLabels c).

(** [regexp.MustCompile] panics on an illegal pattern. *)
Definition SetNamespaces (regex : string) (excluded : list string) (c : Config) : outcome Config :=
  let regex := if decide (regex = "") then ".*" else regex in
  let str := "^" +:+ regex +:+ "$" in
  match Compile str with
  | inl _ => Panics
  | inr rx =>
      Done (mkConfig RX (list_to_set excluded) (Some rx) str (managedLabels c) (managedAnnotations c)
        (hncNamespace c) (UnpropagatedAnnotations c) (UnpropagatedLabels c) (NoPropagationLabels c))
  end.

Definition WhyUnmanaged (c : Config) (nm : string) : string :=
  if decide (nm = "") then ""
  else if decide (nm ∈ excludedNamespaces c) then "excluded by the HNC administrator"
  else match includedNamespacesRegex c with
       | None => ""
       | Some rx =>
           if MatchString rx nm then ""
           else "does not match the regex set by the HNC administrator: `" +:+ includedNamespacesStr c +:+ "`"
       end.

Definition IsManagedNamespace (c : Config) (nm : string) : bool := bool_decide (WhyUnmanaged c nm = "").

(** The regexes compiled so far, and the error that stopped the loop. *)
Fixpoint setManagedMeta (patterns : list string) (opt : string) (acc : list Regexp) : list Regexp * option string :=
  match patterns with
  | [] => (acc, None)
  | p :: ps =>
      match Compile ("^" +:+ p +:+ "$") with
      | inl err => (acc, Some ("illegal value for " +:+ opt +:+ " " +:+ quoted p +:+ ": " +:+ err))
      | inr r =>
          if MatchString r MetaGroup then
            (acc, Some ("illegal value for " +:+ opt +:+ " " +:+ quoted p +:+
                        ": cannot specify a pattern that matches " +:+ quoted MetaGroup))
          else setManagedMeta ps opt (acc ++ [r])
      end
  end.

Definition set_managed (ls an : list Regexp) (c : Config) : Config :=
  mkConfig RX (excludedNamespaces c) (includedNamespacesRegex c) (includedNamespacesStr c) ls an
    (hncNamespace c) (UnpropagatedAnnotations c) (UnpropagatedLabels c) (NoPropagationLabels c).

Definition SetManagedMeta (labels annots : list string) (c : Config) : option string * Config :=
  let '(ls, err) := setManagedMeta labels "--managed-namespace-label" [] in
  let c := set_managed ls (managedAnnotations c) c in
  match err with
  | Some e => (Some e, c)
  | None =>
      let '(an, err) := setManagedMeta annots "--managed-namespace-annotation" [] in
      (err, set_managed (managedLabels c) an c)
  end.

Definition IsManagedLabel (c : Config) (k : string) : bool := existsb (λ rx, MatchString rx k) (managedLabels c).
Definition IsManagedAnnotation (c : Config) (k : string) : bool := existsb (λ rx, MatchString rx k) (managedAnnotations c).
Definition GetHNCNamespace (c : Config) : string := hncNamespace c.

(** ** validator.go *)
Definition validateMetaKey (k path : string) : option fieldError :=
  match IsQualifiedName k with
  | [] => None
  | errs => Some (Invalid path k (Join errs "; "))
  end.

Definition validateLabelValue (k v path : string) : option fieldError :=
  match IsValidLabelValue v with
  | [] => None
  | errs => Some (Invalid (path +:+ "[" +:+ k +:+ "]") v (Join errs "; "))
  end.

Definition ValidateManagedLabels (c : Config) (labels : list MetaKVP) : list fieldError :=
  let fldPath := "spec.labels" in
  l ← labels;
  match validateMetaKey (kvp_Key l) fldPath with
  | Some e => [e]
  | None => if IsManagedLabel c (kvp_Key l) then []
            else [Invalid fldPath (kvp_Key l) "not a managed label and cannot be configured"]
  end ++
  match validateLabelValue (kvp_Key l) (kvp_Value l) fldPath with Some e => [e] | None => [] end.

Definition ValidateManagedAnnotations (c : Config) (annotations : list MetaKVP) : list fieldError :=
  let fldPath := "spec.annotations" in
  a ← annotations;
  match validateMetaKey (kvp_Key a) fldPath with
  | Some e => [e]
  | None => if IsManagedAnnotation c (kvp_Key a) then []
            else [Invalid fldPath (kvp_Key a) "not a managed annotation and cannot be configured"]
  end.

(** ** internal/webhooks *)
Definition IsHNCServiceAccount (c : Config) (user : option UserInfo) : bool :=
  match user with
  | None => false
  | Some u => existsb (λ g, bool_decide (g = "system:serviceaccounts:" +:+ GetHNCNamespace c)) (ui_Groups u)
  end.
End config.

(** k8s.io/api/admission/v1: the operation of an admission request. *)
Inductive Operation := Create | Update | Delete | Connect.
#[export] Instance Operation_eq_dec : EqDecision Operation.
Proof. solve_decision. Defined.

(** The answers of the webhooks, one constructor per function that builds one. *)
Inductive Response :=
  | Allow (msg : string)
  | DenyBadRequest (err : string)
  | DenyConflict (resource name err : string)
  | DenyForbidden (resource name err : string)
  | DenyInternalError (err : string)
  | DenyInvalid (kind name : string) (errs : list fieldError)
  | DenyServiceUnavailable (reason : string)
  | DenyUnauthorized (reason : string).
#[export] Instance Response_eq_dec : EqDecision Response.
Proof. solve_decision. Defined.

Definition Allowed (r : Response) : bool := match r with Allow _ => true | _ => false end.

Definition Code (r : Response) : Z :=
  match r with
  | Allow _ => 0
  | DenyBadRequest _ => 400
  | DenyConflict _ _ _ => 409
  | DenyForbidden _ _ _ => 403
  | DenyInternalError _ => 500
  | DenyInvalid _ _ _ => 422
  | DenyServiceUnavailable _ => 503
  | DenyUnauthorized _ => 401
  end%Z.

(** ** Facts *)
Section facts.
  Context `{RX : RegexpLib}.

Lemma IsManagedNamespace_spec c nm : IsManagedNamespace c nm = true ↔
  nm = "" ∨ nm ∉ excludedNamespaces c ∧ (∀ rx, includedNamespacesRegex c = Some rx → MatchString rx nm = true).
Proof.
  unfold IsManagedNamespace, WhyUnmanaged. rewrite bool_decide_eq_true.
  destruct (decide (nm = "")) as [|Hne]; [tauto|].
  destruct (decide (nm ∈ excludedNamespaces c)) as [Hin|Hin]; [split; [done|]; by intros [|[]]|].
  destruct (includedNamespacesRegex c) as [rx|]; [|by split; [right|]].
  destruct (MatchString rx nm) eqn:Hm; (split; [intros Hs|]).
  - right. split; [done|]. by intros ? [= <-].
  - done.
  - done.
  - intros [|[_ Hall]]; [done|]. by rewrite (Hall rx) in Hm.
Qed.

Lemma setManagedMeta_spec patterns opt acc rs :
  setManagedMeta patterns opt acc = (rs, None) → (∀ r, r ∈ acc → MatchString r MetaGroup = false) →
  (∀ r, r ∈ rs → MatchString r MetaGroup = false) ∧
  ∃ rs', rs = acc ++ rs' ∧ Forall2 (λ p r, Compile ("^" +:+ p +:+ "$") = inr r) patterns rs'.
Proof.
  revert acc. induction patterns as [|p ps IH]; intros acc; simpl.
  - intros [= <-] Hacc. split; [done|]. exists []. by rewrite app_nil_r.
  - destruct (Compile _) as [|r] eqn:Hc; [done|]. destruct (MatchString r MetaGroup) eqn:Hm; [done|].
    intros Hs Hacc. apply IH in Hs as (Hall & rs' & -> & HF).
    + split; [done|]. exists (r :: rs'). rewrite <- app_assoc. split; [done|]. by constructor.
    + intros x [?|Hx%list_elem_of_singleton]%elem_of_app; [auto|by subst].
Qed.

Lemma ValidateManagedLabels_nil c labels : ValidateManagedLabels c labels = [] ↔
  ∀ l, l ∈ labels → IsQualifiedName (kvp_Key l) = [] ∧ IsManagedLabel c (kvp_Key l) = true ∧ IsValidLabelValue (kvp_Value l) = [].
Proof.
  unfold ValidateManagedLabels. rewrite bind_nil. apply forall_proper. intros l. apply imp_iff. intros _.
  rewrite app_nil. unfold validateMetaKey, validateLabelValue.
  destruct (IsQualifiedName (kvp_Key l)), (IsManagedLabel c (kvp_Key l)), (IsValidLabelValue (kvp_Value l)); intuition congruence.
Qed.

Lemma ValidateManagedAnnotations_nil c annots : ValidateManagedAnnotations c annots = [] ↔
  ∀ a, a ∈ annots → IsQualifiedName (kvp_Key a) = [] ∧ IsManagedAnnotation c (kvp_Key a) = true.
Proof.
  unfold ValidateManagedAnnotations. rewrite bind_nil. apply forall_proper. intros l. apply imp_iff. intros _.
  unfold validateMetaKey.
  destruct (IsQualifiedName (kvp_Key l)), (IsManagedAnnotation c (kvp_Key l)); intuition congruence.
Qed.
End facts.
