(* ===== verification/Selectors.v ===== *)
(** * Propagation exceptions (internal/selectors)

    The annotations on an object that decide whether it is propagated.  Label
    selectors are parsed and matched by the Kubernetes label library, which is an
    interface here; tree selectors are rewritten into label selectors first. *)

From Stdlib Require Import Ascii String.
From S2P Require Import Prelude GoStrings Validation Api Config.

(** [metav1.ParseToLabelSelector] followed by [LabelSelectorAsSelector]. *)
Class SelectorLib := {
  Selector : Type;
  getSelectorFromString : string → string + Selector;
  Empty : Selector → bool;
  Matches : Selector → gmap string string → bool
}.

Section selectors.
  Context `{RX : RegexpLib} `{SL : SelectorLib} (cfg : Config).

(** [annot[key]] on the annotations of an object. *)
Definition annotation (inst : Unstructured) (k : string) : string := sget (items (om_Annotations (u_Meta inst))) k.

Definition GetSelectorAnnotation inst := annotation inst AnnotationSelector.
Definition GetTreeSelectorAnnotation inst := annotation inst AnnotationTreeSelector.
Definition GetNoneSelectorAnnotation inst := annotation inst AnnotationNoneSelector.
Definition GetAllSelectorAnnotation inst := annotation inst AnnotationAllSelector.

(** Indexing [seg[0]] panics on the empty string. *)
Definition validateTreeSelectorSegment (seg : string) : E unit :=
  let seg := TrimSpace seg in
  match seg with
  | EmptyString => crash
  | String c rest =>
      let ns := if decide (c = "!"%char) then rest else seg in
      match IsDNS1123Label ns with
      | [] => mret tt
      | errs => fail (quoted ns +:+ " is not a valid namespace name: " +:+ Join errs "; ")
      end
  end.

Definition negated (seg : string) : bool :=
  match seg with String c _ => bool_decide (c = "!"%char) | EmptyString => false end.

(** The loop of [GetTreeSelector] over the segments left. *)
Fixpoint tree_segments (segs : list string) (selectorStr : string) (nonNegatedNses : list string)
    : E (string * list string) :=
  match segs with
  | [] => mret (selectorStr, nonNegatedNses)
  | seg :: segs' =>
      let seg := TrimSpace seg in
      validateTreeSelectorSegment seg ≫= λ _,
      let nonNegatedNses := if negated seg then nonNegatedNses else nonNegatedNses ++ [seg] in
      let selectorStr := selectorStr +:+ seg +:+ LabelTreeDepthSuffix in
      let selectorStr := match segs' with [] => selectorStr | _ => selectorStr +:+ ", " end in
      tree_segments segs' selectorStr nonNegatedNses
  end.

Definition GetTreeSelector (inst : Unstructured) : E (option Selector) :=
  let treeSelectorStr := GetTreeSelectorAnnotation inst in
  if decide (treeSelectorStr = "") then mret None
  else
    '(selectorStr, nonNegatedNses) ← tree_segments (Split treeSelectorStr ",") "" [];
    match getSelectorFromString selectorStr with
    | inl err => fail ("internal error while parsing " +:+ quoted AnnotationTreeSelector +:+ ": " +:+ err)
    | inr treeSelector =>
        if decide (1 < length nonNegatedNses) then
          fail ("should only have one non-negated namespace, but got multiple: [" +:+ Join nonNegatedNses " " +:+ "]")
        else mret (Some treeSelector)
    end.

Definition GetSelector (inst : Unstructured) : E (option Selector) :=
  match getSelectorFromString (GetSelectorAnnotation inst) with
  | inl err => fail ("while parsing " +:+ quoted AnnotationSelector +:+ ": " +:+ err)
  | inr s => mret (Some s)
  end.

Definition parseErr (s : string) : string :=
  "strconv.ParseBool: parsing " +:+ quoted s +:+ ": invalid syntax".

Definition GetNoneSelector (inst : Unstructured) : E bool :=
  let s := GetNoneSelectorAnnotation inst in
  if decide (s = "") then mret false
  else match ParseBool s with
       | Some b => mret b
       | None => fail ("invalid " +:+ AnnotationNoneSelector +:+ " value: " +:+ parseErr s)
       end.

Definition GetAllSelector (inst : Unstructured) : E bool :=
  let s := GetAllSelectorAnnotation inst in
  if decide (s = "") then mret false
  else match ParseBool s with
       | Some b => mret b
       | None => fail ("invalid " +:+ AnnotationAllSelector +:+ " value: " +:+ parseErr s)
       end.

Definition cmExclusionsByName : list string := ["istio-ca-root-cert"; "kube-root-ca.crt"].
Definition exclusionByAnnotations : list (string * string) := [("openshift.io/description", "")].
Definition scExclusionsByType : list string := ["helm.sh/release.v1"].

Definition isExcluded (inst : Unstructured) : bool :=
  let name := om_Name (u_Meta inst) in
  let kind := Kind (u_GVK inst) in
  let group := Group (u_GVK inst) in
  existsb (λ t, bool_decide (group = "" ∧ kind = "Secret" ∧ u_Content inst !! "type" = Some (JString t))) scExclusionsByType ||
  existsb (λ n, bool_decide (group = "" ∧ kind = "ConfigMap" ∧ name = n)) cmExclusionsByName ||
  existsb (λ res, bool_decide (GetLabel (u_Meta inst) (npl_Key res) = Some (npl_Value res))) (NoPropagationLabels cfg) ||
  existsb (λ '(k, v), match GetAnnotation (u_Meta inst) k with
                      | Some got => bool_decide (got = v) || bool_decide (v = "")
                      | None => false
                      end) exclusionByAnnotations.

(** [sel != nil && !sel.Empty()]: the selector restricts the propagation. *)
Definition restricts (sel : option Selector) : option Selector :=
  match sel with Some s => if Empty s then None else Some s | None => None end.

Definition ShouldPropagate (inst : Unstructured) (nsLabels : gmap string string) (mode : SynchronizationMode) : E bool :=
  let propIfNotExcluded := bool_decide (mode = Propagate) in
  sel ← GetSelector inst;
  match restricts sel with
  | Some s => if Matches s nsLabels then mret (true, true) else mret (false, true)
  | None => mret (true, propIfNotExcluded)
  end ≫= λ '(go, propIfNotExcluded),
  if go : bool then
    sel ← GetTreeSelector inst;
    match restricts sel with
    | Some s => if Matches s nsLabels then mret (true, true) else mret (false, true)
    | None => mret (true, propIfNotExcluded)
    end ≫= λ '(go, propIfNotExcluded),
    if go : bool then
      none ← GetNoneSelector inst;
      if none : bool then mret false
      else
        all ← GetAllSelector inst;
        let propIfNotExcluded := if all : bool then true else propIfNotExcluded in
        if isExcluded inst then mret false else mret propIfNotExcluded
    else mret false
  else mret false.
End selectors.

(** ** Facts *)
Section facts.
  Context `{RX : RegexpLib} `{SL : SelectorLib} (cfg : Config).

Definition segment_ok (seg : string) : Prop := validateTreeSelectorSegment (TrimSpace seg) = mret tt.

(** The selector string is the segments, suffixed and comma-separated. *)
Lemma tree_segments_ok segs str non : (∀ seg, seg ∈ segs → segment_ok seg) →
  tree_segments segs str non =
  Done (inr (str +:+ Join ((λ seg, TrimSpace seg +:+ LabelTreeDepthSuffix) <$> segs) ", ",
             non ++ filter (λ seg, negated seg = false) (TrimSpace <$> segs))).
Proof.
  revert str non. induction segs as [|seg segs IH]; intros str non Hok.
  { simpl. by rewrite string_app_nil_r, app_nil_r. }
  cbn [tree_segments]. assert (segment_ok seg) as Hseg by (apply Hok; by left). unfold segment_ok in Hseg.
  rewrite Hseg. cbn [mbind E_bind mret E_ret]. rewrite IH by (intros; apply Hok; by right).
  do 3 f_equal.
  - destruct segs as [|seg' segs]; simpl.
    + by rewrite string_app_nil_r.
    + by rewrite !string_app_assoc.
  - rewrite !fmap_cons, filter_cons. destruct (negated (TrimSpace seg)); simpl; [done|]. by rewrite <- app_assoc.
Qed.

(** A blank segment makes the reconciler or the webhook panic. *)
Lemma tree_segments_blank pre seg post str non : (∀ s, s ∈ pre → segment_ok s) → TrimSpace seg = "" →
  tree_segments (pre ++ seg :: post) str non = Panics.
Proof.
  intros Hok Hblank. revert str non. induction pre as [|s pre IH]; intros str non; cbn [tree_segments app].
  - by rewrite Hblank.
  - assert (segment_ok s) as Hs by (apply Hok; by left). unfold segment_ok in Hs. rewrite Hs.
    cbn [mbind E_bind mret E_ret]. apply IH. intros; apply Hok; by right.
Qed.

Lemma GetTreeSelector_blank inst pre seg post :
  GetTreeSelectorAnnotation inst ≠ "" → Split (GetTreeSelectorAnnotation inst) "," = pre ++ seg :: post →
  (∀ s, s ∈ pre → segment_ok s) → TrimSpace seg = "" → GetTreeSelector inst = Panics.
Proof.
  intros Hne Hs Hok Hb. unfold GetTreeSelector. rewrite decide_False by done.
  rewrite Hs, (tree_segments_blank pre seg post) by done. done.
Qed.

(** What the four annotations say once they are parsed. *)
Definition selects (sel : option Selector) (ls : gmap string string) : bool :=
  match restricts sel with Some s => Matches s ls | None => true end.

Definition decision (inst : Unstructured) (ls : gmap string string) (mode : SynchronizationMode)
    (sel tree : option Selector) (none all : bool) : bool :=
  selects sel ls && selects tree ls && negb none && negb (isExcluded cfg inst) &&
  (bool_decide (mode = Propagate) || bool_decide (is_Some (restricts sel)) ||
   bool_decide (is_Some (restricts tree)) || all).

Lemma ShouldPropagate_decision inst ls mode sel tree none all :
  GetSelector inst = mret sel → GetTreeSelector inst = mret tree →
  GetNoneSelector inst = mret none → GetAllSelector inst = mret all →
  ShouldPropagate cfg inst ls mode = mret (decision inst ls mode sel tree none all).
Proof.
  intros Hs Ht Hn Ha. unfold ShouldPropagate, decision, selects. rewrite Hs. cbn [mbind E_bind mret E_ret].
  destruct (restricts sel) as [s|]; [destruct (Matches s ls); [|done]|]; cbn [mbind E_bind mret E_ret]; rewrite Ht;
    cbn [mbind E_bind mret E_ret];
    (destruct (restricts tree) as [t|]; [destruct (Matches t ls); [|done]|]); cbn [mbind E_bind mret E_ret]; rewrite Hn;
    cbn [mbind E_bind mret E_ret]; (destruct none; [done|]); rewrite Ha; cbn [mbind E_bind mret E_ret];
    destruct (isExcluded cfg inst), all, (bool_decide (mode = Propagate)); done.
Qed.
End facts.

(** ** The meaning of tree selectors

    What [GetTreeSelector] relies on in the label library: a comma-separated list
    of label keys, each negated or not, parses to the selector that requires each
    key to be present, or absent. *)
Definition requirement (neg : bool) (k : string) : string := if neg then "!" +:+ k else k.

Class SelectorLaws `{SelectorLib} := {
  parse_presence (rs : list (bool * string)) : rs ≠ [] →
    (∀ r, r ∈ rs → IsQualifiedName r.2 = []) →
    ∃ s, getSelectorFromString (Join ((λ r, requirement r.1 r.2) <$> rs) ", ") = inr s ∧ Empty s = false ∧
      ∀ ls, Matches s ls = true ↔ ∀ neg k, (neg, k) ∈ rs → if (neg : bool) then ls !! k = None else is_Some (ls !! k)
}.

Section tree.
  Context `{RX : RegexpLib} `{SL : SelectorLib} `{LW : !SelectorLaws}.

Lemma Split_app (a s : string) sep : sep ∉ list_ascii_of_string a →
  ∃ w ws, Split s sep = w :: ws ∧ Split (a +:+ s) sep = (a +:+ w) :: ws.
Proof.
  assert (∃ w ws, Split s sep = w :: ws) as (w & ws & Hs).
  { destruct s as [|c s]; simpl; [eauto|]. destruct (decide (c = sep)); [eauto|]. destruct (Split s sep); eauto. }
  intros Ha. exists w, ws. split; [done|]. induction a as [|c a IH]; [done|].
  simpl in Ha. apply not_elem_of_cons in Ha as [Hc Ha]. rewrite string_app_cons. simpl.
  rewrite decide_False by done. by rewrite IH.
Qed.

(** The key of the tree label of a namespace is a legal label key. *)
Lemma tree_key_qualified nm : IsDNS1123Label nm = [] → IsQualifiedName (nm +:+ LabelTreeDepthSuffix) = [].
Proof.
  intros Hnm. assert (∀ c, c ∈ list_ascii_of_string nm → dns_inner c = true) as Hin.
  { intros c. by apply IsDNS1123Label_chars. }
  destruct (Split_app nm LabelTreeDepthSuffix "/") as (w & ws & Hw & Hsp).
  { by intros Hc%Hin. }
  vm_compute in Hw. injection Hw as <- <-. unfold IsQualifiedName. rewrite Hsp.
  rewrite bool_decide_eq_false_2 by (destruct nm; done). rewrite app_nil. split; [|by vm_compute].
  unfold IsDNS1123Subdomain.
  destruct (Split_app nm ".tree.hnc.x-k8s.io" ".") as (w & ws & Hw & Hsp').
  { by intros Hc%Hin. }
  vm_compute in Hw. injection Hw as <- <-. rewrite Hsp', string_app_nil_r.
  unfold IsDNS1123Label in Hnm. apply app_nil in Hnm as [Hlen Hf]. apply err_if_nil in Hlen, Hf.
  apply negb_false_iff in Hf. apply Nat.ltb_ge in Hlen.
  cbn [forallb]. rewrite Hf. vm_compute (forallb _ _). simpl negb. rewrite app_nil_r.
  assert (String.length (nm +:+ ".tree.hnc.x-k8s.io") = String.length nm + 18) as Hl.
  { clear. induction nm as [|c nm IH]; [done|]. rewrite string_app_cons. simpl. by rewrite IH. }
  unfold err_if. rewrite Hl. destruct (Nat.ltb_spec 253 (String.length nm + 18)); [lia|done].
Qed.

(** The requirement a segment stands for: negated or not, and the namespace. *)
Definition seg_req (seg : string) : bool * string :=
  match seg with
  | String c rest => if decide (c = "!"%char) then (true, rest) else (false, seg)
  | EmptyString => (false, seg)
  end.

Lemma validate_seg seg : segment_ok seg →
  IsDNS1123Label (seg_req (TrimSpace seg)).2 = [] ∧
  TrimSpace seg +:+ LabelTreeDepthSuffix =
    requirement (seg_req (TrimSpace seg)).1 ((seg_req (TrimSpace seg)).2 +:+ LabelTreeDepthSuffix).
Proof.
  unfold segment_ok, validateTreeSelectorSegment. rewrite TrimSpace_idemp.
  destruct (TrimSpace seg) as [|c rest]; [done|]. simpl. destruct (decide (c = "!"%char)) as [->|]; simpl.
  - destruct (IsDNS1123Label rest); [|done]. intros _. split; [done|]. unfold requirement.
    by rewrite !string_app_cons.
  - by destruct (IsDNS1123Label (String c rest)).
Qed.

(** A tree selector with legal segments selects the namespaces that carry the
    tree label of its positive segment and of none of its negated ones. *)
Lemma GetTreeSelector_meaning inst segs :
  GetTreeSelectorAnnotation inst ≠ "" → Split (GetTreeSelectorAnnotation inst) "," = segs →
  (∀ seg, seg ∈ segs → segment_ok seg) →
  length (filter (λ seg, negated seg = false) (TrimSpace <$> segs)) ≤ 1 →
  ∃ s, GetTreeSelector inst = mret (Some s) ∧ Empty s = false ∧
    ∀ ls, Matches s ls = true ↔ ∀ seg, seg ∈ segs →
      let '(neg, nm) := seg_req (TrimSpace seg) in
      if (neg : bool) then ls !! (nm +:+ LabelTreeDepthSuffix) = None
      else is_Some (ls !! (nm +:+ LabelTreeDepthSuffix)).
Proof.
  intros Hne Hsp Hok Hnon. unfold GetTreeSelector. rewrite decide_False by done.
  rewrite Hsp, (tree_segments_ok segs "" [] Hok). cbn [mbind E_bind mret E_ret].
  set (req := λ seg, ((seg_req (TrimSpace seg)).1, (seg_req (TrimSpace seg)).2 +:+ LabelTreeDepthSuffix)).
  assert ((λ seg, TrimSpace seg +:+ LabelTreeDepthSuffix) <$> segs = (λ r, requirement r.1 r.2) <$> (req <$> segs)) as Hstr.
  { rewrite <- list_fmap_compose. apply list_fmap_ext. intros i seg Hseg%list_elem_of_lookup_2. simpl.
    by apply validate_seg, Hok. }
  assert (segs ≠ []) as Hsne.
  { rewrite <- Hsp. destruct (GetTreeSelectorAnnotation inst) as [|c t]; [done|]. simpl.
    destruct (decide _); [done|]. by destruct (Split t ","). }
  destruct (parse_presence (req <$> segs)) as (s & Hs & He & Hm).
  { by destruct segs. }
  { intros r (seg & -> & Hseg)%list_elem_of_fmap. simpl. by apply tree_key_qualified, validate_seg, Hok. }
  rewrite string_app_nil_l, Hstr, Hs. rewrite decide_False by (simpl; lia). exists s. split_and!; [done..|].
  intros ls. rewrite Hm. split.
  - intros Hall seg Hseg. specialize (Hall (req seg).1 (req seg).2). unfold req in Hall. simpl in Hall.
    destruct (seg_req (TrimSpace seg)) as [neg nm] eqn:Hr. apply Hall. apply list_elem_of_fmap.
    exists seg. by rewrite Hr.
  - intros Hall neg k (seg & Heq & Hseg)%list_elem_of_fmap. specialize (Hall seg Hseg). unfold req in Heq.
    destruct (seg_req (TrimSpace seg)) as [neg' nm]. simpl in Heq. by simplify_eq.
Qed.
End tree.
