(* ===== verification/Resources.v ===== *)
(** * Resource lists (internal/hrq/utils/resources.go)

    A [v1.ResourceList] maps resource names to quantities.  A
    [resource.Quantity] is an exact decimal number with at most nine fractional
    digits, whose [Add], [Sub], [Neg] and [Cmp] never round (they leave the
    int64 representation for an unbounded decimal on overflow): it is an integer
    number of nano-units here.  [AsApproximateFloat64] rounds, but a nonzero
    quantity of at least one nano-unit keeps its sign.

    The map value itself can be nil, which reads as empty. *)

From S2P Require Import Prelude.

Abbreviation ResourceName := string (only parsing).
Abbreviation Quantity := Z (only parsing).
Abbreviation ResourceList := (gomap string Z).

(** [v1.ResourceList{}] *)
Definition emptyRL : ResourceList := Some ∅.

Section ops.
  Context `{RO : RangeOrder}.
  Implicit Types a b : ResourceList.

(** The loop over [a] stops at the first key missing from [b] or different there. *)
Definition Equals a b : bool :=
  if decide (size (items a) = size (items b)) then
    forallb (λ '(key, value1),
      match items b !! key with
      | None => false
      | Some value2 => bool_decide ((value1 ?= value2)%Z = Eq)
      end) (range (items a))
  else false.

Definition LessThanOrEqual a b : bool * list ResourceName :=
  fold_left (λ '(result, resourceNames) '(key, value),
    match items a !! key with
    | Some other =>
        if bool_decide (value < other)%Z then (false, resourceNames ++ [key])
        else (result, resourceNames)
    | None => (result, resourceNames)
    end) (range (items b)) (true, []).

Definition AddIfExists a b : ResourceList :=
  Some (map_imap (λ key value,
    match items b !! key with Some other => Some (value + other)%Z | None => None end) (items a)).

Definition Add a b : ResourceList :=
  let result := map_imap (λ key value,
    match items b !! key with Some other => Some (value + other)%Z | None => Some value end) (items a) in
  Some (result ∪ items b).

Definition Subtract a b : ResourceList :=
  let result := map_imap (λ key value,
    match items b !! key with Some other => Some (value - other)%Z | None => Some value end) (items a) in
  Some (result ∪ (Z.opp <$> items b)).

Definition OmitLTEZero a : ResourceList := filter (λ '(_, q), q ≠ 0 ∧ ¬ (q ≤ 0))%Z <$> a.

Definition Min a b : ResourceList :=
  let result := map_imap (λ key value,
    match items b !! key with
    | Some other => if bool_decide (other < value)%Z then Some other else Some value
    | None => Some value
    end) (items a) in
  Some (result ∪ items b).

Definition resourceNames (resources : ResourceList) : list ResourceName :=
  keys_of (items resources).

Definition toSet (names : list ResourceName) : gset string := list_to_set names.

Definition mask (resources : ResourceList) (names : list ResourceName) : ResourceList :=
  let nameSet := toSet names in
  Some (map_imap (λ key value, if decide (key ∈ nameSet) then Some value else None)
          (items resources)).

Definition FilterUnlimited (rawUsages limits : ResourceList) : ResourceList :=
  mask rawUsages (resourceNames limits).
End ops.

(** ** Lookup specifications *)

(** The amount of a resource; an untracked resource counts as zero. *)
Definition qty (rl : ResourceList) (r : ResourceName) : Z := default 0%Z (items rl !! r).

Section facts.
  Context `{RO : RangeOrder}.
  Implicit Types a b : ResourceList.

Lemma lookup_Add a b r :
  items (Add a b) !! r =
    match items a !! r, items b !! r with
    | Some x, Some y => Some (x + y)%Z
    | Some x, None => Some x
    | None, o => o
    end.
Proof.
  unfold Add. simpl. rewrite lookup_union, map_lookup_imap.
  destruct (items a !! r), (items b !! r); done.
Qed.

Lemma lookup_AddIfExists a b r :
  items (AddIfExists a b) !! r =
    match items a !! r, items b !! r with
    | Some x, Some y => Some (x + y)%Z
    | _, _ => None
    end.
Proof.
  unfold AddIfExists. simpl. rewrite map_lookup_imap.
  destruct (items a !! r), (items b !! r); done.
Qed.

Lemma lookup_Subtract a b r :
  items (Subtract a b) !! r =
    match items a !! r, items b !! r with
    | Some x, Some y => Some (x - y)%Z
    | Some x, None => Some x
    | None, Some y => Some (- y)%Z
    | None, None => None
    end.
Proof.
  unfold Subtract. simpl. rewrite lookup_union, map_lookup_imap, lookup_fmap.
  destruct (items a !! r), (items b !! r); done.
Qed.

Lemma lookup_Min a b r :
  items (Min a b) !! r =
    match items a !! r, items b !! r with
    | Some x, Some y => Some (x `min` y)%Z
    | Some x, None => Some x
    | None, o => o
    end.
Proof.
  unfold Min. simpl. rewrite lookup_union, map_lookup_imap.
  destruct (items a !! r) as [x|], (items b !! r) as [y|]; simpl; try done.
  case_bool_decide; cbn; [rewrite Z.min_r by lia|rewrite Z.min_l by lia]; done.
Qed.

Lemma lookup_OmitLTEZero a r :
  items (OmitLTEZero a) !! r =
    match items a !! r with
    | Some q => if bool_decide (0 < q)%Z then Some q else None
    | None => None
    end.
Proof.
  unfold OmitLTEZero. destruct a as [m|]; simpl; [|by rewrite lookup_empty].
  rewrite map_lookup_filter. destruct (m !! r) as [q|]; simpl; [|done].
  case_bool_decide; case_guard; simpl; try done; exfalso; lia.
Qed.

Lemma lookup_FilterUnlimited a b r :
  items (FilterUnlimited a b) !! r =
    if decide (is_Some (items b !! r)) then items a !! r else None.
Proof.
  unfold FilterUnlimited, mask, toSet, resourceNames. simpl. rewrite map_lookup_imap.
  destruct (items a !! r) as [q|]; simpl; [|by case_decide].
  assert (r ∈ (list_to_set (keys_of (items b)) : gset string) ↔ is_Some (items b !! r)) as Hiff.
  { rewrite elem_of_list_to_set. apply elem_of_keys. }
  destruct (decide (r ∈ _)), (decide (is_Some _)); tauto.
Qed.

(** [Equals] decides equality of the contents. *)
Lemma Equals_spec a b : Equals a b = true ↔ items a = items b.
Proof.
  unfold Equals. split.
  - case_decide as Hsz; [|done]. rewrite forallb_forall. intros Hall.
    apply map_subseteq_size_eq; [|lia]. apply map_subseteq_spec. intros r x Hx.
    apply elem_of_range, list_elem_of_In, Hall in Hx.
    destruct (items b !! r) as [y|]; [|done].
    apply bool_decide_eq_true, Z.compare_eq_iff in Hx. by subst.
  - intros ->. rewrite decide_True by done. rewrite forallb_forall. intros [r x] Hin.
    apply list_elem_of_In, elem_of_range in Hin. rewrite Hin.
    apply bool_decide_eq_true, Z.compare_refl.
Qed.

Lemma Equals_false a b : Equals a b = false ↔ items a ≠ items b.
Proof. rewrite <- not_true_iff_false, Equals_spec. done. Qed.

(** One entry of the second list is within the usage of the first. *)
Definition within a (kv : string * Z) : bool :=
  match items a !! kv.1 with
  | Some other => negb (bool_decide (kv.2 < other)%Z)
  | None => true
  end.

Lemma LessThanOrEqual_go a (l : list (string * Z)) res nms :
  fold_left (λ '(result, resourceNames) '(key, value),
    match items a !! key with
    | Some other =>
        if bool_decide (value < other)%Z then (false, resourceNames ++ [key])
        else (result, resourceNames)
    | None => (result, resourceNames)
    end) l (res, nms) =
  (res && forallb (within a) l, nms ++ (List.filter (negb ∘ within a) l).*1).
Proof.
  revert res nms. induction l as [|[key value] l IH]; intros res nms; simpl.
  { by rewrite andb_true_r, app_nil_r. }
  unfold within at 1 3. simpl. destruct (items a !! key) as [other|]; [|apply IH].
  case_bool_decide; simpl; rewrite IH; [|done].
  by rewrite andb_false_r, <- app_assoc.
Qed.

Lemma within_spec a r y :
  within a (r, y) = true ↔ ∀ x, items a !! r = Some x → (x ≤ y)%Z.
Proof.
  unfold within. simpl. destruct (items a !! r) as [x|]; [|naive_solver].
  rewrite negb_true_iff, bool_decide_eq_false. split; [intros ? ? [= <-]; lia|].
  intros H. specialize (H _ eq_refl). lia.
Qed.

(** The first result of [LessThanOrEqual]: no resource of [a] is above its limit in [b]. *)
Lemma LessThanOrEqual_true a b :
  (LessThanOrEqual a b).1 = true ↔
  ∀ r x y, items a !! r = Some x → items b !! r = Some y → (x ≤ y)%Z.
Proof.
  unfold LessThanOrEqual. rewrite LessThanOrEqual_go. simpl. rewrite forallb_forall. split.
  - intros Hall r x y Hx Hy. apply elem_of_range, list_elem_of_In, Hall in Hy.
    by eapply within_spec.
  - intros Hle [r y] Hin. apply list_elem_of_In, elem_of_range in Hin.
    apply within_spec. eauto.
Qed.

(** Its second result: exactly the resources of [a] above their limit in [b]. *)
Lemma LessThanOrEqual_names a b r :
  r ∈ (LessThanOrEqual a b).2 ↔
  ∃ x y, items a !! r = Some x ∧ items b !! r = Some y ∧ (y < x)%Z.
Proof.
  unfold LessThanOrEqual. rewrite LessThanOrEqual_go. simpl. rewrite list_elem_of_fmap. split.
  - intros ([k y] & -> & Hin). apply list_elem_of_In, filter_In in Hin as [Hin Hw].
    apply list_elem_of_In, elem_of_range in Hin. simpl in *. unfold within in Hw. simpl in Hw.
    destruct (items a !! k) as [x|] eqn:Hx; [|done]. rewrite negb_involutive in Hw.
    apply bool_decide_eq_true in Hw. by exists x, y.
  - intros (x & y & Hx & Hy & Hlt). exists (r, y). split; [done|].
    apply list_elem_of_In, filter_In. split; [by apply list_elem_of_In, elem_of_range|].
    apply negb_true_iff, not_true_iff_false. rewrite within_spec. intros Hle.
    specialize (Hle _ Hx). lia.
Qed.

Lemma qty_Add a b r : qty (Add a b) r = (qty a r + qty b r)%Z.
Proof.
  unfold qty. rewrite lookup_Add.
  destruct (items a !! r), (items b !! r); simpl; lia.
Qed.

Lemma qty_Subtract a b r : qty (Subtract a b) r = (qty a r - qty b r)%Z.
Proof.
  unfold qty. rewrite lookup_Subtract.
  destruct (items a !! r), (items b !! r); simpl; lia.
Qed.

Lemma qty_FilterUnlimited a b r :
  qty (FilterUnlimited a b) r = if decide (is_Some (items b !! r)) then qty a r else 0%Z.
Proof. unfold qty. rewrite lookup_FilterUnlimited. by case_decide. Qed.

Lemma items_FilterUnlimited_ext a a' b :
  items a = items a' → FilterUnlimited a b = FilterUnlimited a' b.
Proof. unfold FilterUnlimited, mask. by intros ->. Qed.
End facts.

#[export] Hint Rewrite @lookup_Add @lookup_AddIfExists @lookup_Subtract @lookup_Min
  @lookup_OmitLTEZero @lookup_FilterUnlimited @qty_Add @qty_Subtract @qty_FilterUnlimited : hnc.
