(* ===== verification/Forest.v ===== *)
(** * The in-memory forest: data and operations (package internal/forest)

    The forest maps namespace names to pointers; the Namespace objects live in a
    heap of their own, because a Go pointer keeps its object alive after
    [clean] has removed the name from the map.  A nil pointer is [None].  Methods
    whose receiver may be nil take an [option loc], the others a [loc].

    [Forest.Get] allocates an object for an unknown name.  The methods of this
    package call it only on names found by following pointers inside the forest
    (ancestors and children), which are present in every well-formed forest
    (file ForestWf), so these internal calls are the read [ns_at], which is the
    object [Get] returns. *)

From S2P Require Import Prelude GoStrings Api Resources.

(** ** Data *)
Definition loc := positive.

Record usage := { u_local : ResourceList; u_subtree : ResourceList }.
Record quotas := { q_limits : gomap string ResourceList; q_used : usage }.

Record Namespace := mkNamespace {
  ns_name : string;
  ns_parent : option loc;
  ns_children : gmap string loc;
  ns_exists : bool;
  ns_allowCascadingDeletion : bool;
  ns_labels : gomap string string;
  ns_ManagedLabels : gomap string string;
  ns_ManagedAnnotations : gomap string string;
  ns_sourceObjects : gmap GroupVersionKind (gmap string Unstructured);
  ns_conditions : list Condition;
  ns_IsSub : bool;
  ns_Anchors : list string;
  ns_Manager : string;
  ns_quotas : quotas
}.

(** An object reconciler as the forest sees it (the [TypeSyncer] interface). *)
Record TypeSyncer := {
  ts_GVK : GroupVersionKind;
  ts_Mode : SynchronizationMode;
  ts_propagatedObjects : gset NamespacedName
}.

(** The reconcilers that subscribe to namespace changes. *)
Inductive NamespaceListener :=
  | AnchorListener
  | ObjectListener (gvk : GroupVersionKind)
  | ResourceQuotaListener
  | HRQListener.

Record Forest := mkForest {
  f_namespaces : gmap string loc;
  f_heap : gmap loc Namespace;
  f_next : loc;
  f_types : list TypeSyncer;
  f_listeners : list NamespaceListener
}.

(** ** Field updates *)
Definition set_parent p (n : Namespace) : Namespace :=
  mkNamespace (ns_name n) p (ns_children n) (ns_exists n) (ns_allowCascadingDeletion n)
    (ns_labels n) (ns_ManagedLabels n) (ns_ManagedAnnotations n) (ns_sourceObjects n)
    (ns_conditions n) (ns_IsSub n) (ns_Anchors n) (ns_Manager n) (ns_quotas n).
Definition set_children c (n : Namespace) : Namespace :=
  mkNamespace (ns_name n) (ns_parent n) c (ns_exists n) (ns_allowCascadingDeletion n)
    (ns_labels n) (ns_ManagedLabels n) (ns_ManagedAnnotations n) (ns_sourceObjects n)
    (ns_conditions n) (ns_IsSub n) (ns_Anchors n) (ns_Manager n) (ns_quotas n).
Definition set_exists b (n : Namespace) : Namespace :=
  mkNamespace (ns_name n) (ns_parent n) (ns_children n) b (ns_allowCascadingDeletion n)
    (ns_labels n) (ns_ManagedLabels n) (ns_ManagedAnnotations n) (ns_sourceObjects n)
    (ns_conditions n) (ns_IsSub n) (ns_Anchors n) (ns_Manager n) (ns_quotas n).
Definition set_acd b (n : Namespace) : Namespace :=
  mkNamespace (ns_name n) (ns_parent n) (ns_children n) (ns_exists n) b
    (ns_labels n) (ns_ManagedLabels n) (ns_ManagedAnnotations n) (ns_sourceObjects n)
    (ns_conditions n) (ns_IsSub n) (ns_Anchors n) (ns_Manager n) (ns_quotas n).
Definition set_labels ls (n : Namespace) : Namespace :=
  mkNamespace (ns_name n) (ns_parent n) (ns_children n) (ns_exists n) (ns_allowCascadingDeletion n)
    ls (ns_ManagedLabels n) (ns_ManagedAnnotations n) (ns_sourceObjects n)
    (ns_conditions n) (ns_IsSub n) (ns_Anchors n) (ns_Manager n) (ns_quotas n).
Definition set_managedLabels ls (n : Namespace) : Namespace :=
  mkNamespace (ns_name n) (ns_parent n) (ns_children n) (ns_exists n) (ns_allowCascadingDeletion n)
    (ns_labels n) ls (ns_ManagedAnnotations n) (ns_sourceObjects n)
    (ns_conditions n) (ns_IsSub n) (ns_Anchors n) (ns_Manager n) (ns_quotas n).
Definition set_managedAnnotations ls (n : Namespace) : Namespace :=
  mkNamespace (ns_name n) (ns_parent n) (ns_children n) (ns_exists n) (ns_allowCascadingDeletion n)
    (ns_labels n) (ns_ManagedLabels n) ls (ns_sourceObjects n)
    (ns_conditions n) (ns_IsSub n) (ns_Anchors n) (ns_Manager n) (ns_quotas n).
Definition set_sourceObjects so (n : Namespace) : Namespace :=
  mkNamespace (ns_name n) (ns_parent n) (ns_children n) (ns_exists n) (ns_allowCascadingDeletion n)
    (ns_labels n) (ns_ManagedLabels n) (ns_ManagedAnnotations n) so
    (ns_conditions n) (ns_IsSub n) (ns_Anchors n) (ns_Manager n) (ns_quotas n).
Definition set_conditions cs (n : Namespace) : Namespace :=
  mkNamespace (ns_name n) (ns_parent n) (ns_children n) (ns_exists n) (ns_allowCascadingDeletion n)
    (ns_labels n) (ns_ManagedLabels n) (ns_ManagedAnnotations n) (ns_sourceObjects n)
    cs (ns_IsSub n) (ns_Anchors n) (ns_Manager n) (ns_quotas n).
Definition set_isSub b (n : Namespace) : Namespace :=
  mkNamespace (ns_name n) (ns_parent n) (ns_children n) (ns_exists n) (ns_allowCascadingDeletion n)
    (ns_labels n) (ns_ManagedLabels n) (ns_ManagedAnnotations n) (ns_sourceObjects n)
    (ns_conditions n) b (ns_Anchors n) (ns_Manager n) (ns_quotas n).
Definition set_anchors a (n : Namespace) : Namespace :=
  mkNamespace (ns_name n) (ns_parent n) (ns_children n) (ns_exists n) (ns_allowCascadingDeletion n)
    (ns_labels n) (ns_ManagedLabels n) (ns_ManagedAnnotations n) (ns_sourceObjects n)
    (ns_conditions n) (ns_IsSub n) a (ns_Manager n) (ns_quotas n).
Definition set_manager m (n : Namespace) : Namespace :=
  mkNamespace (ns_name n) (ns_parent n) (ns_children n) (ns_exists n) (ns_allowCascadingDeletion n)
    (ns_labels n) (ns_ManagedLabels n) (ns_ManagedAnnotations n) (ns_sourceObjects n)
    (ns_conditions n) (ns_IsSub n) (ns_Anchors n) m (ns_quotas n).
Definition set_quotas q (n : Namespace) : Namespace :=
  mkNamespace (ns_name n) (ns_parent n) (ns_children n) (ns_exists n) (ns_allowCascadingDeletion n)
    (ns_labels n) (ns_ManagedLabels n) (ns_ManagedAnnotations n) (ns_sourceObjects n)
    (ns_conditions n) (ns_IsSub n) (ns_Anchors n) (ns_Manager n) q.

Definition local_of (n : Namespace) : ResourceList := u_local (q_used (ns_quotas n)).
Definition subtree_of (n : Namespace) : ResourceList := u_subtree (q_used (ns_quotas n)).
Definition limits_of (n : Namespace) : gmap string ResourceList := items (q_limits (ns_quotas n)).

Definition set_limits lm (n : Namespace) : Namespace :=
  set_quotas {| q_limits := lm; q_used := q_used (ns_quotas n) |} n.
Definition set_local u (n : Namespace) : Namespace :=
  set_quotas {| q_limits := q_limits (ns_quotas n);
                q_used := {| u_local := u; u_subtree := subtree_of n |} |} n.
Definition set_subtree u (n : Namespace) : Namespace :=
  set_quotas {| q_limits := q_limits (ns_quotas n);
                q_used := {| u_local := local_of n; u_subtree := u |} |} n.

(** ** forest.go *)

(** The object [Get] allocates for an unknown name. *)
Definition newNamespace (nm : string) : Namespace :=
  mkNamespace nm None ∅ false false None None None ∅ [] false [] ""
    {| q_limits := Some ∅; q_used := {| u_local := None; u_subtree := None |} |}.

Definition NewForest : Forest := mkForest ∅ ∅ 1%positive [] [].

Definition set_heap h (f : Forest) : Forest :=
  mkForest (f_namespaces f) h (f_next f) (f_types f) (f_listeners f).
Definition set_namespaces m (f : Forest) : Forest :=
  mkForest m (f_heap f) (f_next f) (f_types f) (f_listeners f).
Definition set_types ts (f : Forest) : Forest :=
  mkForest (f_namespaces f) (f_heap f) (f_next f) ts (f_listeners f).
Definition set_listeners ls (f : Forest) : Forest :=
  mkForest (f_namespaces f) (f_heap f) (f_next f) (f_types f) ls.

(** Reading and writing through a pointer. *)
Definition deref (f : Forest) (l : loc) : Namespace := default (newNamespace "") (f_heap f !! l).
Definition upd (l : loc) (g : Namespace → Namespace) (f : Forest) : Forest :=
  set_heap (alter g l (f_heap f)) f.

Definition Get (nm : string) (f : Forest) : option loc * Forest :=
  if decide (nm = "") then (None, f)
  else match f_namespaces f !! nm with
       | Some l => (Some l, f)
       | None =>
           let l := f_next f in
           (Some l, mkForest (<[nm:=l]> (f_namespaces f)) (<[l:=newNamespace nm]> (f_heap f))
                      (Pos.succ l) (f_types f) (f_listeners f))
       end.

(** [Get] as a step of code that threads the forest. *)
Definition GetM (nm : string) : M Forest (option loc) := λ f, Done (Get nm f).

(** The object behind [Get nm] without recording an allocation. *)
Definition ns_at (f : Forest) (nm : string) : Namespace :=
  match f_namespaces f !! nm with Some l => deref f l | None => newNamespace nm end.

Definition upd_at (nm : string) (g : Namespace → Namespace) (f : Forest) : Forest :=
  match f_namespaces f !! nm with Some l => upd l g f | None => f end.

Section with_order.
  Context `{RO : RangeOrder}.

Definition GetNamespaceNames (f : Forest) : list string := keys_of (f_namespaces f).

Definition GetRoots (f : Forest) : list loc :=
  filter (λ l, ns_parent (deref f l) = None) (range (f_namespaces f)).*2.

Definition AddTypeSyncer (nss : TypeSyncer) (f : Forest) : Forest :=
  set_types (f_types f ++ [nss]) f.

Definition GetTypeSyncer (gvk : GroupVersionKind) (f : Forest) : option TypeSyncer :=
  List.find (λ t, bool_decide (ts_GVK t = gvk)) (f_types f).

Definition GetTypeSyncerFromGroupKind (group kind : string) (f : Forest) : option TypeSyncer :=
  List.find (λ t, bool_decide (Group (ts_GVK t) = group ∧ Kind (ts_GVK t) = kind)) (f_types f).

Definition GetTypeSyncers (f : Forest) : list TypeSyncer := f_types f.

(** objects.Reconciler: the modes in which a type is propagated. *)
Definition CanPropagate (t : TypeSyncer) : bool :=
  bool_decide (ts_Mode t = Propagate) || bool_decide (ts_Mode t = AllowPropagate).

Definition AddListener (l : NamespaceListener) (f : Forest) : Forest :=
  set_listeners (f_listeners f ++ [l]) f.

(** ** namespace.go *)
Definition Name (f : Forest) (ns : option loc) : string :=
  match ns with None => "<none>" | Some l => ns_name (deref f l) end.

Definition Parent (f : Forest) (ns : option loc) : option loc :=
  match ns with None => None | Some l => ns_parent (deref f l) end.

Definition Exists (f : Forest) (l : loc) : bool := ns_exists (deref f l).

Definition SetExists (l : loc) (f : Forest) : bool * Forest :=
  (negb (ns_exists (deref f l)), upd l (set_exists true) f).

(** [GetTreeLabels]: keys that contain the tree suffix, with their numeric values. *)
Definition GetTreeLabels (n : Namespace) : gmap string Z :=
  map_imap (λ k v, if Contains k LabelTreeDepthSuffix then Some (Atoi v) else None)
    (items (ns_labels n)).

Definition GetLabels (f : Forest) (l : loc) : gomap string string := ns_labels (deref f l).

Definition SetLabels (l : loc) (labels : gomap string string) (f : Forest) : bool * Forest :=
  (negb (bool_decide (ns_labels (deref f l) = labels)),
   upd l (set_labels (Some (items labels))) f).

Definition clean (l : loc) (f : Forest) : Forest :=
  let ns := deref f l in
  if ns_exists ns || bool_decide (0 < size (ns_children ns)) then f
  else set_namespaces (delete (ns_name ns) (f_namespaces f)) f.

Definition UpdateAllowCascadingDeletion (l : loc) (acd : bool) (f : Forest) : bool * Forest :=
  if bool_decide (ns_allowCascadingDeletion (deref f l) = acd) then (false, f)
  else (true, upd l (set_acd acd) f).

Definition SetAnchors (l : loc) (anchors : list string) (f : Forest) : list string * Forest :=
  let add : gset string := list_to_set anchors in
  let '(add, diff) := fold_left (λ '(add, diff) nm,
      if decide (nm ∈ add) then (add ∖ {[nm]}, diff) else (add, diff ++ [nm]))
    (ns_Anchors (deref f l)) (add, []) in
  (diff ++ keys_of (set_to_map (λ nm, (nm, ())) add : gmap string ()),
   upd l (set_anchors anchors) f).

Definition HasAnchor (ns : Namespace) (n : string) : bool := existsb (λ a, bool_decide (a = n)) (ns_Anchors ns).

Definition IsExternal (ns : Namespace) : bool :=
  negb (bool_decide (ns_Manager ns = "")) && negb (bool_decide (ns_Manager ns = MetaGroup)).

(** ** namespacestructure.go: reads *)
Definition ChildNames (ns : Namespace) : list string :=
  if decide (size (ns_children ns) = 0) then [] else sort_Strings (keys_of (ns_children ns)).

(** [IsAncestor] follows parents with no cycle check: [Diverges] once it has
    taken more steps than there are objects. *)
Fixpoint IsAncestor_loop (fuel : nat) (f : Forest) (l : loc) (other : option loc) : outcome bool :=
  match fuel with
  | O => Diverges
  | S fuel' =>
      let p := ns_parent (deref f l) in
      if decide (p = other) then Done true
      else match p with
           | None => Done false
           | Some q => IsAncestor_loop fuel' f q other
           end
  end.

Definition steps (f : Forest) : nat := S (size (f_namespaces f) + size (f_heap f)).

Definition IsAncestor (f : Forest) (l : loc) (other : option loc) : outcome bool :=
  IsAncestor_loop (steps f) f l other.

Definition RelativesNames (f : Forest) (l : loc) : list string :=
  match ns_parent (deref f l) with Some p => [ns_name (deref f p)] | None => [] end ++
  keys_of (ns_children (deref f l)).

(** The loop of [AncestryNames]: [None] if it has not returned within the fuel. *)
Fixpoint ancestry_loop (fuel : nat) (f : Forest) (anc : option loc)
    (cycleCheck : gset string) (ancestors : list string) : option (list string) :=
  match anc with
  | None => Some ancestors
  | Some a =>
      match fuel with
      | O => None
      | S fuel' =>
          let nm := ns_name (deref f a) in
          if decide (nm ∈ cycleCheck) then Some (nm :: ancestors)
          else ancestry_loop fuel' f (ns_parent (deref f a)) ({[nm]} ∪ cycleCheck) (nm :: ancestors)
      end
  end.

Definition AncestryNames (f : Forest) (ns : option loc) : list string :=
  match ns with
  | None => []
  | Some l =>
      let nm := ns_name (deref f l) in
      default [] (ancestry_loop (steps f) f (ns_parent (deref f l)) {[nm]} [nm])
  end.

(** The position and the value of the smallest name of a nonempty list. *)
Fixpoint smallest (idx sidx : nat) (snm : string) (l : list string) : nat * string :=
  match l with
  | [] => (sidx, snm)
  | nm :: l' => if String.ltb nm snm then smallest (S idx) idx nm l' else smallest (S idx) sidx snm l'
  end.

Definition CycleNames (f : Forest) (l : loc) : list string :=
  let ancestors := AncestryNames f (Some l) in
  if bool_decide (length ancestors = 1) || negb (bool_decide (head ancestors = Some (ns_name (deref f l))))
  then []
  else
    let ancestors := tail ancestors in
    let '(sidx, snm) := smallest 0 0 (default "" (head ancestors)) ancestors in
    (drop sidx ancestors ++ take sidx ancestors) ++ [snm].

Definition CanSetParent (f : Forest) (l : loc) (p : option loc) : string :=
  match p with
  | None => ""
  | Some q =>
      if decide (q = l) then quoted (ns_name (deref f q)) +:+ " cannot be set as its own parent"
      else
        let ancestors := AncestryNames f (Some q) in
        let '(cycle, found) := fold_left (λ '(cycle, found) nm,
            if found : bool then (cycle, found)
            else (cycle ++ [nm], bool_decide (nm = ns_name (deref f l))))
          (reverse ancestors) ([], false) in
        if found then
          "cycle when making " +:+ quoted (ns_name (deref f q)) +:+ " the parent of " +:+
            quoted (ns_name (deref f l)) +:+ ": current ancestry is " +:+ Join cycle " -> "
        else ""
  end.

Fixpoint populateDescendants (fuel : nat) (f : Forest) (ns : Namespace) (d : gset string) : option (gset string) :=
  match fuel with
  | O => None
  | S fuel' =>
      fold_left (λ od c,
        d ← od;
        if decide (c ∈ d) then Some d
        else populateDescendants fuel' f (ns_at f c) ({[c]} ∪ d)) (ChildNames ns) (Some d)
  end.

Definition DescendantNames (f : Forest) (l : loc) : list string :=
  let ds := default ∅ (populateDescendants (S (S (size (f_namespaces f)))) f (deref f l) ∅) in
  if decide (size ds = 0) then []
  else sort_Strings (keys_of (set_to_map (λ k, (k, true)) ds : gmap string bool)).

Definition FullDescendantNames (f : Forest) (l : loc) : list string :=
  sort_Strings (filter (λ dnm, ns_IsSub (ns_at f dnm) = false) (DescendantNames f l)).

(** namespace.go: the recursion stops at a root or inside a cycle. *)
Fixpoint acd_loop (fuel : nat) (f : Forest) (l : loc) : outcome bool :=
  match fuel with
  | O => Diverges
  | S fuel' =>
      if ns_allowCascadingDeletion (deref f l) then Done true
      else match ns_parent (deref f l) with
           | None => Done false
           | Some p => if decide (CycleNames f l = []) then acd_loop fuel' f p else Done false
           end
  end.

Definition AllowsCascadingDeletion (f : Forest) (l : loc) : outcome bool := acd_loop (steps f) f l.

(** ** namespacehrq.go *)
Definition Limits (f : Forest) (l : loc) : ResourceList :=
  fold_left (λ rs nsnm, fold_left (λ rs '(_, lm), Min rs lm) (range (limits_of (ns_at f nsnm))) rs)
    (AncestryNames f (Some l)) emptyRL.

(** The body of the loop over the ancestors: add the delta, and remove usages
    that are no longer limited. *)
Definition charge (delta : ResourceList) (f : Forest) (nsnm : string) : Forest :=
  let '(oa, f) := Get nsnm f in
  match oa with
  | None => f
  | Some a =>
      let newSubUsg := Add delta (subtree_of (deref f a)) in
      upd a (set_subtree (FilterUnlimited newSubUsg (Limits f a))) f
  end.

Definition UseResources (l : loc) (newUsage : ResourceList) (f : Forest) : Forest :=
  let oldUsage := local_of (deref f l) in
  let newUsage := FilterUnlimited newUsage (Limits f l) in
  if Equals oldUsage newUsage then f
  else
    let f := upd l (set_local newUsage) f in
    let delta := Subtract newUsage oldUsage in
    fold_left (charge delta) (AncestryNames f (Some l)) f.

(** [checkLimits]: the first limit in iteration order that is exceeded. *)
Definition checkLimits (lm : gmap string ResourceList) (u : ResourceList) : option (string * list ResourceName) :=
  foldr (λ '(nm, rl) rest,
    let '(allowed, exceeded) := LessThanOrEqual u rl in
    if allowed : bool then rest else Some (nm, exceeded)) None (range lm).

(** The error message of [canUseResources], field by field: the namespace, the
    HRQ, and for each exceeded resource what is requested, used and limited. *)
Record quotaError := {
  qe_ns : string;
  qe_hrq : string;
  qe_exceeded : list (ResourceName * (Quantity * Quantity * Quantity))
}.

Definition canUseResources (f : Forest) (l : loc) (u : ResourceList) : option quotaError :=
  let delta := Subtract u (local_of (deref f l)) in
  let increases := OmitLTEZero delta in
  foldr (λ nsnm rest,
    let ns := ns_at f nsnm in
    let proposed := AddIfExists increases (subtree_of ns) in
    match checkLimits (limits_of ns) proposed with
    | None => rest
    | Some (nm, exceeded) =>
        Some {| qe_ns := ns_name ns; qe_hrq := nm;
                qe_exceeded := (λ er, (er, (qty increases er, qty (subtree_of ns) er,
                  qty (default None (limits_of ns !! nm)) er))) <$> exceeded |}
    end) None (AncestryNames f (Some l)).

Definition TryUseResources (l : loc) (rl : ResourceList) (f : Forest) : option quotaError * Forest :=
  match canUseResources f l rl with
  | Some err => (Some err, f)
  | None => (None, UseResources l rl f)
  end.

Definition HRQNames (ns : Namespace) : list string := keys_of (limits_of ns).

Definition RemoveLimits (l : loc) (nm : string) (f : Forest) : Forest :=
  upd l (λ n, set_limits (delete nm <$> q_limits (ns_quotas n)) n) f.

Definition UpdateLimits (l : loc) (nm : string) (lm : ResourceList) (f : Forest) : bool * Forest :=
  let old := limits_of (deref f l) in
  let f := upd l (set_limits (Some old)) f in
  if Equals (default None (old !! nm)) lm then (false, f)
  else (true, upd l (set_limits (Some (<[nm:=lm]> old))) f).

(** [RectifySubtreeUsages], first loop: the usages of every subtree from scratch. *)
Definition tally (local : ResourceList) (usages : gmap string ResourceList) (anc : string) : gmap string ResourceList :=
  match usages !! anc with
  | Some existing => <[anc:=Add existing local]> usages
  | None => <[anc:=local]> usages
  end.

Definition rectify_usages (f : Forest) : gmap string ResourceList :=
  fold_left (λ usages '(_, l), fold_left (tally (local_of (deref f l))) (AncestryNames f (Some l)) usages)
    (range (f_namespaces f)) ∅.

Definition RectifySubtreeUsages (f : Forest) : list NamespacedName * Forest :=
  let usages := rectify_usages f in
  fold_left (λ '(updated, f) '(nm, l),
    let have := subtree_of (deref f l) in
    let actual := FilterUnlimited (default None (usages !! nm)) (Limits f l) in
    if Equals have actual then (updated, f)
    else (updated ++ (mkNN nm <$> keys_of (limits_of (deref f l))),
          upd l (set_subtree actual) f)) (range (f_namespaces f)) ([], f).

(** ** namespacestructure.go and namespace.go: writes *)
(** Remove the old parent's reference, and clean it up if that was its last child. *)
Definition unlink (l : loc) (f : Forest) : Forest :=
  match ns_parent (deref f l) with
  | None => f
  | Some q =>
      let f := upd q (λ n, set_children (delete (ns_name (deref f l)) (ns_children n)) n) f in
      if decide (size (ns_children (deref f q)) = 0) then clean q f else f
  end.

(** Update the new parent. *)
Definition link (l : loc) (p : option loc) (f : Forest) : Forest :=
  let f := upd l (set_parent p) f in
  match p with
  | None => f
  | Some q => upd q (λ n, set_children (<[ns_name (deref f l):=l]> (ns_children n)) n) f
  end.

Definition SetParent (l : loc) (p : option loc) (f : Forest) : Forest :=
  let nsUsage := local_of (deref f l) in
  (* Remove usage from old subtree. *)
  let f := match nsUsage with None => f | Some _ => UseResources l emptyRL f end in
  let f := unlink l f in
  let f := link l p f in
  (* Add usage to new subtree. *)
  match nsUsage with None => f | Some _ => UseResources l nsUsage f end.

Definition UnsetExists (l : loc) (f : Forest) : bool * Forest :=
  let changed := ns_exists (deref f l) in
  let f := SetParent l None f in
  let f := upd l (set_exists false) f in
  (changed, clean l f).

(** ** namespaceconditions.go *)
Definition IsHalted (f : Forest) (ns : option loc) : bool :=
  match ns with
  | None => false
  | Some l => existsb (λ c, bool_decide (c_Type c = ConditionActivitiesHalted)) (ns_conditions (deref f l))
  end.

(** [GetHaltedRoot] has no cycle check of its own. *)
Fixpoint halted_loop (fuel : nat) (f : Forest) (ns : option loc) : outcome string :=
  match ns with
  | None => Done ""
  | Some l =>
      match fuel with
      | O => Diverges
      | S fuel' => if IsHalted f (Some l) then Done (ns_name (deref f l)) else halted_loop fuel' f (Parent f ns)
      end
  end.

Definition GetHaltedRoot (f : Forest) (ns : option loc) : outcome string := halted_loop (steps f) f ns.

(** meta.SetStatusCondition (vendored apimachinery): one condition per type. *)
Fixpoint SetStatusCondition (now : Z) (c : Condition) (cs : list Condition) : list Condition :=
  match cs with
  | [] => [mkCondition (c_Type c) (c_Status c)
             (match c_LastTransitionTime c with None => Some now | t => t end) (c_Reason c) (c_Message c)]
  | e :: cs' =>
      if decide (c_Type e = c_Type c) then
        mkCondition (c_Type e) (c_Status c)
          (if decide (c_Status e = c_Status c) then c_LastTransitionTime e
           else match c_LastTransitionTime c with None => Some now | t => t end)
          (c_Reason c) (c_Message c) :: cs'
      else e :: SetStatusCondition now c cs'
  end.

Definition SetCondition (now : Z) (l : loc) (tp reason msg : string) (f : Forest) : Forest :=
  if decide (reason = ReasonAncestor) then f
  else
    let c := mkCondition tp ConditionTrue None reason msg in
    upd l (λ n, set_conditions (SetStatusCondition now c (ns_conditions n)) n) f.

Definition ClearConditions (l : loc) (f : Forest) : Forest := upd l (set_conditions []) f.

Definition Conditions (f : Forest) (l : loc) : outcome (list Condition) :=
  root ← GetHaltedRoot f (Some l);
  if decide (root ≠ "" ∧ root ≠ ns_name (deref f l)) then
    mret (mkCondition ConditionActivitiesHalted ConditionTrue (Some 0%Z) ReasonAncestor
            ("Propagation paused in " +:+ quoted (ns_name (deref f l)) +:+
             " and its descendants due to ActivitiesHalted condition on ancestor " +:+ quoted root)
          :: ns_conditions (deref f l))
  else mret (ns_conditions (deref f l)).

(** ** namespaceobjects.go *)
Definition SetSourceObject (l : loc) (obj : Unstructured) (f : Forest) : Forest :=
  upd l (λ n, set_sourceObjects
    (<[u_GVK obj := <[om_Name (u_Meta obj) := obj]> (default ∅ (ns_sourceObjects n !! u_GVK obj))]>
       (ns_sourceObjects n)) n) f.

Definition GetSourceObject (n : Namespace) (gvk : GroupVersionKind) (nm : string) : option Unstructured :=
  default ∅ (ns_sourceObjects n !! gvk) !! nm.

Definition HasSourceObject (n : Namespace) (gvk : GroupVersionKind) (nm : string) : bool :=
  bool_decide (is_Some (GetSourceObject n gvk nm)).

Definition DeleteSourceObject (l : loc) (gvk : GroupVersionKind) (nm : string) (f : Forest) : Forest :=
  upd l (λ n,
    let objs := delete nm (default ∅ (ns_sourceObjects n !! gvk)) in
    set_sourceObjects
      (if decide (size objs = 0) then delete gvk (ns_sourceObjects n)
       else <[gvk:=objs]> (ns_sourceObjects n)) n) f.

Definition GetSourceNames (n : Namespace) (gvk : GroupVersionKind) : list NamespacedName :=
  (λ '(_, obj), mkNN (om_Namespace (u_Meta obj)) (om_Name (u_Meta obj))) <$>
    range (default ∅ (ns_sourceObjects n !! gvk)).

Definition GetNumSourceObjects (n : Namespace) (gvk : GroupVersionKind) : nat :=
  size (default ∅ (ns_sourceObjects n !! gvk)).

Definition GetAncestorSourceNames (f : Forest) (ns : option loc) (gvk : GroupVersionKind) (name : string)
    : list NamespacedName :=
  match ns with
  | None => []
  | Some _ =>
      fold_left (λ allNNMs anc,
        let nnms := GetSourceNames (ns_at f anc) gvk in
        if decide (name = "") then allNNMs ++ nnms
        else allNNMs ++ filter (λ o, nn_name o = name) nnms) (AncestryNames f ns) []
  end.
End with_order.

#[global] Arguments AncestryNames : simpl never.
#[global] Arguments CycleNames : simpl never.
#[global] Arguments Limits : simpl never.
#[global] Arguments UseResources : simpl never.
#[global] Arguments SetParent : simpl never.
