(* ===== verification/ForestWf.v ===== *)
(** * The structure of the forest: invariant and theorems

    Names, parent pointers and child maps of a forest in memory form a
    consistent structure ([wf]).  This file proves that every operation of the
    package keeps it, that the walks over the structure terminate with the fuel
    the definitions give them, and what they return: ancestry, cycles and
    descendants, also when the parent pointers form cycles, which HNC tolerates
    and reports instead of assuming away. *)

From S2P Require Import Prelude GoStrings Chains Api Resources Forest.

(** ** Forests that agree on a view of their objects *)
Section sim.
  Context {B : Type} (π : Namespace → B).

Definition heap_sim (f f' : Forest) : Prop :=
  f_namespaces f = f_namespaces f' ∧ f_next f = f_next f' ∧ π <$> f_heap f = π <$> f_heap f'.

#[export] Instance heap_sim_equiv : Equivalence heap_sim.
Proof.
  split.
  - by intros f.
  - intros f f' (? & ? & ?). by split_and!.
  - intros f f' f'' (? & ? & ?) (? & ? & ?). split_and!; congruence.
Qed.

Lemma heap_sim_deref f f' l : heap_sim f f' → π (deref f l) = π (deref f' l).
Proof.
  intros (_ & _ & Hh). apply (f_equal (lookup l)) in Hh. rewrite !lookup_fmap in Hh.
  unfold deref. by destruct (f_heap f !! l), (f_heap f' !! l); simplify_eq/=.
Qed.

Lemma heap_sim_dom f f' l : heap_sim f f' → is_Some (f_heap f !! l) ↔ is_Some (f_heap f' !! l).
Proof.
  intros (_ & _ & Hh). apply (f_equal (lookup l)) in Hh. rewrite !lookup_fmap in Hh.
  rewrite <- (fmap_is_Some π), Hh. apply fmap_is_Some.
Qed.

Lemma heap_sim_steps f f' : heap_sim f f' → steps f = steps f'.
Proof.
  intros (Hn & _ & Hh). unfold steps. rewrite Hn.
  by rewrite <- (map_size_fmap π (f_heap f)), Hh, map_size_fmap.
Qed.

Lemma heap_sim_upd l g f : (∀ n, π (g n) = π n) → heap_sim f (upd l g f).
Proof.
  intros Hg. split_and!; [done..|]. apply map_eq. intros l'. simpl. rewrite !lookup_fmap.
  destruct (decide (l = l')) as [<-|Hne].
  - rewrite lookup_alter_eq. destruct (f_heap f !! l); simpl; by rewrite ?Hg.
  - by rewrite lookup_alter_ne.
Qed.
End sim.

Lemma heap_sim_mono {B C} (π : Namespace → B) (ρ : Namespace → C) f f' :
  (∀ n n', π n = π n' → ρ n = ρ n') → heap_sim π f f' → heap_sim ρ f f'.
Proof.
  intros Hm (? & ? & Hh). split_and!; [done..|]. apply map_eq. intros l.
  apply (f_equal (lookup l)) in Hh. rewrite !lookup_fmap in *.
  destruct (f_heap f !! l), (f_heap f' !! l); simplify_eq/=; [|done].
  f_equal. by apply Hm.
Qed.

(** What the walks look at, and everything but the usages. *)
Definition links (n : Namespace) := (ns_name n, ns_parent n, ns_children n).
Definition no_usage (n : Namespace) : Namespace := set_local None (set_subtree None n).

Lemma no_usage_links n n' : no_usage n = no_usage n' → links n = links n'.
Proof. destruct n, n'. unfold links. cbn. intros. by simplify_eq. Qed.

Lemma no_usage_exists n n' : no_usage n = no_usage n' → ns_exists n = ns_exists n'.
Proof. destruct n, n'. cbn. intros. by simplify_eq. Qed.

Lemma no_usage_limits n n' : no_usage n = no_usage n' → q_limits (ns_quotas n) = q_limits (ns_quotas n').
Proof. destruct n, n'. cbn. intros. by simplify_eq. Qed.

Section links_facts.
  Context (f f' : Forest) (Hs : heap_sim links f f').
Lemma links_name l : ns_name (deref f l) = ns_name (deref f' l).
Proof. pose proof (heap_sim_deref _ _ _ l Hs) as H. unfold links in H. congruence. Qed.
Lemma links_parent l : ns_parent (deref f l) = ns_parent (deref f' l).
Proof. pose proof (heap_sim_deref _ _ _ l Hs) as H. unfold links in H. congruence. Qed.
Lemma links_children l : ns_children (deref f l) = ns_children (deref f' l).
Proof. pose proof (heap_sim_deref _ _ _ l Hs) as H. unfold links in H. congruence. Qed.
Lemma links_at nm : links (ns_at f nm) = links (ns_at f' nm).
Proof.
  unfold ns_at. destruct Hs as (-> & _). destruct (f_namespaces f' !! nm); [|done].
  by apply heap_sim_deref.
Qed.
End links_facts.

#[export] Instance Name_proper : Proper (heap_sim links ==> eq ==> eq) Name.
Proof. intros f f' Hs l _ <-. destruct l; [|done]. by apply links_name. Qed.
#[export] Instance Parent_proper : Proper (heap_sim links ==> eq ==> eq) Parent.
Proof. intros f f' Hs l _ <-. destruct l; [|done]. by apply links_parent. Qed.

Lemma ancestry_loop_links fuel f f' anc X acc : heap_sim links f f' →
  ancestry_loop fuel f anc X acc = ancestry_loop fuel f' anc X acc.
Proof.
  intros Hs. revert anc X acc. induction fuel as [|fuel IH]; intros [a|] X acc; simpl; try done.
  rewrite (links_name f f'), (links_parent f f') by done. by rewrite IH.
Qed.

#[export] Instance AncestryNames_proper : Proper (heap_sim links ==> eq ==> eq) AncestryNames.
Proof.
  intros f f' Hs [l|] _ <-; [|done]. unfold AncestryNames.
  rewrite (heap_sim_steps _ _ _ Hs), (links_name f f'), (links_parent f f') by done.
  by rewrite (ancestry_loop_links _ f f').
Qed.

Lemma AncestryNames_links f f' l : heap_sim links f f' → AncestryNames f l = AncestryNames f' l.
Proof. intros Hs. by apply AncestryNames_proper. Qed.

#[export] Instance CycleNames_proper : Proper (heap_sim links ==> eq ==> eq) CycleNames.
Proof.
  intros f f' Hs l _ <-. unfold CycleNames. by rewrite (AncestryNames_links f f'), (links_name f f').
Qed.

#[export] Instance CanSetParent_proper : Proper (heap_sim links ==> eq ==> eq ==> eq) CanSetParent.
Proof.
  intros f f' Hs l _ <- p _ <-. unfold CanSetParent. destruct p as [q|]; [|done].
  by rewrite (AncestryNames_links f f'), !(links_name f f').
Qed.

(** ** The invariant

    [wf_but e f]: the forest is consistent, and only the namespace [e], if any, can
    have a parent although it is not known to exist.  That happens to a namespace
    between the two steps of its first reconciliation; [wf] is the invariant
    whenever the lock of the forest is free. *)
Record wf_but (e : option loc) (f : Forest) : Prop := {
  wf_name nm l : f_namespaces f !! nm = Some l →
    nm ≠ "" ∧ is_Some (f_heap f !! l) ∧ ns_name (deref f l) = nm;
  wf_parent nm l p : f_namespaces f !! nm = Some l → ns_parent (deref f l) = Some p →
    ∃ pnm, f_namespaces f !! pnm = Some p ∧ ns_children (deref f p) !! nm = Some l;
  wf_child nm l c cl : f_namespaces f !! nm = Some l → ns_children (deref f l) !! c = Some cl →
    f_namespaces f !! c = Some cl ∧ ns_parent (deref f cl) = Some l;
  wf_ghost nm l : f_namespaces f !! nm = Some l → e ≠ Some l → ns_exists (deref f l) = false →
    ns_parent (deref f l) = None;
  wf_next l : is_Some (f_heap f !! l) → (l < f_next f)%positive
}.

Arguments wf_name {_} _ _ _ _ _.
Arguments wf_parent {_} _ _ _ _ _ _ _.
Arguments wf_child {_} _ _ _ _ _ _ _ _.
Arguments wf_ghost {_} _ _ _ _ _ _ _.
Arguments wf_next {_} _ _ _ _.
Abbreviation wf := (wf_but None).

Lemma wf_but_weaken e f : wf f → wf_but e f.
Proof. intros []. split; eauto. Qed.

Lemma wf_but_strengthen l f : wf_but (Some l) f →
  (ns_exists (deref f l) = false → ns_parent (deref f l) = None) → wf f.
Proof.
  intros [Hn Hp Hc Hg Hx] Hl. split; try done. intros nm l' Hl' _ He.
  destruct (decide (l' = l)) as [->|]; [by apply Hl|]. eapply Hg; [done|congruence|done].
Qed.

(** The parent of a name, as a name. *)
Definition parent_name (f : Forest) (nm : string) : option string :=
  p ← ns_parent (ns_at f nm); Some (ns_name (deref f p)).

Definition live (f : Forest) (nm : string) (l : loc) : Prop := f_namespaces f !! nm = Some l.

Lemma ns_at_live f nm l : f_namespaces f !! nm = Some l → ns_at f nm = deref f l.
Proof. unfold ns_at. by intros ->. Qed.

Lemma parent_name_links f f' nm : heap_sim links f f' → parent_name f nm = parent_name f' nm.
Proof.
  intros Hs. unfold parent_name. pose proof (links_at f f' Hs nm) as Hl. unfold links in Hl.
  assert (ns_parent (ns_at f nm) = ns_parent (ns_at f' nm)) as -> by congruence.
  destruct (ns_parent (ns_at f' nm)); [|done]. simpl. by rewrite (links_name f f').
Qed.

Section wf_facts.
  Context {e : option loc} (f : Forest) (Hwf : wf_but e f).

Lemma live_inj nm nm' l : f_namespaces f !! nm = Some l → f_namespaces f !! nm' = Some l → nm = nm'.
Proof. by intros (_ & _ & <-)%(wf_name f Hwf) (_ & _ & <-)%(wf_name f Hwf). Qed.

Lemma live_name nm l : f_namespaces f !! nm = Some l → ns_name (deref f l) = nm.
Proof. by intros (_ & _ & ?)%(wf_name f Hwf). Qed.

Lemma parent_name_live nm l : f_namespaces f !! nm = Some l →
  parent_name f nm = (λ p, ns_name (deref f p)) <$> ns_parent (deref f l).
Proof. intros Hl. unfold parent_name. rewrite (ns_at_live _ _ _ Hl). by destruct (ns_parent _). Qed.

Lemma parent_name_Some nm pnm : parent_name f nm = Some pnm ↔
  ∃ l p, f_namespaces f !! nm = Some l ∧ ns_parent (deref f l) = Some p ∧ f_namespaces f !! pnm = Some p.
Proof.
  unfold parent_name, ns_at. split.
  - destruct (f_namespaces f !! nm) as [l|] eqn:Hl; [|done]. intros (p & Hp & Heq)%bind_Some.
    simplify_eq. destruct (wf_parent _ Hwf _ _ _ Hl Hp) as (pnm & Hpl & _).
    exists l, p. by rewrite (live_name _ _ Hpl).
  - intros (l & p & -> & Hp & Hpl). rewrite Hp. simpl. by rewrite (live_name _ _ Hpl).
Qed.

Lemma parent_name_child nm c : parent_name f c = Some nm ↔
  ∃ l, f_namespaces f !! nm = Some l ∧ is_Some (ns_children (deref f l) !! c).
Proof.
  rewrite parent_name_Some. split.
  - intros (cl & l & Hc & Hp & Hl). exists l. split; [done|].
    destruct (wf_parent _ Hwf _ _ _ Hc Hp) as (nm' & Hl' & ?). eauto.
  - intros (l & Hl & [cl Hcl]). destruct (wf_child _ Hwf _ _ _ _ Hl Hcl). eauto.
Qed.

Lemma up_live nm nm' : up (parent_name f) nm nm' → is_Some (f_namespaces f !! nm) ∧ is_Some (f_namespaces f !! nm').
Proof. intros (l & p & ? & ? & ?)%parent_name_Some. eauto. Qed.

Lemma rtc_live nm nm' : is_Some (f_namespaces f !! nm) → rtc (up (parent_name f)) nm nm' →
  is_Some (f_namespaces f !! nm').
Proof. intros Hl Hr. induction Hr as [|? ? ? Hu]; [done|]. apply IHHr. by apply up_live in Hu as []. Qed.

(** ** AncestryNames *)
Lemma ancestry_loop_walk fuel nm x l acc :
  f_namespaces f !! x = Some l → NoDup (x :: acc) →
  (∀ y, y ∈ x :: acc → is_Some (f_namespaces f !! y)) →
  chain (parent_name f) (reverse (x :: acc)) → head (reverse (x :: acc)) = Some nm →
  size (f_namespaces f) < fuel + length (x :: acc) →
  ∃ r, ancestry_loop fuel f (ns_parent (deref f l)) (list_to_set (x :: acc)) (x :: acc) = Some r ∧
       full_walk (parent_name f) nm (reverse r).
Proof.
  revert x l acc. induction fuel as [|fuel IH]; intros x l acc Hl Hnd Hlive Hch Hhd Hfuel.
  { exfalso. apply (NoDup_length_bound _ (dom (f_namespaces f))) in Hnd.
    - rewrite size_dom in Hnd. lia.
    - intros y Hy. by apply elem_of_dom, Hlive. }
  destruct (ns_parent (deref f l)) as [p|] eqn:Hp.
  - destruct (wf_parent _ Hwf _ _ _ Hl Hp) as (pnm & Hpl & _).
    assert (up (parent_name f) x pnm) as Hu by (apply parent_name_Some; eauto).
    assert (chain (parent_name f) (reverse (pnm :: x :: acc))) as Hch'.
    { rewrite !reverse_cons, <- app_assoc. apply chain_snoc; [|done]. by rewrite <- reverse_cons. }
    assert (head (reverse (pnm :: x :: acc)) = Some nm) as Hhd'.
    { rewrite reverse_cons. by destruct (reverse (x :: acc)). }
    cbn [ancestry_loop]. rewrite (live_name _ _ Hpl).
    destruct (decide (pnm ∈ list_to_set (x :: acc))) as [Hin|Hin].
    + eexists. split; [done|]. split_and!; [done..|]. right.
      exists (reverse (x :: acc)), pnm. split_and!; [by rewrite reverse_cons|by apply NoDup_reverse|].
      by apply elem_of_reverse; apply elem_of_list_to_set in Hin.
    + apply (IH pnm p (x :: acc)); [done| | |done|done|simpl in *; lia].
      * constructor; [|done]. by rewrite <- (elem_of_list_to_set (C := gset string)).
      * intros y [->|?]%elem_of_cons; eauto.
  - exists (x :: acc). split; [by destruct fuel|]. split_and!; [done..|]. left.
    split; [by apply NoDup_reverse|]. exists x. split; [by rewrite reverse_cons, last_snoc|].
    by rewrite (parent_name_live _ _ Hl), Hp.
Qed.

(** The names it returns are the complete walk up the parents, root first. *)
Lemma AncestryNames_walk nm l : f_namespaces f !! nm = Some l →
  full_walk (parent_name f) nm (reverse (AncestryNames f (Some l))).
Proof.
  intros Hl. unfold AncestryNames. rewrite (live_name _ _ Hl).
  destruct (ancestry_loop_walk (steps f) nm nm l []) as (r & Hr & Hw); try done.
  - apply NoDup_singleton.
  - intros y ->%list_elem_of_singleton. eauto.
  - constructor.
  - unfold steps. simpl. lia.
  - simpl list_to_set in Hr. rewrite union_empty_r_L in Hr. by rewrite Hr.
Qed.

Lemma AncestryNames_elem nm l x : f_namespaces f !! nm = Some l →
  x ∈ AncestryNames f (Some l) ↔ rtc (up (parent_name f)) nm x.
Proof. intros Hl. rewrite <- elem_of_reverse. by apply full_walk_elem, AncestryNames_walk. Qed.

Lemma AncestryNames_live nm l x : f_namespaces f !! nm = Some l → x ∈ AncestryNames f (Some l) →
  is_Some (f_namespaces f !! x).
Proof. intros Hl Hx. apply (AncestryNames_elem _ _ _ Hl) in Hx. eapply rtc_live; eauto. Qed.

Lemma AncestryNames_self nm l : f_namespaces f !! nm = Some l → nm ∈ AncestryNames f (Some l).
Proof. intros Hl. by apply (AncestryNames_elem _ _ _ Hl). Qed.

(** ** CycleNames *)
Lemma smallest_spec pre idx sidx snm l L i s :
  L = pre ++ l → idx = length pre → L !! sidx = Some snm → (∀ x, x ∈ pre → String.le snm x) →
  smallest idx sidx snm l = (i, s) → L !! i = Some s ∧ ∀ x, x ∈ L → String.le s x.
Proof.
  revert pre idx sidx snm. induction l as [|nm l IH]; intros pre idx sidx snm HL Hidx Hsn Hpre Hs.
  - simpl in Hs. simplify_eq. split; [done|]. rewrite app_nil_r. auto.
  - simpl in Hs. destruct (String.ltb nm snm) eqn:Hlt.
    + apply (IH (pre ++ [nm])) in Hs; [done|by rewrite <- app_assoc|rewrite length_app; simpl; lia| |].
      * subst. by apply list_lookup_middle.
      * intros x [Hx|Hx%list_elem_of_singleton]%elem_of_app; [|by subst].
        etrans; [by apply ltb_le|by apply Hpre].
    + apply (IH (pre ++ [nm])) in Hs; [done|by rewrite <- app_assoc|rewrite length_app; simpl; lia|done|].
      intros x [Hx|Hx%list_elem_of_singleton]%elem_of_app; [by apply Hpre|]. subst. by apply ltb_ge.
Qed.

Lemma AncestryNames_cycle nm l : f_namespaces f !! nm = Some l → in_cycle (parent_name f) nm →
  ∃ c, AncestryNames f (Some l) = nm :: c ∧ NoDup c ∧ (∃ c', c = c' ++ [nm]).
Proof.
  intros Hl Hc. pose proof (AncestryNames_walk _ _ Hl) as Hw.
  pose proof (proj1 (full_walk_cycle _ _ _ Hw) Hc) as [l' Heq].
  assert (AncestryNames f (Some l) = nm :: reverse l' ++ [nm]) as Ha.
  { apply (f_equal reverse) in Heq. rewrite reverse_involutive in Heq.
    by rewrite Heq, reverse_cons, reverse_app. }
  exists (reverse l' ++ [nm]). split_and!; [done| |eauto].
  destruct Hw as (_ & _ & [[Hnd _]|(k & z & Hk & Hnd & _)]); rewrite Heq in *.
  - apply NoDup_cons in Hnd as [Hn _]. set_solver.
  - rewrite app_comm_cons in Hk. apply app_inj_tail in Hk as [<- _].
    rewrite <- reverse_cons. by apply NoDup_reverse.
Qed.

Lemma AncestryNames_head_last nm l c : f_namespaces f !! nm = Some l → c ≠ [] →
  AncestryNames f (Some l) = nm :: c → in_cycle (parent_name f) nm.
Proof.
  intros Hl Hne Ha. pose proof (AncestryNames_walk _ _ Hl) as Hw.
  apply (full_walk_cycle _ _ _ Hw). destruct Hw as (Hh & _ & _).
  destruct (exists_last (l := c)) as (c' & x & ->); [done|].
  rewrite Ha, reverse_cons, reverse_app in *. simpl in *. simplify_eq. by exists (reverse c').
Qed.

Lemma CycleNames_nil_iff nm l : f_namespaces f !! nm = Some l →
  CycleNames f l = [] ↔ ¬ in_cycle (parent_name f) nm.
Proof.
  intros Hl. unfold CycleNames. rewrite (live_name _ _ Hl). split.
  - intros Hn Hc. destruct (AncestryNames_cycle _ _ Hl Hc) as (c & Ha & _ & c' & ->).
    rewrite Ha in Hn. simpl in Hn.
    rewrite bool_decide_eq_false_2, bool_decide_eq_true_2 in Hn; [|done|rewrite length_app; simpl; lia].
    simpl in Hn. destruct (smallest _ _ _ _). by apply app_nil in Hn as [_ Hn].
  - intros Hc. destruct (AncestryNames f (Some l)) as [|x c] eqn:Ha; [done|]. simpl.
    destruct (decide (x = nm)) as [->|Hne].
    + destruct c as [|y c]; [done|]. exfalso. apply Hc. by apply (AncestryNames_head_last _ _ (y :: c) Hl).
    + rewrite (bool_decide_eq_false_2 (Some x = Some nm)) by congruence. by rewrite orb_true_r.
Qed.

(** On a cycle, [CycleNames] is the ancestry of the cycle's smallest member. *)
Lemma CycleNames_smallest nm l : f_namespaces f !! nm = Some l → in_cycle (parent_name f) nm →
  ∃ s ls, f_namespaces f !! s = Some ls ∧ rtc (up (parent_name f)) nm s ∧
    (∀ x, rtc (up (parent_name f)) nm x → String.le s x) ∧
    CycleNames f l = AncestryNames f (Some ls).
Proof.
  intros Hl Hc. destruct (AncestryNames_cycle _ _ Hl Hc) as (c & Ha & Hnd & c' & Hc').
  pose proof (AncestryNames_walk _ _ Hl) as Hw. rewrite Ha, reverse_cons in Hw.
  unfold CycleNames. rewrite (live_name _ _ Hl), Ha. simpl.
  assert (c ≠ []) as Hne by (rewrite Hc'; by destruct c').
  rewrite (bool_decide_eq_false_2 (S (length c) = 1)), (bool_decide_eq_true_2 (Some nm = Some nm));
    [|done|by destruct c]. simpl.
  destruct (smallest 0 0 (default "" (head c)) c) as [i s] eqn:Hs.
  apply (smallest_spec [] _ _ _ c c) in Hs as [Hi Hmin]; [|done|done|by destruct c|by intros x ?%elem_of_nil].
  assert (∀ x, x ∈ c ↔ rtc (up (parent_name f)) nm x) as Hin.
  { intros x. rewrite <- (AncestryNames_elem _ _ _ Hl), Ha, elem_of_cons. set_solver. }
  assert (rtc (up (parent_name f)) nm s) as Hr by (by eapply Hin, list_elem_of_lookup_2).
  destruct (rtc_live _ _ (mk_is_Some _ _ Hl) Hr) as [ls Hls].
  exists s, ls. split_and!; [done..| |].
  { intros x Hx. by apply Hmin, Hin. }
  apply list_elem_of_split_length in Hi as (l1 & l2 & Hsplit & ->).
  rewrite Hsplit in Hw, Hnd |- *. rewrite drop_app_length, take_app_length.
  apply (inj reverse). eapply full_walk_unique; [|by apply AncestryNames_walk].
  assert (reverse (l1 ++ s :: l2) = reverse l2 ++ s :: reverse l1) as Hrev.
  { by rewrite reverse_app, reverse_cons, <- app_assoc. }
  rewrite Hrev in Hw. apply NoDup_reverse in Hnd. rewrite Hrev in Hnd.
  apply full_walk_rotate in Hw; [|done..].
  rewrite !reverse_app, !reverse_cons. cbn. by rewrite (app_assoc (reverse l1)).
Qed.

Lemma CycleNames_canonical nm l nm' l' : f_namespaces f !! nm = Some l → f_namespaces f !! nm' = Some l' →
  in_cycle (parent_name f) nm → rtc (up (parent_name f)) nm nm' → CycleNames f l = CycleNames f l'.
Proof.
  intros Hl Hl' Hc Hr. pose proof (in_cycle_reach _ _ _ Hc Hr) as Hc'.
  pose proof (in_cycle_back _ _ _ Hc Hr) as Hb.
  destruct (CycleNames_smallest _ _ Hl Hc) as (s & ls & Hs & Hrs & Hmin & ->).
  destruct (CycleNames_smallest _ _ Hl' Hc') as (s' & ls' & Hs' & Hrs' & Hmin' & ->).
  assert (s = s') as <-; [|congruence].
  apply (anti_symm String.le); 
    [apply Hmin; by transitivity nm'|apply Hmin'; by transitivity nm].
Qed.

(** ** CanSetParent *)
Lemma can_set_scan (x : string) l cyc :
  (fold_left (λ '(cycle, found) nm,
      if found : bool then (cycle, found) else (cycle ++ [nm], bool_decide (nm = x))) l (cyc, false)).2
  = bool_decide (x ∈ l).
Proof.
  assert (∀ l cyc, (fold_left (λ '(cycle, found) nm,
      if found : bool then (cycle, found) else (cycle ++ [nm], bool_decide (nm = x))) l (cyc, true)).2
    = true) as Htrue by (intros l'; induction l'; simpl; auto).
  revert cyc. induction l as [|y l IH]; intros cyc; simpl; [done|].
  destruct (decide (y = x)) as [->|Hne].
  - rewrite (bool_decide_eq_true_2 (x = x)) by done. rewrite Htrue. symmetry.
    apply bool_decide_eq_true_2. by left.
  - rewrite (bool_decide_eq_false_2 (y = x)) by done. rewrite IH. apply bool_decide_ext. set_solver.
Qed.

Lemma quoted_nonempty s t : quoted s +:+ t ≠ "".
Proof. unfold quoted. by rewrite string_app_assoc. Qed.

Lemma CanSetParent_spec nm l pnm p : f_namespaces f !! nm = Some l → f_namespaces f !! pnm = Some p →
  CanSetParent f l (Some p) = "" ↔ ¬ rtc (up (parent_name f)) pnm nm.
Proof.
  intros Hl Hp. unfold CanSetParent. destruct (decide (p = l)) as [->|Hne].
  - assert (pnm = nm) as -> by (by eapply live_inj). split.
    + intros Hm. by apply quoted_nonempty in Hm.
    + intros Hn. exfalso. by apply Hn.
  - rewrite (live_name _ _ Hl). pose proof (can_set_scan nm (reverse (AncestryNames f (Some p))) []) as Hsc.
    destruct (fold_left _ _ _) as [cyc found]. simpl in Hsc. subst found.
    case_bool_decide as Hin; rewrite elem_of_reverse, (AncestryNames_elem _ _ _ Hp) in Hin; naive_solver.
Qed.
End wf_facts.

(** ** Preservation of the invariant *)
Definition shape (n : Namespace) := (links n, ns_exists n).

Lemma shape_links n n' : shape n = shape n' → links n = links n'.
Proof. unfold shape. congruence. Qed.

Lemma no_usage_shape n n' : no_usage n = no_usage n' → shape n = shape n'.
Proof. intros Hn. unfold shape. by rewrite (no_usage_links _ _ Hn), (no_usage_exists _ _ Hn). Qed.

Lemma shape_deref f f' l : heap_sim shape f f' →
  ns_name (deref f' l) = ns_name (deref f l) ∧ ns_parent (deref f' l) = ns_parent (deref f l) ∧
  ns_children (deref f' l) = ns_children (deref f l) ∧ ns_exists (deref f' l) = ns_exists (deref f l).
Proof.
  intros Hs. pose proof (heap_sim_deref _ _ _ l Hs) as Hd. unfold shape, links in Hd.
  split_and!; congruence.
Qed.

#[export] Instance wf_proper e : Proper (heap_sim shape ==> iff) (wf_but e).
Proof.
  assert (∀ f f', heap_sim shape f f' → wf_but e f → wf_but e f') as Himp.
  { intros f f' Hs Hwf. pose proof (λ l, shape_deref f f' l Hs) as Hd.
    pose proof Hs as (Hn & Hx & _). split.
    - intros nm l Hl. rewrite <- Hn in Hl. destruct (Hd l) as (-> & _).
      rewrite <- (heap_sim_dom _ f f') by done. by eapply wf_name.
    - intros nm l p Hl Hp. rewrite <- Hn in *. destruct (Hd l) as (_ & Hpar & _).
      rewrite Hpar in Hp. destruct (Hd p) as (_ & _ & -> & _). by eapply wf_parent.
    - intros nm l c cl Hl Hc. rewrite <- Hn in *. destruct (Hd l) as (_ & _ & Hch & _).
      rewrite Hch in Hc. destruct (Hd cl) as (_ & -> & _). by eapply wf_child.
    - intros nm l Hl Hne He. rewrite <- Hn in *. destruct (Hd l) as (_ & Hpar & _ & Hex).
      rewrite Hex in He. rewrite Hpar. by eapply wf_ghost.
    - intros l Hl. rewrite <- Hx. eapply wf_next; [done|]. by apply (heap_sim_dom shape f f'). }
  intros f f' Hs. split; apply Himp; [done|by symmetry].
Qed.

Lemma wf_upd e l g f : (∀ n, shape (g n) = shape n) → wf_but e f → wf_but e (upd l g f).
Proof. intros Hg Hwf. by rewrite <- (heap_sim_upd _ l g f Hg). Qed.

Lemma deref_upd_eq l g f : is_Some (f_heap f !! l) → deref (upd l g f) l = g (deref f l).
Proof. intros [n Hn]. unfold deref, upd. simpl. by rewrite lookup_alter_eq, Hn. Qed.

Lemma deref_upd_ne l l' g f : l ≠ l' → deref (upd l g f) l' = deref f l'.
Proof. intros Hne. unfold deref, upd. simpl. by rewrite lookup_alter_ne. Qed.

Lemma upd_dom l l' g f : is_Some (f_heap (upd l g f) !! l') ↔ is_Some (f_heap f !! l').
Proof.
  simpl. destruct (decide (l = l')) as [<-|Hne].
  - rewrite lookup_alter_eq. apply fmap_is_Some.
  - by rewrite lookup_alter_ne.
Qed.

Lemma wf_NewForest : wf NewForest.
Proof. split; unfold NewForest; simpl; intros *; rewrite ?lookup_empty; try done; by intros []. Qed.

Lemma Get_present {e} nm l f : wf_but e f → f_namespaces f !! nm = Some l → Get nm f = (Some l, f).
Proof.
  intros Hwf Hl. unfold Get. rewrite decide_False by (by eapply wf_name). by rewrite Hl.
Qed.

(** An unknown name gets a fresh object: no links, nothing else touched. *)
Lemma wf_Get nm f l f' : wf f → Get nm f = (Some l, f') →
  wf f' ∧ f_namespaces f' = <[nm:=l]> (f_namespaces f) ∧ is_Some (f_heap f' !! l) ∧ (∀ l', is_Some (f_heap f !! l') → deref f' l' = deref f l') ∧
  (f_namespaces f !! nm = None → deref f' l = newNamespace nm).
Proof.
  intros Hwf. unfold Get. destruct (decide (nm = "")); [done|].
  destruct (f_namespaces f !! nm) as [l0|] eqn:Hl0; intros Hg; simplify_eq.
  { rewrite insert_id by done. split_and!; [done..|by eapply wf_name|done|done]. }
  set (l := f_next f). assert (f_heap f !! l = None) as Hfresh.
  { apply eq_None_not_Some. intros Hs%(wf_next f Hwf). lia. }
  assert (∀ l', is_Some (f_heap f !! l') → l' ≠ l) as Hne by (intros l' [] ->; congruence).
  assert (∀ x lx, f_namespaces f !! x = Some lx → lx ≠ l) as Hlive.
  { intros x lx Hx. by apply Hne, (wf_name _ Hwf _ _ Hx). }
  match goal with |- wf ?g ∧ _ => set (f' := g) end.
  assert (∀ l', l' ≠ l → deref f' l' = deref f l') as Hd.
  { intros l' Hn. unfold deref, f'. simpl. by rewrite lookup_insert_ne. }
  assert (deref f' l = newNamespace nm) as Hdl by (unfold deref, f'; simpl; by rewrite lookup_insert_eq).
  split; [|split_and!; [done|unfold f'; simpl; by rewrite lookup_insert_eq|intros l' ?; by apply Hd, Hne|done]].
  assert (∀ x lx, f_namespaces f' !! x = Some lx → x = nm ∧ lx = l ∨ f_namespaces f !! x = Some lx ∧ x ≠ nm ∧ lx ≠ l) as Hcase.
  { intros x lx. unfold f'. simpl. intros [[<- <-]|[? Hx]]%lookup_insert_Some; [by left|right]. eauto. }
  assert (∀ x lx, f_namespaces f !! x = Some lx → f_namespaces f' !! x = Some lx) as Hmono.
  { intros x lx Hx. unfold f'. simpl. rewrite lookup_insert_ne; [done|congruence]. }
  split.
  - intros x lx [[-> ->]|(Hx & _ & Hn)]%Hcase.
    + rewrite Hdl. split_and!; [done| |done]. unfold f'. simpl. by rewrite lookup_insert_eq.
    + rewrite Hd by done. destruct (wf_name _ Hwf _ _ Hx) as (? & ? & ?). split_and!; [done| |done].
      unfold f'. simpl. by rewrite lookup_insert_ne.
  - intros x lx p [[-> ->]|(Hx & _ & Hn)]%Hcase; [by rewrite Hdl|]. rewrite Hd by done. intros Hp.
    destruct (wf_parent _ Hwf _ _ _ Hx Hp) as (pnm & Hpl & Hc). exists pnm.
    rewrite Hd by eauto. eauto.
  - intros x lx c cl [[-> ->]|(Hx & _ & Hn)]%Hcase; [by rewrite Hdl|]. rewrite Hd by done. intros Hc.
    destruct (wf_child _ Hwf _ _ _ _ Hx Hc) as (Hcl & Hp). rewrite Hd by eauto. eauto.
  - intros x lx [[-> ->]|(Hx & _ & Hn)]%Hcase; [by rewrite Hdl|]. rewrite Hd by done. by eapply wf_ghost.
  - intros l'. unfold f'. simpl. intros [o [[<- _]|[? Hl']]%lookup_insert_Some]; [lia|].
    etrans; [by eapply wf_next|]. lia.
Qed.

(** ** SetParent *)
Section with_order.
  Context `{RO : RangeOrder}.

(** Usage accounting changes nothing but usages. *)
Lemma UseResources_sim {e} nm l u f : wf_but e f → f_namespaces f !! nm = Some l →
  heap_sim no_usage f (UseResources l u f).
Proof.
  intros Hwf Hl. unfold UseResources. destruct (Equals _ _); [reflexivity|].
  assert (∀ u', heap_sim no_usage f (upd l (set_local u') f)) as Hloc.
  { intros u'. apply heap_sim_upd. by intros []. }
  assert (∀ x, x ∈ AncestryNames f (Some l) → is_Some (f_namespaces f !! x)) as Hanc.
  { intros x. by apply (AncestryNames_live f Hwf nm). }
  set (f1 := upd l _ f). set (names := AncestryNames f1 (Some l)).
  assert (heap_sim no_usage f f1) as Hf1 by apply Hloc.
  assert (∀ x, x ∈ names → is_Some (f_namespaces f !! x)) as Hn.
  { intros x Hx. apply Hanc. rewrite (AncestryNames_links f f1); [done|].
    by eapply heap_sim_mono, Hf1; apply no_usage_links. }
  clearbody f1 names. clear Hloc Hanc. revert f1 Hf1. induction names as [|x names IH]; intros f1 Hf1; simpl; [done|].
  destruct (Hn x) as [lx Hlx]; [by left|].
  assert (wf_but e f1) as Hwf1.
  { rewrite <- (heap_sim_mono _ _ _ _ no_usage_shape Hf1). done. }
  assert (f_namespaces f1 !! x = Some lx) as Hlx1 by (by destruct Hf1 as [<- _]).
  unfold charge at 2. rewrite (Get_present x lx f1 Hwf1 Hlx1). apply IH; [intros y Hy; apply Hn; by right|].
  etrans; [exact Hf1|]. apply heap_sim_upd. by intros [].
Qed.

Lemma wf_UseResources {e} nm l u f : wf_but e f → f_namespaces f !! nm = Some l → wf_but e (UseResources l u f).
Proof.
  intros Hwf Hl. rewrite <- (heap_sim_mono _ _ _ _ no_usage_shape (UseResources_sim nm l u f Hwf Hl)). done.
Qed.
End with_order.

(** What [unlink] leaves, with the namespace made a root. *)
Definition unlinked (l : loc) (f : Forest) : Forest := upd l (set_parent None) (unlink l f).

Lemma link_unlinked l p f : link l p (unlinked l f) = link l p (unlink l f).
Proof.
  unfold link, unlinked.
  assert (upd l (set_parent p) (upd l (set_parent None) (unlink l f)) = upd l (set_parent p) (unlink l f)) as ->;
    [|done].
  unfold upd, set_heap. f_equal. simpl. apply map_eq. intros x. destruct (decide (l = x)) as [<-|Hne].
  - rewrite !lookup_alter_eq. by destruct (f_heap _ !! l).
  - by rewrite !lookup_alter_ne.
Qed.

Lemma unlink_root l f : ns_parent (deref f l) = None → unlinked l f = f.
Proof.
  intros Hp. unfold unlinked, unlink. rewrite Hp. unfold upd. destruct f as [m h nx ts ls]. unfold set_heap. simpl in *.
  f_equal. apply alter_id. intros n Hn. unfold deref in Hp. simpl in Hp. rewrite Hn in Hp. simpl in Hp.
  destruct n. unfold set_parent. simpl in *. by rewrite Hp.
Qed.

Section unlink.
  Context (f : Forest) (Hwf : wf f) (nm : string) (l : loc) (Hl : f_namespaces f !! nm = Some l).
  Context (qnm : string) (q : loc) (Hp : ns_parent (deref f l) = Some q) (Hq : f_namespaces f !! qnm = Some q).
Let f' := unlinked l f.

Lemma unlinked_views x :
  ns_name (deref f' x) = ns_name (deref f x) ∧
  ns_parent (deref f' x) = (if decide (x = l) then None else ns_parent (deref f x)) ∧
  ns_children (deref f' x) = (if decide (x = q) then delete nm (ns_children (deref f x)) else ns_children (deref f x)) ∧
  ns_exists (deref f' x) = ns_exists (deref f x) ∧
  (is_Some (f_heap f' !! x) ↔ is_Some (f_heap f !! x)).
Proof.
  unfold f', unlinked, unlink. rewrite Hp, (live_name f Hwf _ _ Hl).
  set (g := upd q _ f).
  assert (∀ g', f_heap g' = f_heap g → 
     deref (upd l (set_parent None) g') x = deref (upd l (set_parent None) g) x ∧
     f_heap (upd l (set_parent None) g') !! x = f_heap (upd l (set_parent None) g) !! x) as Hsame.
  { intros g' Hh. unfold deref, upd. simpl. by rewrite Hh. }
  assert (is_Some (f_heap f !! l)) as Hlh by (by eapply wf_name).
  assert (is_Some (f_heap f !! q)) as Hqh by (by eapply wf_name).
  destruct (Hsame (if decide (size (ns_children (deref g q)) = 0) then clean q g else g)) as [-> ->].
  { destruct (decide _); [|done]. unfold clean. by destruct (_ || _). }
  rewrite upd_dom. unfold g. rewrite upd_dom.
  destruct (decide (x = l)) as [->|Hxl].
  - rewrite deref_upd_eq by (by apply upd_dom). destruct (decide (l = q)) as [<-|Hlq].
    + rewrite deref_upd_eq by done. by destruct (deref f l).
    + rewrite deref_upd_ne by done. by destruct (deref f l).
  - rewrite deref_upd_ne by done. destruct (decide (x = q)) as [->|Hxq].
    + rewrite deref_upd_eq by done. by destruct (deref f q).
    + rewrite deref_upd_ne by done. done.
Qed.

Lemma unlinked_namespaces :
  f_namespaces f' = f_namespaces f ∨
  f_namespaces f' = delete qnm (f_namespaces f) ∧ ns_exists (deref f q) = false ∧
    delete nm (ns_children (deref f q)) = ∅.
Proof.
  assert (is_Some (f_heap f !! q)) as Hqh by (by eapply wf_name).
  unfold f', unlinked, unlink. rewrite Hp, (live_name f Hwf _ _ Hl). simpl.
  rewrite deref_upd_eq by done. destruct (decide _) as [Hz|]; [|by left].
  unfold clean. rewrite deref_upd_eq by done. simpl in *.
  rewrite (live_name f Hwf _ _ Hq). destruct (ns_exists (deref f q)) eqn:He; [by left|].
  rewrite bool_decide_eq_false_2 by lia. right. split_and!; [done..|]. by apply map_size_empty_inv.
Qed.

Lemma unlinked_next : f_next f' = f_next f.
Proof.
  unfold f', unlinked, unlink. rewrite Hp. destruct (decide _); [|done].
  unfold clean. by destruct (_ || _).
Qed.

Lemma unlinked_live x lx : f_namespaces f' !! x = Some lx → f_namespaces f !! x = Some lx.
Proof.
  destruct unlinked_namespaces as [->|(-> & _)]; [done|]. by intros [_ ?]%lookup_delete_Some.
Qed.

(** Every name but that of a ghost that lost its last child stays. *)
Lemma unlinked_stays x lx : f_namespaces f !! x = Some lx → 
  x ≠ qnm ∨ ns_exists (deref f q) = true ∨ (∃ c cl, c ≠ nm ∧ ns_children (deref f q) !! c = Some cl) →
  f_namespaces f' !! x = Some lx.
Proof.
  intros Hx Hor. destruct unlinked_namespaces as [->|(-> & Hq' & He)]; [done|].
  destruct (decide (x = qnm)) as [->|]; [exfalso|by rewrite lookup_delete_ne].
  destruct Hor as [?|[?|(c & cl & Hne & Hc)]]; [done|congruence|].
  apply (f_equal (lookup c)) in He. rewrite lookup_delete_ne, Hc in He by done. done.
Qed.

Lemma wf_unlinked : wf f'.
Proof.
  split.
  - intros x lx Hx%unlinked_live. destruct (unlinked_views lx) as (-> & _ & _ & _ & ->). by eapply wf_name.
  - intros x lx p Hx%unlinked_live. destruct (unlinked_views lx) as (_ & -> & _).
    destruct (decide (lx = l)) as [|Hne]; [done|]. intros Hp'.
    destruct (wf_parent _ Hwf _ _ _ Hx Hp') as (pnm & Hpl & Hc). exists pnm.
    assert (x ≠ nm) as Hxn by congruence.
    destruct (unlinked_views p) as (_ & _ & -> & _). split.
    + apply unlinked_stays; [done|]. destruct (decide (p = q)) as [->|]; [right; right; eauto|left; congruence].
    + destruct (decide (p = q)); [by rewrite lookup_delete_ne|done].
  - intros x lx c cl Hx%unlinked_live. destruct (unlinked_views lx) as (_ & _ & -> & _). intros Hc.
    assert (ns_children (deref f lx) !! c = Some cl ∧ (lx = q → c ≠ nm)) as [Hc' Hnm].
    { destruct (decide (lx = q)); [by apply lookup_delete_Some in Hc as []|done]. }
    destruct (wf_child _ Hwf _ _ _ _ Hx Hc') as [Hcl Hpc].
    assert (cl ≠ l) as Hcl'.
    { intros ->. rewrite Hp in Hpc. simplify_eq. apply Hnm; [done|]. by eapply live_inj. }
    destruct (unlinked_views cl) as (_ & -> & _). rewrite decide_False by done. split; [|done].
    apply unlinked_stays; [done|]. destruct (decide (c = qnm)) as [->|]; [|by left].
    right; left. destruct (ns_exists (deref f q)) eqn:He; [done|].
    pose proof (wf_ghost _ Hwf _ _ Hq ltac:(done) He). congruence.
  - intros x lx Hx%unlinked_live. destruct (unlinked_views lx) as (_ & -> & _ & -> & _).
    destruct (decide (lx = l)); [done|]. by eapply wf_ghost.
  - intros x. destruct (unlinked_views x) as (_ & _ & _ & _ & ->). rewrite unlinked_next. by eapply wf_next.
Qed.
End unlink.

Section link.
  Context (f : Forest) (Hwf : wf f) (nm : string) (l : loc) (Hl : f_namespaces f !! nm = Some l).
  Context (Hroot : ns_parent (deref f l) = None).
  Context (qnm : string) (q : loc) (Hq : f_namespaces f !! qnm = Some q).
Let f' := link l (Some q) f.

Lemma link_views x :
  ns_name (deref f' x) = ns_name (deref f x) ∧
  ns_parent (deref f' x) = (if decide (x = l) then Some q else ns_parent (deref f x)) ∧
  ns_children (deref f' x) = (if decide (x = q) then <[nm:=l]> (ns_children (deref f x)) else ns_children (deref f x)) ∧
  ns_exists (deref f' x) = ns_exists (deref f x) ∧
  (is_Some (f_heap f' !! x) ↔ is_Some (f_heap f !! x)).
Proof.
  assert (is_Some (f_heap f !! l)) as Hlh by (by eapply wf_name).
  assert (is_Some (f_heap f !! q)) as Hqh by (by eapply wf_name).
  unfold f', link. rewrite deref_upd_eq, !upd_dom by done. cbn [ns_name set_parent].
  rewrite (live_name f Hwf _ _ Hl).
  destruct (decide (x = q)) as [->|Hxq].
  - rewrite deref_upd_eq by (by apply upd_dom). destruct (decide (q = l)) as [->|Hql].
    + rewrite deref_upd_eq by done. by destruct (deref f l).
    + rewrite deref_upd_ne by done. by destruct (deref f q).
  - rewrite deref_upd_ne by done. destruct (decide (x = l)) as [->|Hxl].
    + rewrite deref_upd_eq by done. by destruct (deref f l).
    + by rewrite deref_upd_ne by done.
Qed.

Lemma wf_link : wf_but (Some l) f'.
Proof.
  assert (f_namespaces f' = f_namespaces f) as Hn by done. split; rewrite ?Hn.
  - intros x lx Hx. destruct (link_views lx) as (-> & _ & _ & _ & ->). by eapply wf_name.
  - intros x lx p Hx. destruct (link_views lx) as (_ & -> & _). destruct (link_views p) as (_ & _ & -> & _).
    destruct (decide (lx = l)) as [->|Hne].
    + intros Heq. simplify_eq. exists qnm. rewrite decide_True by done. split; [done|].
      rewrite (live_inj f Hwf _ _ _ Hx Hl). by rewrite lookup_insert_eq.
    + intros Hp. destruct (wf_parent _ Hwf _ _ _ Hx Hp) as (pnm & Hpl & Hc). exists pnm. split; [done|].
      destruct (decide (p = q)); [|done]. rewrite lookup_insert_ne; [done|congruence].
  - intros x lx c cl Hx. destruct (link_views lx) as (_ & _ & -> & _). destruct (link_views cl) as (_ & -> & _).
    intros Hc. assert (lx = q ∧ c = nm ∧ cl = l ∨ ns_children (deref f lx) !! c = Some cl) as [(-> & -> & ->)|Hc'].
    { destruct (decide (lx = q)); [|by right]. apply lookup_insert_Some in Hc as [[<- <-]|[_ ?]]; auto. }
    + by rewrite decide_True.
    + destruct (wf_child _ Hwf _ _ _ _ Hx Hc') as [Hcl Hpc]. rewrite decide_False; [done|congruence].
  - intros x lx Hx Hne. destruct (link_views lx) as (_ & -> & _ & -> & _).
    destruct (decide (lx = l)); [congruence|]. by eapply wf_ghost.
  - intros x. destruct (link_views x) as (_ & _ & _ & _ & ->). by eapply wf_next.
Qed.
End link.

(** [f'] is [f] with the parent of [nm] set to the name [o]: names, existence
    and every other parent are unchanged, except that an unused ghost that was the
    old parent is forgotten. *)
Record reparented (f f' : Forest) (nm : string) (o : option string) : Prop := {
  rp_wf : wf_but (f_namespaces f !! nm) f';
  rp_parent x : parent_name f' x = if decide (x = nm) then o else parent_name f x;
  rp_live x : f_namespaces f' !! x = f_namespaces f !! x ∨
    f_namespaces f' !! x = None ∧ parent_name f nm = Some x ∧ ns_exists (ns_at f x) = false;
  rp_self : f_namespaces f' !! nm = f_namespaces f !! nm;
  rp_exists l : ns_exists (deref f' l) = ns_exists (deref f l);
  rp_names l : ns_name (deref f' l) = ns_name (deref f l)
}.

Lemma parent_name_view f f' x :
  f_namespaces f' !! x = f_namespaces f !! x → (∀ l, ns_name (deref f' l) = ns_name (deref f l)) →
  parent_name f' x = (p ← (if f_namespaces f !! x is Some lx then ns_parent (deref f' lx) else None); Some (ns_name (deref f p))).
Proof.
  intros Hn Hnm. unfold parent_name, ns_at. rewrite Hn. destruct (f_namespaces f !! x); [|done].
  destruct (ns_parent _); [|done]. simpl. by rewrite Hnm.
Qed.

Lemma unlinked_wf f nm l : wf f → f_namespaces f !! nm = Some l → wf (unlinked l f).
Proof.
  intros Hwf Hl. destruct (ns_parent (deref f l)) as [q|] eqn:Hp; [|by rewrite unlink_root].
  destruct (wf_parent _ Hwf _ _ _ Hl Hp) as (qnm & Hq & Hc). by eapply wf_unlinked.
Qed.

Lemma unlinked_reparented f nm l : wf f → f_namespaces f !! nm = Some l → reparented f (unlinked l f) nm None.
Proof.
  intros Hwf Hl. destruct (ns_parent (deref f l)) as [q|] eqn:Hp.
  2:{ rewrite unlink_root by done. split; auto using wf_but_weaken. intros x. destruct (decide (x = nm)) as [->|]; [|done].
      by rewrite (parent_name_live f nm l Hl), Hp. }
  destruct (wf_parent _ Hwf _ _ _ Hl Hp) as (qnm & Hq & Hc).
  pose proof (λ x, unlinked_views f Hwf nm l Hl qnm q Hp Hq x) as Hv.
  assert (parent_name f nm = Some qnm) as Hpn by (apply (parent_name_Some f Hwf); eauto).
  assert (ns_exists (deref f q) = false → nm ≠ qnm) as Hgh.
  { intros He ->. assert (l = q) as <- by congruence. rewrite (wf_ghost _ Hwf _ _ Hl ltac:(done) He) in Hp. done. }
  assert (f_namespaces (unlinked l f) !! nm = f_namespaces f !! nm) as Hself.
  { rewrite Hl. apply (unlinked_stays f Hwf nm l Hl qnm q Hp Hq); [done|].
    destruct (ns_exists (deref f q)) eqn:He; auto. }
  split; [by eapply wf_but_weaken, unlinked_wf| | |done|intros x; by destruct (Hv x) as (_ & _ & _ & ? & _)|intros x; by destruct (Hv x)].
  - assert (∀ x, f_namespaces (unlinked l f) !! x = f_namespaces f !! x →
      parent_name (unlinked l f) x = if decide (x = nm) then None else parent_name f x) as Hpar.
    { intros x Hn. rewrite (parent_name_view f) by (done || intros x'; by destruct (Hv x')).
      unfold parent_name, ns_at. destruct (f_namespaces f !! x) as [lx|] eqn:Hlx; [|by destruct (decide _)].
      destruct (Hv lx) as (_ & -> & _). destruct (decide (lx = l)) as [->|Hne].
      - by rewrite decide_True by (by eapply live_inj).
      - rewrite decide_False; [done|congruence]. }
    intros x. destruct (unlinked_namespaces f Hwf nm l Hl qnm q Hp Hq) as [Hn|(Hn & He & _)];
      [apply Hpar; by rewrite Hn|].
    destruct (decide (x = qnm)) as [->|Hx]; [|apply Hpar; by rewrite Hn, lookup_delete_ne].
    rewrite decide_False by (intros ->; by apply Hgh). unfold parent_name at 1, ns_at. rewrite Hn, lookup_delete_eq.
    by rewrite (parent_name_live f _ _ Hq), (wf_ghost _ Hwf _ _ Hq ltac:(done) He).
  - intros x. destruct (unlinked_namespaces f Hwf nm l Hl qnm q Hp Hq) as [->|(-> & He & _)]; [by left|].
    destruct (decide (x = qnm)) as [->|Hx]; [right|left; by rewrite lookup_delete_ne].
    rewrite lookup_delete_eq, (ns_at_live _ _ _ Hq). done.
Qed.

Lemma link_reparented f nm l qnm q : wf f → f_namespaces f !! nm = Some l → ns_parent (deref f l) = None →
  f_namespaces f !! qnm = Some q → reparented f (link l (Some q) f) nm (Some qnm).
Proof.
  intros Hwf Hl Hroot Hq. pose proof (λ x, link_views f Hwf nm l Hl Hroot qnm q Hq x) as Hv.
  split; [rewrite Hl; by eapply wf_link| |by left|done|intros x; by destruct (Hv x) as (_ & _ & _ & ? & _)|intros x; by destruct (Hv x)].
  intros x. rewrite (parent_name_view f) by (done || intros x'; by destruct (Hv x')).
  unfold parent_name, ns_at. destruct (f_namespaces f !! x) as [lx|] eqn:Hlx.
  - destruct (Hv lx) as (_ & -> & _). destruct (decide (lx = l)) as [->|Hne].
    + rewrite decide_True by (by eapply live_inj). simpl. by rewrite (live_name f Hwf _ _ Hq).
    + rewrite decide_False; [done|congruence].
  - rewrite decide_False; [done|congruence].
Qed.

Lemma reparented_sim_l f g g' nm o : heap_sim shape f g → reparented g g' nm o → reparented f g' nm o.
Proof.
  intros Hs [Hw Hp Hlv Hself Hex Hnm]. pose proof (λ l, shape_deref f g l Hs) as Hd.
  pose proof Hs as (Hn & _). 
  assert (∀ x, parent_name g x = parent_name f x) as Hpn.
  { intros x. symmetry. by eapply parent_name_links, heap_sim_mono, Hs; apply shape_links. }
  assert (∀ x, ns_exists (ns_at g x) = ns_exists (ns_at f x)) as Hexg.
  { intros x. unfold ns_at. rewrite Hn. destruct (f_namespaces g !! x) as [l|]; [|done]. by destruct (Hd l) as (_ & _ & _ & ?). }
  split; try rewrite Hn; try done.
  - intros x. rewrite Hp. by rewrite Hpn.
  - intros x. rewrite <- Hpn, <- Hexg. apply Hlv.
  - intros l. rewrite Hex. by destruct (Hd l) as (_ & _ & _ & ?).
  - intros l. rewrite Hnm. by destruct (Hd l).
Qed.

Lemma reparented_sim_r f g g' nm o : heap_sim shape g g' → reparented f g nm o → reparented f g' nm o.
Proof.
  intros Hs [Hw Hp Hlv Hself Hex Hnm]. pose proof (λ l, shape_deref g g' l Hs) as Hd.
  pose proof Hs as (Hn & _). split; try rewrite <- Hn; try done.
  - by rewrite <- Hs.
  - intros x. rewrite <- Hp. symmetry. by eapply parent_name_links, heap_sim_mono, Hs; apply shape_links.
  - intros l. rewrite <- Hex. by destruct (Hd l) as (_ & _ & _ & ?).
  - intros l. rewrite <- Hnm. by destruct (Hd l).
Qed.

Lemma reparented_trans f g h nm o o' : reparented f g nm o → reparented g h nm o' →
  f_namespaces h = f_namespaces g → reparented f h nm o'.
Proof.
  intros [_ Hp Hlv Hs He Hnm] [Hw' Hp' _ _ He' Hnm'] Hn. rewrite Hs in Hw'. split; rewrite ?Hn; try done.
  - intros x. rewrite Hp', Hp. by destruct (decide _).
  - intros x. by rewrite He'.
  - intros x. by rewrite Hnm'.
Qed.

Section set_parent.
  Context `{RO : RangeOrder}.

Lemma SetParent_sim f nm l p : wf f → f_namespaces f !! nm = Some l →
  (∀ g, heap_sim shape f g → reparented f (link l p (unlink l g)) nm ((λ q, ns_name (deref f q)) <$> p)) →
  reparented f (SetParent l p f) nm ((λ q, ns_name (deref f q)) <$> p).
Proof.
  intros Hwf Hl Hg. unfold SetParent. destruct (local_of (deref f l)) as [u|]; [|by apply Hg].
  pose proof (UseResources_sim nm l emptyRL f Hwf Hl) as Hs.
  pose proof (Hg _ (heap_sim_mono _ _ _ _ no_usage_shape Hs)) as Hr.
  eapply reparented_sim_r, Hr. eapply heap_sim_mono, (UseResources_sim nm); [apply no_usage_shape|by eapply rp_wf|].
  by rewrite (rp_self _ _ _ _ Hr).
Qed.

(** What [SetParent] may be asked: a new parent that is in the forest and is not
    the present one. *)
Definition can_reparent (f : Forest) (l : loc) (p : option loc) : Prop :=
  ∀ q, p = Some q → ns_parent (deref f l) ≠ Some q ∧ ∃ qnm, f_namespaces f !! qnm = Some q.

Lemma relink_reparented f nm l p g : wf f → f_namespaces f !! nm = Some l → can_reparent f l p →
  heap_sim shape f g → reparented f (link l p (unlink l g)) nm ((λ q, ns_name (deref f q)) <$> p).
Proof.
  intros Hwf Hl Hp Hs.
  assert (wf g) as Hwg by (by rewrite <- Hs).
  assert (f_namespaces g !! nm = Some l) as Hlg by (by destruct Hs as [<- _]).
  eapply reparented_sim_l; [exact Hs|]. pose proof (unlinked_reparented g nm l Hwg Hlg) as Hu.
  destruct (shape_deref _ _ l Hs) as (_ & Hpar & _ & Hex).
  destruct p as [q|]; [|exact Hu]. rewrite <- link_unlinked. cbn [fmap option_fmap option_map].
  destruct (Hp q) as (Hne & qnm & Hq); [done|]. rewrite (live_name f Hwf _ _ Hq).
  assert (f_namespaces g !! qnm = Some q) as Hqg by (by destruct Hs as [<- _]).
  assert (parent_name g nm ≠ Some qnm) as Hnp.
  { intros (? & ? & ? & ? & ?)%(parent_name_Some g Hwg). simplify_eq. congruence. }
  assert (f_namespaces (unlinked l g) !! qnm = Some q) as Hqu.
  { destruct (rp_live _ _ _ _ Hu qnm) as [->|(_ & ? & _)]; [done|congruence]. }
  assert (f_namespaces (unlinked l g) !! nm = Some l) as Hlu by (by rewrite (rp_self _ _ _ _ Hu)).
  assert (ns_parent (deref (unlinked l g) l) = None) as Hroot.
  { pose proof (rp_parent _ _ _ _ Hu nm) as Hn. rewrite decide_True in Hn by done.
    rewrite (parent_name_live _ _ _ Hlu) in Hn. by apply fmap_None in Hn. }
  pose proof (link_reparented _ _ _ _ _ (unlinked_wf g nm l Hwg Hlg) Hlu Hroot Hqu) as Hk.
  by eapply reparented_trans.
Qed.
Lemma SetParent_reparented f nm l p : wf f → f_namespaces f !! nm = Some l → can_reparent f l p →
  reparented f (SetParent l p f) nm ((λ q, ns_name (deref f q)) <$> p).
Proof. intros Hwf Hl Hp. apply SetParent_sim; [done..|]. intros g Hs. by apply relink_reparented. Qed.

(** Everything else about a namespace is untouched. *)
Lemma SetParent_view {B} (π : Namespace → B) f nm l p :
  (∀ v n, π (set_parent v n) = π n) → (∀ v n, π (set_children v n) = π n) →
  (∀ n, π (no_usage n) = π n) → wf f → f_namespaces f !! nm = Some l → can_reparent f l p →
  ∀ x, π (deref (SetParent l p f) x) = π (deref f x).
Proof.
  intros Hsp Hsc Hnu Hwf Hl Hp x.
  assert (∀ f f', heap_sim no_usage f f' → π (deref f' x) = π (deref f x)) as Huse.
  { intros g g' Hs. rewrite <- (Hnu (deref g' x)), <- (Hnu (deref g x)). f_equal. symmetry. by apply heap_sim_deref. }
  assert (∀ h g y, (∀ n, π (h n) = π n) → π (deref (upd y h g) x) = π (deref g x)) as Hupd.
  { intros h g y Hh. symmetry. by apply heap_sim_deref, heap_sim_upd. }
  assert (∀ g, π (deref (link l p (unlink l g)) x) = π (deref g x)) as Hre.
  { intros g. unfold link. assert (π (deref (unlink l g) x) = π (deref g x)) as <-.
    { unfold unlink. destruct (ns_parent (deref g l)) as [q|]; [|done]. cbv zeta.
      destruct (decide _); [unfold clean; destruct (_ || _)|]; by rewrite <- (Hupd (λ n, set_children (delete (ns_name (deref g l)) (ns_children n)) n) g q). }
    destruct p; cbv zeta; rewrite ?Hupd by (intros; auto); auto. }
  unfold SetParent. destruct (local_of (deref f l)) as [u|]; [|by apply Hre].
  pose proof (UseResources_sim nm l emptyRL f Hwf Hl) as Hs.
  pose proof (relink_reparented f nm l p _ Hwf Hl Hp (heap_sim_mono _ _ _ _ no_usage_shape Hs)) as Hr.
  rewrite (Huse _ _ (UseResources_sim nm l _ _ (rp_wf _ _ _ _ Hr) ltac:(by rewrite (rp_self _ _ _ _ Hr)))).
  by rewrite Hre, (Huse _ _ Hs).
Qed.
End set_parent.

(** The invariant holds in full when the namespace exists or has become a root. *)
Lemma reparented_wf f f' nm l o : reparented f f' nm o → f_namespaces f !! nm = Some l →
  o = None ∨ ns_exists (deref f l) = true → wf f'.
Proof.
  intros Hr Hl Ho. pose proof (rp_wf _ _ _ _ Hr) as Hw. rewrite Hl in Hw. apply (wf_but_strengthen l); [done|].
  rewrite (rp_exists _ _ _ _ Hr). intros He. destruct Ho as [->|?]; [|congruence].
  pose proof (rp_parent _ _ _ _ Hr nm) as Hn. rewrite decide_True in Hn by done.
  assert (f_namespaces f' !! nm = Some l) as Hl' by (by rewrite (rp_self _ _ _ _ Hr)).
  rewrite (parent_name_live _ _ _ Hl') in Hn. by apply fmap_None in Hn.
Qed.

(** ** Existence *)
Lemma wf_set_exists f nm l b : wf_but (Some l) f → f_namespaces f !! nm = Some l →
  (b = false → ns_parent (deref f l) = None) → wf (upd l (set_exists b) f).
Proof.
  intros Hwf Hl Hb. assert (is_Some (f_heap f !! l)) as Hlh by (by eapply wf_name).
  assert (∀ x, links (deref (upd l (set_exists b) f) x) = links (deref f x)) as Hd.
  { intros x. destruct (decide (x = l)) as [->|]; [rewrite deref_upd_eq by done|rewrite deref_upd_ne by done]; [|done].
    by destruct (deref f l). }
  assert (∀ x, ns_name (deref (upd l (set_exists b) f) x) = ns_name (deref f x) ∧
    ns_parent (deref (upd l (set_exists b) f) x) = ns_parent (deref f x) ∧
    ns_children (deref (upd l (set_exists b) f) x) = ns_children (deref f x)) as Hv.
  { intros x. specialize (Hd x). unfold links in Hd. split_and!; congruence. }
  split.
  - intros x lx Hx. destruct (Hv lx) as (-> & _). rewrite upd_dom. exact (wf_name f Hwf _ _ Hx).
  - intros x lx p Hx. destruct (Hv lx) as (_ & -> & _). destruct (Hv p) as (_ & _ & ->). exact (wf_parent f Hwf _ _ _ Hx).
  - intros x lx c cl Hx. destruct (Hv lx) as (_ & _ & ->). destruct (Hv cl) as (_ & -> & _). exact (wf_child f Hwf _ _ _ _ Hx).
  - intros x lx Hx _. destruct (Hv lx) as (_ & -> & _). destruct (decide (lx = l)) as [->|].
    + rewrite deref_upd_eq by done. simpl. done.
    + rewrite deref_upd_ne by done. apply (wf_ghost f Hwf _ _ Hx). congruence.
  - intros x. rewrite upd_dom. exact (wf_next f Hwf x).
Qed.

Lemma wf_clean f nm l : wf f → f_namespaces f !! nm = Some l → ns_parent (deref f l) = None → wf (clean l f).
Proof.
  intros Hwf Hl Hroot. unfold clean. destruct (ns_exists _); [done|]. simpl.
  case_bool_decide as Hs; [done|]. rewrite (live_name f Hwf _ _ Hl).
  assert (ns_children (deref f l) = ∅) as Hc by (apply map_size_empty_inv; lia).
  assert (∀ x lx, delete nm (f_namespaces f) !! x = Some lx → f_namespaces f !! x = Some lx) as Hsub.
  { by intros x lx [_ ?]%lookup_delete_Some. }
  assert (∀ x lx, f_namespaces f !! x = Some lx → x ≠ nm → delete nm (f_namespaces f) !! x = Some lx) as Hkeep.
  { intros x lx Hx ?. by rewrite lookup_delete_ne. }
  split; cbn [f_namespaces set_namespaces]; [..|exact (wf_next f Hwf)].
  - intros x lx Hx%Hsub. exact (wf_name f Hwf _ _ Hx).
  - intros x lx p Hx%Hsub Hp. destruct (wf_parent _ Hwf _ _ _ Hx Hp) as (pnm & Hpl & Hch).
    exists pnm. split; [|done]. apply Hkeep; [done|]. intros ->. change (deref _ ?y) with (deref f y) in Hch. simplify_eq.
    by rewrite Hc, lookup_empty in Hch.
  - intros x lx c cl Hx%Hsub Hch. destruct (wf_child _ Hwf _ _ _ _ Hx Hch) as [Hcl Hp].
    split; [|done]. apply Hkeep; [done|]. intros ->. change (deref _ ?y) with (deref f y) in Hp. congruence.
  - intros x lx Hx%Hsub. exact (wf_ghost f Hwf _ _ Hx).
Qed.

Lemma wf_SetExists f nm l : wf_but (Some l) f → f_namespaces f !! nm = Some l → wf (SetExists l f).2.
Proof. intros. by eapply wf_set_exists. Qed.

Section unset_exists.
  Context `{RO : RangeOrder}.

Lemma wf_UnsetExists f nm l : wf f → f_namespaces f !! nm = Some l → wf (UnsetExists l f).2.
Proof.
  intros Hwf Hl. unfold UnsetExists. simpl.
  assert (reparented f (SetParent l None f) nm None) as Hr.
  { by apply (SetParent_reparented f nm l None Hwf Hl). }
  pose proof (reparented_wf _ _ _ _ _ Hr Hl (or_introl eq_refl)) as Hw.
  assert (f_namespaces (SetParent l None f) !! nm = Some l) as Hl'.
  { by rewrite (rp_self _ _ _ _ Hr). }
  assert (ns_parent (deref (SetParent l None f) l) = None) as Hroot.
  { pose proof (rp_parent _ _ _ _ Hr nm) as Hn. rewrite decide_True in Hn by done.
    rewrite (parent_name_live _ _ _ Hl') in Hn. by apply fmap_None in Hn. }
  apply (wf_clean _ nm); [by eapply wf_set_exists; [apply wf_but_weaken|..]|done|].
  rewrite deref_upd_eq by (by eapply wf_name). done.
Qed.

(** ** Changing the parent, and cycles *)
Lemma SetParent_acyclic f nm l qnm q : wf f → f_namespaces f !! nm = Some l → f_namespaces f !! qnm = Some q →
  ns_parent (deref f l) ≠ Some q → acyclic (parent_name f) →
  acyclic (parent_name (SetParent l (Some q) f)) ↔ CanSetParent f l (Some q) = "".
Proof.
  intros Hwf Hl Hq Hne Hac.
  assert (reparented f (SetParent l (Some q) f) nm (Some qnm)) as Hr.
  { rewrite <- (live_name f Hwf _ _ Hq). apply (SetParent_reparented f nm l (Some q) Hwf Hl).
    intros ? [= <-]. eauto. }
  rewrite (CanSetParent_spec f Hwf nm l qnm q Hl Hq).
  assert (parent_name (SetParent l (Some q) f) nm = Some qnm) as Hx.
  { rewrite (rp_parent _ _ _ _ Hr). by rewrite decide_True. }
  assert (∀ y, y ≠ nm → parent_name (SetParent l (Some q) f) y = parent_name f y) as Hy.
  { intros y Hy. rewrite (rp_parent _ _ _ _ Hr). by rewrite decide_False. }
  split.
  - intros Hac' Hreach. apply (Hac' nm). by eapply (new_cycle_iff (parent_name f)).
  - intros Hn. eapply (acyclic_change (parent_name f)); [done..|]. intros p [= <-]. done.
Qed.
End unset_exists.
