(* ===== verification/ForestWalks.v ===== *)
(** * Descendants, inherited flags and halted roots (package internal/forest)

    The walks over the forest that have no cycle check of their own, or a
    partial one: what they return and when they terminate. *)

From S2P Require Import Prelude GoStrings Chains Api Resources Forest ForestWf.

Section walks.
  Context `{RO : RangeOrder} {e : option loc} (f : Forest) (Hwf : wf_but e f).

(** ** Descendants *)
Lemma ChildNames_elem nm l c : f_namespaces f !! nm = Some l →
  c ∈ ChildNames (deref f l) ↔ parent_name f c = Some nm.
Proof.
  intros Hl. rewrite (parent_name_child f Hwf). unfold ChildNames.
  destruct (decide _) as [Hz|_]; rewrite ?elem_of_sort_Strings, ?elem_of_keys.
  - apply map_size_empty_inv in Hz. split; [by intros ?%elem_of_nil|].
    intros (l' & Hl' & [cl Hc]). simplify_eq. by rewrite Hz, lookup_empty in Hc.
  - split; [eauto|]. intros (l' & Hl' & ?). by simplify_eq.
Qed.

Abbreviation U := (up (parent_name f)).

(** A set of names found from [nm], starting with the set [d] already visited. *)
Record found (nm : string) (cs : list string) (d r : gset string) : Prop := {
  fd_sub : d ⊆ r;
  fd_live : r ⊆ dom (f_namespaces f);
  fd_below x : x ∈ r → x ∈ d ∨ tc U x nm;
  fd_children c : c ∈ cs → c ∈ r;
  fd_closed x c : x ∈ r → x ∉ d → U c x → c ∈ r
}.

Lemma found_skip nm c cs d r : c ∈ d → found nm cs d r → found nm (c :: cs) d r.
Proof. intros Hc []. split; try done. intros x [->|?]%elem_of_cons; auto. Qed.

Lemma found_step nm c cs csc d r r' : U c nm → (∀ x, U x c → x ∈ csc) → c ∉ d →
  found c csc ({[c]} ∪ d) r → found nm cs r r' → found nm (c :: cs) d r'.
Proof.
  intros Hu Hcsc Hc [Hs Hl Hb Hch Hcl] [Hs' Hl' Hb' Hch' Hcl']. split; [set_solver|done|..].
  - intros x Hx. destruct (Hb' x Hx) as [Hr|]; [|by right].
    destruct (Hb x Hr) as [Hd|Ht]; [|right; eapply tc_r; eauto].
    apply elem_of_union in Hd as [->%elem_of_singleton|]; [right; by apply tc_once|by left].
  - intros x [->|Hx]%elem_of_cons; [apply Hs', Hs; set_solver|by apply Hch'].
  - intros x y Hx Hd Hxy. destruct (decide (x ∈ r)) as [Hr|Hr]; [|by eapply Hcl'].
    apply Hs'. destruct (decide (x = c)) as [->|]; [by apply Hch, Hcsc|].
    eapply Hcl; [done| |done]. set_solver.
Qed.

Lemma populateDescendants_found fuel nm l d : f_namespaces f !! nm = Some l →
  d ⊆ dom (f_namespaces f) → size (f_namespaces f) < fuel + size d →
  ∃ r, populateDescendants fuel f (deref f l) d = Some r ∧ found nm (ChildNames (deref f l)) d r.
Proof.
  revert nm l d. induction fuel as [|fuel IH]; intros nm l d Hl Hd Hfuel.
  { exfalso. apply subseteq_size in Hd. rewrite size_dom in Hd. lia. }
  cbn [populateDescendants].
  assert (∀ c, c ∈ ChildNames (deref f l) → U c nm) as Hcs by (intros c; by apply ChildNames_elem).
  revert d Hd Hfuel Hcs. generalize (ChildNames (deref f l)) as cs.
  induction cs as [|c cs IHcs]; intros d Hd Hfuel Hcs; simpl.
  { exists d. split; [done|]. split; [done|done|auto| |done]. by intros c ?%elem_of_nil. }
  destruct (decide (c ∈ d)) as [Hc|Hc].
  - destruct (IHcs d) as (r & Hr & Hf); [done..|intros; apply Hcs; by right|].
    exists r. split; [done|]. by apply found_skip.
  - assert (U c nm) as Hu by (apply Hcs; by left).
    destruct (up_live f Hwf _ _ Hu) as [[lc Hlc] _]. rewrite (ns_at_live _ _ _ Hlc).
    destruct (IH c lc ({[c]} ∪ d)) as (r & Hr & Hf); [done| | |].
    { apply union_subseteq. split; [|done]. apply singleton_subseteq_l. apply elem_of_dom. eauto. }
    { rewrite size_union by set_solver. rewrite size_singleton. lia. }
    rewrite Hr. pose proof (fd_sub _ _ _ _ Hf) as Hsub. apply subseteq_size in Hsub as Hsz.
    rewrite size_union, size_singleton in Hsz by set_solver.
    destruct (IHcs r) as (r' & Hr' & Hf'); [by eapply fd_live|lia|intros; apply Hcs; by right|].
    exists r'. split; [done|]. eapply found_step; [done| |done|done|done].
    intros x Hx. by apply (ChildNames_elem c lc x Hlc).
Qed.

Lemma DescendantNames_elem nm l x : f_namespaces f !! nm = Some l →
  x ∈ DescendantNames f l ↔ tc U x nm.
Proof.
  intros Hl. unfold DescendantNames.
  destruct (populateDescendants_found (S (S (size (f_namespaces f)))) nm l ∅ Hl) as (r & -> & Hf);
    [set_solver|lia|]. simpl.
  assert (x ∈ r ↔ tc U x nm) as Hr.
  { split; [intros Hx; by destruct (fd_below _ _ _ _ Hf x Hx)|]. intros Ht.
    remember nm as nm' eqn:Hnm. induction Ht as [x y Hu|x y z Hu Ht IH]; subst.
    - eapply fd_children; [done|]. by apply (ChildNames_elem nm l x Hl).
    - eapply fd_closed; [done|by apply IH|set_solver|done]. }
  rewrite <- Hr. destruct (decide (size r = 0)) as [Hz|_].
  - apply size_empty_inv in Hz. set_solver.
  - by rewrite elem_of_sort_Strings, elem_of_keys_set.
Qed.

Lemma DescendantNames_sorted l : StronglySorted String.le (DescendantNames f l) ∧ NoDup (DescendantNames f l).
Proof.
  unfold DescendantNames. destruct (decide _); [split; constructor|].
  split; [apply sort_Strings_Sorted|]. apply NoDup_sort_Strings, NoDup_keys.
Qed.

Lemma FullDescendantNames_elem nm l x : f_namespaces f !! nm = Some l →
  x ∈ FullDescendantNames f l ↔ tc U x nm ∧ ns_IsSub (ns_at f x) = false.
Proof.
  intros Hl. unfold FullDescendantNames.
  rewrite elem_of_sort_Strings, list_elem_of_filter, (DescendantNames_elem nm l x Hl). tauto.
Qed.

(** ** Walks up the parents *)
Definition halted_name (nm : string) : Prop := IsHalted f (f_namespaces f !! nm) = true.

#[export] Instance halted_name_dec nm : Decision (halted_name nm).
Proof. unfold halted_name. apply _. Defined.

(** The names from [nm] upwards, nearest first. *)
Abbreviation upwards l := (reverse (AncestryNames f (Some l))).

Lemma upwards_cons nm l : f_namespaces f !! nm = Some l →
  ∃ rest, upwards l = nm :: rest ∧ length (nm :: rest) ≤ steps f ∧
    ∀ x, x ∈ rest ↔ tc U nm x.
Proof.
  intros Hl. pose proof (AncestryNames_walk f Hwf _ _ Hl) as Hw.
  pose proof Hw as (Hh & _ & Hend). destruct (upwards l) as [|y rest] eqn:Hu; [done|]. simpl in Hh. injection Hh as ->.
  exists rest. split_and!; [done| |intros x; by apply full_walk_tail].
  assert (∀ k, NoDup k → (∀ x, x ∈ k → x ∈ nm :: rest) → length k ≤ size (f_namespaces f)) as Hb.
  { intros k Hk Hsub. rewrite <- size_dom. apply NoDup_length_bound; [done|].
    intros x Hx. apply elem_of_dom, (AncestryNames_live f Hwf nm l x Hl).
    rewrite <- elem_of_reverse, Hu. by apply Hsub. }
  unfold steps. destruct Hend as [[Hnd _]|(k & z & Hk & Hnd & _)].
  - specialize (Hb _ Hnd (λ x, id)). simpl in *. lia.
  - assert (length k ≤ size (f_namespaces f)) as Hlk.
    { apply Hb; [done|]. intros x Hx. rewrite Hk. set_solver. }
    rewrite Hk, length_app. simpl. lia.
Qed.
(** A walk that stops at the first name satisfying [P], or above a root, visits
    a prefix of [upwards]. *)
Lemma upwards_rooted nm l : f_namespaces f !! nm = Some l → (∀ x, rtc U nm x → ¬ in_cycle (parent_name f) x) →
  ∃ r, last (upwards l) = Some r ∧ parent_name f r = None.
Proof.
  intros Hl Hno. destruct (AncestryNames_walk f Hwf _ _ Hl) as (Hh & Hc & [[_ Hr]|(k & z & Hk & Hnd & Hz)]); [done|].
  exfalso. rewrite Hk in *. apply list_elem_of_split in Hz as (k1 & k2 & ->).
  assert (chain (parent_name f) (z :: k2 ++ [z])) as Hcz.
  { rewrite <- app_assoc in Hc. by apply chain_app_r in Hc. }
  apply (Hno z); [|by eapply chain_reach_last].
  destruct k1 as [|y k1]; simplify_eq/=; [done|]. eapply chain_reach; [exact Hc|]. set_solver.
Qed.

Lemma halted_loop_first fuel nm l rest : f_namespaces f !! nm = Some l →
  chain (parent_name f) (nm :: rest) → length (nm :: rest) ≤ fuel →
  (∃ x, x ∈ nm :: rest ∧ halted_name x) ∨ ends_at_root (parent_name f) (nm :: rest) →
  halted_loop fuel f (Some l) = Done (default "" (snd <$> list_find halted_name (nm :: rest))).
Proof.
  revert nm l rest. induction fuel as [|fuel IH]; intros nm l rest Hl Hc Hfuel Hor; [simpl in Hfuel; lia|].
  cbn [halted_loop list_find]. destruct (decide (halted_name nm)) as [Hh|Hh].
  { unfold halted_name in Hh. rewrite Hl in Hh. rewrite Hh. simpl. by rewrite (live_name f Hwf _ _ Hl). }
  unfold halted_name in Hh. rewrite Hl in Hh. apply not_true_is_false in Hh. rewrite Hh. simpl.
  destruct rest as [|p rest].
  - assert (ns_parent (deref f l) = None) as ->; [|by destruct fuel].
    destruct Hor as [(x & ->%list_elem_of_singleton & Hx)|(r & Hr & Hp)].
    { unfold halted_name in Hx. rewrite Hl in Hx. congruence. }
    simplify_eq/=. rewrite (parent_name_live f _ _ Hl) in Hp. by apply fmap_None in Hp.
  - apply chain_inv in Hc as [Hu Hc].
    apply (parent_name_Some f Hwf) in Hu as (l0 & lp & Hl0 & Hp0 & Hlp).
    simplify_eq. rewrite Hp0.
    rewrite (IH p lp rest Hlp Hc).
    + f_equal. destruct (list_find halted_name (p :: rest)) as [[i y]|]; done.
    + simpl in *. lia.
    + destruct Hor as [(x & Hx & Hhx)|(r & Hr & Hp)]; [left|right; by exists r].
      apply elem_of_cons in Hx as [->|Hx]; [|eauto].
      unfold halted_name in Hhx. rewrite Hl in Hhx. congruence.
Qed.

(** Every cycle of the forest has a halted member. *)
Definition cycles_halted : Prop :=
  ∀ x, in_cycle (parent_name f) x → ∃ y, rtc U x y ∧ halted_name y.

(** The walk up from a namespace meets a halted one or a root. *)
Lemma upwards_stops nm l : cycles_halted → f_namespaces f !! nm = Some l →
  ∃ rest, upwards l = nm :: rest ∧ chain (parent_name f) (nm :: rest) ∧ length (nm :: rest) ≤ steps f ∧
    ((∃ x, x ∈ nm :: rest ∧ halted_name x) ∨ ends_at_root (parent_name f) (nm :: rest)).
Proof.
  intros Hch Hl. destruct (upwards_cons nm l Hl) as (rest & Hu & Hlen & _). exists rest.
  pose proof (AncestryNames_walk f Hwf _ _ Hl) as Hw. pose proof Hw as (_ & Hc & Hend).
  rewrite Hu in *. split_and!; [done..|].
  destruct Hend as [[_ Hr]|(k & z & Hk & Hnd & Hz)]; [by right|left].
  assert (in_cycle (parent_name f) z) as Hcyc.
  { rewrite Hk in Hc. apply list_elem_of_split in Hz as (k1 & k2 & ->).
    rewrite <- app_assoc in Hc. apply chain_app_r in Hc; [|done]. by eapply chain_reach_last. }
  destruct (Hch z Hcyc) as (y & Hzy & Hy). exists y. split; [|done].
  apply (full_walk_elem _ _ _ _ Hw). etrans; [|exact Hzy].
  apply (full_walk_elem _ _ _ _ Hw). rewrite Hk. set_solver.
Qed.

Lemma GetHaltedRoot_first nm l : cycles_halted → f_namespaces f !! nm = Some l →
  GetHaltedRoot f (Some l) = Done (default "" (snd <$> list_find halted_name (upwards l))).
Proof.
  intros Hch Hl. destruct (upwards_stops nm l Hch Hl) as (rest & Hu & Hc & Hlen & Hor).
  rewrite Hu. by apply halted_loop_first.
Qed.

(** The name it returns is that of a halted ancestor, and "" means there is none. *)
Lemma GetHaltedRoot_spec nm l : cycles_halted → f_namespaces f !! nm = Some l →
  ∃ r, GetHaltedRoot f (Some l) = Done r ∧
    (r = "" ↔ ∀ x, rtc U nm x → ¬ halted_name x) ∧ (r ≠ "" → rtc U nm r ∧ halted_name r).
Proof.
  intros Hch Hl. rewrite (GetHaltedRoot_first nm l Hch Hl). eexists. split; [done|].
  assert (∀ x, x ∈ upwards l ↔ rtc U nm x) as Hin.
  { intros x. rewrite elem_of_reverse. by apply (AncestryNames_elem f Hwf). }
  destruct (list_find halted_name (upwards l)) as [[i y]|] eqn:Hfind; simpl.
  - apply list_find_Some in Hfind as (Hi & Hy & _). apply list_elem_of_lookup_2, Hin in Hi.
    assert (y ≠ "") as Hne.
    { destruct (rtc_live f Hwf nm y (mk_is_Some _ _ Hl) Hi) as [ly Hly]. by eapply wf_name. }
    split; [|done]. split; [done|]. intros Hno. exfalso. by apply (Hno y).
  - apply list_find_None in Hfind. rewrite Forall_forall in Hfind. split; [|done].
    split; [|done]. intros _ x Hx. apply Hfind. by apply Hin.
Qed.

(** ** AllowsCascadingDeletion *)
Definition acd_name (nm : string) : Prop := ns_allowCascadingDeletion (ns_at f nm) = true.

(** Steps up the tree from names that are on no cycle. *)
Definition up_off_cycle : relation string := λ x y, U x y ∧ ¬ in_cycle (parent_name f) x.

Lemma acd_loop_spec fuel nm l : f_namespaces f !! nm = Some l → length (AncestryNames f (Some l)) ≤ fuel →
  ∃ b, acd_loop fuel f l = Done b ∧ (b = true ↔ ∃ x, rtc up_off_cycle nm x ∧ acd_name x).
Proof.
  revert nm l. induction fuel as [|fuel IH]; intros nm l Hl Hlen.
  { destruct (upwards_cons nm l Hl) as (rest & Hu & _).
    apply (f_equal length) in Hu. rewrite length_reverse in Hu. simpl in Hu. lia. }
  cbn [acd_loop]. unfold acd_name. destruct (ns_allowCascadingDeletion (deref f l)) eqn:Ha.
  { exists true. split; [done|]. split; [|done]. intros _. exists nm. by rewrite (ns_at_live _ _ _ Hl). }
  assert ((∀ y, ¬ up_off_cycle nm y) → ¬ ∃ x, rtc up_off_cycle nm x ∧ acd_name x) as Hstop.
  { intros Hn (x & Hx & Hax). destruct Hx as [x|x y z Hxy _]; [|by apply (Hn y)].
    unfold acd_name in Hax. rewrite (ns_at_live _ _ _ Hl) in Hax. congruence. }
  destruct (ns_parent (deref f l)) as [p|] eqn:Hp.
  2:{ exists false. split; [done|]. split; [done|]. intros Hx. exfalso. revert Hx. apply Hstop.
      intros y [Hu _]. unfold up in Hu. rewrite (parent_name_live f _ _ Hl), Hp in Hu. done. }
  destruct (decide (CycleNames f l = [])) as [Hc|Hc].
  2:{ exists false. split; [done|]. split; [done|]. intros Hx. exfalso. revert Hx. apply Hstop.
      intros y [_ Hn]. apply Hc. by apply (CycleNames_nil_iff f Hwf nm). }
  apply (CycleNames_nil_iff f Hwf nm l Hl) in Hc.
  destruct (wf_parent _ Hwf _ _ _ Hl Hp) as (pnm & Hpl & _).
  assert (U nm pnm) as Hu by (apply (parent_name_Some f Hwf); eauto).
  pose proof (AncestryNames_walk f Hwf _ _ Hl) as Hw.
  pose proof (full_walk_cons _ _ _ _ Hc Hu (AncestryNames_walk f Hwf _ _ Hpl)) as Hw'.
  pose proof (full_walk_unique _ _ _ _ Hw Hw') as Heq. apply (f_equal length) in Heq.
  simpl in Heq. rewrite !length_reverse in Heq.
  destruct (IH pnm p Hpl) as (b & Hb & Hiff); [lia|]. exists b. split; [done|]. rewrite Hiff.
  split; intros (x & Hx & Hax); exists x; (split; [|done]).
  - by eapply rtc_l.
  - destruct Hx as [x|x y z [Hxy _] Hyz].
    + unfold acd_name in Hax. rewrite (ns_at_live _ _ _ Hl) in Hax. congruence.
    + by rewrite (up_det _ _ _ _ Hu Hxy).
Qed.

Lemma AllowsCascadingDeletion_terminates nm l : f_namespaces f !! nm = Some l →
  ∃ b, AllowsCascadingDeletion f l = Done b ∧ (b = true ↔ ∃ x, rtc up_off_cycle nm x ∧ acd_name x).
Proof.
  intros Hl. apply acd_loop_spec; [done|]. destruct (upwards_cons nm l Hl) as (rest & Hu & Hlen & _).
  by rewrite <- length_reverse, Hu.
Qed.

(** ** IsAncestor *)
Lemma IsAncestor_loop_spec fuel nm l rest onm o : f_namespaces f !! nm = Some l → f_namespaces f !! onm = Some o →
  chain (parent_name f) (nm :: rest) → length (nm :: rest) ≤ fuel →
  onm ∈ rest ∨ ends_at_root (parent_name f) (nm :: rest) →
  IsAncestor_loop fuel f l (Some o) = Done (bool_decide (onm ∈ rest)).
Proof.
  revert nm l rest. induction fuel as [|fuel IH]; intros nm l rest Hl Ho Hc Hfuel Hor; [simpl in Hfuel; lia|].
  cbn [IsAncestor_loop]. destruct rest as [|p rest].
  - destruct Hor as [Hin|(r & Hr & Hp)]; [by apply elem_of_nil in Hin|]. simplify_eq/=.
    rewrite (parent_name_live f _ _ Hl) in Hp. apply fmap_None in Hp. by rewrite Hp.
  - apply chain_inv in Hc as [Hu Hc].
    apply (parent_name_Some f Hwf) in Hu as (l0 & lp & Hl0 & Hp0 & Hlp).
    simplify_eq. rewrite Hp0.
    destruct (decide (Some lp = Some o)) as [[= ->]|Hne].
    + f_equal. symmetry. apply bool_decide_eq_true_2. rewrite (live_inj f Hwf _ _ _ Ho Hlp). by left.
    + assert (onm ≠ p) as Hop by congruence.
      rewrite (IH p lp rest); [|done..|simpl in *; lia|].
      * f_equal. apply bool_decide_ext. set_solver.
      * destruct Hor as [Hin|(r & Hr & Hp)]; [left; set_solver|right; by exists r].
Qed.

(** [IsAncestor] answers on every namespace under a root; on one that leads into
    a cycle it answers when the answer is yes. *)
Lemma IsAncestor_spec nm l onm o : f_namespaces f !! nm = Some l → f_namespaces f !! onm = Some o →
  tc U nm onm ∨ (∀ x, rtc U nm x → ¬ in_cycle (parent_name f) x) →
  ∃ b, IsAncestor f l (Some o) = Done b ∧ (b = true ↔ tc U nm onm).
Proof.
  intros Hl Ho Hor. destruct (upwards_cons nm l Hl) as (rest & Hu & Hlen & Htl).
  pose proof (AncestryNames_walk f Hwf _ _ Hl) as (_ & Hc & _). rewrite Hu in Hc.
  eexists. split; [apply (IsAncestor_loop_spec _ nm l rest onm o); [done..|]|].
  - destruct Hor as [Ht|Hno]; [left; by apply Htl|right].
    destruct (upwards_rooted nm l Hl Hno) as (r & Hr & Hp). rewrite Hu in Hr. by exists r.
  - rewrite bool_decide_eq_true. apply Htl.
Qed.
End walks.
