(* ===== verification/Quotas.v ===== *)
(** * Hierarchical quotas in the forest (internal/forest/namespacehrq.go)

    What the limits of a namespace are, when a request for resources is admitted,
    and what the subtree usages stored in the forest mean: an abstract total that
    is recomputed from the local usages, which the incremental updates of
    [UseResources] keep and [RectifySubtreeUsages] restores. *)

From S2P Require Import Prelude GoStrings Chains Api Resources Forest ForestWf.

(** ** Sums *)
Definition zsum (l : list Z) : Z := foldr Z.add 0%Z l.

Lemma zsum_app l k : zsum (l ++ k) = (zsum l + zsum k)%Z.
Proof. induction l; simpl; lia. Qed.

#[export] Instance zsum_perm : Proper ((≡ₚ) ==> eq) zsum.
Proof. intros l k Hp. induction Hp; simpl; lia. Qed.

(** How often [x] occurs in [l]. *)
Definition occurs (x : string) (l : list string) : Z := Z.of_nat (length (filter (x =.) l)).

Lemma occurs_cons x y l : occurs x (y :: l) = ((if decide (x = y) then 1 else 0) + occurs x l)%Z.
Proof.
  unfold occurs. rewrite filter_cons. destruct (decide (x = y)); simpl; lia.
Qed.

Lemma occurs_0 x l : x ∉ l → occurs x l = 0%Z.
Proof.
  induction l as [|y l IH]; [done|]. intros [? ?]%not_elem_of_cons. rewrite occurs_cons, decide_False, IH by done. done.
Qed.

Lemma occurs_NoDup x l : NoDup l → x ∈ l → occurs x l = 1%Z.
Proof.
  intros Hnd. induction Hnd as [|y l Hy Hnd IH]; [by intros ?%elem_of_nil|]. rewrite occurs_cons.
  intros [->|Hx]%elem_of_cons.
  - rewrite decide_True by done. by rewrite occurs_0.
  - rewrite decide_False by (by intros ->). rewrite IH by done. done.
Qed.

Section quotas.
  Context `{RO : RangeOrder}.

(** ** Limits *)

(** [v] is the smallest element of [vs]. *)
Definition least (vs : list Z) (v : Z) : Prop := v ∈ vs ∧ ∀ v', v' ∈ vs → (v ≤ v')%Z.

Lemma least_min x y vs v : least ((x `min` y)%Z :: vs) v ↔ least (x :: y :: vs) v.
Proof.
  unfold least. setoid_rewrite elem_of_cons. setoid_rewrite elem_of_cons. split; intros [Hv Hm].
  - pose proof (Hm _ (or_introl eq_refl)). split.
    + destruct Hv as [->|Hv]; [|by do 2 right]. destruct (Z.min_spec x y) as [[_ ->]|[_ ->]]; auto.
    + intros v' [->|[->|Hv']]; [lia|lia|by apply Hm; right].
  - pose proof (Hm x (or_introl eq_refl)). pose proof (Hm y (or_intror (or_introl eq_refl))). split.
    + destruct Hv as [->|[->|Hv]]; [left; lia|left; lia|by right].
    + intros v' [->|Hv']; [lia|]. by apply Hm; do 2 right.
Qed.

(** The amounts of [r] in the lists of [L]. *)
Definition entries (L : list ResourceList) (r : ResourceName) : list Z := omap (λ lm, items lm !! r) L.

Lemma entries_cons lm L r :
  entries (lm :: L) r = match items lm !! r with Some x => x :: entries L r | None => entries L r end.
Proof. done. Qed.

Lemma fold_Min_spec L acc r v : items (fold_left Min L acc) !! r = Some v ↔ least (entries (acc :: L) r) v.
Proof.
  revert acc. induction L as [|lm L IH]; intros acc.
  - unfold entries, least. simpl. destruct (items acc !! r) as [x|]; simpl.
    + setoid_rewrite list_elem_of_singleton. split; [intros [= ->]; split; [done|]; intros ? ->; lia|by intros [-> _]].
    + split; [done|]. by intros [?%elem_of_nil _].
  - cbn [fold_left]. rewrite IH, !entries_cons, lookup_Min.
    destruct (items acc !! r) as [x|], (items lm !! r) as [y|]; simpl; [apply least_min|done..].
Qed.

(** All the limits set on the ancestors of a namespace, itself included. *)
Definition ancestor_limits (f : Forest) (l : loc) : list ResourceList :=
  nsnm ← AncestryNames f (Some l); (range (limits_of (ns_at f nsnm))).*2.

Lemma Limits_fold f l : Limits f l = fold_left Min (ancestor_limits f l) emptyRL.
Proof.
  unfold Limits, ancestor_limits. generalize emptyRL as acc.
  induction (AncestryNames f (Some l)) as [|nm names IH]; intros acc; [done|].
  cbn [fold_left mbind list_bind]. rewrite IH, fold_left_app. f_equal.
  generalize (range (limits_of (ns_at f nm))) as k. intros k. clear IH. revert acc.
  induction k as [|[? lm] k IHk]; intros acc; [done|]. simpl. apply IHk.
Qed.

Lemma elem_of_ancestor_limits f l lm : lm ∈ ancestor_limits f l ↔
  ∃ a hrq, a ∈ AncestryNames f (Some l) ∧ limits_of (ns_at f a) !! hrq = Some lm.
Proof.
  unfold ancestor_limits. rewrite list_elem_of_bind. setoid_rewrite list_elem_of_fmap. split.
  - intros (a & ([hrq lm'] & -> & Hin) & Ha). apply elem_of_range in Hin. eauto.
  - intros (a & hrq & Ha & Hl). exists a. split; [|done]. exists (hrq, lm). split; [done|]. by apply elem_of_range.
Qed.

(** The limit on a resource is the strictest one of all the quotas that apply. *)
Lemma Limits_spec f l r v : items (Limits f l) !! r = Some v ↔
  (∃ a hrq lm, a ∈ AncestryNames f (Some l) ∧ limits_of (ns_at f a) !! hrq = Some lm ∧ items lm !! r = Some v) ∧
  ∀ a hrq lm v', a ∈ AncestryNames f (Some l) → limits_of (ns_at f a) !! hrq = Some lm →
    items lm !! r = Some v' → (v ≤ v')%Z.
Proof.
  rewrite Limits_fold, fold_Min_spec.
  assert (∀ x, x ∈ entries (emptyRL :: ancestor_limits f l) r ↔
    ∃ a hrq lm, a ∈ AncestryNames f (Some l) ∧ limits_of (ns_at f a) !! hrq = Some lm ∧ items lm !! r = Some x) as He.
  { intros x. unfold entries. simpl. rewrite lookup_empty, list_elem_of_omap.
    setoid_rewrite elem_of_ancestor_limits. naive_solver. }
  unfold least. rewrite He. setoid_rewrite He. naive_solver.
Qed.

Lemma Limits_some f l r a hrq lm v : a ∈ AncestryNames f (Some l) → limits_of (ns_at f a) !! hrq = Some lm →
  items lm !! r = Some v → is_Some (items (Limits f l) !! r).
Proof.
  intros Ha Hl Hv. rewrite Limits_fold.
  assert (lm ∈ ancestor_limits f l) as Hin by (apply elem_of_ancestor_limits; eauto).
  revert Hin. generalize emptyRL as acc. induction (ancestor_limits f l) as [|k L IH]; intros acc; [by intros ?%elem_of_nil|].
  assert (∀ L acc, is_Some (items acc !! r) → is_Some (items (fold_left Min L acc) !! r)) as Hmono.
  { clear. induction L as [|k L IH]; intros acc; simpl; [done|]. intros [x Hx]. apply IH. rewrite lookup_Min, Hx.
    destruct (items k !! r); eauto. }
  intros [<-|Hin]%elem_of_cons; simpl; [|by apply IH]. apply Hmono. rewrite lookup_Min, Hv. destruct (items acc !! r); eauto.
Qed.

(** ** Usage accounting *)
Lemma no_usage_at f f' nm : heap_sim no_usage f f' → no_usage (ns_at f nm) = no_usage (ns_at f' nm).
Proof.
  intros Hs. unfold ns_at. pose proof Hs as (-> & _). destruct (f_namespaces f' !! nm); [|done].
  by apply heap_sim_deref.
Qed.

Lemma no_usage_ancestry f f' l : heap_sim no_usage f f' → AncestryNames f l = AncestryNames f' l.
Proof. intros Hs. by eapply AncestryNames_links, heap_sim_mono, Hs; apply no_usage_links. Qed.

Lemma limits_of_sim f f' nm : heap_sim no_usage f f' → limits_of (ns_at f nm) = limits_of (ns_at f' nm).
Proof. intros Hs. unfold limits_of. by rewrite (no_usage_limits _ _ (no_usage_at f f' nm Hs)). Qed.

Lemma Limits_sim f f' l : heap_sim no_usage f f' → Limits f l = Limits f' l.
Proof.
  intros Hs. rewrite !Limits_fold. f_equal. unfold ancestor_limits. rewrite (no_usage_ancestry f f' _ Hs).
  induction (AncestryNames f' (Some l)) as [|nm names IH]; [done|].
  cbn [mbind list_bind]. by rewrite (limits_of_sim f f' nm Hs), IH.
Qed.

Lemma wf_sim f f' : heap_sim no_usage f f' → wf f → wf f'.
Proof. intros Hs. by rewrite (heap_sim_mono _ _ _ _ no_usage_shape Hs). Qed.

(** Charging one ancestor: its subtree usage, and nothing else. *)
Lemma charge_spec delta f nm l : wf f → f_namespaces f !! nm = Some l →
  heap_sim no_usage f (charge delta f nm) ∧
  (∀ x, local_of (deref (charge delta f nm) x) = local_of (deref f x)) ∧
  (∀ x, subtree_of (deref (charge delta f nm) x) =
    if decide (x = l) then FilterUnlimited (Add delta (subtree_of (deref f l))) (Limits f l) else subtree_of (deref f x)).
Proof.
  intros Hwf Hl. unfold charge. rewrite (Get_present nm l f Hwf Hl).
  assert (is_Some (f_heap f !! l)) as Hlh by (by eapply wf_name).
  split_and!; [apply heap_sim_upd; by intros []|..]; intros x;
    (destruct (decide (x = l)) as [->|Hne]; [rewrite deref_upd_eq by done; by destruct (deref f l)|by rewrite deref_upd_ne by done]).
Qed.

Lemma charges_spec delta names f : wf f → (∀ x, x ∈ names → is_Some (f_namespaces f !! x)) →
  let f' := fold_left (charge delta) names f in
  heap_sim no_usage f f' ∧ (∀ x, local_of (deref f' x) = local_of (deref f x)) ∧
  (∀ a l r, f_namespaces f !! a = Some l → is_Some (items (Limits f l) !! r) →
    qty (subtree_of (deref f' l)) r = (qty (subtree_of (deref f l)) r + occurs a names * qty delta r)%Z).
Proof.
  revert f. induction names as [|nm names IH]; intros f Hwf Hlive; simpl.
  { split_and!; [done..|]. intros. unfold occurs. simpl. lia. }
  destruct (Hlive nm) as [l Hl]; [by left|].
  destruct (charge_spec delta f nm l Hwf Hl) as (Hs & Hloc & Hsub).
  destruct (IH (charge delta f nm)) as (Hs' & Hloc' & Hsub').
  { by eapply wf_sim. }
  { intros x Hx. destruct Hs as [<- _]. apply Hlive. by right. }
  split_and!; [by etrans|intros x; by rewrite Hloc', Hloc|].
  intros a la r Ha Hr. rewrite (Hsub' a la r), Hsub, occurs_cons;
    [|by destruct Hs as [<- _]|by rewrite <- (Limits_sim _ _ _ Hs)].
  destruct (decide (la = l)) as [->|Hne].
  - rewrite (live_inj f Hwf _ _ _ Ha Hl), decide_True by done.
    rewrite qty_FilterUnlimited, decide_True, qty_Add by done. lia.
  - rewrite decide_False; [lia|congruence].
Qed.

(** [UseResources]: the local usage becomes the limited part of the request, and
    each ancestor's subtree usage moves by the difference, once per occurrence. *)
Lemma UseResources_spec f nm l u : wf f → f_namespaces f !! nm = Some l →
  let f' := UseResources l u f in
  heap_sim no_usage f f' ∧
  (∀ x r, qty (local_of (deref f' x)) r =
     if decide (x = l) then qty (FilterUnlimited u (Limits f l)) r else qty (local_of (deref f x)) r) ∧
  (∀ a la r, f_namespaces f !! a = Some la → is_Some (items (Limits f la) !! r) →
    qty (subtree_of (deref f' la)) r = (qty (subtree_of (deref f la)) r +
      occurs a (AncestryNames f (Some l)) * (qty (FilterUnlimited u (Limits f l)) r - qty (local_of (deref f l)) r))%Z).
Proof.
  intros Hwf Hl. split; [by eapply UseResources_sim|]. unfold UseResources.
  set (new := FilterUnlimited u (Limits f l)). destruct (Equals _ _) eqn:Heq.
  { apply Equals_spec in Heq. assert (∀ r, qty (local_of (deref f l)) r = qty new r) as Hq by (intros r; unfold qty; by rewrite Heq).
    split.
    - intros x r. destruct (decide (x = l)) as [->|]; [apply Hq|done].
    - intros. rewrite Hq. lia. }
  assert (is_Some (f_heap f !! l)) as Hlh by (by eapply wf_name).
  assert (heap_sim no_usage f (upd l (set_local new) f)) as Hs by (apply heap_sim_upd; by intros []).
  rewrite <- (no_usage_ancestry f _ (Some l) Hs).
  destruct (charges_spec (Subtract new (local_of (deref f l))) (AncestryNames f (Some l)) (upd l (set_local new) f))
    as (_ & Hloc & Hsub).
  { by eapply wf_sim. }
  { intros x Hx. by apply (AncestryNames_live f Hwf nm l). }
  split.
  - intros x r. rewrite Hloc. destruct (decide (x = l)) as [->|]; [by rewrite deref_upd_eq|by rewrite deref_upd_ne].
  - intros a la r Ha Hr. rewrite (Hsub a la r), qty_Subtract; [|done|by rewrite <- (Limits_sim _ _ _ Hs)].
    assert (subtree_of (deref (upd l (set_local new) f) la) = subtree_of (deref f la)) as ->; [|done].
    destruct (decide (la = l)) as [->|]; [by rewrite deref_upd_eq|by rewrite deref_upd_ne].
Qed.

(** The abstract meaning of a subtree usage: the local usages of all the
    namespaces it is an ancestor of (counted as often as it is listed). *)
Definition subtree_total (f : Forest) (a : string) (r : ResourceName) : Z :=
  zsum ((λ '(_, d), occurs a (AncestryNames f (Some d)) * qty (local_of (deref f d)) r)%Z <$>
    map_to_list (f_namespaces f)).

Definition accounted (f : Forest) : Prop :=
  ∀ a la r, f_namespaces f !! a = Some la → is_Some (items (Limits f la) !! r) →
    qty (subtree_of (deref f la)) r = subtree_total f a r.

Lemma zsum_update {A} (g h : A → Z) (l : list A) (x : A) d :
  NoDup l → x ∈ l → h x = (g x + d)%Z → (∀ y, y ∈ l → y ≠ x → h y = g y) → zsum (h <$> l) = (zsum (g <$> l) + d)%Z.
Proof.
  intros Hnd. induction Hnd as [|y l Hy Hnd IH]; [by intros ?%elem_of_nil|].
  intros [->|Hx]%elem_of_cons Hd Hother; rewrite !fmap_cons; simpl.
  - assert (zsum (h <$> l) = zsum (g <$> l)) as ->; [|lia].
    f_equal. apply list_fmap_ext. intros i z Hz%list_elem_of_lookup_2. apply Hother; [by right|]. by intros ->.
  - rewrite IH, (Hother y); [lia|by left|by intros ->|done|done|]. intros z Hz. apply Hother. by right.
Qed.

Lemma UseResources_accounted f nm l u : wf f → f_namespaces f !! nm = Some l →
  accounted f → accounted (UseResources l u f).
Proof.
  intros Hwf Hl Hacc a la r Ha Hr. destruct (UseResources_spec f nm l u Hwf Hl) as (Hs & Hloc & Hsub).
  rewrite <- (Limits_sim _ _ _ Hs) in Hr. assert (f_namespaces (UseResources l u f) = f_namespaces f) as Hn by (by destruct Hs).
  rewrite Hn in Ha. rewrite (Hsub a la r Ha Hr), (Hacc a la r Ha Hr). unfold subtree_total. rewrite Hn. symmetry.
  apply (zsum_update _ _ _ (nm, l)).
  - apply NoDup_map_to_list.
  - by apply elem_of_map_to_list.
  - simpl. rewrite <- (no_usage_ancestry _ _ _ Hs), Hloc, decide_True by done. lia.
  - intros [x lx] Hx%elem_of_map_to_list Hne. rewrite <- (no_usage_ancestry _ _ _ Hs), Hloc, decide_False; [done|].
    intros ->. apply Hne. f_equal. by eapply live_inj.
Qed.

(** ** Admission *)
Lemma checkLimits_None lm u : checkLimits lm u = None ↔
  ∀ hrq rl r x y, lm !! hrq = Some rl → items u !! r = Some x → items rl !! r = Some y → (x ≤ y)%Z.
Proof.
  unfold checkLimits. setoid_rewrite <- (elem_of_range lm). induction (range lm) as [|[hrq rl] L IH]; simpl.
  { split; [|done]. by intros _ ? ? ? ? ? ?%elem_of_nil. }
  destruct (LessThanOrEqual u rl) as [[] ex] eqn:Hle.
  - rewrite IH. assert ((LessThanOrEqual u rl).1 = true) as Ht by (by rewrite Hle).
    rewrite LessThanOrEqual_true in Ht. split.
    + intros Hall h k r x y [[= -> ->]|Hin]%elem_of_cons; [by apply Ht|by eapply Hall].
    + intros Hall h k r x y Hin. apply (Hall h k). by right.
  - split; [done|]. intros Hall. assert ((LessThanOrEqual u rl).1 = true) as Ht; [|by rewrite Hle in Ht].
    apply LessThanOrEqual_true. intros r x y. apply (Hall hrq rl). by left.
Qed.

Lemma checkLimits_Some lm u hrq ex : checkLimits lm u = Some (hrq, ex) →
  ∃ rl, lm !! hrq = Some rl ∧ ex ≠ [] ∧
    ∀ r, r ∈ ex ↔ ∃ x y, items u !! r = Some x ∧ items rl !! r = Some y ∧ (y < x)%Z.
Proof.
  unfold checkLimits. setoid_rewrite <- (elem_of_range lm). induction (range lm) as [|[h rl] L IH]; simpl; [done|].
  destruct (LessThanOrEqual u rl) as [[] names] eqn:Hle.
  - intros (rl' & Hin & ?)%IH. exists rl'. split; [by right|done].
  - intros [= <- <-]. exists rl. split; [by left|]. pose proof (LessThanOrEqual_names u rl) as Hn.
    rewrite Hle in Hn. split; [|done]. intros ->.
    assert ((LessThanOrEqual u rl).1 = true) as Ht; [|by rewrite Hle in Ht].
    apply LessThanOrEqual_true. intros r x y Hx Hy. destruct (decide (x ≤ y)%Z); [done|exfalso].
    apply (elem_of_nil r), (Hn r). exists x, y. split_and!; [done..|lia].
Qed.

(** What a request adds to the usage of each resource, where it adds. *)
Definition increase (f : Forest) (l : loc) (u : ResourceList) : ResourceList :=
  OmitLTEZero (Subtract u (local_of (deref f l))).

Lemma canUseResources_None f l u : canUseResources f l u = None ↔
  ∀ a, a ∈ AncestryNames f (Some l) →
    checkLimits (limits_of (ns_at f a)) (AddIfExists (increase f l u) (subtree_of (ns_at f a))) = None.
Proof.
  unfold canUseResources, increase. induction (AncestryNames f (Some l)) as [|a names IH]; simpl.
  { split; [|done]. by intros _ a ?%elem_of_nil. }
  destruct (checkLimits _ _) as [[hrq ex]|] eqn:Hc.
  - split; [done|]. intros Hall. rewrite (Hall a) in Hc; [done|by left].
  - rewrite IH. split; [|intros Hall b Hb; apply Hall; by right]. intros Hall b [->|Hb]%elem_of_cons; auto.
Qed.

Lemma canUseResources_Some f l u e : canUseResources f l u = Some e →
  ∃ a ex, a ∈ AncestryNames f (Some l) ∧ qe_ns e = ns_name (ns_at f a) ∧
    checkLimits (limits_of (ns_at f a)) (AddIfExists (increase f l u) (subtree_of (ns_at f a))) = Some (qe_hrq e, ex) ∧
    (qe_exceeded e).*1 = ex.
Proof.
  unfold canUseResources, increase. induction (AncestryNames f (Some l)) as [|a names IH]; simpl; [done|].
  destruct (checkLimits _ _) as [[hrq ex]|] eqn:Hc.
  - intros [= <-]. exists a, ex. simpl. split_and!; [by left|done|done|]. rewrite <- list_fmap_compose.
    rewrite <- (list_fmap_id ex) at 2. by apply list_fmap_ext.
  - intros (a' & ex & Ha & ?)%IH. exists a', ex. split; [by right|done].
Qed.

Lemma increase_lookup f l u r v : items (increase f l u) !! r = Some v ↔
  (0 < v)%Z ∧ v = (qty u r - qty (local_of (deref f l)) r)%Z.
Proof.
  unfold increase. rewrite lookup_OmitLTEZero, lookup_Subtract. unfold qty.
  destruct (items u !! r) as [x|], (items (local_of (deref f l)) !! r) as [y|]; simpl;
    try case_bool_decide; split; try (intros [= <-]); try (intros [? ->]); try (split; lia); try (f_equal; lia); exfalso; lia.
Qed.

(** The request is possible exactly if no tracked resource that it increases goes
    above a limit. *)
Definition fits (f : Forest) (l : loc) (u : ResourceList) : Prop :=
  ∀ a hrq lm r lim used, a ∈ AncestryNames f (Some l) → limits_of (ns_at f a) !! hrq = Some lm →
    items lm !! r = Some lim → items (subtree_of (ns_at f a)) !! r = Some used →
    (qty (local_of (deref f l)) r < qty u r)%Z → (used + (qty u r - qty (local_of (deref f l)) r) ≤ lim)%Z.

Lemma canUseResources_fits f l u : canUseResources f l u = None ↔ fits f l u.
Proof.
  rewrite canUseResources_None. setoid_rewrite checkLimits_None. unfold fits. split.
  - intros Hall a hrq lm r lim used Ha Hlm Hlim Hs Hinc.
    assert (items (increase f l u) !! r = Some (qty u r - qty (local_of (deref f l)) r)%Z) as Hi by (apply increase_lookup; lia).
    specialize (Hall a Ha hrq lm r (qty u r - qty (local_of (deref f l)) r + used)%Z lim Hlm).
    rewrite lookup_AddIfExists, Hi, Hs in Hall. specialize (Hall eq_refl Hlim). lia.
  - intros Hall a Ha hrq lm r x lim Hlm Hx Hlim. rewrite lookup_AddIfExists in Hx.
    destruct (items (increase f l u) !! r) as [i|] eqn:Hi; [|done].
    destruct (items (subtree_of (ns_at f a)) !! r) as [s|] eqn:Hs; [|done]. simplify_eq.
    apply increase_lookup in Hi as [? ->]. specialize (Hall a hrq lm r lim s Ha Hlm Hlim Hs). lia.
Qed.

(** What a rejection says: the quota of an ancestor and the resources that would
    be above its limits. *)
Definition exceeds (f : Forest) (l : loc) (u : ResourceList) (err : quotaError) : Prop :=
  ∃ a lm, a ∈ AncestryNames f (Some l) ∧ qe_ns err = ns_name (ns_at f a) ∧
    limits_of (ns_at f a) !! qe_hrq err = Some lm ∧ (qe_exceeded err).*1 ≠ [] ∧
    ∀ r, r ∈ (qe_exceeded err).*1 → ∃ v, items lm !! r = Some v ∧
      (v < qty (subtree_of (ns_at f a)) r + (qty u r - qty (local_of (deref f l)) r))%Z.

Lemma canUseResources_exceeds f l u e : canUseResources f l u = Some e → exceeds f l u e.
Proof.
  intros (a & ex & Ha & Hn & Hck & Hex)%canUseResources_Some.
  apply checkLimits_Some in Hck as (lm & Hlm & Hne & Hr). unfold exceeds. rewrite Hex. exists a, lm. split_and!; [done..|].
  intros r (x & y & Hx & Hy & Hlt)%Hr. exists y. split; [done|]. rewrite lookup_AddIfExists in Hx.
  destruct (items (increase f l u) !! r) as [i|] eqn:Hi; [|done].
  destruct (items (subtree_of (ns_at f a)) !! r) as [s|] eqn:Hs; [|done]. simplify_eq.
  apply increase_lookup in Hi as [_ ->]. unfold qty at 1. rewrite Hs. simpl. lia.
Qed.

(** The ancestry lists every name once, but a walk that gets into a cycle lists
    the name where it stops a second time. *)
Lemma occurs_app x l k : occurs x (l ++ k) = (occurs x l + occurs x k)%Z.
Proof. unfold occurs. rewrite filter_app, length_app. lia. Qed.

Lemma occurs_reverse x l : occurs x (reverse l) = occurs x l.
Proof. unfold occurs. by rewrite (reverse_Permutation l). Qed.

Lemma AncestryNames_occurs f nm l a : wf f → f_namespaces f !! nm = Some l → a ∈ AncestryNames f (Some l) →
  occurs a (AncestryNames f (Some l)) = 1%Z ∨ occurs a (AncestryNames f (Some l)) = 2%Z ∧ in_cycle (parent_name f) a.
Proof.
  intros Hwf Hl Ha. destruct (AncestryNames_walk f Hwf nm l Hl) as (_ & Hc & Hend). rewrite <- occurs_reverse.
  apply elem_of_reverse in Ha. destruct Hend as [[Hnd _]|(k & z & Hk & Hnd & Hz)]; [left; by apply occurs_NoDup|].
  rewrite Hk in *. rewrite occurs_app, occurs_cons, (occurs_0 a []) by apply not_elem_of_nil. destruct (decide (a = z)) as [->|Hne].
  - right. rewrite occurs_NoDup by done. split; [done|]. apply list_elem_of_split in Hz as (k1 & k2 & ->).
    rewrite <- app_assoc in Hc. simpl in Hc. apply chain_app_r in Hc; [|done]. by eapply chain_reach_last.
  - left. apply elem_of_app in Ha as [Ha|Ha%list_elem_of_singleton]; [|done]. by rewrite occurs_NoDup.
Qed.

(** An admitted request keeps every tracked resource it increases within every
    quota of every ancestor that is not on a cycle; on a cycle the usage is
    charged twice. *)
Lemma TryUseResources_within f nm l u f' : wf f → f_namespaces f !! nm = Some l →
  TryUseResources l u f = (None, f') →
  ∀ a hrq lm r lim, a ∈ AncestryNames f (Some l) → limits_of (ns_at f a) !! hrq = Some lm →
    items lm !! r = Some lim → (qty (local_of (deref f l)) r < qty u r)%Z →
    is_Some (items (subtree_of (ns_at f a)) !! r) →
    (qty (subtree_of (ns_at f' a)) r ≤ lim)%Z ∨
    in_cycle (parent_name f) a ∧ (qty (subtree_of (ns_at f' a)) r ≤ lim + (qty u r - qty (local_of (deref f l)) r))%Z.
Proof.
  intros Hwf Hl Htry a hrq lm r lim Ha Hlm Hlim Hinc [s Hs].
  unfold TryUseResources in Htry. destruct (canUseResources f l u) eqn:Hcan; simplify_eq.
  rewrite canUseResources_None in Hcan. specialize (Hcan a Ha). rewrite checkLimits_None in Hcan.
  destruct (AncestryNames_live f Hwf nm l a Hl Ha) as [la Hla].
  destruct (UseResources_spec f nm l u Hwf Hl) as (Hsim & _ & Hsub).
  assert (is_Some (items (Limits f la) !! r)) as Hra.
  { eapply Limits_some; [|done|done]. by apply (AncestryNames_self f Hwf). }
  assert (is_Some (items (Limits f l) !! r)) as Hrl by (by eapply Limits_some).
  assert (f_namespaces (UseResources l u f) !! a = Some la) as Hla' by (by destruct Hsim as [<- _]).
  rewrite (ns_at_live _ _ _ Hla'), (Hsub a la r Hla Hra), qty_FilterUnlimited, decide_True by done.
  rewrite (ns_at_live _ _ _ Hla) in *.
  assert (qty (subtree_of (deref f la)) r = s) as Hq by (unfold qty; by rewrite Hs).
  assert (items (increase f l u) !! r = Some (qty u r - qty (local_of (deref f l)) r)%Z) as Hi by (apply increase_lookup; lia).
  specialize (Hcan hrq lm r (qty u r - qty (local_of (deref f l)) r + s)%Z lim Hlm).
  rewrite Hq. rewrite lookup_AddIfExists, Hi, Hs in Hcan. specialize (Hcan eq_refl Hlim).
  destruct (AncestryNames_occurs f nm l a Hwf Hl Ha) as [->|[-> Hcy]]; [left; lia|right; split; [done|lia]].
Qed.

(** ** Rectification *)
Lemma tally_spec names local usages a r :
  qty (default None (fold_left (tally local) names usages !! a)) r
  = (qty (default None (usages !! a)) r + occurs a names * qty local r)%Z.
Proof.
  revert usages. induction names as [|nm names IH]; intros usages; cbn [fold_left].
  { unfold occurs. simpl. lia. }
  rewrite IH, occurs_cons. unfold tally. destruct (decide (a = nm)) as [->|Hne].
  - destruct (usages !! nm) as [ex|]; rewrite lookup_insert_eq; simpl; [rewrite qty_Add; lia|].
    unfold qty at 3. simpl. rewrite lookup_empty. simpl. lia.
  - destruct (usages !! nm) as [ex|]; rewrite lookup_insert_ne by done; lia.
Qed.

Lemma rectify_usages_total f a r : qty (default None (rectify_usages f !! a)) r = subtree_total f a r.
Proof.
  unfold subtree_total. rewrite <- (range_perm (f_namespaces f)). unfold rectify_usages.
  assert (∀ (L : list (string * loc)) usages, qty (default None (fold_left (λ usages '(_, l),
      fold_left (tally (local_of (deref f l))) (AncestryNames f (Some l)) usages) L usages !! a)) r =
    (qty (default None (usages !! a)) r +
     zsum ((λ '(_, d), occurs a (AncestryNames f (Some d)) * qty (local_of (deref f d)) r) <$> L))%Z) as Hgen.
  { induction L as [|[nm l] L IH]; intros usages; [simpl; lia|]. cbn [fold_left]. rewrite IH, tally_spec, fmap_cons. simpl. lia. }
  rewrite Hgen, lookup_empty. unfold qty at 1. simpl. by rewrite lookup_empty.
Qed.

(** What the subtree usage of a namespace should be. *)
Definition actual_usage (f : Forest) (a : string) (la : loc) : ResourceList :=
  FilterUnlimited (default None (rectify_usages f !! a)) (Limits f la).

(** The second loop, on a part [L] of the namespaces. *)
Definition rectify_loop (f0 : Forest) (L : list (string * loc)) (st : list NamespacedName * Forest) :=
  fold_left (λ '(updated, f) '(nm, l),
    let have := subtree_of (deref f l) in
    let actual := FilterUnlimited (default None (rectify_usages f0 !! nm)) (Limits f l) in
    if Equals have actual then (updated, f)
    else (updated ++ (mkNN nm <$> keys_of (limits_of (deref f l))), upd l (set_subtree actual) f)) L st.

Lemma rectify_loop_spec f0 L upds f : heap_sim no_usage f0 f → NoDup L.*2 →
  (∀ nm l, (nm, l) ∈ L → is_Some (f_heap f !! l)) →
  let '(upds', f') := rectify_loop f0 L (upds, f) in
  heap_sim no_usage f f' ∧ (∀ x, local_of (deref f' x) = local_of (deref f x)) ∧
  (∀ a la, (a, la) ∈ L → items (subtree_of (deref f' la)) = items (actual_usage f0 a la)) ∧
  (∀ x, x ∉ L.*2 → deref f' x = deref f x) ∧
  ((∀ a la, (a, la) ∈ L → items (subtree_of (deref f la)) = items (actual_usage f0 a la)) → upds' = upds ∧ f' = f).
Proof.
  revert upds f. induction L as [|[nm l] L IH]; intros upds f Hs0 Hnd Hheap.
  { simpl. split_and!; try done. by intros ? ? ?%elem_of_nil. }
  apply NoDup_cons in Hnd as [Hnl Hnd]. unfold rectify_loop. cbn [fold_left].
  rewrite <- (Limits_sim _ _ l Hs0). change (FilterUnlimited _ (Limits f0 l)) with (actual_usage f0 nm l).
  assert (is_Some (f_heap f !! l)) as Hlh by (apply (Hheap nm); by left).
  destruct (Equals _ _) eqn:Heq.
  - specialize (IH upds f Hs0 Hnd). unfold rectify_loop in IH. destruct (fold_left _ _ _) as [upds' f'].
    destruct IH as (Hs & Hloc & Hset & Hkeep & Hid). { intros. eapply Hheap. by right. }
    apply Equals_spec in Heq. split_and!; [done..| | |].
    + intros a la [[= -> ->]|Hin]%elem_of_cons; [by rewrite Hkeep|by apply Hset].
    + intros x Hx. apply Hkeep. set_solver.
    + intros Hall. apply Hid. intros. apply Hall. by right.
  - set (f1 := upd l _ f). assert (heap_sim no_usage f f1) as Hs1 by (apply heap_sim_upd; by intros []).
    specialize (IH (upds ++ (mkNN nm <$> keys_of (limits_of (deref f l)))) f1).
    unfold rectify_loop in IH. destruct (fold_left _ _ _) as [upds' f'].
    destruct IH as (Hs & Hloc & Hset & Hkeep & _); [by etrans|done|intros nm' l' Hin; apply upd_dom; eapply Hheap; by right|].
    apply Equals_false in Heq. split_and!.
    + by etrans.
    + intros x. rewrite Hloc. unfold f1. destruct (decide (x = l)) as [->|]; [rewrite deref_upd_eq by done|by rewrite deref_upd_ne].
      by destruct (deref f l).
    + intros a la [[= -> ->]|Hin]%elem_of_cons; [|by apply Hset]. rewrite Hkeep by done. unfold f1. by rewrite deref_upd_eq.
    + intros x Hx. rewrite Hkeep by set_solver. unfold f1. rewrite deref_upd_ne; [done|set_solver].
    + intros Hall. exfalso. apply Heq, Hall. by left.
Qed.

Lemma range_locs_NoDup f : wf f → NoDup (range (f_namespaces f)).*2.
Proof.
  intros Hwf. apply NoDup_fmap_2_strong.
  - intros [a la] [b lb] Ha%elem_of_range Hb%elem_of_range. simpl. intros ->. f_equal. by eapply live_inj.
  - rewrite range_perm. apply NoDup_map_to_list.
Qed.

Lemma RectifySubtreeUsages_spec f : wf f →
  let f' := (RectifySubtreeUsages f).2 in
  heap_sim no_usage f f' ∧ (∀ x, local_of (deref f' x) = local_of (deref f x)) ∧
  (∀ a la, f_namespaces f !! a = Some la → items (subtree_of (deref f' la)) = items (actual_usage f a la)) ∧
  ((∀ a la, f_namespaces f !! a = Some la → items (subtree_of (deref f la)) = items (actual_usage f a la)) →
    RectifySubtreeUsages f = ([], f)).
Proof.
  intros Hwf. pose proof (rectify_loop_spec f (range (f_namespaces f)) [] f (reflexivity _) (range_locs_NoDup f Hwf)) as Hsp.
  change (rectify_loop f (range (f_namespaces f)) ([], f)) with (RectifySubtreeUsages f) in Hsp.
  destruct (RectifySubtreeUsages f) as [upds f']. simpl.
  destruct Hsp as (Hs & Hloc & Hset & _ & Hid). { intros nm l Hin%elem_of_range. by eapply wf_name. }
  split_and!; [done..| |].
  - intros a la Ha. apply Hset. by apply elem_of_range.
  - intros Hall. destruct Hid as [-> ->]; [|done]. intros a la Ha%elem_of_range. by apply Hall.
Qed.

Lemma fold_left_ext {A B} (g h : A → B → A) l : (∀ a b, g a b = h a b) → ∀ a, fold_left g l a = fold_left h l a.
Proof. intros Hgh. induction l; intros a'; simpl; [done|]. by rewrite Hgh. Qed.

Lemma actual_usage_sim f f' a la : heap_sim no_usage f f' → (∀ x, local_of (deref f' x) = local_of (deref f x)) →
  actual_usage f' a la = actual_usage f a la.
Proof.
  intros Hs Hloc. unfold actual_usage. rewrite <- (Limits_sim _ _ la Hs). do 2 f_equal.
  assert (rectify_usages f' = rectify_usages f) as ->; [|done].
  unfold rectify_usages. destruct Hs as [Hn Hs'] eqn:E. rewrite Hn. apply fold_left_ext.
  intros usages [nm l]. rewrite Hloc. by rewrite <- (no_usage_ancestry f f').
Qed.

(** After rectification the stored usages are the totals. *)
Lemma RectifySubtreeUsages_accounted f : wf f → accounted (RectifySubtreeUsages f).2.
Proof.
  intros Hwf a la r Ha Hr. destruct (RectifySubtreeUsages_spec f Hwf) as (Hs & Hloc & Hset & _).
  set (f' := (RectifySubtreeUsages f).2) in *. assert (f_namespaces f !! a = Some la) as Ha' by (by destruct Hs as [-> _]).
  rewrite <- rectify_usages_total. unfold qty at 1. rewrite (Hset a la Ha'), <- (actual_usage_sim f f') by done.
  unfold actual_usage. rewrite lookup_FilterUnlimited, decide_True by done. done.
Qed.

(** A second rectification finds nothing to do. *)
Lemma RectifySubtreeUsages_idempotent f : wf f →
  let f' := (RectifySubtreeUsages f).2 in RectifySubtreeUsages f' = ([], f').
Proof.
  intros Hwf. destruct (RectifySubtreeUsages_spec f Hwf) as (Hs & Hloc & Hset & _). cbv zeta.
  set (f' := (RectifySubtreeUsages f).2) in *.
  destruct (RectifySubtreeUsages_spec f') as (_ & _ & _ & Hid); [by eapply wf_sim|].
  apply Hid. intros a la Ha. rewrite (actual_usage_sim f f') by done. apply Hset. by destruct Hs as [-> _].
Qed.
End quotas.
