(* ===== verification/ForestReads.v ===== *)
(** * Code that only reads the forest

    The webhooks look namespaces up with [Forest.Get], which allocates an entry
    for an unknown name.  [extends] says that this is all that happens: the objects
    that were there are unchanged, and what is new is unlinked and does not exist
    in the cluster.  [reads] is the class of stateful code with this effect, closed
    under the monad operations. *)

From S2P Require Import Prelude GoStrings Chains Validation Api Config Selectors Resources Forest ForestWf ForestWalks.

Record extends (f f' : Forest) : Prop := {
  ex_wf : wf f';
  ex_names x l : f_namespaces f !! x = Some l → f_namespaces f' !! x = Some l;
  ex_heap l : is_Some (f_heap f !! l) → is_Some (f_heap f' !! l);
  ex_deref l : is_Some (f_heap f !! l) → deref f' l = deref f l;
  ex_new x l : f_namespaces f !! x = None → f_namespaces f' !! x = Some l → deref f' l = newNamespace x;
  ex_types : f_types f' = f_types f
}.

Lemma extends_refl f : wf f → extends f f.
Proof. intros Hwf. split; try done. congruence. Qed.

Lemma extends_trans f g h : extends f g → extends g h → extends f h.
Proof.
  intros [Hw1 Hn1 Hh1 Hd1 Hw1' Ht1] [Hw2 Hn2 Hh2 Hd2 Hw2' Ht2]. split; [done|eauto|eauto| | |congruence].
  - intros l Hl. rewrite Hd2; eauto.
  - intros x l Hx Hxl. destruct (f_namespaces g !! x) as [l'|] eqn:Hg; [|eauto].
    pose proof (Hn2 _ _ Hg). simplify_eq. rewrite Hd2; [eauto|]. by eapply wf_name.
Qed.

Lemma Get_extends nm f o f' : wf f → Get nm f = (o, f') → extends f f'.
Proof.
  intros Hwf Hg. destruct o as [l|].
  - destruct (wf_Get nm f l f' Hwf Hg) as (Hw & Hn & Hl & Hd & Hnew). unfold Get in Hg.
    destruct (decide (nm = "")); [done|]. destruct (f_namespaces f !! nm) as [l0|] eqn:Hl0; simplify_eq; [by apply extends_refl|].
    split; [done|..|done].
    + intros x lx Hx. simpl. rewrite lookup_insert_ne; [done|congruence].
    + intros x Hx. simpl. destruct (decide (x = f_next f)) as [->|]; [by rewrite lookup_insert_eq|by rewrite lookup_insert_ne].
    + done.
    + intros x lx Hx. simpl. intros [[<- <-]|[_ ?]]%lookup_insert_Some; [by apply Hnew|congruence].
  - unfold Get in Hg. destruct (decide (nm = "")); [|by destruct (f_namespaces f !! nm)]. simplify_eq. by apply extends_refl.
Qed.

Section extends_facts.
  Context (f f' : Forest) (Hwf : wf f) (Hx : extends f f').

Lemma extends_parent x : parent_name f' x = parent_name f x.
Proof.
  unfold parent_name, ns_at. destruct (f_namespaces f !! x) as [l|] eqn:Hl.
  - rewrite (ex_names _ _ Hx _ _ Hl). assert (is_Some (f_heap f !! l)) as Hs by (by eapply wf_name).
    rewrite (ex_deref _ _ Hx _ Hs). destruct (ns_parent (deref f l)) as [p|] eqn:Hp; [|done]. simpl.
    destruct (wf_parent _ Hwf _ _ _ Hl Hp) as (pnm & Hpl & _).
    rewrite (ex_deref _ _ Hx p); [done|]. by eapply wf_name.
  - destruct (f_namespaces f' !! x) as [l|] eqn:Hl'; [|done]. by rewrite (ex_new _ _ Hx _ _ Hl Hl').
Qed.

Lemma extends_up : ∀ x y, up (parent_name f') x y ↔ up (parent_name f) x y.
Proof. intros x y. unfold up. by rewrite extends_parent. Qed.

Lemma extends_rtc x y : rtc (up (parent_name f')) x y ↔ rtc (up (parent_name f)) x y.
Proof. split; apply rtc_subrel; intros ? ?; apply extends_up. Qed.

Lemma extends_in_cycle x : in_cycle (parent_name f') x ↔ in_cycle (parent_name f) x.
Proof. unfold in_cycle. split; apply tc_mono; intros ? ?; apply extends_up. Qed.

Lemma extends_acyclic : acyclic (parent_name f) → acyclic (parent_name f').
Proof. intros Ha x Hc. by apply (Ha x), extends_in_cycle. Qed.

Lemma extends_halted x : halted_name f' x ↔ halted_name f x.
Proof.
  unfold halted_name, IsHalted. destruct (f_namespaces f !! x) as [l|] eqn:Hl.
  - rewrite (ex_names _ _ Hx _ _ Hl), (ex_deref _ _ Hx l); [done|]. by eapply wf_name.
  - destruct (f_namespaces f' !! x) as [l|] eqn:Hl'; [|done]. by rewrite (ex_new _ _ Hx _ _ Hl Hl').
Qed.

Lemma extends_cycles_halted : cycles_halted f → cycles_halted f'.
Proof.
  intros Hc x (y & Hy & Hh)%extends_in_cycle%Hc. exists y. by rewrite extends_rtc, extends_halted.
Qed.

Lemma extends_ns_at {A} (g : Namespace → A) (d : A) x : (∀ nm, g (newNamespace nm) = d) → g (ns_at f' x) = g (ns_at f x).
Proof.
  intros Hd. unfold ns_at. destruct (f_namespaces f !! x) as [l|] eqn:Hl.
  - rewrite (ex_names _ _ Hx _ _ Hl), (ex_deref _ _ Hx l); [done|]. by eapply wf_name.
  - rewrite Hd. destruct (f_namespaces f' !! x) as [l|] eqn:Hl'; [|by rewrite Hd]. by rewrite (ex_new _ _ Hx _ _ Hl Hl'), Hd.
Qed.

Lemma extends_isSub x : ns_IsSub (ns_at f' x) = ns_IsSub (ns_at f x).
Proof. by apply extends_ns_at with false. Qed.

Lemma extends_acd `{RO : RangeOrder} x l : f_namespaces f !! x = Some l →
  AllowsCascadingDeletion f' l = AllowsCascadingDeletion f l.
Proof.
  intros Hl. pose proof (ex_names _ _ Hx _ _ Hl) as Hl'.
  destruct (AllowsCascadingDeletion_terminates f Hwf x l Hl) as (b & -> & Hb).
  destruct (AllowsCascadingDeletion_terminates f' (ex_wf _ _ Hx) x l Hl') as (b' & -> & Hb'). f_equal.
  assert (∀ y, rtc (up_off_cycle f') x y ↔ rtc (up_off_cycle f) x y) as Hr.
  { intros y. split; apply rtc_subrel; intros u v; unfold up_off_cycle; by rewrite extends_up, extends_in_cycle. }
  assert (∀ y, acd_name f' y ↔ acd_name f y) as Ha.
  { intros y. unfold acd_name. by rewrite (extends_ns_at ns_allowCascadingDeletion false). }
  apply eq_true_iff_eq. rewrite Hb, Hb'. by setoid_rewrite Hr; setoid_rewrite Ha.
Qed.
End extends_facts.

(** ** Stateful code with this effect *)
Definition reads {A} (m : M Forest A) : Prop :=
  ∀ f a f', wf f → m f = Done (a, f') → extends f f'.

(** ... that returns on every forest whose cycles are halted. *)
Definition returns {A} (m : M Forest A) : Prop :=
  ∀ f, wf f → cycles_halted f → m f ≠ Diverges.

Section monad.
  Context {A B : Type}.
Lemma reads_ret (a : A) : reads (mret a).
Proof. intros f b f' Hwf [= <- <-]. by apply extends_refl. Qed.
Lemma reads_get : reads get.
Proof. intros f b f' Hwf [= <- <-]. by apply extends_refl. Qed.
Lemma reads_bind (m : M Forest A) (k : A → M Forest B) : reads m → (∀ a, reads (k a)) → reads (m ≫= k).
Proof.
  intros Hm Hk f b f' Hwf (a & g & Hg & Hb)%M_bind_inv. pose proof (Hm _ _ _ Hwf Hg) as Hx.
  eapply extends_trans; [done|]. eapply Hk; [|done]. by eapply ex_wf.
Qed.
Lemma reads_lift (o : outcome A) : reads (lift_outcome o).
Proof. intros f b f' Hwf. unfold lift_outcome. destruct o; [|done..]. intros [= <- <-]. by apply extends_refl. Qed.
Lemma reads_nonnil (o : option A) : reads (nonnil o).
Proof. destruct o; [apply reads_ret|]. by intros f b f' _. Qed.
Lemma reads_GetM nm : reads (GetM nm).
Proof. intros f o f' Hwf Hg. unfold GetM in Hg. injection Hg as Hg. by eapply Get_extends. Qed.

Lemma returns_ret (a : A) : returns (mret a).
Proof. done. Qed.
Lemma returns_get : returns get.
Proof. done. Qed.
Lemma returns_bind (m : M Forest A) (k : A → M Forest B) : reads m → returns m → (∀ a, returns (k a)) → returns (m ≫= k).
Proof.
  intros Hr Hm Hk f Hwf Hc. unfold mbind, M_bind. destruct (m f) as [[a g]| |] eqn:Hmf; [|done|by apply Hm in Hmf].
  pose proof (Hr _ _ _ Hwf Hmf) as Hx. apply Hk; [by eapply ex_wf|]. by eapply extends_cycles_halted.
Qed.
Lemma returns_lift (o : outcome A) : o ≠ Diverges → returns (lift_outcome o).
Proof. intros Ho f _ _. unfold lift_outcome. by destruct o. Qed.
Lemma returns_nonnil (o : option A) : returns (nonnil o).
Proof. by destruct o. Qed.
Lemma returns_GetM nm : returns (GetM nm).
Proof. done. Qed.
End monad.

#[export] Hint Resolve reads_ret reads_get reads_bind reads_lift reads_nonnil reads_GetM
  returns_ret returns_get returns_bind returns_nonnil returns_GetM : hnc.

(** Code in [E] never diverges: it has no loops of its own. *)
Definition finite {A} (m : E A) : Prop := m ≠ Diverges.

Section finite.
Lemma finite_ret {A} (a : A) : finite (mret a).
Proof. done. Qed.
Lemma finite_fail {A} err : finite (fail (A:=A) err).
Proof. done. Qed.
Lemma finite_bind {A B} (m : E A) (k : A → E B) : finite m → (∀ a, finite (k a)) → finite (m ≫= k).
Proof. unfold finite, mbind, E_bind. destruct m as [[|]| |]; auto. Qed.
End finite.
#[export] Hint Resolve finite_ret finite_fail finite_bind : hnc.

Section should_propagate.
  Context `{RX : RegexpLib} `{SL : SelectorLib} (cfg : Config).

Lemma tree_segments_finite segs str non : finite (tree_segments segs str non).
Proof.
  revert str non. induction segs as [|seg segs IH]; intros str non; simpl; [done|].
  apply finite_bind; [|intros; apply IH]. unfold validateTreeSelectorSegment.
  destruct (TrimSpace (TrimSpace seg)); [done|]. by destruct (IsDNS1123Label _).
Qed.

Lemma GetSelector_total inst : ∃ r, GetSelector inst = Done r.
Proof. unfold GetSelector. destruct (getSelectorFromString _); by eexists. Qed.
Lemma GetNoneSelector_total inst : ∃ r, GetNoneSelector inst = Done r.
Proof. unfold GetNoneSelector. destruct (decide _); [by eexists|]. destruct (ParseBool _); by eexists. Qed.
Lemma GetAllSelector_total inst : ∃ r, GetAllSelector inst = Done r.
Proof. unfold GetAllSelector. destruct (decide _); [by eexists|]. destruct (ParseBool _); by eexists. Qed.
Lemma GetTreeSelector_finite inst : finite (GetTreeSelector inst).
Proof.
  unfold GetTreeSelector. destruct (decide _); [done|]. apply finite_bind; [apply tree_segments_finite|].
  intros [str non]. destruct (getSelectorFromString str); [done|]. by destruct (decide _).
Qed.

Lemma finite_Done {A} (m : E A) r : m = Done r → finite m.
Proof. intros ->. done. Qed.

Lemma ShouldPropagate_finite inst ls mode : finite (ShouldPropagate cfg inst ls mode).
Proof.
  unfold ShouldPropagate. apply finite_bind; [destruct (GetSelector_total inst); by eapply finite_Done|].
  intros sel. apply finite_bind; [destruct (restricts sel) as [s|]; [by destruct (Matches s ls)|done]|].
  intros [[] prop]; [|done]. apply finite_bind; [apply GetTreeSelector_finite|].
  intros tree. apply finite_bind; [destruct (restricts tree) as [s|]; [by destruct (Matches s ls)|done]|].
  intros [[] prop']; [|done]. apply finite_bind; [destruct (GetNoneSelector_total inst); by eapply finite_Done|].
  intros []; [done|]. apply finite_bind; [destruct (GetAllSelector_total inst); by eapply finite_Done|].
  intros all. by destruct (isExcluded cfg inst).
Qed.

(** Only the parser of tree selectors can panic. *)
Lemma ShouldPropagate_safe inst ls mode : GetTreeSelector inst ≠ Panics → ShouldPropagate cfg inst ls mode ≠ Panics.
Proof.
  assert (∀ A B (m : E A) (k : A → E B), m ≠ Panics → (∀ a, k a ≠ Panics) → (m ≫= k) ≠ Panics) as Hbind.
  { intros A B m k Hm Hk. unfold mbind, E_bind. destruct m as [[|]| |]; auto. }
  intros Ht. unfold ShouldPropagate. apply Hbind; [by destruct (GetSelector_total inst) as [? ->]|].
  intros sel. apply Hbind; [destruct (restricts sel) as [s|]; [by destruct (Matches s ls)|done]|].
  intros [[] prop]; [|done]. apply Hbind; [done|].
  intros tree. apply Hbind; [destruct (restricts tree) as [s|]; [by destruct (Matches s ls)|done]|].
  intros [[] prop']; [|done]. apply Hbind; [by destruct (GetNoneSelector_total inst) as [? ->]|].
  intros []; [done|]. apply Hbind; [by destruct (GetAllSelector_total inst) as [? ->]|].
  intros all. by destruct (isExcluded cfg inst).
Qed.
End should_propagate.
