(* ===== verification/HierarchyValidator.v ===== *)
(** * The HierarchyConfiguration webhook (internal/hierarchyconfig/validator.go)

    Decides whether a user may change the parent of a namespace: structural
    checks against the forest under its lock, then checks against the API server.
    The API server is the record [serverClient]: its answers to the two questions
    the webhook asks. *)

From S2P Require Import Prelude GoStrings Chains Validation Api Config Selectors Resources Forest ForestWf ForestWalks.
From S2P Require Import ForestReads.

Record serverClient := {
  sc_Exists : string → string + bool;
  sc_IsAdmin : UserInfo → string → string + bool
}.

Record request := { r_hc : HierarchyConfiguration; r_ui : UserInfo }.

Inductive serverCheckType := checkAuthz | checkMissing.
#[export] Instance serverCheckType_eq_dec : EqDecision serverCheckType.
Proof. solve_decision. Defined.

Record serverCheck := mkCheck { nnm : string; checkType : serverCheckType; reason : string }.
#[export] Instance serverCheck_eq_dec : EqDecision serverCheck.
Proof. solve_decision. Defined.

Definition HierarchyConfigurationGR : string := "hierarchyconfigurations.hnc.x-k8s.io".
Definition HierarchyConfigurationGK : string := "HierarchyConfiguration.hnc.x-k8s.io".

(** The [%v] form of a group, version and kind. *)
Definition gvk_String (g : GroupVersionKind) : string :=
  Group g +:+ "/" +:+ Version g +:+ ", Kind=" +:+ Kind g.

Section validator.
  Context `{RO : RangeOrder} `{RX : RegexpLib} `{SL : SelectorLib} (cfg : Config) (server : serverClient).

Definition notReconciled (nm : string) : string :=
  "HNC has not reconciled namespace " +:+ quoted nm +:+ " yet - please try again in a few moments.".

Definition checkNS (ns : loc) : M Forest Response :=
  f ← get;
  if negb (Exists f ns) then mret (DenyServiceUnavailable (notReconciled (Name f (Some ns))))
  else
    haltedRoot ← lift_outcome (GetHaltedRoot f (Some ns));
    if decide (haltedRoot ≠ "" ∧ haltedRoot ≠ Name f (Some ns)) then
      mret (DenyForbidden HierarchyConfigurationGR Singleton
        ("ancestor " +:+ quoted haltedRoot +:+ " of namespace " +:+ quoted (Name f (Some ns)) +:+
         " has a critical condition, which must be resolved before any changes can be made to the hierarchy configuration"))
    else mret (Allow "").

(** The names of the sources in the new ancestors that would be propagated. *)
Fixpoint propagated_names (gvk : GroupVersionKind) (mode : SynchronizationMode) (nnms : list NamespacedName)
    (acc : gset string) : M Forest (gset string) :=
  match nnms with
  | [] => mret acc
  | nnm :: nnms' =>
      l ← GetM (nn_namespace nnm) ≫= nonnil;
      f ← get;
      o ← nonnil (GetSourceObject (deref f l) gvk (nn_name nnm));
      r ← lift_outcome (ShouldPropagate cfg o (items (om_Labels (u_Meta o))) mode);
      propagated_names gvk mode nnms' (match r with inr true => {[nn_name nnm]} ∪ acc | _ => acc end)
  end.

Fixpoint conflicts_in (gvk : GroupVersionKind) (newAnsSrcObjs : gset string) (dnses : list string) (cos : list string)
    : M Forest (list string) :=
  match dnses with
  | [] => mret cos
  | dns :: dnses' =>
      l ← GetM dns ≫= nonnil;
      f ← get;
      conflicts_in gvk newAnsSrcObjs dnses'
        (cos ++ ((λ nnm, "Namespace " +:+ quoted dns +:+ ": " +:+ nn_name nnm +:+ " (" +:+ gvk_String gvk +:+ ")") <$>
                 filter (λ nnm, nn_name nnm ∈ newAnsSrcObjs) (GetSourceNames (deref f l) gvk)))
  end.

Definition getConflictingObjectsOfType (gvk : GroupVersionKind) (mode : SynchronizationMode) (newParent ns : loc)
    : M Forest (list string) :=
  f ← get;
  newAnsSrcObjs ← propagated_names gvk mode (GetAncestorSourceNames f (Some newParent) gvk "") ∅;
  f ← get;
  conflicts_in gvk newAnsSrcObjs (DescendantNames f ns ++ [Name f (Some ns)]) [].

Fixpoint conflicts_of_types (ts : list TypeSyncer) (newParent ns : loc) (conflicts : list string) : M Forest (list string) :=
  match ts with
  | [] => mret conflicts
  | t :: ts' =>
      if CanPropagate t then
        cos ← getConflictingObjectsOfType (ts_GVK t) (ts_Mode t) newParent ns;
        conflicts_of_types ts' newParent ns (conflicts ++ cos)
      else conflicts_of_types ts' newParent ns conflicts
  end.

Definition getConflictingObjects (newParent : option loc) (ns : loc) : M Forest (list string) :=
  match newParent with
  | None => mret []
  | Some p => f ← get; conflicts_of_types (GetTypeSyncers f) p ns []
  end.


Definition checkParent (ns : loc) (curParent newParent : option loc) : M Forest Response :=
  f ← get;
  if IsExternal (deref f ns) && bool_decide (newParent ≠ None) then
    mret (DenyForbidden HierarchyConfigurationGR Singleton
      ("namespace " +:+ quoted (Name f (Some ns)) +:+ " is managed by " +:+ quoted (ns_Manager (deref f ns)) +:+
       ", not HNC, so it cannot have a parent in HNC"))
  else if decide (curParent = newParent) then mret (Allow "parent unchanged")
  else if ns_IsSub (deref f ns) then
    mret (DenyConflict HierarchyConfigurationGR Singleton
      ("illegal parent: Cannot set the parent of " +:+ quoted (Name f (Some ns)) +:+ " to " +:+ quoted (Name f newParent) +:+
       " because it's a subnamespace of " +:+ quoted (Name f curParent)))
  else if (match newParent with Some p => negb (Exists f p) | None => false end) then
    mret (DenyForbidden HierarchyConfigurationGR Singleton
      ("requested parent " +:+ quoted (Name f newParent) +:+ " does not exist"))
  else if decide (CanSetParent f ns newParent ≠ "") then
    mret (DenyConflict HierarchyConfigurationGR Singleton ("illegal parent: " +:+ CanSetParent f ns newParent))
  else
    co ← getConflictingObjects newParent ns;
    match co with
    | [] => mret (Allow "")
    | _ =>
        mret (DenyConflict HierarchyConfigurationGR Singleton
          ("Cannot update hierarchy because it would overwrite the following object(s):" +:+ nl +:+
           "  * " +:+ Join co (nl +:+ "  * ") +:+ nl +:+
           "To fix this, please rename or remove the conflicting objects first."))
    end.

(** The loop of [getServerChecks] over the two chains, from index 1. *)
Fixpoint mrca_loop (mrca : string) (curChain newChain : list string) : string :=
  match curChain, newChain with
  | c :: cs, n :: ns => if decide (c ≠ n) then mrca else mrca_loop c cs ns
  | _, _ => mrca
  end.

(** [curChain[0]] panics on an empty chain; [AncestryNames] of a non-nil namespace is never empty. *)
Definition getServerChecks (f : Forest) (curParent newParent : option loc) : outcome (list serverCheck) :=
  if decide (curParent = newParent) then Done []
  else if bool_decide (curParent = None) || negb (IsManagedNamespace cfg (Name f curParent)) then
    match newParent with
    | Some _ => Done [mkCheck (Name f newParent) checkAuthz "proposed parent"]
    | None => Done []
    end
  else match curParent with
  | None => Done []
  | Some cp =>
      if negb (Exists f cp) then Done [mkCheck (Name f curParent) checkMissing "current missing parent"]
      else
        match AncestryNames f curParent with
        | [] => Panics
        | curRoot :: curChain =>
            match newParent with
            | None => Done [mkCheck curRoot checkAuthz "current root ancestor"]
            | Some _ =>
                match AncestryNames f newParent with
                | [] => Panics
                | newRoot :: newChain =>
                    if decide (curRoot ≠ newRoot) then
                      Done [mkCheck curRoot checkAuthz "current root ancestor";
                            mkCheck (Name f newParent) checkAuthz "proposed parent"]
                    else
                      Done [mkCheck (mrca_loop curRoot curChain newChain) checkAuthz
                        ("most recent common ancestor of current parent " +:+ quoted (Name f curParent) +:+
                         " and proposed parent " +:+ quoted (Name f newParent))]
                end
            end
        end
  end.

Definition checkForest (hc : HierarchyConfiguration) : M Forest (list serverCheck * Response) :=
  ns ← GetM (om_Namespace (hc_Meta hc));
  f ← get;
  let curParent := Parent f ns in
  newParent ← GetM (hcs_Parent (hc_Spec hc));
  ns ← nonnil ns;
  resp ← checkNS ns;
  if negb (Allowed resp) then mret ([], resp)
  else
    resp ← checkParent ns curParent newParent;
    if negb (Allowed resp) then mret ([], resp)
    else
      f ← get;
      checks ← lift_outcome (getServerChecks f curParent newParent);
      mret (checks, Allow "").

Fixpoint checkServer (ui : UserInfo) (reqs : list serverCheck) : Response :=
  match reqs with
  | [] => Allow ""
  | req :: reqs' =>
      match checkType req with
      | checkMissing =>
          match sc_Exists server (nnm req) with
          | inl err => DenyInternalError ("while checking existance for " +:+ quoted (nnm req) +:+ ", the " +:+ reason req +:+ ": " +:+ err)
          | inr true => DenyServiceUnavailable (notReconciled (nnm req))
          | inr false => checkServer ui reqs'
          end
      | checkAuthz =>
          match sc_IsAdmin server ui (nnm req) with
          | inl err => DenyInternalError ("while checking authz for " +:+ quoted (nnm req) +:+ ", the " +:+ reason req +:+ ": " +:+ err)
          | inr false =>
              DenyUnauthorized ("User " +:+ ui_Username ui +:+ " is not authorized to modify the subtree of " +:+ nnm req +:+
                ", which is the " +:+ reason req)
          | inr true => checkServer ui reqs'
          end
      end
  end.

Definition handle (req : request) : M Forest Response :=
  let hc := r_hc req in
  if IsHNCServiceAccount cfg (Some (r_ui req)) then mret (Allow "HNC SA")
  else if decide (WhyUnmanaged cfg (om_Namespace (hc_Meta hc)) ≠ "") then
    mret (DenyForbidden HierarchyConfigurationGR Singleton
      ("namespace " +:+ quoted (om_Namespace (hc_Meta hc)) +:+ " is not managed by HNC (" +:+
       WhyUnmanaged cfg (om_Namespace (hc_Meta hc)) +:+ ") and cannot be set as a child of another namespace"))
  else if decide (WhyUnmanaged cfg (hcs_Parent (hc_Spec hc)) ≠ "") then
    mret (DenyForbidden HierarchyConfigurationGR Singleton
      ("namespace " +:+ quoted (hcs_Parent (hc_Spec hc)) +:+ " is not managed by HNC (" +:+
       WhyUnmanaged cfg (hcs_Parent (hc_Spec hc)) +:+ ") and cannot be set as the parent of another namespace"))
  else
    match ValidateManagedLabels cfg (hcs_Labels (hc_Spec hc)) ++ ValidateManagedAnnotations cfg (hcs_Annotations (hc_Spec hc)) with
    | (_ :: _) as allErrs => mret (DenyInvalid HierarchyConfigurationGK (om_Name (hc_Meta hc)) allErrs)
    | [] =>
        '(serverChecks, resp) ← checkForest hc;
        if negb (Allowed resp) then mret resp
        else mret (checkServer (r_ui req) serverChecks)
    end.
End validator.

(** ** The most recent common ancestor *)
Lemma mrca_loop_spec m cs ns : ∃ k,
  mrca_loop m cs ns = default m (last k) ∧ k `prefix_of` cs ∧ k `prefix_of` ns ∧
  (∀ k', k' `prefix_of` cs → k' `prefix_of` ns → k' `prefix_of` k).
Proof.
  revert m ns. induction cs as [|c cs IH]; intros m ns.
  { exists []. split_and!; [done|apply prefix_nil..|]. intros k' Hk' _. done. }
  destruct ns as [|n ns].
  { exists []. split_and!; [done|apply prefix_nil..|]. intros k' _ Hk'. done. }
  simpl. destruct (decide (c ≠ n)) as [Hne|Heq].
  - exists []. split_and!; [done|apply prefix_nil..|]. intros [|x k'] Hc Hn; [done|].
    apply prefix_cons_inv_1 in Hc, Hn. congruence.
  - apply dec_stable in Heq as ->. destruct (IH n ns) as (k & Hl & H1 & H2 & Hmax). exists (n :: k).
    split_and!; [|by apply prefix_cons..|].
    + rewrite Hl, last_cons. by destruct (last k).
    + intros [|x k'] Hc Hn; [apply prefix_nil|]. pose proof (prefix_cons_inv_1 _ _ _ _ Hc) as ->.
      apply prefix_cons_inv_2 in Hc, Hn. apply prefix_cons. by apply Hmax.
Qed.

Section mrca.
  Context (f : Forest) (Hwf : wf f) (Hac : acyclic (parent_name f)).

Lemma AncestryNames_prefix x lx y ly : f_namespaces f !! x = Some lx → f_namespaces f !! y = Some ly →
  rtc (up (parent_name f)) x y → AncestryNames f (Some ly) `prefix_of` AncestryNames f (Some lx).
Proof.
  intros Hx Hy Hr. pose proof (AncestryNames_walk f Hwf _ _ Hx) as Hwx. pose proof (AncestryNames_walk f Hwf _ _ Hy) as Hwy.
  pose proof (full_walk_suffix _ _ _ _ _ Hac Hr Hwx Hwy) as [k Hk].
  exists (reverse k). apply (f_equal reverse) in Hk. by rewrite reverse_app, !reverse_involutive in Hk.
Qed.

Lemma AncestryNames_last x lx : f_namespaces f !! x = Some lx → last (AncestryNames f (Some lx)) = Some x.
Proof.
  intros Hx. destruct (AncestryNames_walk f Hwf _ _ Hx) as (Hh & _). by rewrite <- head_reverse.
Qed.

Lemma prefix_live p x lx : p `prefix_of` AncestryNames f (Some lx) → f_namespaces f !! x = Some lx →
  ∀ m, last p = Some m → ∃ lm, f_namespaces f !! m = Some lm ∧ p = AncestryNames f (Some lm).
Proof.
  intros Hp Hx m Hm. assert (m ∈ AncestryNames f (Some lx)) as Hin.
  { destruct Hp as [k ->]. apply elem_of_app. left. by eapply last_Some_elem_of. }
  destruct (AncestryNames_live f Hwf x lx m Hx Hin) as [lm Hlm]. exists lm. split; [done|].
  apply (AncestryNames_elem f Hwf x lx m Hx) in Hin.
  pose proof (AncestryNames_prefix x lx m lm Hx Hlm Hin) as Hpm.
  assert (NoDup (AncestryNames f (Some lx))) as Hnd.
  { destruct (AncestryNames_walk f Hwf _ _ Hx) as (_ & Hc & [[Hnd _]|(l' & z & Hl & _ & Hz)]).
    - rewrite <- (reverse_involutive (AncestryNames _ _)). by apply NoDup_reverse.
    - exfalso. rewrite Hl in Hc. apply list_elem_of_split in Hz as (k1 & k2 & ->). apply (Hac z).
      rewrite <- app_assoc in Hc. simpl in Hc. apply chain_app_r in Hc; [|done]. by eapply chain_reach_last. }
  by apply (NoDup_prefix_last _ _ _ m Hnd Hp Hpm); [|apply AncestryNames_last].
Qed.

(** The namespace whose admin must approve a move inside a tree: it is above
    both parents, and no other common ancestor is below it. *)
Lemma mrca_common x lx y ly r cs ns : f_namespaces f !! x = Some lx → f_namespaces f !! y = Some ly →
  AncestryNames f (Some lx) = r :: cs → AncestryNames f (Some ly) = r :: ns →
  let m := mrca_loop r cs ns in
  rtc (up (parent_name f)) x m ∧ rtc (up (parent_name f)) y m ∧
  ∀ c, rtc (up (parent_name f)) x c → rtc (up (parent_name f)) y c → rtc (up (parent_name f)) m c.
Proof.
  intros Hx Hy Hax Hay m. destruct (mrca_loop_spec r cs ns) as (k & Hm & Hkc & Hkn & Hmax). fold m in Hm.
  assert (last (r :: k) = Some m) as Hlast by (rewrite Hm, last_cons; by destruct (last k)).
  assert (r :: k `prefix_of` AncestryNames f (Some lx)) as Hpx by (rewrite Hax; by apply prefix_cons).
  assert (r :: k `prefix_of` AncestryNames f (Some ly)) as Hpy by (rewrite Hay; by apply prefix_cons).
  destruct (prefix_live _ x lx Hpx Hx m Hlast) as (lm & Hlm & Hk).
  assert (m ∈ r :: k) as Hmin by (by eapply last_Some_elem_of).
  assert (∀ z lz, r :: k `prefix_of` AncestryNames f (Some lz) → f_namespaces f !! z = Some lz → rtc (up (parent_name f)) z m) as Hup.
  { intros z lz [t Ht] Hz. apply (AncestryNames_elem f Hwf z lz m Hz). rewrite Ht. apply elem_of_app. by left. }
  split_and!; [exact (Hup x lx Hpx Hx)|exact (Hup y ly Hpy Hy)|]. intros c Hxc Hyc.
  destruct (rtc_live f Hwf x c (mk_is_Some _ _ Hx) Hxc) as [lc Hlc].
  pose proof (AncestryNames_prefix x lx c lc Hx Hlc Hxc) as Hcx.
  pose proof (AncestryNames_prefix y ly c lc Hy Hlc Hyc) as Hcy.
  pose proof (AncestryNames_last c lc Hlc) as Hlc'. rewrite Hax in Hcx. rewrite Hay in Hcy.
  apply (AncestryNames_elem f Hwf m lm c Hlm). rewrite <- Hk.
  destruct (AncestryNames f (Some lc)) as [|r' t]; [done|].
  pose proof (prefix_cons_inv_1 _ _ _ _ Hcx) as ->. apply prefix_cons_inv_2 in Hcx, Hcy.
  destruct (Hmax t Hcx Hcy) as [t' ->]. apply last_Some_elem_of in Hlc'. set_solver.
Qed.
End mrca.

(** ** What the webhook lets through *)
Section sound.
  Context `{RO : RangeOrder} `{RX : RegexpLib} `{SL : SelectorLib} (cfg : Config) (server : serverClient).

Lemma checkServer_allowed ui reqs : Allowed (checkServer server ui reqs) = true →
  ∀ q, q ∈ reqs → match checkType q with
    | checkAuthz => sc_IsAdmin server ui (nnm q) = inr true
    | checkMissing => sc_Exists server (nnm q) = inr false
    end.
Proof.
  induction reqs as [|q reqs IH]; simpl; [by intros _ q ?%elem_of_nil|]. intros Ha q' [->|Hq]%elem_of_cons; revert Ha.
  - destruct (checkType q); [destruct (sc_IsAdmin server ui (nnm q)) as [|[]]|destruct (sc_Exists server (nnm q)) as [|[]]]; done.
  - destruct (checkType q); [destruct (sc_IsAdmin server ui (nnm q)) as [|[]]|destruct (sc_Exists server (nnm q)) as [|[]]];
      try done; intros Ha; by apply IH.
Qed.

(** An allowed change of parent, as [checkParent] sees it. *)
Lemma checkParent_allowed f ns cur new resp f' : checkParent cfg ns cur new f = Done (resp, f') → Allowed resp = true →
  (new ≠ None → IsExternal (deref f ns) = false) ∧
  (cur ≠ new → ns_IsSub (deref f ns) = false ∧ (∀ p, new = Some p → Exists f p = true) ∧
     CanSetParent f ns new = "" ∧ getConflictingObjects cfg new ns f = Done ([], f')).
Proof.
  unfold checkParent. intros H Ha. apply M_bind_inv in H as (g & s & Hg & H). unfold get in Hg. injection Hg as <- <-.
  destruct (IsExternal (deref f ns) && bool_decide (new ≠ None)) eqn:Hex.
  { by injection H as <- <-. }
  assert (new ≠ None → IsExternal (deref f ns) = false) as He.
  { intros Hn. apply andb_false_iff in Hex as [?|Hb]; [done|]. by apply bool_decide_eq_false in Hb. }
  split; [done|]. intros Hne. rewrite decide_False in H by done.
  destruct (ns_IsSub (deref f ns)); [by injection H as <- <-|].
  destruct (match new with Some p => negb (Exists f p) | None => false end) eqn:Hnew; [by injection H as <- <-|].
  destruct (decide (CanSetParent f ns new ≠ "")) as [|Hcan]; [by injection H as <- <-|]. apply dec_stable in Hcan.
  apply M_bind_inv in H as (co & s & Hco & H). split_and!; [done| |done|].
  - intros p ->. by apply negb_false_iff in Hnew.
  - destruct co; [|by injection H as <- <-]. by injection H as _ <-.
Qed.

(** *** The webhook only reads the forest, and answers when cycles are halted *)
Lemma checkNS_reads ns : reads (checkNS ns).
Proof.
  unfold checkNS. apply reads_bind; [auto with hnc|]. intros f. destruct (negb _); [auto with hnc|].
  apply reads_bind; [auto with hnc|]. intros r. destruct (decide _); auto with hnc.
Qed.

Lemma propagated_names_reads gvk mode nnms acc : reads (propagated_names cfg gvk mode nnms acc).
Proof.
  revert acc. induction nnms as [|n nnms IH]; intros acc; simpl; [auto with hnc|].
  repeat (apply reads_bind; [auto with hnc|intros ?]). apply IH.
Qed.

Lemma conflicts_in_reads gvk X dnses cos : reads (conflicts_in gvk X dnses cos).
Proof.
  revert cos. induction dnses as [|n dnses IH]; intros cos; simpl; [auto with hnc|].
  repeat (apply reads_bind; [auto with hnc|intros ?]). apply IH.
Qed.

Lemma conflicts_of_types_reads ts p ns cos : reads (conflicts_of_types cfg ts p ns cos).
Proof.
  revert cos. induction ts as [|t ts IH]; intros cos; simpl; [auto with hnc|].
  destruct (CanPropagate t); [|apply IH]. apply reads_bind; [|intros; apply IH].
  unfold getConflictingObjectsOfType. apply reads_bind; [auto with hnc|intros f].
  apply reads_bind; [apply propagated_names_reads|intros ?].
  apply reads_bind; [auto with hnc|intros ?]. apply conflicts_in_reads.
Qed.

Lemma getConflictingObjects_reads new ns : reads (getConflictingObjects cfg new ns).
Proof.
  unfold getConflictingObjects. destruct new; [|auto with hnc].
  apply reads_bind; [auto with hnc|intros]. apply conflicts_of_types_reads.
Qed.

Lemma checkParent_reads ns cur new : reads (checkParent cfg ns cur new).
Proof.
  unfold checkParent. apply reads_bind; [auto with hnc|intros f].
  destruct (_ && _); [auto with hnc|]. destruct (decide _); [auto with hnc|]. destruct (ns_IsSub _); [auto with hnc|].
  destruct (match new with Some _ => _ | None => _ end); [auto with hnc|]. destruct (decide _); [auto with hnc|].
  apply reads_bind; [apply getConflictingObjects_reads|]. intros []; auto with hnc.
Qed.

Lemma checkForest_reads hc : reads (checkForest cfg hc).
Proof.
  unfold checkForest. do 4 (apply reads_bind; [auto with hnc|intros ?]).
  apply reads_bind; [apply checkNS_reads|intros r]. destruct (negb _); [auto with hnc|].
  apply reads_bind; [apply checkParent_reads|intros r']. destruct (negb _); [auto with hnc|].
  repeat (apply reads_bind; [auto with hnc|intros ?]). auto with hnc.
Qed.

Lemma handle_reads req : reads (handle cfg server req).
Proof.
  unfold handle. destruct (IsHNCServiceAccount _ _); [auto with hnc|].
  do 2 (destruct (decide _); [auto with hnc|]). destruct (_ ++ _); [|auto with hnc].
  apply reads_bind; [apply checkForest_reads|]. intros [cs r]. destruct (negb _); auto with hnc.
Qed.

(** [GetHaltedRoot] is asked about a namespace of the forest. *)
Lemma checkNS_returns f ns nm : wf f → cycles_halted f → f_namespaces f !! nm = Some ns → checkNS ns f ≠ Diverges.
Proof.
  intros Hwf Hc Hl. unfold checkNS, mbind, M_bind, get. destruct (negb _); [done|].
  destruct (GetHaltedRoot_spec f Hwf nm ns Hc Hl) as (r & -> & _). simpl. by destruct (decide _).
Qed.

Lemma propagated_names_returns gvk mode nnms acc : returns (propagated_names cfg gvk mode nnms acc).
Proof.
  revert acc. induction nnms as [|n nnms IH]; intros acc; simpl; [auto with hnc|].
  do 3 (apply returns_bind; [auto with hnc|auto with hnc|intros ?]).
  apply returns_bind; [auto with hnc|apply returns_lift, ShouldPropagate_finite|intros ?]. apply IH.
Qed.

Lemma conflicts_in_returns gvk X dnses cos : returns (conflicts_in gvk X dnses cos).
Proof.
  revert cos. induction dnses as [|n dnses IH]; intros cos; simpl; [auto with hnc|].
  do 2 (apply returns_bind; [auto with hnc|auto with hnc|intros ?]). apply IH.
Qed.

Lemma getConflictingObjects_returns new ns : returns (getConflictingObjects cfg new ns).
Proof.
  unfold getConflictingObjects. destruct new as [p|]; [|auto with hnc].
  apply returns_bind; [auto with hnc|auto with hnc|intros f]. generalize (GetTypeSyncers f) ([] : list string).
  intros ts. induction ts as [|t ts IH]; intros cos; simpl; [auto with hnc|].
  destruct (CanPropagate t); [|apply IH]. unfold getConflictingObjectsOfType.
  apply returns_bind; [..|intros; apply IH].
  - apply reads_bind; [auto with hnc|intros g]. apply reads_bind; [apply propagated_names_reads|intros ?].
    apply reads_bind; [auto with hnc|intros ?]. apply conflicts_in_reads.
  - apply returns_bind; [auto with hnc|auto with hnc|intros g].
    apply returns_bind; [apply propagated_names_reads|apply propagated_names_returns|intros ?].
    apply returns_bind; [auto with hnc|auto with hnc|intros ?]. apply conflicts_in_returns.
Qed.

Lemma GetM_inv nm f o g : wf f → GetM nm f = Done (o, g) →
  extends f g ∧ match o with
    | None => nm = ""
    | Some l => nm ≠ "" ∧ f_namespaces g !! nm = Some l
    end.
Proof.
  intros Hwf Hg. unfold GetM in Hg. injection Hg as Hg. split; [by eapply Get_extends|].
  destruct o as [l|]; unfold Get in Hg; destruct (decide (nm = "")) as [|Hne]; try done.
  - split; [done|]. destruct (f_namespaces f !! nm) eqn:Hn; simplify_eq; [done|]. simpl. by rewrite lookup_insert_eq.
  - by destruct (f_namespaces f !! nm).
Qed.

(** The names behind the two parents that [checkForest] compares. *)
Definition as_parent (nm : string) : option string := if decide (nm = "") then None else Some nm.

(** An allowed request, as the forest [g] saw it when the checks ran. *)
Record admitted (hc : HierarchyConfiguration) (g f' : Forest) (checks : list serverCheck) (ns : loc) (new : option loc) : Prop := {
  ad_wf : wf g;
  ad_ext : extends g f';
  ad_ns : f_namespaces g !! om_Namespace (hc_Meta hc) = Some ns;
  ad_new : match new with
           | None => hcs_Parent (hc_Spec hc) = ""
           | Some p => hcs_Parent (hc_Spec hc) ≠ "" ∧ f_namespaces g !! hcs_Parent (hc_Spec hc) = Some p
           end;
  ad_exists : ns_exists (deref g ns) = true;
  ad_external : new ≠ None → IsExternal (deref g ns) = false;
  ad_change : ns_parent (deref g ns) ≠ new →
    ns_IsSub (deref g ns) = false ∧ (∀ p, new = Some p → Exists g p = true) ∧ CanSetParent g ns new = "" ∧
    getConflictingObjects cfg new ns g = Done ([], f');
  ad_checks : getServerChecks cfg f' (ns_parent (deref g ns)) new = Done checks
}.

Lemma checkNS_allowed f ns resp f' : checkNS ns f = Done (resp, f') → Allowed resp = true →
  f' = f ∧ ns_exists (deref f ns) = true.
Proof.
  unfold checkNS, mbind, M_bind, get, Exists. destruct (ns_exists (deref f ns)); simpl.
  - unfold lift_outcome. destruct (GetHaltedRoot f (Some ns)); [|done..]. destruct (decide _); by intros [= <- <-].
  - by intros [= <- <-].
Qed.

Lemma checkForest_admitted hc f checks resp f' : wf f → checkForest cfg hc f = Done ((checks, resp), f') → Allowed resp = true →
  ∃ g ns new, extends f g ∧ admitted hc g f' checks ns new.
Proof.
  intros Hwf H Ha. unfold checkForest in H.
  apply M_bind_inv in H as (ons & f1 & Hns & H). apply (GetM_inv _ _ _ _ Hwf) in Hns as [Hx1 Hns].
  apply M_bind_inv in H as (f1' & f1'' & Hg & H). unfold get in Hg. injection Hg as <- <-.
  apply M_bind_inv in H as (new & g & Hnew & H). pose proof (ex_wf _ _ Hx1) as Hwf1.
  apply (GetM_inv _ _ _ _ Hwf1) in Hnew as [Hx2 Hnew].
  apply M_bind_inv in H as (ns & g1 & Hnn & H). destruct ons as [ns'|]; [|done]. simpl in Hnn. injection Hnn as <- <-.
  destruct Hns as [Hne Hns]. pose proof (ex_names _ _ Hx2 _ _ Hns) as Hns2.
  apply M_bind_inv in H as (r1 & g2 & Hck & H). destruct (Allowed r1) eqn:Hr1; [|by injection H as <- <- <-; rewrite Hr1 in Ha].
  simpl in H. destruct (checkNS_allowed _ _ _ _ Hck Hr1) as [-> Hex].
  apply M_bind_inv in H as (r2 & f2 & Hcp & H). destruct (Allowed r2) eqn:Hr2; [|by injection H as <- <- <-; rewrite Hr2 in Ha].
  simpl in H. assert (ns_parent (deref f1 ns') = ns_parent (deref g ns')) as Hcur.
  { rewrite (ex_deref _ _ Hx2); [done|]. by eapply wf_name. }
  rewrite Hcur in *. pose proof (ex_wf _ _ Hx2) as Hwf2.
  pose proof (checkParent_reads _ _ _ _ _ _ Hwf2 Hcp) as Hx3.
  destruct (checkParent_allowed _ _ _ _ _ _ Hcp Hr2) as [Hext Hch].
  apply M_bind_inv in H as (f2' & f2'' & Hg & H). unfold get in Hg. injection Hg as <- <-.
  apply M_bind_inv in H as (cs & f3 & Hcs & H). injection H as <- _ <-.
  unfold lift_outcome in Hcs. destruct (getServerChecks cfg f2 (ns_parent (deref g ns')) new) eqn:Hsc; [|done..].
  injection Hcs as <- <-.
  exists g, ns', new. split; [by eapply extends_trans|]. split; try done.
Qed.

Lemma handle_admitted req f resp f' : wf f → IsHNCServiceAccount cfg (Some (r_ui req)) = false →
  handle cfg server req f = Done (resp, f') → Allowed resp = true →
  ∃ g checks ns new, extends f g ∧ admitted (r_hc req) g f' checks ns new ∧
    IsManagedNamespace cfg (om_Namespace (hc_Meta (r_hc req))) = true ∧
    IsManagedNamespace cfg (hcs_Parent (hc_Spec (r_hc req))) = true ∧
    ValidateManagedLabels cfg (hcs_Labels (hc_Spec (r_hc req))) = [] ∧
    ValidateManagedAnnotations cfg (hcs_Annotations (hc_Spec (r_hc req))) = [] ∧
    Allowed (checkServer server (r_ui req) checks) = true.
Proof.
  intros Hwf Hsa H Ha. unfold handle in H. rewrite Hsa in H.
  destruct (decide (WhyUnmanaged cfg (om_Namespace _) ≠ "")) as [|Hm1]; [by injection H as <- <-|].
  destruct (decide (WhyUnmanaged cfg (hcs_Parent _) ≠ "")) as [|Hm2]; [by injection H as <- <-|].
  destruct (_ ++ _) as [|e es] eqn:Hv; [|by injection H as <- <-]. apply app_nil in Hv as [Hl Han].
  apply M_bind_inv in H as ([cs r] & f1 & Hcf & H).
  destruct (Allowed r) eqn:Hr; [|by injection H as <- <-; rewrite Hr in Ha]. injection H as <- <-.
  destruct (checkForest_admitted _ _ _ _ _ Hwf Hcf Hr) as (g & ns & new & Hx & Had).
  exists g, cs, ns, new. split_and!; try done; unfold IsManagedNamespace; apply bool_decide_eq_true_2; by apply dec_stable.
Qed.

(** The parent function after the requested change. *)
Definition moved (f : Forest) (nm pnm : string) (x : string) : option string :=
  if decide (x = nm) then as_parent pnm else parent_name f x.

Lemma moved_acyclic req f resp f' : wf f → acyclic (parent_name f) →
  IsHNCServiceAccount cfg (Some (r_ui req)) = false →
  handle cfg server req f = Done (resp, f') → Allowed resp = true →
  acyclic (moved f (om_Namespace (hc_Meta (r_hc req))) (hcs_Parent (hc_Spec (r_hc req)))).
Proof.
  intros Hwf Hac Hsa H Ha. destruct (handle_admitted _ _ _ _ Hwf Hsa H Ha) as (g & cs & ns & new & Hx & Had & _).
  destruct Had as [Hwg _ Hns Hnew _ _ Hch _]. set (nm := om_Namespace _) in *. set (pnm := hcs_Parent _) in *.
  apply (acyclic_change (parent_name f) _ nm (as_parent pnm)); [|intros y Hy|done|].
  - unfold moved. by rewrite decide_True.
  - unfold moved. by rewrite decide_False.
  - intros p Hp Hr. unfold as_parent in Hp. destruct (decide (pnm = "")) as [|Hne]; [done|]. injection Hp as <-.
    destruct new as [q|]; [|done]. destruct Hnew as [_ Hq].
    destruct (decide (ns_parent (deref g ns) = Some q)) as [Heq|Hdiff].
    + apply (Hac nm). eapply tc_rtc_r; [apply tc_once|exact Hr].
      rewrite <- (extends_up f g Hwf Hx). apply (parent_name_Some g Hwg). eauto.
    + destruct (Hch Hdiff) as (_ & _ & Hcan & _). apply (CanSetParent_spec g Hwg nm ns pnm q Hns Hq) in Hcan.
      apply Hcan. by apply (extends_rtc f g Hwf Hx).
Qed.

(** The administrators that must have approved an allowed move from the existing,
    managed parent [q] to the parent [p]. *)
Definition approved (f : Forest) (ui : UserInfo) (q p : string) : Prop :=
  (∃ m, sc_IsAdmin server ui m = inr true ∧
     rtc (up (parent_name f)) q m ∧ rtc (up (parent_name f)) p m ∧
     ∀ c, rtc (up (parent_name f)) q c → rtc (up (parent_name f)) p c → rtc (up (parent_name f)) m c) ∨
  (∃ root, sc_IsAdmin server ui root = inr true ∧ sc_IsAdmin server ui p = inr true ∧
     rtc (up (parent_name f)) q root ∧ parent_name f root = None ∧
     ∀ c, ¬ (rtc (up (parent_name f)) q c ∧ rtc (up (parent_name f)) p c)).

(** Without cycles, the first name of an ancestry is a root. *)
Lemma AncestryNames_root f x lx r cs : wf f → acyclic (parent_name f) → f_namespaces f !! x = Some lx →
  AncestryNames f (Some lx) = r :: cs →
  rtc (up (parent_name f)) x r ∧ parent_name f r = None ∧ ∀ c, rtc (up (parent_name f)) x c → rtc (up (parent_name f)) c r.
Proof.
  intros Hwf Hac Hx Ha. assert (rtc (up (parent_name f)) x r) as Hr.
  { apply (AncestryNames_elem f Hwf x lx r Hx). rewrite Ha. by left. }
  assert (∀ c, rtc (up (parent_name f)) x c → rtc (up (parent_name f)) c r) as Hall.
  { intros c Hc. destruct (rtc_live f Hwf x c (mk_is_Some _ _ Hx) Hc) as [lc Hlc].
    apply (AncestryNames_elem f Hwf c lc r Hlc).
    pose proof (AncestryNames_prefix f Hwf Hac x lx c lc Hx Hlc Hc) as [k Hk]. rewrite Ha in Hk.
    pose proof (AncestryNames_self f Hwf c lc Hlc). destruct (AncestryNames f (Some lc)) as [|r' t]; [set_solver|].
    simplify_eq/=. by left. }
  split_and!; [done| |done]. destruct (parent_name f r) as [q|] eqn:Hq; [exfalso|done].
  apply (Hac r). eapply tc_rtc_r; [by apply tc_once|]. apply Hall. by eapply rtc_r.
Qed.

Lemma getServerChecks_approved f ui q lq p lp checks : wf f → acyclic (parent_name f) →
  f_namespaces f !! q = Some lq → f_namespaces f !! p = Some lp → lq ≠ lp →
  IsManagedNamespace cfg q = true → ns_exists (deref f lq) = true →
  getServerChecks cfg f (Some lq) (Some lp) = Done checks → Allowed (checkServer server ui checks) = true →
  approved f ui q p.
Proof.
  intros Hwf Hac Hq Hp Hne Hm He H Ha. unfold getServerChecks in H. rewrite decide_False in H by congruence.
  assert (Name f (Some lq) = q) as Hnq by (by apply (live_name f Hwf)).
  assert (Name f (Some lp) = p) as Hnp by (by apply (live_name f Hwf)).
  rewrite Hnq, Hnp, Hm in H. simpl in H. unfold Exists in H. rewrite He in H. simpl in H.
  destruct (AncestryNames f (Some lq)) as [|rq cq] eqn:Haq; [done|].
  destruct (AncestryNames f (Some lp)) as [|rp cp] eqn:Hap; [done|].
  destruct (AncestryNames_root f q lq rq cq Hwf Hac Hq Haq) as (Hqr & Hroot & Hqall).
  destruct (AncestryNames_root f p lp rp cp Hwf Hac Hp Hap) as (Hpr & Hroot' & Hpall).
  destruct (decide (rq ≠ rp)) as [Hdiff|Hsame]; injection H as <-; pose proof (checkServer_allowed _ _ Ha) as Hall.
  - right. exists rq. pose proof (Hall _ (list_elem_of_here _ _)) as H1. simpl in H1.
    pose proof (Hall _ (list_elem_of_further _ _ _ (list_elem_of_here _ _))) as H2. simpl in H2.
    split_and!; [done..|]. intros c [Hc1 Hc2]. apply Hqall in Hc1. apply Hpall in Hc2. apply Hdiff.
    by eapply root_unique.
  - apply dec_stable in Hsame as <-. left.
    destruct (mrca_common f Hwf Hac q lq p lp rq cq cp Hq Hp Haq Hap) as (Hm1 & Hm2 & Hm3).
    exists (mrca_loop rq cq cp). split; [|done]. exact (Hall _ (list_elem_of_here _ _)).
Qed.

Lemma approved_ext f g ui q p : wf f → extends f g → approved g ui q p → approved f ui q p.
Proof.
  intros Hwf Hx. assert (∀ a b, rtc (up (parent_name g)) a b ↔ rtc (up (parent_name f)) a b) as Hr by (by apply extends_rtc).
  intros [(m & ? & H1 & H2 & H3)|(root & ? & ? & H1 & H2 & H3)]; [left; exists m|right; exists root].
  - rewrite <- !Hr. split_and!; [done..|]. intros c. rewrite <- !Hr. apply H3.
  - rewrite <- Hr, <- (extends_parent f g Hwf Hx). split_and!; [done..|]. intros c. rewrite <- !Hr. apply H3.
Qed.

(** Has HNC seen the namespace? *)
Definition exists_in (f : Forest) (nm : string) : bool :=
  match f_namespaces f !! nm with Some l => ns_exists (deref f l) | None => false end.

(** What the API server must have confirmed for an allowed change of the parent
    from [cur] to [new]. *)
Definition authorised (f : Forest) (ui : UserInfo) (cur new : option string) : Prop :=
  let into := match new with Some p => sc_IsAdmin server ui p = inr true | None => True end in
  match cur with
  | None => into
  | Some q =>
      if negb (IsManagedNamespace cfg q) then into
      else if negb (exists_in f q) then sc_Exists server q = inr false
      else
        (∃ m, sc_IsAdmin server ui m = inr true ∧ rtc (up (parent_name f)) q m) ∧
        (acyclic (parent_name f) →
          match new with
          | None => ∃ root, sc_IsAdmin server ui root = inr true ∧ rtc (up (parent_name f)) q root ∧ parent_name f root = None
          | Some p => approved f ui q p
          end)
  end.

(** The pointers of two optional names. *)
Definition points (f : Forest) (nm : option string) (l : option loc) : Prop :=
  match nm, l with
  | None, None => True
  | Some nm, Some l => f_namespaces f !! nm = Some l
  | _, _ => False
  end.

Lemma mrca_loop_elem r cs ns : mrca_loop r cs ns ∈ r :: cs.
Proof.
  destruct (mrca_loop_spec r cs ns) as (k & -> & [t ->] & _). destruct (last k) as [m|] eqn:Hm; simpl; [|by left].
  right. apply elem_of_app. left. by apply last_Some_elem_of.
Qed.

(** Some namespace at or above the old parent has approved, also when there are cycles. *)
Lemma getServerChecks_above f ui q lq new checks : wf f → f_namespaces f !! q = Some lq → Some lq ≠ new →
  IsManagedNamespace cfg q = true → ns_exists (deref f lq) = true →
  getServerChecks cfg f (Some lq) new = Done checks → Allowed (checkServer server ui checks) = true →
  ∃ m, sc_IsAdmin server ui m = inr true ∧ rtc (up (parent_name f)) q m.
Proof.
  intros Hwf Hq Hne Hm He H Ha. unfold getServerChecks in H. rewrite decide_False in H by done.
  assert (Name f (Some lq) = q) as Hnq by (by apply (live_name f Hwf)). rewrite Hnq, Hm in H. simpl in H. unfold Exists in H.
  rewrite He in H. simpl in H. destruct (AncestryNames f (Some lq)) as [|rq cq] eqn:Haq; [done|].
  assert (∀ m, m ∈ rq :: cq → rtc (up (parent_name f)) q m) as Hup by (intros m; rewrite <- Haq; by apply (AncestryNames_elem f Hwf)).
  pose proof (checkServer_allowed ui checks Ha) as Hall.
  assert (∃ m why, mkCheck m checkAuthz why ∈ checks ∧ m ∈ rq :: cq) as (m & why & Hin & Hm').
  { destruct new as [lp|]; [|injection H as <-; eexists _, _; split; left].
    destruct (AncestryNames f (Some lp)) as [|rp cp]; [done|].
    destruct (decide (rq ≠ rp)); injection H as <-; eexists _, _; (split; [left|]); [left|apply mrca_loop_elem]. }
  exists m. split; [exact (Hall _ Hin)|by apply Hup].
Qed.

Lemma Name_live f nm l : wf f → f_namespaces f !! nm = Some l → Name f (Some l) = nm.
Proof. intros Hwf. apply (live_name f Hwf). Qed.

Lemma getServerChecks_authorised f ui cur lcur new lnew checks : wf f → points f cur lcur → points f new lnew → lcur ≠ lnew →
  getServerChecks cfg f lcur lnew = Done checks → Allowed (checkServer server ui checks) = true → authorised f ui cur new.
Proof.
  intros Hwf Hcur Hnew Hne H Ha. pose proof (checkServer_allowed ui checks Ha) as Hall.
  assert (getServerChecks cfg f lcur lnew = (match lnew with
      | Some _ => Done [mkCheck (Name f lnew) checkAuthz "proposed parent"]
      | None => Done []
      end) → match new with Some p => sc_IsAdmin server ui p = inr true | None => True end) as Hinto.
  { rewrite H. destruct new as [p|], lnew as [lp|]; try done. simpl in Hnew. rewrite (Name_live f p lp Hwf Hnew). intros [= ->].
    exact (Hall _ (list_elem_of_here _ _)). }
  destruct cur as [q|], lcur as [lq|]; try done; unfold authorised.
  2:{ apply Hinto. unfold getServerChecks. by rewrite decide_False. }
  simpl in Hcur. unfold exists_in. rewrite Hcur. destruct (IsManagedNamespace cfg q) eqn:Hm; simpl.
  2:{ apply Hinto. unfold getServerChecks. rewrite decide_False by done. by rewrite (Name_live f q lq Hwf Hcur), Hm. }
  destruct (ns_exists (deref f lq)) eqn:He; simpl.
  - split; [by eapply getServerChecks_above|]. intros Hac. destruct new as [p|], lnew as [lp|]; try done.
    + eapply getServerChecks_approved; try done. congruence.
    + unfold getServerChecks in H. rewrite decide_False, (Name_live f q lq Hwf Hcur), Hm in H by done. simpl in H. unfold Exists in H.
      rewrite He in H. simpl in H. destruct (AncestryNames f (Some lq)) as [|r cs] eqn:Haq; [done|]. injection H as <-.
      destruct (AncestryNames_root f q lq r cs Hwf Hac Hcur Haq) as (Hr & Hroot & _).
      exists r. split_and!; [exact (Hall _ (list_elem_of_here _ _))|done..].
  - unfold getServerChecks in H. rewrite decide_False, (Name_live f q lq Hwf Hcur), Hm in H by done. simpl in H. unfold Exists in H.
    rewrite He in H. simpl in H. injection H as <-. exact (Hall _ (list_elem_of_here _ _)).
Qed.

Lemma authorised_ext f g ui cur new : wf f → extends f g → (∀ q, cur = Some q → is_Some (f_namespaces f !! q)) →
  authorised g ui cur new → authorised f ui cur new.
Proof.
  intros Hwf Hx Hcur. unfold authorised. destruct cur as [q|]; [|done]. destruct (Hcur q eq_refl) as [lq Hq].
  unfold exists_in. rewrite Hq, (ex_names _ _ Hx _ _ Hq), (ex_deref _ _ Hx lq) by (by eapply wf_name).
  destruct (IsManagedNamespace cfg q), (ns_exists (deref f lq)); simpl; try done.
  assert (∀ a b, rtc (up (parent_name g)) a b ↔ rtc (up (parent_name f)) a b) as Hr by (by apply extends_rtc).
  intros [(m & Hm & Hqm) Hac]. split; [exists m; by rewrite <- Hr|]. intros Ha. specialize (Hac (extends_acyclic f g Hwf Hx Ha)).
  destruct new as [p|]; [by eapply approved_ext|]. destruct Hac as (root & ? & ? & ?). exists root.
  by rewrite <- Hr, <- (extends_parent f g Hwf Hx).
Qed.

Lemma handle_authorised req f resp f' : wf f →
  IsHNCServiceAccount cfg (Some (r_ui req)) = false → handle cfg server req f = Done (resp, f') → Allowed resp = true →
  let cur := parent_name f (om_Namespace (hc_Meta (r_hc req))) in
  let new := as_parent (hcs_Parent (hc_Spec (r_hc req))) in
  cur = new ∨ authorised f (r_ui req) cur new.
Proof.
  intros Hwf Hsa H Ha cur new. destruct (handle_admitted _ _ _ _ Hwf Hsa H Ha) as (g & cs & ns & lnew & Hx & Had & _ & _ & _ & _ & Hsrv).
  destruct Had as [Hwg Hxg Hns Hnew _ _ _ Hchk]. pose proof (extends_trans _ _ _ Hx Hxg) as Hx'.
  assert (points g cur (ns_parent (deref g ns))) as Hcur.
  { unfold cur. rewrite <- (extends_parent f g Hwf Hx). destruct (parent_name g _) as [q|] eqn:Hq.
    - apply (parent_name_Some g Hwg) in Hq as (l & p & Hl & Hp & Hlq). assert (l = ns) as -> by congruence. by rewrite Hp.
    - rewrite (parent_name_live g _ _ Hns) in Hq. by destruct (ns_parent (deref g ns)). }
  assert (points g new lnew) as Hpn.
  { unfold new, as_parent. destruct lnew as [lp|]; [destruct Hnew as [Hne Hp]; by rewrite decide_False|by rewrite decide_True]. }
  destruct (decide (ns_parent (deref g ns) = lnew)) as [Heq|Hne].
  - left. rewrite Heq in Hcur. destruct cur as [q|], new as [p|], lnew as [l|]; try done. f_equal. by apply (live_inj g Hwg _ _ l).
  - right. apply (authorised_ext f f'); [done..| |].
    { intros q Hq. unfold cur in Hq. apply (parent_name_Some f Hwf) in Hq as (? & ? & _ & _ & ?). eauto. }
    eapply (getServerChecks_authorised f' _ _ (ns_parent (deref g ns)) _ lnew); [by eapply ex_wf| | |done..].
    + destruct cur, (ns_parent (deref g ns)); try done. by apply (ex_names _ _ Hxg).
    + destruct new, lnew; try done. by apply (ex_names _ _ Hxg).
Qed.

Lemma getServerChecks_returns f cur new : getServerChecks cfg f cur new ≠ Diverges.
Proof.
  unfold getServerChecks. destruct (decide _); [done|]. destruct (_ || _); [by destruct new|].
  destruct cur as [c|]; [|done]. destruct (negb _); [done|]. destruct (AncestryNames f (Some c)); [done|].
  destruct new as [p|]; [|done]. destruct (AncestryNames f (Some p)); [done|]. by destruct (decide _).
Qed.

Lemma checkParent_returns ns cur new : returns (checkParent cfg ns cur new).
Proof.
  unfold checkParent. apply returns_bind; [auto with hnc|auto with hnc|intros f].
  destruct (_ && _); [auto with hnc|]. destruct (decide _); [auto with hnc|]. destruct (ns_IsSub _); [auto with hnc|].
  destruct (match new with Some _ => _ | None => _ end); [auto with hnc|]. destruct (decide _); [auto with hnc|].
  apply returns_bind; [apply getConflictingObjects_reads|apply getConflictingObjects_returns|]. intros []; auto with hnc.
Qed.

Lemma checkForest_returns hc : returns (checkForest cfg hc).
Proof.
  intros f Hwf Hc H. unfold checkForest in H.
  apply M_bind_div in H as [|(ons & f1 & Hg1 & H)]; [done|]. apply (GetM_inv _ _ _ _ Hwf) in Hg1 as [Hx1 Hns].
  apply M_bind_div in H as [|(? & ? & Hg & H)]; [done|]. unfold get in Hg. injection Hg as <- <-.
  apply M_bind_div in H as [|(new & g & Hg2 & H)]; [done|].
  apply (GetM_inv _ _ _ _ (ex_wf _ _ Hx1)) in Hg2 as [Hx2 _]. pose proof (extends_trans _ _ _ Hx1 Hx2) as Hx.
  apply M_bind_div in H as [Hn|(ns & g' & Hn & H)]; [by destruct ons|]. destruct ons as [ns'|]; [|done].
  simpl in Hn. injection Hn as <- <-. destruct Hns as [_ Hns]. pose proof (extends_cycles_halted f g Hwf Hx Hc) as Hcg.
  apply M_bind_div in H as [H|(r1 & g1 & Hck & H)].
  { exact (checkNS_returns g ns' _ (ex_wf _ _ Hx) Hcg (ex_names _ _ Hx2 _ _ Hns) H). }
  pose proof (checkNS_reads _ _ _ _ (ex_wf _ _ Hx) Hck) as Hx3.
  destruct (negb (Allowed r1)); [done|].
  apply M_bind_div in H as [H|(r2 & g2 & _ & H)].
  { revert H. apply checkParent_returns; [by eapply ex_wf|]. eapply extends_cycles_halted; [|done..]. by eapply ex_wf. }
  destruct (negb (Allowed r2)); [done|]. apply M_bind_div in H as [|(? & ? & _ & H)]; [done|].
  apply M_bind_div in H as [H|(? & ? & _ & H)]; [|done]. unfold lift_outcome in H.
  destruct (getServerChecks _ _ _ _) eqn:Hs; [done|done|]. by apply getServerChecks_returns in Hs.
Qed.

Lemma handle_answers req : returns (handle cfg server req).
Proof.
  unfold handle. destruct (IsHNCServiceAccount _ _); [auto with hnc|].
  do 2 (destruct (decide _); [auto with hnc|]). destruct (_ ++ _); [|auto with hnc].
  apply returns_bind; [apply checkForest_reads|apply checkForest_returns|]. intros [cs r]. destruct (negb _); auto with hnc.
Qed.
End sound.
