(* ===== verification/NamespaceWebhooks.v ===== *)
(** * The namespace webhooks (internal/namespace: mutator.go, validator.go)

    The mutating webhook adds the included-namespace label to managed namespaces;
    the validating one protects the labels that HNC owns and refuses deletions that
    would orphan subnamespaces. *)

From Stdlib Require Import Ascii String.
From S2P Require Import Prelude GoStrings Chains Validation Api Config Selectors Resources Forest ForestWf ForestWalks.
From S2P Require Import ForestReads.

Definition namespaceGR : string := "namespaces".

Record nsRequest := { nr_ns : K8sNamespace; nr_oldns : option K8sNamespace; nr_op : Operation }.

Definition labels_of (n : K8sNamespace) : gmap string string := items (om_Labels (kn_Meta n)).
Definition annotations_of (n : K8sNamespace) : gmap string string := items (om_Annotations (kn_Meta n)).
Definition name_of (n : K8sNamespace) : string := om_Name (kn_Meta n).

Section webhooks.
  Context `{RO : RangeOrder} `{RX : RegexpLib} (cfg : Config).

(** ** mutator.go *)
Definition mutate (ns : K8sNamespace) : K8sNamespace :=
  if negb (IsManagedNamespace cfg (name_of ns)) then ns
  else match labels_of ns !! LabelIncludedNamespace with
       | Some _ => ns
       | None => {| kn_Meta := set_om_Labels (Some (<[LabelIncludedNamespace:="true"]> (labels_of ns))) (kn_Meta ns) |}
       end.

(** ** validator.go *)
Definition old_labels (req : nsRequest) : gmap string string :=
  match nr_oldns req with Some o => labels_of o | None => ∅ end.

(** The first offending label in iteration order, first among the new labels and
    then among the old ones. *)
Definition illegalTreeLabel (req : nsRequest) : Response :=
  let oldLabels := old_labels req in
  let name := name_of (nr_ns req) in
  match List.find (λ '(key, val), Contains key LabelTreeDepthSuffix && negb (bool_decide (sget oldLabels key = val)))
          (range (labels_of (nr_ns req))) with
  | Some (key, _) =>
      DenyForbidden namespaceGR name
        ("cannot set or modify tree label " +:+ quoted key +:+ " in namespace " +:+ quoted name +:+ "; these can only be managed by HNC")
  | None =>
      match List.find (λ key, Contains key LabelTreeDepthSuffix && bool_decide (labels_of (nr_ns req) !! key = None)) (keys_of oldLabels) with
      | Some key =>
          DenyForbidden namespaceGR name
            ("cannot remove tree label " +:+ quoted key +:+ " in namespace " +:+ quoted name +:+ "; these can only be managed by HNC")
      | None => Allow ""
      end
  end.

Definition illegalIncludedNamespaceLabel (req : nsRequest) : Response :=
  let name := name_of (nr_ns req) in
  let label := labels_of (nr_ns req) !! LabelIncludedNamespace in
  let unchanged := match nr_oldns req with
                   | Some o => bool_decide (labels_of o !! LabelIncludedNamespace = label)
                   | None => false
                   end in
  if unchanged then Allow ""
  else
    let isIncluded := IsManagedNamespace cfg name in
    let see := "See https://github.com/kubernetes-sigs/hierarchical-namespaces/blob/master/docs/user-guide/concepts.md#included-namespace-label for detail" in
    if negb isIncluded && bool_decide (is_Some label) then
      DenyForbidden namespaceGR name
        ("you cannot enforce webhook rules on this unmanaged namespace using the " +:+ quoted LabelIncludedNamespace +:+ " label. " +:+ see)
    else if isIncluded && negb (bool_decide (default "" label = "true")) then
      DenyForbidden namespaceGR name
        ("you cannot change the value of the " +:+ quoted LabelIncludedNamespace +:+
         " label. It has to be set as true on all managed namespaces. " +:+ see)
    else Allow "".

Definition nameExistsInExternalHierarchy (req : nsRequest) : M Forest Response :=
  f ← get;
  match List.find (λ nm, IsExternal (ns_at f nm) && bool_decide (is_Some (GetTreeLabels (ns_at f nm) !! name_of (nr_ns req)))) (GetNamespaceNames f) with
  | Some nm =>
      mret (DenyConflict namespaceGR (name_of (nr_ns req))
        ("is reserved by the external hierarchy manager " +:+ quoted (ns_Manager (ns_at f nm))))
  | None => mret (Allow "")
  end.

Definition conflictBetweenParentAndExternalManager (req : nsRequest) (ns : option loc) : M Forest Response :=
  f ← get;
  let mgr := sget (annotations_of (nr_ns req)) AnnotationManagedBy in
  if decide (mgr ≠ "" ∧ mgr ≠ MetaGroup ∧ Parent f ns ≠ None) then
    mret (DenyForbidden namespaceGR (name_of (nr_ns req))
      ("is a child of " +:+ quoted (Name f (Parent f ns)) +:+
       ". Namespaces with parents defined by HNC cannot also be managed externally. To manage this namespace with " +:+
       quoted mgr +:+ ", first make it a root in HNC"))
  else mret (Allow "").

Definition cannotDeleteSubnamespace (req : nsRequest) : M Forest Response :=
  let parent := sget (annotations_of (nr_ns req)) SubnamespaceOf in
  if decide (parent = "") then mret (Allow "")
  else
    p ← GetM parent ≫= nonnil;
    f ← get;
    if HasAnchor (deref f p) (name_of (nr_ns req)) then
      mret (DenyForbidden namespaceGR (name_of (nr_ns req))
        ("is a subnamespace. Please delete the anchor from the parent namespace " +:+ parent +:+ " to delete the subnamespace"))
    else mret (Allow "").

Definition illegalCascadingDeletion (ns : loc) : M Forest Response :=
  f ← get;
  acd ← lift_outcome (AllowsCascadingDeletion f ns);
  if (acd : bool) then mret (Allow "")
  else if existsb (λ cnm, ns_IsSub (ns_at f cnm)) (ChildNames (deref f ns)) then
    mret (DenyForbidden namespaceGR (Name f (Some ns))
      "contains subnamespaces. Please remove all subnamespaces before deleting this namespace, or set 'allowCascadingDeletion' to delete them automatically")
  else mret (Allow "no subnamespaces found").

(** [if rsp := check; !rsp.Allowed { return rsp }] *)
Definition guard (check rest : M Forest Response) : M Forest Response :=
  rsp ← check; if Allowed rsp then rest else mret rsp.

Definition handle (req : nsRequest) : M Forest Response :=
  ns ← GetM (name_of (nr_ns req));
  match nr_op req with
  | Create =>
      guard (mret (illegalIncludedNamespaceLabel req))
        (guard (nameExistsInExternalHierarchy req)
          (guard (mret (illegalTreeLabel req)) (mret (Allow ""))))
  | Update =>
      guard (mret (illegalIncludedNamespaceLabel req))
        (guard (conflictBetweenParentAndExternalManager req ns)
          (guard (mret (illegalTreeLabel req)) (mret (Allow ""))))
  | Delete =>
      guard (cannotDeleteSubnamespace req)
        (guard (nonnil ns ≫= illegalCascadingDeletion) (mret (Allow "")))
  | Connect => mret (Allow "")
  end.

(** [Handle] without the decoding of the request. *)
Definition Handle (ui : UserInfo) (req : nsRequest) : M Forest Response :=
  if IsHNCServiceAccount cfg (Some ui) then mret (Allow "HNC SA") else handle req.
End webhooks.

(** ** Facts *)
Section facts.
  Context `{RO : RangeOrder} `{RX : RegexpLib} (cfg : Config).

Lemma find_None {A} (p : A → bool) (l : list A) : List.find p l = None ↔ ∀ x, x ∈ l → p x = false.
Proof.
  split.
  - intros Hf x Hx. apply list_elem_of_In in Hx. by eapply find_none.
  - intros Hall. destruct (List.find p l) as [x|] eqn:Hf; [|done]. apply find_some in Hf as [Hx Hp].
    apply list_elem_of_In in Hx. rewrite Hall in Hp; done.
Qed.

(** The tree labels a user may not touch are those that differ between the old
    and the new object; a new label with an empty value goes unnoticed. *)
Lemma illegalTreeLabel_allowed req : Allowed (illegalTreeLabel req) = true ↔
  ∀ key, Contains key LabelTreeDepthSuffix = true →
    labels_of (nr_ns req) !! key = old_labels req !! key ∨
    (old_labels req !! key = None ∧ labels_of (nr_ns req) !! key = Some "").
Proof.
  unfold illegalTreeLabel.
  set (p1 := λ '(key, val), Contains key LabelTreeDepthSuffix && negb (bool_decide (sget (old_labels req) key = val))).
  set (p2 := λ key, Contains key LabelTreeDepthSuffix && bool_decide (labels_of (nr_ns req) !! key = None)).
  assert (Allowed (match List.find p1 (range (labels_of (nr_ns req))) with
    | Some (key, _) => DenyForbidden namespaceGR (name_of (nr_ns req))
        ("cannot set or modify tree label " +:+ quoted key +:+ " in namespace " +:+ quoted (name_of (nr_ns req)) +:+ "; these can only be managed by HNC")
    | None => match List.find p2 (keys_of (old_labels req)) with
      | Some key => DenyForbidden namespaceGR (name_of (nr_ns req))
          ("cannot remove tree label " +:+ quoted key +:+ " in namespace " +:+ quoted (name_of (nr_ns req)) +:+ "; these can only be managed by HNC")
      | None => Allow "" end end) = true ↔
    List.find p1 (range (labels_of (nr_ns req))) = None ∧ List.find p2 (keys_of (old_labels req)) = None) as ->.
  { destruct (List.find p1 _) as [[]|]; [naive_solver|]. destruct (List.find p2 _); naive_solver. }
  rewrite !find_None. split.
  - intros [H1 H2] key Hk. destruct (labels_of (nr_ns req) !! key) as [v|] eqn:Hv.
    + specialize (H1 (key, v)). unfold p1 in H1. rewrite Hk in H1. simpl in H1.
      assert (sget (old_labels req) key = v) as Heq.
      { apply elem_of_range in Hv. specialize (H1 Hv). by apply negb_false_iff, bool_decide_eq_true in H1. }
      unfold sget in Heq. destruct (old_labels req !! key) as [o|]; simpl in Heq; subst; auto.
    + left. symmetry. apply eq_None_not_Some. intros Ho. specialize (H2 key). rewrite elem_of_keys in H2. specialize (H2 Ho).
      unfold p2 in H2. rewrite Hk, Hv in H2. done.
  - intros Hall. split.
    + intros [key v] Hin%elem_of_range. unfold p1. destruct (Contains key LabelTreeDepthSuffix) eqn:Hk; [|done]. simpl.
      apply negb_false_iff, bool_decide_eq_true. unfold sget. destruct (Hall key Hk) as [Heq|[-> Heq]].
      * rewrite <- Heq, Hin. done.
      * rewrite Hin in Heq. by injection Heq as ->.
    + intros key Hin. apply elem_of_keys in Hin. unfold p2. destruct (Contains key LabelTreeDepthSuffix) eqn:Hk; [|done]. simpl.
      apply bool_decide_eq_false. intros Hn. destruct (Hall key Hk) as [Heq|[Heq _]].
      * rewrite <- Heq, Hn in Hin. by destruct Hin.
      * rewrite Heq in Hin. by destruct Hin.
Qed.

(** After the mutating webhook, the included-namespace label passes validation. *)
Lemma mutate_then_validate ns op old : labels_of ns !! LabelIncludedNamespace = None →
  Allowed (illegalIncludedNamespaceLabel cfg {| nr_ns := mutate cfg ns; nr_oldns := old; nr_op := op |}) = true.
Proof.
  intros Hn. unfold illegalIncludedNamespaceLabel. cbn [nr_ns nr_oldns].
  match goal with |- context [if ?b then Allow "" else _] => destruct b; [done|] end.
  assert (name_of (mutate cfg ns) = name_of ns) as ->.
  { unfold mutate. destruct (negb _); [done|]. by rewrite Hn. }
  assert (labels_of (mutate cfg ns) !! LabelIncludedNamespace = if IsManagedNamespace cfg (name_of ns) then Some "true" else None) as ->.
  { unfold mutate. destruct (IsManagedNamespace cfg (name_of ns)); simpl; [|done]. rewrite Hn. apply lookup_insert_eq. }
  by destruct (IsManagedNamespace cfg (name_of ns)).
Qed.

(** The name of a namespace never is the key of a tree label, so the check that
    reserves the names of external hierarchies cannot reject it. *)
Lemma slash_not_in_label nm : IsDNS1123Label nm = [] → Contains nm LabelTreeDepthSuffix = false.
Proof.
  intros Hd. apply not_true_iff_false. rewrite Contains_spec. intros (p & t & ->).
  assert ("/"%char ∈ list_ascii_of_string (p +:+ LabelTreeDepthSuffix +:+ t)) as Hin.
  { assert (∀ a b, list_ascii_of_string (a +:+ b) = list_ascii_of_string a ++ list_ascii_of_string b) as Happ.
    { intros a b. induction a as [|c a IH]; [done|]. rewrite string_app_cons. simpl. by rewrite IH. }
    rewrite !Happ, !elem_of_app. right; left. apply list_elem_of_In. vm_compute. tauto. }
  apply (IsDNS1123Label_chars _ _ Hd) in Hin. done.
Qed.

Lemma nameExists_never req f : IsDNS1123Label (name_of (nr_ns req)) = [] →
  nameExistsInExternalHierarchy req f = Done (Allow "", f).
Proof.
  intros Hd. unfold nameExistsInExternalHierarchy, mbind, M_bind, get.
  assert (List.find (λ nm, IsExternal (ns_at f nm) && bool_decide (is_Some (GetTreeLabels (ns_at f nm) !! name_of (nr_ns req))))
    (GetNamespaceNames f) = None) as ->; [|done].
  apply find_None. intros nm _. apply andb_false_iff. right. apply bool_decide_eq_false. intros [v Hv].
  unfold GetTreeLabels in Hv. rewrite map_lookup_imap in Hv. apply bind_Some in Hv as (s & _ & Hs).
  by rewrite slash_not_in_label in Hs.
Qed.

(** Deletion, first check: the namespace is not held by an anchor of the parent it names. *)
Lemma cannotDeleteSubnamespace_spec req f : wf f →
  ∃ r g, cannotDeleteSubnamespace req f = Done (r, g) ∧ extends f g ∧
    (Allowed r = true ↔ sget (annotations_of (nr_ns req)) SubnamespaceOf = "" ∨
       HasAnchor (ns_at f (sget (annotations_of (nr_ns req)) SubnamespaceOf)) (name_of (nr_ns req)) = false).
Proof.
  intros Hwf. unfold cannotDeleteSubnamespace. set (pa := sget _ _). destruct (decide (pa = "")) as [Hp|Hp].
  - exists (Allow ""), f. split_and!; [done|by apply extends_refl|naive_solver].
  - destruct (Get pa f) as [o g] eqn:Hg. pose proof (Get_extends _ _ _ _ Hwf Hg) as Hx.
    assert (∃ p, o = Some p ∧ deref g p = ns_at f pa) as (p & -> & Hd).
    { unfold Get in Hg. rewrite decide_False in Hg by done. unfold ns_at.
      destruct (f_namespaces f !! pa) as [p|] eqn:Hpl; simplify_eq; [eauto|]. eexists. split; [done|].
      apply (ex_new _ _ Hx pa); [done|]. simpl. by rewrite lookup_insert_eq. }
    unfold mbind, M_bind, GetM. rewrite Hg. simpl. unfold get, mret, M_ret. simpl. rewrite Hd.
    destruct (HasAnchor (ns_at f pa) (name_of (nr_ns req))) eqn:Ha; eexists _, g; (split_and!; [done|done|]); naive_solver.
Qed.

(** Deletion, second check. *)
Lemma illegalCascadingDeletion_spec nm l f : wf f → f_namespaces f !! nm = Some l →
  ∃ r, illegalCascadingDeletion l f = Done (r, f) ∧
    (Allowed r = true ↔ AllowsCascadingDeletion f l = Done true ∨
       ∀ c, parent_name f c = Some nm → ns_IsSub (ns_at f c) = false).
Proof.
  intros Hwf Hl. unfold illegalCascadingDeletion, mbind, M_bind, get, lift_outcome.
  destruct (AllowsCascadingDeletion_terminates f Hwf nm l Hl) as ([] & -> & _).
  { eexists. split; [done|]. split; auto. }
  destruct (existsb _ _) eqn:He; eexists; (split; [reflexivity|]); simpl.
  - split; [done|]. intros [|Hall]; [done|]. apply existsb_exists in He as (c & Hc & Hs). apply list_elem_of_In in Hc.
    apply (ChildNames_elem f Hwf nm l c Hl), Hall in Hc. congruence.
  - split; [|done]. intros _. right. intros c Hc. apply (ChildNames_elem f Hwf nm l c Hl), list_elem_of_In in Hc.
    apply not_true_iff_false. intros Ht. apply not_true_iff_false in He. apply He, existsb_exists. eauto.
Qed.

(** A deletion is allowed exactly if no anchor claims the namespace, and it has no
    subnamespaces of its own or cascading deletion is allowed. *)
Lemma delete_decision req f l : wf f → nr_op req = Delete → f_namespaces f !! name_of (nr_ns req) = Some l →
  ∃ resp f', handle cfg req f = Done (resp, f') ∧ extends f f' ∧
    (Allowed resp = true ↔
      (sget (annotations_of (nr_ns req)) SubnamespaceOf = "" ∨
       HasAnchor (ns_at f (sget (annotations_of (nr_ns req)) SubnamespaceOf)) (name_of (nr_ns req)) = false) ∧
      (AllowsCascadingDeletion f l = Done true ∨
       ∀ c, parent_name f c = Some (name_of (nr_ns req)) → ns_IsSub (ns_at f c) = false)).
Proof.
  intros Hwf Hop Hl. unfold handle. rewrite Hop.
  rewrite (M_bind_Done _ _ f (Some l) f) by (unfold GetM; by rewrite (Get_present _ l f Hwf Hl)).
  destruct (cannotDeleteSubnamespace_spec req f Hwf) as (r & g & Hc & Hx & Hr). unfold guard at 1.
  rewrite (M_bind_Done _ _ _ _ _ Hc). destruct (Allowed r) eqn:Har.
  2:{ exists r, g. split_and!; [done|done|]. rewrite Har. naive_solver. }
  pose proof (ex_names _ _ Hx _ _ Hl) as Hlg. pose proof (ex_wf _ _ Hx) as Hwg.
  destruct (illegalCascadingDeletion_spec _ l g Hwg Hlg) as (r2 & Hi & Hr2). unfold guard.
  rewrite (M_bind_Done _ _ g r2 g) by (by rewrite (M_bind_Done _ _ g l g)).
  assert (Allowed r2 = true ↔ AllowsCascadingDeletion f l = Done true ∨
       ∀ c, parent_name f c = Some (name_of (nr_ns req)) → ns_IsSub (ns_at f c) = false) as Hr2'.
  { rewrite Hr2, (extends_acd f g Hwf Hx _ l Hl). apply or_iff_compat_l, forall_proper. intros c.
    rewrite (extends_parent f g Hwf Hx), (extends_isSub f g Hwf Hx). done. }
  destruct (Allowed r2) eqn:Ha2.
  - exists (Allow ""), g. split_and!; [done|done|]. naive_solver.
  - exists r2, g. split_and!; [done|done|]. rewrite Ha2. naive_solver.
Qed.
End facts.
