(* ===== verification/Sound.v ===== *)
(** * The invariant of the forest

    Whenever the lock of the forest is free, the forest is well-formed and each of
    its cycles has a halted member, which is what makes the walks over it
    terminate.  Updates that leave the links, the existence and the halting of the
    namespaces alone ([vitals]) keep it. *)

From S2P Require Import Prelude GoStrings Chains Validation Api Resources Forest ForestWf ForestWalks ForestReads.

(** ** Halted namespaces *)
Definition halted (n : Namespace) : bool := existsb (λ c, bool_decide (c_Type c = ConditionActivitiesHalted)) (ns_conditions n).

(** The view that the invariants depend on. *)
Definition vitals (n : Namespace) := (shape n, halted n).

Lemma vitals_shape n n' : vitals n = vitals n' → shape n = shape n'.
Proof. unfold vitals. congruence. Qed.

Lemma vitals_parent f f' x : heap_sim vitals f f' → parent_name f' x = parent_name f x.
Proof.
  intros Hs. symmetry. eapply parent_name_links, heap_sim_mono, Hs. intros n n' H. by apply shape_links, vitals_shape.
Qed.

Lemma vitals_halted f f' x : heap_sim vitals f f' → halted_name f' x ↔ halted_name f x.
Proof.
  intros Hs. unfold halted_name, IsHalted. pose proof Hs as (-> & _). destruct (f_namespaces f' !! x) as [l|]; [|done].
  pose proof (heap_sim_deref _ _ _ l Hs) as Hd. unfold vitals in Hd. injection Hd as _ _ _ _ Hd. unfold halted in Hd.
  by rewrite Hd.
Qed.

(** ** The invariant *)
Definition sound (f : Forest) : Prop := wf f ∧ cycles_halted f.

Lemma sound_NewForest : sound NewForest.
Proof.
  split; [apply wf_NewForest|]. intros x Hx. apply in_cycle_has_parent in Hx as [p Hp]. done.
Qed.

Lemma sound_vitals f f' : heap_sim vitals f f' → sound f → sound f'.
Proof.
  intros Hs [Hwf Hc]. split; [by rewrite <- (heap_sim_mono _ _ _ _ vitals_shape Hs)|].
  assert (∀ x y, up (parent_name f') x y ↔ up (parent_name f) x y) as Hu.
  { intros x y. unfold up. by rewrite (vitals_parent f f' x Hs). }
  intros x Hx. assert (in_cycle (parent_name f) x) as (y & Hy & Hh)%Hc.
  { revert Hx. apply tc_mono. intros a b. apply Hu. }
  exists y. split; [|by apply (vitals_halted f f' y Hs)]. revert Hy. apply rtc_subrel. intros a b. apply Hu.
Qed.

Lemma sound_upd l g f : (∀ n, vitals (g n) = vitals n) → sound f → sound (upd l g f).
Proof. intros Hg. apply sound_vitals. by apply heap_sim_upd. Qed.

Lemma sound_extends f f' : extends f f' → sound f → sound f'.
Proof. intros Hx [Hwf Hc]. split; [apply Hx|]. by eapply extends_cycles_halted. Qed.

Lemma GetHaltedRoot_vitals `{RO : RangeOrder} f f' nm l : heap_sim vitals f f' → sound f → f_namespaces f !! nm = Some l →
  GetHaltedRoot f' (Some l) = GetHaltedRoot f (Some l).
Proof.
  intros Hs Hf Hl. pose proof (sound_vitals f f' Hs Hf) as [Hwf' Hc']. destruct Hf as [Hwf Hc].
  assert (f_namespaces f' !! nm = Some l) as Hl' by (by destruct Hs as (<- & _)).
  rewrite (GetHaltedRoot_first f Hwf nm l Hc Hl), (GetHaltedRoot_first f' Hwf' nm l Hc' Hl').
  assert (AncestryNames f' (Some l) = AncestryNames f (Some l)) as ->.
  { symmetry. apply AncestryNames_links. eapply heap_sim_mono, Hs. intros n n' H. by apply shape_links, vitals_shape. }
  do 2 f_equal. generalize (reverse (AncestryNames f (Some l))). intros k. induction k as [|x k IH]; [done|].
  cbn [list_find]. pose proof (vitals_halted f f' x Hs) as Hx. destruct (decide (halted_name f' x)), (decide (halted_name f x)); try tauto; try done.
  destruct (list_find (halted_name f') k) as [[]|], (list_find (halted_name f) k) as [[]|]; simpl in *; congruence.
Qed.

(** A halted namespace on the way up is seen. *)
Lemma GetHaltedRoot_blocked `{RO : RangeOrder} f : wf f → cycles_halted f → ∀ nm l z, f_namespaces f !! nm = Some l →
  rtc (up (parent_name f)) nm z → halted_name f z → ∃ root, GetHaltedRoot f (Some l) = Done root ∧ root ≠ "".
Proof.
  intros Hwf Hc nm l z Hl Hz Hh. eexists. split; [by apply (GetHaltedRoot_first f Hwf nm)|].
  apply (AncestryNames_elem f Hwf nm l z Hl) in Hz.
  destruct (list_find (halted_name f) (reverse (AncestryNames f (Some l)))) as [[i x]|] eqn:Hf; simpl.
  - apply list_find_Some in Hf as (Hx & _ & _). apply list_elem_of_lookup_2 in Hx. rewrite elem_of_reverse in Hx.
    apply (AncestryNames_live f Hwf nm l x Hl) in Hx as [lx Hlx]. by apply (wf_name f Hwf) in Hlx as [? _].
  - apply list_find_None in Hf. rewrite Forall_forall in Hf. destruct (Hf z); [by apply elem_of_reverse|done].
Qed.
