(* ===== verification/World.v ===== *)
(** * The world of a reconciler

    Reconcilers thread a [World]: the shared forest and the trace of what they do
    to the outside, in order (API calls, notifications); the type of the trace
    entries is the reconciler's own.  Reads of the API server are answered by
    [ApiResult]s.  Total triples on the forest of a world are the program logic in
    which the invariants are proved. *)

From S2P Require Import Prelude Forest.

Record World (Ev : Type) := mkWorld { w_forest : Forest; w_events : list Ev }.
Arguments mkWorld {_} _ _.
Arguments w_forest {_} _.
Arguments w_events {_} _.

(** An answer of the API server to a read. *)
Inductive ApiResult (A : Type) :=
  | Found (a : A)
  | NotFound
  | ApiError (err : string).
Arguments Found {_} _.
Arguments NotFound {_}.
Arguments ApiError {_} _.

(** ** Threading the world *)
Section threading.
  Context {Ev : Type}.
Definition emit (evs : list Ev) : M (World Ev) unit :=
  λ w, Done (tt, mkWorld (w_forest w) (w_events w ++ evs)).
Definition getF : M (World Ev) Forest := λ w, Done (w_forest w, w).
Definition onF {A} (g : Forest → A * Forest) : M (World Ev) A :=
  λ w, let '(a, f) := g (w_forest w) in Done (a, mkWorld f (w_events w)).
Definition updF (g : Forest → Forest) : M (World Ev) unit :=
  λ w, Done (tt, mkWorld (g (w_forest w)) (w_events w)).
(** Code on the forest alone, run inside a world. *)
Definition runF {A} (m : M Forest A) : M (World Ev) A := λ w,
  match m (w_forest w) with
  | Done (a, f) => Done (a, mkWorld f (w_events w))
  | Panics => Panics
  | Diverges => Diverges
  end.
End threading.

(** ** Total triples on the forest of a world *)
Definition triple {Ev A} (P : Forest → Prop) (m : M (World Ev) A) (Q : A → Forest → Prop) : Prop :=
  ∀ w, P (w_forest w) → ∃ a w', m w = Done (a, w') ∧ Q a (w_forest w').

Section triples.
  Context {Ev A B : Type}.
  Implicit Types (P R : Forest → Prop).

Lemma triple_bind P (Q : A → Forest → Prop) (S : B → Forest → Prop) (m : M (World Ev) A) (k : A → M (World Ev) B) :
  triple P m Q → (∀ a, triple (Q a) (k a) S) → triple P (m ≫= k) S.
Proof.
  intros Hm Hk w Hp. destruct (Hm w Hp) as (a & w1 & Hmw & Hq). destruct (Hk a w1 Hq) as (b & w2 & Hkw & Hs).
  exists b, w2. split; [|done]. by rewrite (M_bind_Done _ _ _ _ _ Hmw).
Qed.

Lemma triple_conseq P P' (Q Q' : A → Forest → Prop) (m : M (World Ev) A) : triple P m Q → (∀ f, P' f → P f) → (∀ a f, Q a f → Q' a f) → triple P' m Q'.
Proof. intros Hm Hp Hq w Hw. destruct (Hm w (Hp _ Hw)) as (a & w' & ? & ?). eauto. Qed.

Lemma triple_ret P (a : A) : triple (Ev:=Ev) P (mret a) (λ _, P).
Proof. intros w Hp. by exists a, w. Qed.

Lemma triple_done P (a : A) (Q : A → Forest → Prop) : (∀ f, P f → Q a f) → triple (Ev:=Ev) P (mret a) Q.
Proof. intros Hq w Hp. exists a, w. auto. Qed.

Lemma triple_getF P : triple (Ev:=Ev) P getF (λ g f, g = f ∧ P f).
Proof. intros w Hp. by exists (w_forest w), w. Qed.

Lemma triple_emit P (evs : list Ev) : triple P (emit evs) (λ _, P).
Proof. intros w Hp. exists tt. by eexists. Qed.

Lemma triple_updF P R g : (∀ f, P f → R (g f)) → triple (Ev:=Ev) P (updF g) (λ _, R).
Proof. intros Hg w Hp. exists tt. eexists. split; [done|]. by apply Hg. Qed.

Lemma triple_onF P (Q : A → Forest → Prop) g : (∀ f, P f → Q (g f).1 (g f).2) → triple (Ev:=Ev) P (onF g) Q.
Proof.
  intros Hg w Hp. unfold onF. specialize (Hg _ Hp). destruct (g (w_forest w)) as [a f]. by exists a, (mkWorld f (w_events w)).
Qed.

Lemma triple_if P (Q : A → Forest → Prop) (b : bool) (m m' : M (World Ev) A) : triple P m Q → triple P m' Q → triple P (if b then m else m') Q.
Proof. by destruct b. Qed.

Lemma triple_lift P (o : outcome A) (Q : A → Forest → Prop) : (∀ f, P f → ∃ a, o = Done a ∧ Q a f) → triple (Ev:=Ev) P (lift_outcome o) Q.
Proof. intros Ho w Hp. destruct (Ho _ Hp) as (a & -> & Hq). by exists a, w. Qed.
End triples.

(** Reading the forest, when what was read does not matter. *)
Lemma triple_read {Ev A} P (k : Forest → M (World Ev) A) Q : (∀ g, triple P (k g) Q) → triple P (getF ≫= k) Q.
Proof.
  intros Hk w Hp. destruct (Hk (w_forest w) w Hp) as (a & w' & ? & ?). exists a, w'. split; [|done].
  by rewrite (M_bind_Done _ _ _ _ _ (eq_refl : getF w = Done (w_forest w, w))).
Qed.


(** ** Runs: the result, the new forest and the events of code on a given forest *)
Definition runs {Ev A} (m : M (World Ev) A) (f : Forest) (a : A) (f' : Forest) (evs : list Ev) : Prop :=
  ∀ tr, m (mkWorld f tr) = Done (a, mkWorld f' (tr ++ evs)).

Section runs.
  Context {Ev A B : Type}.
  Implicit Types (f : Forest) (evs : list Ev).

Lemma runs_ret (a : A) f : runs (Ev:=Ev) (mret a) f a f [].
Proof. intros tr. by rewrite app_nil_r. Qed.

Lemma runs_bind (m : M (World Ev) A) (k : A → M (World Ev) B) f a f1 e1 b f2 e2 :
  runs m f a f1 e1 → runs (k a) f1 b f2 e2 → runs (m ≫= k) f b f2 (e1 ++ e2).
Proof. intros Hm Hk tr. rewrite (M_bind_Done _ _ _ _ _ (Hm tr)), Hk. by rewrite app_assoc. Qed.

(** A first step that emits nothing. *)
Lemma runs_step (m : M (World Ev) A) (k : A → M (World Ev) B) f a f1 b f2 e2 :
  runs m f a f1 [] → runs (k a) f1 b f2 e2 → runs (m ≫= k) f b f2 e2.
Proof. apply (runs_bind m k f a f1 []). Qed.

Lemma runs_end (m : M (World Ev) A) (k : A → M (World Ev) B) f a f1 b f2 e1 :
  runs m f a f1 e1 → runs (k a) f1 b f2 [] → runs (m ≫= k) f b f2 e1.
Proof. intros Hm Hk. rewrite <- (app_nil_r e1). by eapply runs_bind. Qed.

Lemma runs_getF f : runs (Ev:=Ev) getF f f f [].
Proof. intros tr. by rewrite app_nil_r. Qed.

Lemma runs_emit f evs : runs (emit evs) f tt f evs.
Proof. done. Qed.

Lemma runs_updF g f : runs (Ev:=Ev) (updF g) f tt (g f) [].
Proof. intros tr. by rewrite app_nil_r. Qed.

Lemma runs_onF (g : Forest → A * Forest) f a f' : g f = (a, f') → runs (Ev:=Ev) (onF g) f a f' [].
Proof. intros Hg tr. unfold onF. simpl. by rewrite Hg, app_nil_r. Qed.

Lemma runs_runF (m : M Forest A) f a f' : m f = Done (a, f') → runs (Ev:=Ev) (runF m) f a f' [].
Proof. intros Hm tr. unfold runF. simpl. by rewrite Hm, app_nil_r. Qed.

Lemma runs_lift (o : outcome A) f a : o = Done a → runs (Ev:=Ev) (lift_outcome o) f a f [].
Proof. intros -> tr. by rewrite app_nil_r. Qed.

Lemma runs_nonnil (o : option A) f a : o = Some a → runs (Ev:=Ev) (nonnil o) f a f [].
Proof. intros ->. apply runs_ret. Qed.
End runs.
#[export] Hint Resolve runs_ret runs_getF runs_emit runs_updF : hnc.

(** Code with its own kind of events, run inside a world with others. *)
Definition embed {Ev Ev' A} (g : Ev → Ev') (m : M (World Ev) A) : M (World Ev') A := λ w,
  match m (mkWorld (w_forest w) []) with
  | Done (a, w') => Done (a, mkWorld (w_forest w') (w_events w ++ (g <$> w_events w')))
  | Panics => Panics
  | Diverges => Diverges
  end.

Lemma runs_embed {Ev Ev' A} (g : Ev → Ev') (m : M (World Ev) A) f a f' evs :
  runs m f a f' evs → runs (embed g m) f a f' (g <$> evs).
Proof. intros Hm tr. unfold embed. simpl. by rewrite (Hm []). Qed.
