(* ===== verification/Anchor.v ===== *)
(** * Subnamespace anchors (internal/anchor: reconciler.go, validator.go)

    The reconciler binds an anchor to its subnamespace: it creates the namespace,
    reports the state of the binding in the anchor, and drives the two steps of a
    deletion (delete the namespace, then release the anchor).  The validator guards
    the creation and the deletion of anchors. *)

From S2P Require Import Prelude GoStrings Chains Validation Api Config Resources Forest ForestWf ForestWalks.
From S2P Require Import ForestReads World.

(** What the reconciler does to the outside. *)
Inductive AnchorEvent :=
  | CreateAnchor (a : SubnamespaceAnchor)
  | UpdateAnchor (a : SubnamespaceAnchor)
  | CreateNamespace (n : K8sNamespace)
  | DeleteNamespace (n : K8sNamespace).

Record anchorApi := {
  an_getAnchor : string → string → ApiResult SubnamespaceAnchor;
  an_getNamespace : string → ApiResult K8sNamespace;
  an_isDeletingCRD : string + bool;
  an_writeAnchor : option string;
  an_createNamespace : option string;
  an_deleteNamespace : option string
}.

Definition set_State (s : SubnamespaceAnchorState) (i : SubnamespaceAnchor) : SubnamespaceAnchor :=
  {| sa_Meta := sa_Meta i; sa_Labels := sa_Labels i; sa_Annotations := sa_Annotations i; sa_State := s |}.
Definition set_sa_Meta (m : ObjectMeta) (i : SubnamespaceAnchor) : SubnamespaceAnchor :=
  {| sa_Meta := m; sa_Labels := sa_Labels i; sa_Annotations := sa_Annotations i; sa_State := sa_State i |}.
Definition hasFinalizer (i : SubnamespaceAnchor) : bool := ContainsFinalizer (sa_Meta i) MetaGroup.
Definition addFinalizer (i : SubnamespaceAnchor) : SubnamespaceAnchor := set_sa_Meta (AddFinalizer (sa_Meta i) MetaGroup) i.
Definition removeFinalizer (i : SubnamespaceAnchor) : SubnamespaceAnchor := set_sa_Meta (RemoveFinalizer (sa_Meta i) MetaGroup) i.

(** The unnamed namespace that stands for one that does not exist. *)
Definition blankNamespace : K8sNamespace := {| kn_Meta := blankMeta |}.

Definition updateState (inst : SubnamespaceAnchor) (snsInst : K8sNamespace) : SubnamespaceAnchor :=
  let pnm := om_Namespace (sa_Meta inst) in
  let sOf := sget (items (om_Annotations (kn_Meta snsInst))) SubnamespaceOf in
  if decide (om_Name (kn_Meta snsInst) = "") then set_State Missing inst
  else if decide (sOf ≠ pnm) then set_State Conflict inst
  else set_State Ok inst.

Section reconciler.
  Context `{RO : RangeOrder} `{RX : RegexpLib} (cfg : Config) (api : anchorApi).

Definition writeInstance (inst : SubnamespaceAnchor) : M (World AnchorEvent) (option string) :=
  emit [if IsZero (om_CreationTimestamp (sa_Meta inst)) then CreateAnchor inst else UpdateAnchor inst] ≫= λ _,
  mret (an_writeAnchor api).

Definition getNamespace (nm : string) : string + K8sNamespace :=
  match an_getNamespace api nm with
  | Found ns => inr ns
  | NotFound => inr blankNamespace
  | ApiError err => inl err
  end.

(** The namespace created for an anchor. *)
Definition subnamespace (nm pnm : string) : K8sNamespace :=
  {| kn_Meta := SetAnnotation (meta_named nm) SubnamespaceOf pnm |}.

Definition writeNamespace (nm pnm : string) : M (World AnchorEvent) (option string) :=
  emit [CreateNamespace (subnamespace nm pnm)] ≫= λ _, mret (an_createNamespace api).

Definition deleteNamespace (inst : K8sNamespace) : M (World AnchorEvent) (option string) :=
  emit [DeleteNamespace inst] ≫= λ _, mret (an_deleteNamespace api).

(** The only part that looks into the forest. *)
Definition shouldDeleteSubns (inst : SubnamespaceAnchor) (nsInst : K8sNamespace) (deletingCRD : bool) : M Forest bool :=
  if deletingCRD then mret false
  else if decide (sa_State inst = Ok) then
    if negb (IsZero (om_DeletionTimestamp (kn_Meta nsInst))) then mret false
    else if negb (hasFinalizer inst) then mret false
    else
      cns ← GetM (om_Name (sa_Meta inst)) ≫= nonnil;
      f ← get;
      if decide (ChildNames (deref f cns) = []) then mret true
      else lift_outcome (AllowsCascadingDeletion f cns)
  else mret false. (* Conflict, Missing, or a bad state *)

Definition shouldFinalizeAnchor (inst : SubnamespaceAnchor) (snsInst : K8sNamespace) : bool :=
  if negb (hasFinalizer inst) then false
  else if decide (sa_State inst = Ok) then IsZero (om_DeletionTimestamp (kn_Meta snsInst))
  else true.

Definition onDeleting (inst : SubnamespaceAnchor) (snsInst : K8sNamespace) : M (World AnchorEvent) (option string) :=
  match an_isDeletingCRD api with
  | inl err => mret (Some err)
  | inr deletingCRD =>
      del ← runF (shouldDeleteSubns inst snsInst deletingCRD);
      if (del : bool) then deleteNamespace snsInst
      else if shouldFinalizeAnchor inst snsInst then writeInstance (removeFinalizer inst)
      else mret None
  end.

Definition Reconcile (pnm nm : string) : M (World AnchorEvent) (option string) :=
  match an_getAnchor api pnm nm with
  | NotFound => mret None
  | ApiError err => mret (Some err)
  | Found inst =>
      if decide (WhyUnmanaged cfg pnm ≠ "") then
        if hasFinalizer inst then writeInstance (removeFinalizer inst) else mret None
      else if decide (WhyUnmanaged cfg nm ≠ "") then
        if negb (bool_decide (sa_State inst = Forbidden)) || hasFinalizer inst
        then writeInstance (removeFinalizer (set_State Forbidden inst)) else mret None
      else
        match getNamespace nm with
        | inl err => mret (Some err)
        | inr snsInst =>
            let inst := updateState inst snsInst in
            if negb (IsZero (om_DeletionTimestamp (sa_Meta inst))) then onDeleting inst snsInst
            else
              let inst := addFinalizer inst in
              if decide (sa_State inst = Missing) then
                err ← writeNamespace nm pnm;
                match err with
                | Some e => writeInstance inst ≫= λ _, mret (Some e)
                | None => writeInstance inst
                end
              else writeInstance inst
        end
  end.

(** The anchor to reconcile after a change of a namespace. *)
Definition OnChangeNamespace (f : Forest) (ns : option loc) : option NamespacedName :=
  match ns with
  | None => None
  | Some l => if ns_IsSub (deref f l) then Some (mkNN (Name f (Parent f ns)) (Name f ns)) else None
  end.

(** ** validator.go *)
Record anchorRequest := { ar_anchor : SubnamespaceAnchor; ar_op : Operation }.

Definition SubnamespaceAnchorGK : string := "SubnamespaceAnchor.hnc.x-k8s.io".
Definition SubnamespaceAnchorGR : string := "subnamespaceanchors.hnc.x-k8s.io".

Definition handle (req : anchorRequest) : M Forest Response :=
  let pnm := om_Namespace (sa_Meta (ar_anchor req)) in
  let cnm := om_Name (sa_Meta (ar_anchor req)) in
  cns ← GetM cnm;
  let errStrs := IsDNS1123Label cnm in
  if decide (ar_op req ≠ Delete ∧ errStrs ≠ []) then
    mret (DenyInvalid SubnamespaceAnchorGK cnm
      [Invalid "metadata.name" cnm ("not a valid namespace name: " +:+ Join errStrs "; ")])
  else
    match ValidateManagedLabels cfg (sa_Labels (ar_anchor req)) ++ ValidateManagedAnnotations cfg (sa_Annotations (ar_anchor req)) with
    | (_ :: _) as allErrs => mret (DenyInvalid SubnamespaceAnchorGK cnm allErrs)
    | [] =>
        match ar_op req with
        | Create =>
            if decide (WhyUnmanaged cfg pnm ≠ "") then
              mret (DenyForbidden SubnamespaceAnchorGR pnm
                ("cannot create a subnamespace in the unmanaged namespace " +:+ quoted pnm +:+ " (" +:+ WhyUnmanaged cfg pnm +:+ ")"))
            else if decide (WhyUnmanaged cfg cnm ≠ "") then
              mret (DenyForbidden SubnamespaceAnchorGR cnm
                ("cannot create a subnamespace using the unmanaged namespace name " +:+ quoted cnm +:+ " (" +:+ WhyUnmanaged cfg cnm +:+ ")"))
            else
              c ← nonnil cns;
              f ← get;
              if Exists f c && negb (bool_decide (Name f (Parent f cns) = pnm) && ns_IsSub (deref f c)) then
                mret (DenyConflict SubnamespaceAnchorGR cnm "cannot create a subnamespace using an existing namespace")
              else mret (Allow "")
        | Delete =>
            if decide (sa_State (ar_anchor req) = Ok) then
              c ← nonnil cns;
              f ← get;
              if decide (ChildNames (deref f c) = []) then mret (Allow "")
              else
                acd ← lift_outcome (AllowsCascadingDeletion f c);
                if (acd : bool) then mret (Allow "")
                else mret (DenyForbidden SubnamespaceAnchorGR cnm
                  ("subnamespace " +:+ cnm +:+ " is not a leaf and doesn't allow cascading deletion. Please set allowCascadingDeletion flag or make it a leaf first"))
            else mret (Allow "")
        | _ => mret (Allow "")
        end
    end.

(** [Handle] without the decoding of the request. *)
Definition Handle (ui : UserInfo) (req : anchorRequest) : M Forest Response :=
  if IsHNCServiceAccount cfg (Some ui) then mret (Allow "HNC SA") else handle req.
End reconciler.

(** ** Facts *)

(** A subnamespace may go if it is a leaf or cascading deletion is allowed on it. *)
Definition deletable `{RangeOrder} (f : Forest) (nm : string) : Prop :=
  (∀ c, parent_name f c ≠ Some nm) ∨ ∃ l, f_namespaces f !! nm = Some l ∧ AllowsCascadingDeletion f l = Done true.

(** The namespace exists and names the anchor's namespace as its parent. *)
Definition bound (inst : SubnamespaceAnchor) (snsInst : K8sNamespace) : Prop :=
  om_Name (kn_Meta snsInst) ≠ "" ∧
  sget (items (om_Annotations (kn_Meta snsInst))) SubnamespaceOf = om_Namespace (sa_Meta inst).

Lemma updateState_Ok inst sns : sa_State (updateState inst sns) = Ok ↔ bound inst sns.
Proof.
  unfold updateState, bound. destruct (decide (om_Name _ = "")); [by split; [|intros []]|].
  destruct (decide _) as [Hne|Heq]; simpl; [by split; [|intros []]|]. split; [|done]. intros _. split; [done|]. by apply dec_stable in Heq.
Qed.

Lemma updateState_Missing inst sns : sa_State (updateState inst sns) = Missing ↔ om_Name (kn_Meta sns) = "".
Proof. unfold updateState. destruct (decide (om_Name _ = "")); [done|]. by destruct (decide _). Qed.

Lemma updateState_Meta inst sns : sa_Meta (updateState inst sns) = sa_Meta inst.
Proof. unfold updateState. destruct (decide (om_Name _ = "")); [done|]. by destruct (decide _). Qed.

Lemma updateState_idemp inst sns : updateState (updateState inst sns) sns = updateState inst sns.
Proof.
  unfold updateState. destruct (decide (om_Name _ = "")); [done|].
  destruct (decide (sget _ _ ≠ om_Namespace (sa_Meta inst))) as [Hd|Hd]; simpl; by destruct (decide _).
Qed.

Lemma updateState_after inst sns s : updateState (set_State s inst) sns = updateState inst sns.
Proof. done. Qed.

Lemma addFinalizer_idemp inst : addFinalizer (addFinalizer inst) = addFinalizer inst.
Proof.
  assert (∀ m, AddFinalizer (AddFinalizer m MetaGroup) MetaGroup = AddFinalizer m MetaGroup) as Hm.
  { intros m. unfold AddFinalizer at 1. by rewrite ContainsFinalizer_Add. }
  unfold addFinalizer, set_sa_Meta. simpl. by rewrite Hm.
Qed.

Lemma updateState_addFinalizer inst sns : updateState (addFinalizer inst) sns = addFinalizer (updateState inst sns).
Proof.
  unfold updateState, addFinalizer. simpl. destruct (decide (om_Name _ = "")); [done|].
  assert (om_Namespace (AddFinalizer (sa_Meta inst) MetaGroup) = om_Namespace (sa_Meta inst)) as ->.
  { unfold AddFinalizer. by destruct (ContainsFinalizer _ _). }
  by destruct (decide _).
Qed.

Section facts.
  Context `{RO : RangeOrder} `{RX : RegexpLib} (cfg : Config).

(** The pointer [Get] returns for a nonempty name, and the children seen there. *)
Lemma GetM_live nm f : wf f → nm ≠ "" → ∃ l g, GetM nm f = Done (Some l, g) ∧ extends f g ∧ f_namespaces g !! nm = Some l.
Proof.
  intros Hwf Hnm. unfold GetM. destruct (Get nm f) as [o g] eqn:Hg. pose proof (Get_extends _ _ _ _ Hwf Hg) as Hx.
  destruct o as [l|].
  - exists l, g. split_and!; [done..|]. destruct (wf_Get nm f l g Hwf Hg) as (_ & -> & _). apply lookup_insert_eq.
  - exfalso. unfold Get in Hg. rewrite decide_False in Hg by done. by destruct (f_namespaces f !! nm).
Qed.

(** Both the webhook and the reconciler decide on the children and the flag like this. *)
Lemma deletable_decided f g nm l : wf f → extends f g → f_namespaces g !! nm = Some l →
  ∃ b, AllowsCascadingDeletion g l = Done b ∧
    ((ChildNames (deref g l) = [] ∨ b = true) ↔ deletable f nm).
Proof.
  intros Hwf Hx Hl. pose proof (ex_wf _ _ Hx) as Hwg.
  destruct (AllowsCascadingDeletion_terminates g Hwg nm l Hl) as (b & Hb & _). exists b. split; [done|].
  assert (ChildNames (deref g l) = [] ↔ ∀ c, parent_name f c ≠ Some nm) as Hch.
  { split.
    - intros Hn c Hc. rewrite <- (extends_parent f g Hwf Hx) in Hc. apply (ChildNames_elem g Hwg nm l c Hl) in Hc.
      rewrite Hn in Hc. by apply elem_of_nil in Hc.
    - intros Hall. destruct (ChildNames (deref g l)) as [|c cs] eqn:Hcs; [done|]. exfalso. apply (Hall c).
      rewrite <- (extends_parent f g Hwf Hx). apply (ChildNames_elem g Hwg nm l c Hl). rewrite Hcs. by left. }
  unfold deletable. rewrite Hch. destruct (f_namespaces f !! nm) as [l0|] eqn:Hl0.
  - pose proof (ex_names _ _ Hx _ _ Hl0). simplify_eq. rewrite (extends_acd f g Hwf Hx _ l Hl0) in Hb.
    apply or_iff_compat_l. split; [intros ->; eauto|]. intros (l' & [= <-] & Ht). congruence.
  - assert (∀ c, parent_name f c ≠ Some nm) as Hno.
    { intros c Hc. apply (up_live f Hwf) in Hc as [_ [? ?]]. congruence. }
    split; by left.
Qed.

Lemma shouldDeleteSubns_spec f inst sns crd : wf f → om_Name (sa_Meta inst) ≠ "" →
  ∃ b g, shouldDeleteSubns inst sns crd f = Done (b, g) ∧ extends f g ∧
    (b = true ↔ crd = false ∧ sa_State inst = Ok ∧ IsZero (om_DeletionTimestamp (kn_Meta sns)) = true ∧
       hasFinalizer inst = true ∧ deletable f (om_Name (sa_Meta inst))).
Proof.
  intros Hwf Hnm. pose proof (extends_refl f Hwf) as Hr. unfold shouldDeleteSubns.
  destruct crd; [exists false, f; naive_solver|]. destruct (decide (sa_State inst = Ok)) as [Hok|]; [|exists false, f; naive_solver].
  destruct (IsZero (om_DeletionTimestamp (kn_Meta sns))) eqn:Hz; [|exists false, f; naive_solver].
  destruct (hasFinalizer inst) eqn:Hf; [|exists false, f; naive_solver]. cbn [negb].
  destruct (GetM_live _ f Hwf Hnm) as (l & g & Hg & Hx & Hl).
  destruct (deletable_decided f g _ l Hwf Hx Hl) as (b & Hb & Hd).
  rewrite (M_bind_Done _ _ f l g) by (by rewrite (M_bind_Done _ _ _ _ _ Hg)).
  rewrite (M_bind_Done get _ g g g) by done. destruct (decide (ChildNames (deref g l) = [])) as [Hc|Hc].
  - exists true, g. split_and!; [done|done|]. naive_solver.
  - exists b, g. unfold lift_outcome. rewrite Hb. split_and!; [done|done|]. naive_solver.
Qed.

(** Code that changes the forest only by entries for looked-up names, and emits [evs]. *)
Definition emits {A} (m : M (World AnchorEvent) A) (f : Forest) (a : A) (evs : list AnchorEvent) : Prop :=
  ∃ g, runs m f a g evs ∧ extends f g.

Lemma writeInstance_emits api inst f : wf f → IsZero (om_CreationTimestamp (sa_Meta inst)) = false →
  emits (writeInstance api inst) f (an_writeAnchor api) [UpdateAnchor inst].
Proof. intros Hwf Hc. exists f. unfold writeInstance. rewrite Hc. split; [done|by apply extends_refl]. Qed.

(** The two steps of a deletion, and when the reconciler waits. *)
Lemma onDeleting_protocol api inst sns crd f : wf f → an_isDeletingCRD api = inr crd →
  om_Name (sa_Meta inst) ≠ "" → hasFinalizer inst = true → IsZero (om_CreationTimestamp (sa_Meta inst)) = false →
  (sa_State inst = Ok ∧ IsZero (om_DeletionTimestamp (kn_Meta sns)) = true ∧ crd = false ∧ deletable f (om_Name (sa_Meta inst)) →
     emits (onDeleting api inst sns) f (an_deleteNamespace api) [DeleteNamespace sns]) ∧
  (sa_State inst = Ok ∧ IsZero (om_DeletionTimestamp (kn_Meta sns)) = false → emits (onDeleting api inst sns) f None []) ∧
  (sa_State inst ≠ Ok ∨ IsZero (om_DeletionTimestamp (kn_Meta sns)) = true ∧ (crd = true ∨ ¬ deletable f (om_Name (sa_Meta inst))) →
     emits (onDeleting api inst sns) f (an_writeAnchor api) [UpdateAnchor (removeFinalizer inst)]).
Proof.
  intros Hwf Hcrd Hnm Hfin Hct. unfold onDeleting. rewrite Hcrd.
  destruct (shouldDeleteSubns_spec f inst sns crd Hwf Hnm) as (b & g & Hs & Hx & Hb).
  pose proof (runs_runF (Ev:=AnchorEvent) _ _ _ _ Hs) as Hr.
  rewrite Hfin in Hb. unfold shouldFinalizeAnchor. rewrite Hfin. split_and!.
  - intros (Hok & Hz & -> & Hd). assert (b = true) as -> by tauto. exists g. split; [|done]. by eapply runs_step.
  - intros (Hok & Hz). assert (b = false) as -> by (apply not_true_iff_false; intros ?%Hb; intuition congruence).
    exists g. split; [|done]. eapply runs_step; [exact Hr|]. rewrite decide_True, Hz by done. apply runs_ret.
  - intros Hcase. assert (b = false) as -> by (apply not_true_iff_false; intros ?%Hb; intuition congruence).
    exists g. split; [|done]. eapply runs_step; [exact Hr|].
    assert ((if decide (sa_State inst = Ok) then IsZero (om_DeletionTimestamp (kn_Meta sns)) else true) = true) as Hz.
    { destruct (decide (sa_State inst = Ok)); [|done]. intuition congruence. }
    simpl. rewrite Hz. unfold writeInstance, removeFinalizer. simpl. unfold RemoveFinalizer, set_om_Finalizers. simpl. rewrite Hct. done.
Qed.

(** The admission of deletions; the managed labels are checked on these too. *)
Lemma handle_delete_spec f a : wf f → om_Name (sa_Meta a) ≠ "" →
  ∃ resp g, handle cfg {| ar_anchor := a; ar_op := Delete |} f = Done (resp, g) ∧ extends f g ∧
    (Allowed resp = true ↔
      ValidateManagedLabels cfg (sa_Labels a) = [] ∧ ValidateManagedAnnotations cfg (sa_Annotations a) = [] ∧
      (sa_State a = Ok → deletable f (om_Name (sa_Meta a)))).
Proof.
  intros Hwf Hnm. unfold handle. simpl. destruct (GetM_live _ f Hwf Hnm) as (l & g & Hg & Hx & Hlg).
  destruct (deletable_decided f g _ l Hwf Hx Hlg) as (b & Hb & Hd).
  rewrite (M_bind_Done _ _ _ _ _ Hg). destruct (decide (Delete ≠ Delete ∧ IsDNS1123Label (om_Name (sa_Meta a)) ≠ [])) as [[Hdd _]|_]; [by destruct Hdd|].
  destruct (_ ++ _) as [|e es] eqn:Happ.
  2:{ eexists _, g. split; [reflexivity|]. split; [done|]. split; [done|]. intros (Hl & Ha & _). by rewrite Hl, Ha in Happ. }
  apply app_nil in Happ as [Hl Ha]. rewrite Hl, Ha.
  destruct (decide (sa_State a = Ok)) as [Hok|]; [|exists (Allow ""), g; naive_solver].
  rewrite (M_bind_Done _ _ g l g), (M_bind_Done get _ g g g) by done.
  destruct (decide (ChildNames (deref g l) = [])) as [Hc|Hc]; [exists (Allow ""), g; naive_solver|].
  rewrite (M_bind_Done _ _ g b g) by (unfold lift_outcome; by rewrite Hb).
  destruct b; eexists _, g; (split; [done|]); (split; [done|]); naive_solver.
Qed.

(** An anchor may be created for a legal name of a managed namespace that does not
    exist, or that exists as a subnamespace of the same parent (its anchor is missing). *)
Lemma handle_create_spec f a : wf f →
  ∃ resp g, handle cfg {| ar_anchor := a; ar_op := Create |} f = Done (resp, g) ∧ extends f g ∧
    (Allowed resp = true ↔
      IsDNS1123Label (om_Name (sa_Meta a)) = [] ∧
      ValidateManagedLabels cfg (sa_Labels a) = [] ∧ ValidateManagedAnnotations cfg (sa_Annotations a) = [] ∧
      IsManagedNamespace cfg (om_Namespace (sa_Meta a)) = true ∧ IsManagedNamespace cfg (om_Name (sa_Meta a)) = true ∧
      (ns_exists (ns_at f (om_Name (sa_Meta a))) = true →
         Name f (Parent f (f_namespaces f !! om_Name (sa_Meta a))) = om_Namespace (sa_Meta a) ∧
         ns_IsSub (ns_at f (om_Name (sa_Meta a))) = true)).
Proof.
  intros Hwf. unfold handle, IsManagedNamespace. setoid_rewrite bool_decide_eq_true. simpl. set (cnm := om_Name (sa_Meta a)). set (pnm := om_Namespace _).
  destruct (decide (cnm = "")) as [He|Hne].
  { assert (IsDNS1123Label cnm ≠ []) as Hd by (by rewrite He).
    assert (GetM cnm f = Done (None, f)) as Hg by (unfold GetM, Get; by rewrite decide_True).
    rewrite (M_bind_Done _ _ _ _ _ Hg), decide_True by done. eexists _, f. split; [reflexivity|].
    split; [by apply extends_refl|]. split; [done|]. by intros [? _]. }
  destruct (GetM_live _ f Hwf Hne) as (l & g & Hg & Hx & Hlg). rewrite (M_bind_Done _ _ _ _ _ Hg).
  destruct (IsDNS1123Label cnm) as [|er ers] eqn:Hdns.
  2:{ rewrite decide_True by done. eexists _, g. split; [reflexivity|]. naive_solver. }
  rewrite decide_False by (by intros []). fold pnm.
  destruct (ValidateManagedLabels cfg (sa_Labels a)) eqn:Hl1; [|eexists _, g; split; [reflexivity|]; naive_solver].
  destruct (ValidateManagedAnnotations cfg (sa_Annotations a)) eqn:Hl2; [|eexists _, g; split; [reflexivity|]; naive_solver].
  simpl. destruct (decide (WhyUnmanaged cfg pnm ≠ "")) as [Hp|Hp]; [eexists _, g; split; [reflexivity|]; naive_solver|].
  destruct (decide (WhyUnmanaged cfg cnm ≠ "")) as [Hc|Hc]; [eexists _, g; split; [reflexivity|]; naive_solver|].
  apply dec_stable in Hp, Hc. rewrite (M_bind_Done _ _ g l g), (M_bind_Done get _ g g g) by done.
  assert (ns_exists (ns_at f cnm) = Exists g l) as Hex.
  { rewrite <- (extends_ns_at f g Hwf Hx ns_exists false) by done. unfold ns_at. by rewrite Hlg. }
  assert (ns_IsSub (ns_at f cnm) = ns_IsSub (deref g l)) as Hsub.
  { rewrite <- (extends_isSub f g Hwf Hx). unfold ns_at. by rewrite Hlg. }
  assert (Exists g l = true → Name f (Parent f (f_namespaces f !! cnm)) = Name g (ns_parent (deref g l))) as Hpar.
  { rewrite <- Hex. unfold ns_at. destruct (f_namespaces f !! cnm) as [l0|] eqn:Hl0; [intros _|done].
    pose proof (ex_names _ _ Hx _ _ Hl0). simplify_eq. unfold Name, Parent. rewrite (ex_deref _ _ Hx l) by (by eapply wf_name).
    destruct (ns_parent (deref f l)) as [p|] eqn:Hpp; [|done]. destruct (wf_parent _ Hwf _ _ _ Hl0 Hpp) as (x & Hxp & _).
    rewrite (ex_deref _ _ Hx p); [done|]. by eapply wf_name. }
  rewrite Hex, Hsub. destruct (Exists g l) eqn:Hel; [|eexists _, g; split; [reflexivity|]; naive_solver].
  rewrite Hpar by done. destruct (bool_decide (Name g (ns_parent (deref g l)) = pnm)) eqn:Hb; [apply bool_decide_eq_true in Hb|apply bool_decide_eq_false in Hb];
  destruct (ns_IsSub (deref g l)); eexists _, g; (split; [reflexivity|]); naive_solver.
Qed.

(** The anchor that a reconciliation of a live anchor writes. *)
Definition synced (inst : SubnamespaceAnchor) (sns : K8sNamespace) : SubnamespaceAnchor := addFinalizer (updateState inst sns).

(** Synchronising changes nothing of the metadata but the finalizers. *)
Lemma synced_Meta inst sns :
  om_Name (sa_Meta (synced inst sns)) = om_Name (sa_Meta inst) ∧ om_Namespace (sa_Meta (synced inst sns)) = om_Namespace (sa_Meta inst) ∧
  om_DeletionTimestamp (sa_Meta (synced inst sns)) = om_DeletionTimestamp (sa_Meta inst) ∧
  om_CreationTimestamp (sa_Meta (synced inst sns)) = om_CreationTimestamp (sa_Meta inst).
Proof. unfold synced, addFinalizer. simpl. rewrite updateState_Meta. unfold AddFinalizer. by destruct (ContainsFinalizer _ _). Qed.

Lemma synced_stable inst sns : synced (synced inst sns) sns = synced inst sns.
Proof. unfold synced. by rewrite updateState_addFinalizer, addFinalizer_idemp, updateState_idemp. Qed.

(** The namespace that the reconciler creates is bound to the anchor. *)
Lemma subnamespace_bound inst : om_Name (sa_Meta inst) ≠ "" →
  bound inst (subnamespace (om_Name (sa_Meta inst)) (om_Namespace (sa_Meta inst))).
Proof. intros Hnm. split; [done|]. unfold subnamespace, SetAnnotation, sget. simpl. by rewrite lookup_insert_eq. Qed.

Lemma Reconcile_live api pnm nm inst f : wf f → an_getAnchor api pnm nm = Found inst →
  WhyUnmanaged cfg pnm = "" → WhyUnmanaged cfg nm = "" →
  IsZero (om_DeletionTimestamp (sa_Meta inst)) = true → IsZero (om_CreationTimestamp (sa_Meta inst)) = false →
  (∀ sns, an_getNamespace api nm = Found sns → om_Name (kn_Meta sns) ≠ "" →
     emits (Reconcile cfg api pnm nm) f (an_writeAnchor api) [UpdateAnchor (synced inst sns)]) ∧
  (an_getNamespace api nm = NotFound → an_createNamespace api = None →
     emits (Reconcile cfg api pnm nm) f (an_writeAnchor api)
       [CreateNamespace (subnamespace nm pnm); UpdateAnchor (synced inst blankNamespace)]).
Proof.
  intros Hwf Hget Hp Hn Hz Hc. unfold Reconcile. rewrite Hget, Hp, Hn, !decide_False by (intros H0; by apply H0).
  assert (∀ sns, IsZero (om_CreationTimestamp (sa_Meta (synced inst sns))) = false) as Hcs.
  { intros sns. unfold synced, addFinalizer. simpl. rewrite updateState_Meta. unfold AddFinalizer. by destruct (ContainsFinalizer _ _). }
  split.
  - intros sns Hs Hne. unfold getNamespace. rewrite Hs, updateState_Meta, Hz. cbn [negb]. fold (synced inst sns).
    rewrite decide_False. 2:{ unfold synced. simpl. by rewrite updateState_Missing. }
    by apply writeInstance_emits.
  - intros Hs Hcr. unfold getNamespace. rewrite Hs, updateState_Meta, Hz. cbn [negb]. fold (synced inst blankNamespace).
    rewrite decide_True by done. exists f. split; [|by apply extends_refl].
    eapply (runs_bind _ _ f _ f [_]); [intros tr; reflexivity|]. rewrite Hcr. unfold writeInstance. rewrite Hcs. done.
Qed.
End facts.
