(* ===== verification/Objects.v ===== *)
(** * Propagation of objects (internal/objects: reconciler.go, common.go)

    One reconciler per type copies the source objects of a namespace to its
    descendants.  A reconciliation syncs the object with the forest (sources are
    recorded there) and returns an action, which is then carried out on the API
    server.  The reconciler is also the forest's [TypeSyncer] of its type, so its
    set of propagated objects lives in the forest's list of types. *)

From Stdlib Require Import Ascii.
From S2P Require Import Prelude GoStrings Chains Validation Api Config Selectors Resources Forest ForestWf ForestWalks.
From S2P Require Import World.

(** ** common.go *)
Definition metaPrefix (s : string) : string :=
  match Split s "/"%char with
  | p :: _ :: _ => p
  | _ => ""
  end.

Definition hnc_key (k : string) : bool := HasSuffix (metaPrefix k) MetaGroup.

Definition canonical (inst : Unstructured) : Unstructured :=
  mkObj (u_GVK inst)
    (mkMeta (om_Name (u_Meta inst)) ""
       (Some (filter (λ '(k, _), hnc_key k = false) (items (om_Labels (u_Meta inst)))))
       (Some (filter (λ '(k, _), hnc_key k = false) (items (om_Annotations (u_Meta inst)))))
       [] None None "")
    None (u_Content inst).

(** ** Data *)
Inductive syncAction := actionUnknown | actionRemove | actionWrite | actionNop.
#[export] Instance syncAction_eq_dec : EqDecision syncAction.
Proof. solve_decision. Defined.

Definition action_string (a : syncAction) : string :=
  match a with
  | actionUnknown => "<hnc internal error - unknown action>"
  | actionRemove => "remove"
  | actionWrite => "write"
  | actionNop => "no-op"
  end.

Definition unknownSourceNamespace : string := "<unknown-source-namespace>".
Definition EventCannotPropagate : string := "CannotPropagateObject".
Definition EventCannotUpdate : string := "CannotUpdateObject".
Definition EventCannotParseSelector : string := "CannotParseSelector".

Inductive ObjEvent :=
  | Enqueue (o : Unstructured)
  | CreateObj (o : Unstructured)
  | UpdateObj (o : Unstructured)
  | DeleteObj (o : Unstructured)
  | Warning (o : Unstructured) (reason msg : string).

(** The errors of the API server that the code tells apart. *)
Inductive apiErr :=
  | ErrNotFound (msg : string)
  | ErrInvalid (msg : string)
  | ErrAlreadyExists (msg : string)
  | ErrOther (msg : string).
Definition Error (e : apiErr) : string :=
  match e with ErrNotFound m | ErrInvalid m | ErrAlreadyExists m | ErrOther m => m end.

Record objectApi := {
  ob_get : NamespacedName → ApiResult Unstructured;
  ob_create : option apiErr;
  ob_update : option apiErr;
  ob_delete : option apiErr
}.

Definition set_u_Namespace (ns : string) (o : Unstructured) : Unstructured :=
  set_u_Meta (set_om_NamespacedName ns (om_Name (u_Meta o)) (u_Meta o)) o.
Definition set_u_ResourceVersion (rv : string) (o : Unstructured) : Unstructured :=
  set_u_Meta (let m := u_Meta o in mkMeta (om_Name m) (om_Namespace m) (om_Labels m) (om_Annotations m)
    (om_Finalizers m) (om_CreationTimestamp m) (om_DeletionTimestamp m) rv) o.
Definition set_u_Label (k v : string) (o : Unstructured) : Unstructured := set_u_Meta (SetLabel (u_Meta o) k v) o.

Definition u_exists (o : Unstructured) : bool := negb (IsZero (om_CreationTimestamp (u_Meta o))).
Definition hasFinalizers (o : Unstructured) : bool := negb (bool_decide (om_Finalizers (u_Meta o) = [])).
Definition hasPropagatedLabel (o : Unstructured) : bool := bool_decide (is_Some (GetLabel (u_Meta o) LabelInheritedFrom)).

Definition GetValidateMode (mode : SynchronizationMode) : SynchronizationMode :=
  if decide (mode = Propagate ∨ mode = Ignore ∨ mode = Remove ∨ mode = AllowPropagate) then mode
  else if decide (mode = "") then Propagate
  else Ignore.

(** Updating the type syncer of a type. *)
Definition upd_syncer (gvk : GroupVersionKind) (g : TypeSyncer → TypeSyncer) (f : Forest) : Forest :=
  set_types ((λ t, if decide (ts_GVK t = gvk) then g t else t) <$> f_types f) f.
Definition set_ts_Mode (m : SynchronizationMode) (t : TypeSyncer) : TypeSyncer :=
  {| ts_GVK := ts_GVK t; ts_Mode := m; ts_propagatedObjects := ts_propagatedObjects t |}.
Definition set_ts_objects (g : gset NamespacedName → gset NamespacedName) (t : TypeSyncer) : TypeSyncer :=
  {| ts_GVK := ts_GVK t; ts_Mode := ts_Mode t; ts_propagatedObjects := g (ts_propagatedObjects t) |}.

Abbreviation OWorld := (World ObjEvent).

Section reconciler.
  Context `{RO : RangeOrder} `{RX : RegexpLib} `{SL : SelectorLib} (cfg : Config)
    (gvk : GroupVersionKind) (mode : SynchronizationMode) (api : objectApi).

(** [r.Forest.Get(nm)] used as the receiver of a method that dereferences it. *)
Definition fget (nm : string) : M OWorld loc := onF (Get nm) ≫= nonnil.

Definition recordPropagatedObject (namespace name : string) : M OWorld unit :=
  updF (upd_syncer gvk (set_ts_objects (λ s, {[mkNN namespace name]} ∪ s))).
Definition recordRemovedObject (namespace name : string) : M OWorld unit :=
  updF (upd_syncer gvk (set_ts_objects (λ s, s ∖ {[mkNN namespace name]}))).

(** ** Sources *)
Definition cleanSource (src : Unstructured) : Unstructured :=
  let annot := foldl (λ m k, delete k m) (items (om_Annotations (u_Meta src))) (UnpropagatedAnnotations cfg) in
  let labels := <[LabelManagedByApps := MetaGroup]> (items (om_Labels (u_Meta src))) in
  let labels := foldl (λ m k, delete k m) labels (UnpropagatedLabels cfg) in
  set_u_Meta (set_om_Labels (Some labels) (set_om_Annotations (Some annot) (u_Meta src))) src.

Definition enqueueDescendants (src : Unstructured) : M OWorld unit :=
  sns ← fget (om_Namespace (u_Meta src));
  f ← getF;
  halted ← lift_outcome (GetHaltedRoot f (Some sns));
  if decide (halted ≠ "") then mret tt
  else emit ((λ ns, Enqueue (set_u_Namespace ns (canonical src))) <$> DescendantNames f sns).

Definition syncSource (src : Unstructured) : M OWorld unit :=
  ns ← fget (om_Namespace (u_Meta src));
  updF (SetSourceObject ns (cleanSource src)) ≫= λ _,
  enqueueDescendants src.

Definition shouldPropagateSource (inst : Unstructured) (dst : string) : M OWorld bool :=
  l ← fget dst;
  f ← getF;
  r ← lift_outcome (ShouldPropagate cfg inst (items (GetLabels f l)) mode);
  match r with
  | inl err => emit [Warning inst EventCannotParseSelector err] ≫= λ _, mret false
  | inr false => mret false
  | inr true =>
      if decide (mode = Remove) then mret false
      else if hasFinalizers inst then mret false
      else if decide (Group gvk = "" ∧ Kind gvk = "Secret") then
        mret (negb (bool_decide (u_Content inst !! "type" = Some (JString "kubernetes.io/service-account-token"))))
      else mret true
  end.

(** ** Copies *)

(** The loop of [getTopSourceToPropagate] over the sources, from the top down. *)
Fixpoint top_source (nnms : list NamespacedName) (dst : string) : M OWorld (option Unstructured) :=
  match nnms with
  | [] => mret None
  | nnm :: nnms' =>
      l ← fget (nn_namespace nnm);
      f ← getF;
      obj ← nonnil (GetSourceObject (deref f l) gvk (nn_name nnm));
      yes ← shouldPropagateSource obj dst;
      if (yes : bool) then mret (Some obj) else top_source nnms' dst
  end.

Definition getTopSourceToPropagate (inst : Unstructured) : M OWorld (option Unstructured) :=
  ns ← onF (Get (om_Namespace (u_Meta inst)));
  f ← getF;
  top_source (GetAncestorSourceNames f (Parent f ns) gvk (om_Name (u_Meta inst))) (om_Namespace (u_Meta inst)).

Definition shouldSyncAsPropagated (inst : Unstructured) : M OWorld (bool * option Unstructured) :=
  srcInst ← getTopSourceToPropagate inst;
  if hasPropagatedLabel inst then mret (true, srcInst)
  else
    f ← getF;
    t ← nonnil (GetTypeSyncer gvk f);
    if CanPropagate t && bool_decide (is_Some srcInst) then mret (true, srcInst) else mret (false, None).

(** The result includes the instance, whose label it may set. *)
Definition syncPropagated (inst : Unstructured) (srcInst : option Unstructured)
    : M OWorld (syncAction * option Unstructured * Unstructured) :=
  ns ← fget (om_Namespace (u_Meta inst));
  updF (DeleteSourceObject ns gvk (om_Name (u_Meta inst))) ≫= λ _,
  match srcInst with
  | None => mret (actionRemove, None, inst)
  | Some src =>
      if negb (u_exists inst) || negb (bool_decide (canonical inst = canonical src)) ||
         negb (bool_decide (sget (items (om_Labels (u_Meta inst))) LabelInheritedFrom = om_Namespace (u_Meta src)))
      then mret (actionWrite, Some src, set_u_Label LabelInheritedFrom (om_Namespace (u_Meta src)) inst)
      else
        recordPropagatedObject (om_Namespace (u_Meta inst)) (om_Name (u_Meta inst)) ≫= λ _,
        mret (actionNop, None, inst)
  end.

Definition syncObject (inst : Unstructured) : M OWorld (syncAction * option Unstructured * Unstructured) :=
  if decide (om_Namespace (u_Meta inst) = "") then mret (actionNop, None, inst)
  else
    '(yes, srcInst) ← shouldSyncAsPropagated inst;
    if (yes : bool) then syncPropagated inst srcInst
    else syncSource inst ≫= λ _, mret (actionNop, None, inst).

Definition syncMissingObject (inst : Unstructured) : M OWorld (syncAction * Unstructured) :=
  if u_exists inst then mret (actionUnknown, inst)
  else
    ns ← fget (om_Namespace (u_Meta inst));
    f ← getF;
    if HasSourceObject (deref f ns) gvk (om_Name (u_Meta inst)) then
      updF (DeleteSourceObject ns gvk (om_Name (u_Meta inst))) ≫= λ _,
      enqueueDescendants inst ≫= λ _,
      mret (actionNop, inst)
    else mret (actionUnknown, set_u_Label LabelInheritedFrom unknownSourceNamespace inst).

Definition skipNamespace (inst : Unstructured) : M OWorld bool :=
  if negb (IsZero (om_DeletionTimestamp (u_Meta inst))) then mret true
  else
    ns ← fget (om_Namespace (u_Meta inst));
    f ← getF;
    mret (negb (Exists f ns)).

Definition syncWithForest (inst : Unstructured) : M OWorld (syncAction * option Unstructured * Unstructured) :=
  skip ← skipNamespace inst;
  if (skip : bool) then mret (actionNop, None, inst)
  else
    '(missingAction, inst) ← syncMissingObject inst;
    if decide (missingAction ≠ actionUnknown) then mret (missingAction, None, inst)
    else
      '(action, srcInst, inst) ← syncObject inst;
      ns ← onF (Get (om_Namespace (u_Meta inst)));
      f ← getF;
      halted ← lift_outcome (GetHaltedRoot f ns);
      if decide (halted ≠ "") then mret (actionNop, None, inst)
      else mret (action, srcInst, inst).

(** ** Acting on the API server *)
Definition generateEvents (srcInst : option Unstructured) (inst : Unstructured) (act : syncAction) (err : option apiErr) : M OWorld unit :=
  if hasFinalizers inst then emit [Warning inst EventCannotPropagate "Objects with finalizers cannot be propagated"]
  else match err with
  | None | Some (ErrAlreadyExists _) => mret tt
  | Some e =>
      emit [Warning inst EventCannotUpdate
              ("Could not " +:+ action_string act +:+ " from source namespace " +:+
               quoted (sget (items (om_Labels (u_Meta inst))) LabelInheritedFrom) +:+ ": " +:+ Error e +:+ ".")] ≫= λ _,
      match srcInst with
      | None => mret tt
      | Some src =>
          emit [Warning src EventCannotPropagate
                  ("Could not " +:+ action_string act +:+ " to destination namespace " +:+
                   quoted (om_Namespace (u_Meta inst)) +:+ ": " +:+ Error e +:+ ".")]
      end
  end.

Definition deleteObject (inst : Unstructured) : M OWorld (option apiErr) :=
  emit [DeleteObj inst] ≫= λ _,
  match ob_delete api with
  | Some (ErrNotFound _) => mret None
  | Some e => mret (Some e)
  | None => recordRemovedObject (om_Namespace (u_Meta inst)) (om_Name (u_Meta inst)) ≫= λ _, mret None
  end.

(** The copy of a source in a namespace. *)
Definition copy_of (src : Unstructured) (ns rv : string) : Unstructured :=
  set_u_Label LabelInheritedFrom (om_Namespace (u_Meta src))
    (set_u_ResourceVersion rv (set_u_Namespace ns (canonical src))).

Definition isRoleBinding (o : Unstructured) : bool :=
  bool_decide (Kind (u_GVK o) = "RoleBinding") && bool_decide (Group (u_GVK o) = "rbac.authorization.k8s.io").

Definition writeObject (inst srcInst : Unstructured) : M OWorld (option apiErr) :=
  let copy := copy_of srcInst (om_Namespace (u_Meta inst)) (om_ResourceVersion (u_Meta inst)) in
  (if u_exists inst then
     emit [UpdateObj copy] ≫= λ _,
     match ob_update api with
     | Some (ErrInvalid m) =>
         if isRoleBinding copy then
           emit [DeleteObj copy] ≫= λ _,
           match ob_delete api with
           | None => emit [CreateObj copy] ≫= λ _, mret (ob_create api)
           | Some e => mret (Some e)
           end
         else mret (Some (ErrInvalid m))
     | e => mret e
     end
   else emit [CreateObj copy] ≫= λ _, mret (ob_create api)) ≫= λ err,
  match err with
  | Some e => mret (Some e)
  | None => recordPropagatedObject (om_Namespace (u_Meta copy)) (om_Name (u_Meta copy)) ≫= λ _, mret None
  end.

Definition operate (act : syncAction) (inst : Unstructured) (srcInst : option Unstructured) : M OWorld (option apiErr) :=
  err ← match act with
        | actionNop => mret None
        | actionRemove => deleteObject inst
        | actionWrite => src ← nonnil srcInst; writeObject inst src
        | actionUnknown =>
            mret (Some (ErrOther ("HNC couldn't determine how to update this object (desired action: " +:+ action_string act +:+ ")")))
        end;
  generateEvents srcInst inst act err ≫= λ _,
  mret err.

Definition blankObject (nnm : NamespacedName) : Unstructured :=
  mkObj gvk (mkMeta (nn_name nnm) (nn_namespace nnm) None None [] None None "") None ∅.

Definition Reconcile (nnm : NamespacedName) : M OWorld (option apiErr) :=
  if negb (IsManagedNamespace cfg (nn_namespace nnm)) then mret None
  else if decide (mode = Ignore) then mret None
  else match ob_get api nnm with
  | ApiError err => mret (Some (ErrOther err))
  | r =>
      let inst := match r with Found o => o | _ => blankObject nnm end in
      '(act, srcInst, inst) ← syncWithForest inst;
      operate act inst srcInst
  end.
End reconciler.

(** ** Enqueuing *)
Section enqueue.
  Context `{RO : RangeOrder} (gvk : GroupVersionKind).

(** The objects of the type in a namespace, as the API server lists them. *)
Definition enqueueExistingObjects (listed : string + list Unstructured) : M OWorld (option string) :=
  match listed with
  | inl err => mret (Some err)
  | inr items => emit ((λ i, Enqueue (set_u_Namespace (om_Namespace (u_Meta i)) (canonical i))) <$> items) ≫= λ _, mret None
  end.

(** Up to six attempts. *)
Fixpoint retry (attempts : nat) (n : nat) (list_at : nat → string + list Unstructured) : M OWorld unit :=
  match attempts with
  | O => mret tt
  | S attempts' =>
      err ← enqueueExistingObjects (list_at n);
      match err with
      | None => mret tt
      | Some _ => retry attempts' (S n) list_at
      end
  end.

Definition OnChangeNamespace (ns : loc) (list_at : nat → string + list Unstructured) : M OWorld unit :=
  f ← getF;
  let srcnms := GetAncestorSourceNames f (Parent f (Some ns)) gvk "" in
  retry 6 0 list_at ≫= λ _,
  emit ((λ nnm, Enqueue (blankObject gvk nnm)) <$> srcnms).

Fixpoint enqueue_namespaces (list_in : string → string + list Unstructured) (keys : list string) : M OWorld (option string) :=
  match keys with
  | [] => mret None
  | ns :: keys' =>
      err ← enqueueExistingObjects (list_in ns);
      match err with
      | Some e => mret (Some e)
      | None => enqueue_namespaces list_in keys'
      end
  end.

Definition enqueueAllObjects (list_in : string → string + list Unstructured) : M OWorld (option string) :=
  f ← getF; enqueue_namespaces list_in (GetNamespaceNames f).

(** The method of the type syncer of [gvk]. *)
Definition SetMode (mode : SynchronizationMode) (list_in : string → string + list Unstructured) : M OWorld (option string) :=
  f ← getF;
  t ← nonnil (GetTypeSyncer gvk f);
  let newMode := GetValidateMode mode in
  if decide (newMode = ts_Mode t) then mret None
  else
    updF (upd_syncer gvk (set_ts_Mode newMode)) ≫= λ _,
    if decide (newMode ≠ Ignore) then enqueueAllObjects list_in else mret None.
End enqueue.
