(* ===== verification/Propagation.v ===== *)
(** * What propagation does (theory of file Objects)

    The copy of an object that a namespace should have is the topmost source of
    that name in its proper ancestors that propagates ([desired]).  The reconciler
    computes it, leaves up-to-date copies alone, writes copies that are not, and
    removes copies without a source; objects of the user are only ever replaced by
    a propagating source of an ancestor. *)

From Stdlib Require Import Ascii.
From S2P Require Import Prelude GoStrings Chains Validation Api Config Selectors Resources Forest ForestWf ForestWalks.
From S2P Require Import ForestReads Sound World Objects.

(** ** Canonical objects *)
Lemma inherited_from_hnc : hnc_key LabelInheritedFrom = true.
Proof. by vm_compute. Qed.

Lemma canonical_idemp o : canonical (canonical o) = canonical o.
Proof. unfold canonical. simpl. by rewrite !map_filter_filter_l by (by intros ? [] ). Qed.

(** A copy is equal to its source up to what is not compared. *)
Lemma canonical_copy_of src ns rv : canonical (copy_of src ns rv) = canonical src.
Proof.
  unfold copy_of, canonical, set_u_Label, SetLabel. simpl. do 3 f_equal; [|by rewrite map_filter_filter_l by (by intros ? [])].
  rewrite map_filter_insert_False by (by rewrite inherited_from_hnc).
  rewrite map_filter_delete_not by (intros y; rewrite inherited_from_hnc; by intros).
  by rewrite map_filter_filter_l by (by intros ? []).
Qed.

Definition up_to_date (inst src : Unstructured) : bool :=
  u_exists inst && bool_decide (canonical inst = canonical src) &&
  bool_decide (sget (items (om_Labels (u_Meta inst))) LabelInheritedFrom = om_Namespace (u_Meta src)).

(** An object that agrees with the copy written for [src], as the API server
    stores it, is up to date. *)
Lemma copy_up_to_date o src ns rv : u_exists o = true → canonical o = canonical (copy_of src ns rv) →
  GetLabel (u_Meta o) LabelInheritedFrom = GetLabel (u_Meta (copy_of src ns rv)) LabelInheritedFrom →
  up_to_date o src = true.
Proof.
  intros He Hc Hl. unfold up_to_date. rewrite canonical_copy_of in Hc. rewrite He, Hc, bool_decide_eq_true_2 by done.
  unfold GetLabel in Hl. unfold sget. rewrite Hl. unfold copy_of, set_u_Label, SetLabel. simpl.
  rewrite lookup_insert_eq. simpl. by rewrite bool_decide_eq_true_2.
Qed.

(** ** The sources in the forest *)

(** An object is stored under its own namespace and name. *)
Definition sources_ok (f : Forest) : Prop :=
  ∀ nm l g onm o, f_namespaces f !! nm = Some l → GetSourceObject (deref f l) g onm = Some o →
    om_Namespace (u_Meta o) = nm ∧ om_Name (u_Meta o) = onm.

Section sources.
  Context `{RO : RangeOrder}.

Lemma filter_singleton {A} (P : A → Prop) `{∀ x, Decision (P x)} (l : list A) a :
  NoDup l → a ∈ l → (∀ x, x ∈ l → P x ↔ x = a) → filter P l = [a].
Proof.
  intros Hnd Ha Hp. apply Permutation_singleton_r, NoDup_Permutation; [by apply NoDup_filter|by apply NoDup_singleton|].
  intros x. rewrite list_elem_of_filter, list_elem_of_singleton. naive_solver.
Qed.

(** The entries of a namespace with a given name: at most one. *)
Lemma GetSourceNames_named f nm l g onm : sources_ok f → f_namespaces f !! nm = Some l →
  filter (λ o, nn_name o = onm) (GetSourceNames (deref f l) g) =
  if HasSourceObject (deref f l) g onm then [mkNN nm onm] else [].
Proof.
  intros Hok Hl. specialize (Hok nm l g). unfold GetSourceNames, HasSourceObject, GetSourceObject in *.
  specialize (λ onm o, Hok onm o Hl). set (m := default ∅ (ns_sourceObjects (deref f l) !! g)) in *.
  assert (∀ x, x ∈ ((λ '(_, obj), mkNN (om_Namespace (u_Meta obj)) (om_Name (u_Meta obj))) <$> range m) ↔
    nn_namespace x = nm ∧ is_Some (m !! nn_name x)) as Hin.
  { intros x. rewrite list_elem_of_fmap. split.
    - intros ([k o] & -> & Hk%elem_of_range). destruct (Hok _ _ Hk) as [<- <-]. simpl. eauto.
    - intros [Hn [o Ho]]. exists (nn_name x, o). destruct (Hok _ _ Ho) as [Ho1 Ho2].
      split; [destruct x; simpl in *; congruence|]. by apply elem_of_range. }
  destruct (bool_decide_reflect (is_Some (m !! onm))) as [Hs|Hs].
  - apply filter_singleton; [|by apply Hin|].
    + apply NoDup_fmap_2_strong; [|rewrite range_perm; apply NoDup_map_to_list].
      intros [k o] [k' o'] Hk%elem_of_range Hk'%elem_of_range Heq.
      destruct (Hok _ _ Hk) as [? Hn], (Hok _ _ Hk') as [? Hn']. simplify_eq. congruence.
    + intros x Hx%Hin. destruct x; simpl in *. naive_solver.
  - apply elem_of_nil_inv. intros x. rewrite list_elem_of_filter, Hin. naive_solver.
Qed.
End sources.

(** ** The copy a namespace should have *)
Section desired.
  Context `{RO : RangeOrder} `{RX : RegexpLib} `{SL : SelectorLib} (cfg : Config)
    (gvk : GroupVersionKind) (mode : SynchronizationMode).

(** The ancestors of a namespace without itself, from the top down. *)
Definition proper_ancestors (f : Forest) (dst : string) : list string := AncestryNames f (Parent f (f_namespaces f !! dst)).

Definition isToken (src : Unstructured) : bool :=
  bool_decide (Group gvk = "" ∧ Kind gvk = "Secret" ∧ u_Content src !! "type" = Some (JString "kubernetes.io/service-account-token")).

Definition propagates (f : Forest) (dst : string) (src : Unstructured) : bool :=
  match ShouldPropagate cfg src (items (ns_labels (ns_at f dst))) mode with
  | Done (inr true) => negb (bool_decide (mode = Remove)) && negb (hasFinalizers src) && negb (isToken src)
  | _ => false
  end.

Definition candidates (f : Forest) (dst onm : string) : list Unstructured :=
  omap (λ anc, GetSourceObject (ns_at f anc) gvk onm) (proper_ancestors f dst).

Definition desired (f : Forest) (dst onm : string) : option Unstructured :=
  head (filter (λ src, propagates f dst src = true) (candidates f dst onm)).

(** No candidate has a tree selector that makes the parser panic. *)
Definition selectors_parse (f : Forest) (dst onm : string) : Prop :=
  ∀ src, src ∈ candidates f dst onm → ShouldPropagate cfg src (items (ns_labels (ns_at f dst))) mode ≠ Panics.

Definition is_write (e : ObjEvent) : Prop := match e with CreateObj _ | UpdateObj _ | DeleteObj _ => True | _ => False end.
#[export] Instance is_write_dec e : Decision (is_write e).
Proof. destruct e; simpl; apply _. Defined.
Definition writes (evs : list ObjEvent) : list ObjEvent := filter is_write evs.

Lemma writes_app e1 e2 : writes (e1 ++ e2) = writes e1 ++ writes e2.
Proof. apply filter_app. Qed.

(** Code that writes nothing to the API server and leaves the forest alone. *)
Definition quiet {A} (m : M OWorld A) (f : Forest) (a : A) : Prop := ∃ evs, runs m f a f evs ∧ writes evs = [].

Lemma quiet_runs {A} (m : M OWorld A) f a : runs m f a f [] → quiet m f a.
Proof. by exists []. Qed.

Lemma quiet_bind {A B} (m : M OWorld A) (k : A → M OWorld B) f a b : quiet m f a → quiet (k a) f b → quiet (m ≫= k) f b.
Proof.
  intros (e1 & Hm & H1) (e2 & Hk & H2). exists (e1 ++ e2). split; [by eapply runs_bind|]. by rewrite writes_app, H1, H2.
Qed.

Lemma fget_runs f nm l : wf f → f_namespaces f !! nm = Some l → runs (fget nm) f l f [].
Proof.
  intros Hwf Hl. eapply runs_step; [apply runs_onF; by eapply Get_present|]. by apply runs_nonnil.
Qed.

Lemma shouldPropagateSource_quiet f dst l src : wf f → f_namespaces f !! dst = Some l →
  ShouldPropagate cfg src (items (ns_labels (ns_at f dst))) mode ≠ Panics →
  quiet (shouldPropagateSource cfg gvk mode src dst) f (propagates f dst src).
Proof.
  intros Hwf Hl Hp. unfold shouldPropagateSource, propagates.
  eapply quiet_bind; [apply quiet_runs; by apply fget_runs|]. eapply quiet_bind; [apply quiet_runs, runs_getF|].
  rewrite (ns_at_live _ _ _ Hl) in *. unfold GetLabels.
  pose proof (ShouldPropagate_finite cfg src (items (ns_labels (deref f l))) mode) as Hfin. unfold finite in Hfin.
  destruct (ShouldPropagate cfg src _ mode) as [[err|b]| |]; [| |done..];
    (eapply quiet_bind; [apply quiet_runs; by apply runs_lift|]); cbn beta iota.
  - eexists. split; [eapply runs_bind; [apply runs_emit|apply runs_ret]|done].
  - destruct b; [|apply quiet_runs, runs_ret]. destruct (decide (mode = Remove)) as [->|Hm]; [apply quiet_runs, runs_ret|].
    rewrite (bool_decide_eq_false_2 (mode = Remove)) by done. destruct (hasFinalizers src); [apply quiet_runs, runs_ret|]. unfold isToken. simpl.
    destruct (decide (Group gvk = "" ∧ Kind gvk = "Secret")) as [[Hg Hk]|Hne].
    + apply quiet_runs. intros tr. rewrite app_nil_r. unfold mret, M_ret. do 4 f_equal. apply bool_decide_ext. naive_solver.
    + rewrite bool_decide_eq_false_2 by naive_solver. apply quiet_runs, runs_ret.
Qed.

Lemma top_source_quiet f dst l onm ancs : wf f → f_namespaces f !! dst = Some l →
  (∀ anc, anc ∈ ancs → ∃ la, f_namespaces f !! anc = Some la ∧ is_Some (GetSourceObject (deref f la) gvk onm)) →
  (∀ src, src ∈ omap (λ anc, GetSourceObject (ns_at f anc) gvk onm) ancs →
     ShouldPropagate cfg src (items (ns_labels (ns_at f dst))) mode ≠ Panics) →
  quiet (top_source cfg gvk mode ((λ anc, mkNN anc onm) <$> ancs) dst) f
    (head (filter (λ src, propagates f dst src = true) (omap (λ anc, GetSourceObject (ns_at f anc) gvk onm) ancs))).
Proof.
  intros Hwf Hl. induction ancs as [|anc ancs IH]; intros Hlive Hp; [apply quiet_runs, runs_ret|].
  destruct (Hlive anc) as (la & Hla & [src Hsrc]); [by left|]. cbn [fmap list_fmap top_source omap list_omap] in *.
  rewrite (ns_at_live _ _ _ Hla), Hsrc in *.
  eapply quiet_bind; [apply quiet_runs; by apply fget_runs|]. eapply quiet_bind; [apply quiet_runs, runs_getF|].
  eapply quiet_bind; [apply quiet_runs; by apply runs_nonnil|].
  eapply quiet_bind; [eapply shouldPropagateSource_quiet; [done..|apply Hp; by left]|].
  rewrite filter_cons. destruct (propagates f dst src) eqn:Hpr; [apply quiet_runs; cbn; apply runs_ret|].
  cbn. apply IH; [intros; apply Hlive; by right|]. intros s Hs. apply Hp. by right.
Qed.

(** [getTopSourceToPropagate] computes the desired source. *)
Lemma GetAncestorSourceNames_named f pnm p onm : wf f → sources_ok f → f_namespaces f !! pnm = Some p → onm ≠ "" →
  GetAncestorSourceNames f (Some p) gvk onm =
  (λ anc, mkNN anc onm) <$> filter (λ anc, HasSourceObject (ns_at f anc) gvk onm = true) (AncestryNames f (Some p)).
Proof.
  intros Hwf Hok Hp Hne. unfold GetAncestorSourceNames.
  assert (∀ anc, anc ∈ AncestryNames f (Some p) → is_Some (f_namespaces f !! anc)) as Hlive.
  { intros anc. by apply (AncestryNames_live f Hwf pnm p). }
  match goal with |- _ = ?r => rewrite <- (app_nil_l r) end.
  generalize (@nil NamespacedName). induction (AncestryNames f (Some p)) as [|anc ancs IH]; intros acc; simpl; [by rewrite app_nil_r|].
  destruct (Hlive anc) as [la Hla]; [by left|]. rewrite decide_False by done. rewrite IH by (intros; apply Hlive; by right).
  rewrite (ns_at_live _ _ _ Hla), (GetSourceNames_named f anc la gvk onm Hok Hla), filter_cons, (ns_at_live _ _ _ Hla).
  destruct (HasSourceObject (deref f la) gvk onm); simpl; [by rewrite <- app_assoc|by rewrite app_nil_r].
Qed.

Lemma omap_has f onm (ancs : list string) : omap (λ anc, GetSourceObject (ns_at f anc) gvk onm) ancs =
  omap (λ anc, GetSourceObject (ns_at f anc) gvk onm) (filter (λ anc, HasSourceObject (ns_at f anc) gvk onm = true) ancs).
Proof.
  induction ancs as [|anc ancs IH]; [done|]. rewrite filter_cons. simpl.
  destruct (decide (HasSourceObject (ns_at f anc) gvk onm = true)) as [Hh|Hh]; unfold HasSourceObject in Hh.
  - apply bool_decide_eq_true in Hh as [o Ho]. simpl. rewrite Ho. f_equal. apply IH.
  - rewrite bool_decide_eq_true, <- eq_None_not_Some in Hh. rewrite Hh. apply IH.
Qed.

Lemma getTopSourceToPropagate_quiet f inst l : wf f → sources_ok f →
  f_namespaces f !! om_Namespace (u_Meta inst) = Some l → om_Name (u_Meta inst) ≠ "" →
  selectors_parse f (om_Namespace (u_Meta inst)) (om_Name (u_Meta inst)) →
  quiet (getTopSourceToPropagate cfg gvk mode inst) f (desired f (om_Namespace (u_Meta inst)) (om_Name (u_Meta inst))).
Proof.
  intros Hwf Hok Hl Hne Hp. unfold getTopSourceToPropagate.
  eapply quiet_bind; [apply quiet_runs, runs_onF; by eapply Get_present|]. eapply quiet_bind; [apply quiet_runs, runs_getF|].
  unfold desired, selectors_parse, candidates, proper_ancestors in *. rewrite Hl in *.
  set (dst := om_Namespace (u_Meta inst)) in *. set (onm := om_Name (u_Meta inst)) in *.
  destruct (Parent f (Some l)) as [p|] eqn:Hpar; [|apply quiet_runs, runs_ret]. simpl in Hpar.
  destruct (wf_parent _ Hwf _ _ _ Hl Hpar) as (pnm & Hpl & _).
  rewrite (GetAncestorSourceNames_named f pnm p onm) by done. rewrite omap_has in Hp |- *.
  apply (top_source_quiet f dst l); [done..| |exact Hp]. intros anc [Hh Hin]%list_elem_of_filter.
  destruct (AncestryNames_live f Hwf pnm p anc Hpl Hin) as [la Hla]. exists la. split; [done|].
  rewrite (ns_at_live _ _ _ Hla) in Hh. by apply bool_decide_eq_true in Hh.
Qed.
End desired.

(** ** Syncing with the forest *)
Lemma heap_sim_types {B} (π : Namespace → B) ts f : heap_sim π f (set_types ts f).
Proof. done. Qed.

Lemma deref_upd_labels l g f : (∀ n, ns_labels (g n) = ns_labels n) → ns_labels (deref (upd l g f) l) = ns_labels (deref f l).
Proof.
  intros Hg. destruct (f_heap f !! l) as [n|] eqn:Hn.
  - by rewrite deref_upd_eq by eauto.
  - unfold upd, deref. simpl. by rewrite lookup_alter_eq, Hn.
Qed.

Section sources_upd.
  Context (f : Forest) (Hwf : wf f) (nm : string) (l : loc) (Hl : f_namespaces f !! nm = Some l).

Lemma live_heap : is_Some (f_heap f !! l).
Proof using Hwf Hl nm. by eapply wf_name. Qed.

Lemma GetSourceObject_Set o g onm : GetSourceObject (deref (SetSourceObject l o f) l) g onm =
  if decide (g = u_GVK o ∧ onm = om_Name (u_Meta o)) then Some o else GetSourceObject (deref f l) g onm.
Proof using Hwf Hl nm.
  unfold SetSourceObject, GetSourceObject. rewrite deref_upd_eq by apply live_heap. simpl.
  destruct (decide (g = u_GVK o)) as [->|Hg].
  - rewrite lookup_insert_eq. simpl. destruct (decide (onm = om_Name (u_Meta o))) as [->|Hn].
    + rewrite lookup_insert_eq. by rewrite decide_True.
    + rewrite lookup_insert_ne by done. rewrite decide_False; [done|naive_solver].
  - rewrite lookup_insert_ne by done. rewrite decide_False; [done|naive_solver].
Qed.

Lemma GetSourceObject_Delete g' onm' g onm : GetSourceObject (deref (DeleteSourceObject l g' onm' f) l) g onm =
  if decide (g = g' ∧ onm = onm') then None else GetSourceObject (deref f l) g onm.
Proof using Hwf Hl nm.
  unfold DeleteSourceObject, GetSourceObject. rewrite deref_upd_eq by apply live_heap. simpl.
  set (objs := delete onm' _).
  assert (default ∅ ((if decide (size objs = 0) then delete g' (ns_sourceObjects (deref f l))
     else <[g':=objs]> (ns_sourceObjects (deref f l))) !! g) =
     if decide (g = g') then objs else default ∅ (ns_sourceObjects (deref f l) !! g)) as ->.
  { destruct (decide (size objs = 0)) as [Hz|Hz], (decide (g = g')) as [->|Hg].
    - rewrite lookup_delete_eq. simpl. symmetry. by apply map_size_empty_inv.
    - by rewrite lookup_delete_ne.
    - by rewrite lookup_insert_eq.
    - by rewrite lookup_insert_ne. }
  destruct (decide (g = g')) as [->|Hg]; [|rewrite decide_False; [done|naive_solver]].
  unfold objs. destruct (decide (onm = onm')) as [->|Hn].
  - by rewrite lookup_delete_eq, decide_True.
  - rewrite lookup_delete_ne by done. rewrite decide_False; [done|naive_solver].
Qed.

Lemma sources_ok_Set o : sources_ok f → om_Namespace (u_Meta o) = nm → sources_ok (SetSourceObject l o f).
Proof using Hwf Hl.
  intros Hok Hn x lx g onm o' Hx. destruct (decide (lx = l)) as [->|Hne].
  - assert (x = nm) as -> by (by eapply (live_inj f Hwf x nm l)).
    rewrite GetSourceObject_Set. destruct (decide _) as [[-> ->]|_]; [by intros [= <-]|by apply Hok].
  - unfold SetSourceObject. rewrite deref_upd_ne by done. by apply Hok.
Qed.

Lemma sources_ok_Delete g onm : sources_ok f → sources_ok (DeleteSourceObject l g onm f).
Proof using Hwf Hl nm.
  intros Hok x lx g' onm' o' Hx. destruct (decide (lx = l)) as [->|Hne].
  - rewrite GetSourceObject_Delete. destruct (decide _); [done|by apply Hok].
  - unfold DeleteSourceObject. rewrite deref_upd_ne by done. by apply Hok.
Qed.
End sources_upd.

Section sync.
  Context `{RO : RangeOrder} `{RX : RegexpLib} `{SL : SelectorLib} (cfg : Config)
    (gvk : GroupVersionKind) (mode : SynchronizationMode) (api : objectApi).

(** What the reconciler decides about an object, given the desired source. *)
Definition is_copy (inst : Unstructured) (d : option Unstructured) (can : bool) : bool :=
  hasPropagatedLabel inst || can && bool_decide (is_Some d).

Definition verdict (inst : Unstructured) (d : option Unstructured) (can : bool) : syncAction * option Unstructured * Unstructured :=
  if is_copy inst d can then
    match d with
    | None => (actionRemove, None, inst)
    | Some src =>
        if up_to_date inst src then (actionNop, None, inst)
        else (actionWrite, Some src, set_u_Label LabelInheritedFrom (om_Namespace (u_Meta src)) inst)
    end
  else (actionNop, None, inst).

Abbreviation dst inst := (om_Namespace (u_Meta inst)) (only parsing).
Abbreviation onm inst := (om_Name (u_Meta inst)) (only parsing).

(** The types with their modes, without the statistics. *)
Definition modes (f : Forest) : list (GroupVersionKind * SynchronizationMode) := (λ t, (ts_GVK t, ts_Mode t)) <$> f_types f.

Lemma modes_upd_syncer g o f : modes (upd_syncer g (set_ts_objects o) f) = modes f.
Proof.
  unfold modes, upd_syncer. simpl. rewrite <- list_fmap_compose. apply list_fmap_ext. intros i t _. simpl. by destruct (decide _).
Qed.

(** A forest after a step on the object [inst]: only the sources of the type in
    its namespace and the statistics have changed. *)
Record synced_to (f f' : Forest) (l : loc) (inst : Unstructured) (s : option Unstructured) : Prop := {
  st_vitals : heap_sim vitals f f';
  st_sources : sources_ok f';
  st_others x : x ≠ l → deref f' x = deref f x;
  st_labels : ns_labels (deref f' l) = ns_labels (deref f l);
  st_modes : modes f' = modes f;
  st_source : GetSourceObject (deref f' l) gvk (onm inst) = s
}.

Lemma enqueueDescendants_quiet f inst l : sound f → f_namespaces f !! dst inst = Some l → quiet (enqueueDescendants inst) f tt.
Proof.
  intros [Hwf Hc] Hl. unfold enqueueDescendants.
  eapply quiet_bind; [apply quiet_runs; by apply fget_runs|]. eapply quiet_bind; [apply quiet_runs, runs_getF|].
  destruct (GetHaltedRoot_spec f Hwf _ l Hc Hl) as (r & Hr & _).
  eapply quiet_bind; [apply quiet_runs; by apply runs_lift|]. destruct (decide (r ≠ "")); [apply quiet_runs, runs_ret|].
  eexists. split; [apply runs_emit|]. unfold writes. apply elem_of_nil_inv. intros e.
  rewrite list_elem_of_filter, list_elem_of_fmap. by intros [Hw (? & -> & _)].
Qed.

Lemma syncSource_runs f inst l : sound f → sources_ok f → f_namespaces f !! dst inst = Some l → u_GVK inst = gvk →
  ∃ f' evs, runs (syncSource cfg inst) f tt f' evs ∧ writes evs = [] ∧ synced_to f f' l inst (Some (cleanSource cfg inst)).
Proof.
  intros Hf Hok Hl Hg. pose proof Hf as [Hwf _]. set (f' := SetSourceObject l (cleanSource cfg inst) f).
  assert (heap_sim vitals f f') as Hs by (by apply heap_sim_upd).
  assert (f_namespaces f' !! dst inst = Some l) as Hl' by done.
  destruct (enqueueDescendants_quiet f' inst l (sound_vitals _ _ Hs Hf) Hl') as (evs & Hr & Hw).
  exists f', evs. split_and!; [|done|].
  - unfold syncSource. eapply runs_step; [by apply fget_runs|]. eapply runs_step; [apply runs_updF|]. exact Hr.
  - split; [done|by eapply sources_ok_Set|..].
    + intros x Hx. by apply deref_upd_ne.
    + by apply deref_upd_labels.
    + done.
    + unfold f'. rewrite (GetSourceObject_Set f Hwf _ l Hl), decide_True; [done|]. by rewrite <- Hg.
Qed.

Lemma syncPropagated_runs f inst l d : sound f → sources_ok f → f_namespaces f !! dst inst = Some l →
  hasPropagatedLabel inst = true ∨ is_Some d →
  ∃ f', runs (syncPropagated gvk inst d) f (verdict inst d true) f' [] ∧ synced_to f f' l inst None.
Proof.
  intros [Hwf _] Hok Hl Hcase. set (f1 := DeleteSourceObject l gvk (onm inst) f).
  assert (heap_sim vitals f f1) as Hs by (by apply heap_sim_upd).
  assert (synced_to f f1 l inst None) as Hst.
  { split; [done|by eapply sources_ok_Delete|..].
    - intros x Hx. by apply deref_upd_ne.
    - by apply deref_upd_labels.
    - done.
    - unfold f1. by rewrite (GetSourceObject_Delete f Hwf _ l Hl), decide_True. }
  assert (∀ o, synced_to f (upd_syncer gvk (set_ts_objects o) f1) l inst None) as Hst'.
  { intros o. destruct Hst as [? ? ? ? Hm ?]. split; try done. by rewrite modes_upd_syncer. }
  assert (is_copy inst d true = true) as Hc.
  { unfold is_copy. destruct Hcase as [->|Hd]; [done|]. by rewrite bool_decide_eq_true_2, orb_true_r. }
  unfold syncPropagated, verdict. rewrite Hc. destruct d as [src|].
  - unfold up_to_date. destruct (u_exists inst), (bool_decide (canonical inst = canonical src)), (bool_decide (sget _ _ = _));
      (eexists; split; [eapply runs_step; [by apply fget_runs|]; eapply runs_step; [apply runs_updF|]; simpl;
         first [by apply runs_ret | eapply runs_step; [apply runs_updF|apply runs_ret]] |]); [apply Hst'|done..].
  - exists f1. split; [|done]. eapply runs_step; [by apply fget_runs|]. eapply runs_step; [apply runs_updF|]. apply runs_ret.
Qed.

(** The conditions under which a reconciliation of [inst] gets to work. *)
Record ready (f : Forest) (inst : Unstructured) (l : loc) (t : TypeSyncer) : Prop := {
  rd_sound : sound f;
  rd_sources : sources_ok f;
  rd_live : f_namespaces f !! dst inst = Some l;
  rd_exists : ns_exists (deref f l) = true;
  rd_name : onm inst ≠ "";
  rd_gvk : u_GVK inst = gvk;
  rd_syncer : GetTypeSyncer gvk f = Some t;
  rd_parse : selectors_parse cfg gvk mode f (dst inst) (onm inst);
  rd_alive : IsZero (om_DeletionTimestamp (u_Meta inst)) = true
}.

Abbreviation want f inst := (desired cfg gvk mode f (dst inst) (onm inst)) (only parsing).

(** The forest keeps the object as a source exactly if it is not a copy. *)
Definition kept (inst : Unstructured) (d : option Unstructured) (can : bool) : option Unstructured :=
  if is_copy inst d can then None else Some (cleanSource cfg inst).

Lemma syncObject_runs f inst l t : ready f inst l t →
  ∃ f' evs, runs (syncObject cfg gvk mode inst) f (verdict inst (want f inst) (CanPropagate t)) f' evs ∧ writes evs = [] ∧
    synced_to f f' l inst (kept inst (want f inst) (CanPropagate t)).
Proof.
  intros [Hf Hok Hl Hex Hne Hg Ht Hp _]. pose proof Hf as [Hwf _]. set (d := want f inst).
  assert (dst inst ≠ "") as Hd by (by eapply wf_name). unfold syncObject, shouldSyncAsPropagated, kept, verdict. rewrite decide_False by done.
  destruct (getTopSourceToPropagate_quiet cfg gvk mode f inst l Hwf Hok Hl Hne Hp) as (e1 & H1 & Hw1). fold d in H1.
  assert (∃ e, runs (shouldSyncAsPropagated cfg gvk mode inst) f (is_copy inst d (CanPropagate t), if is_copy inst d (CanPropagate t) then d else None) f e ∧ writes e = [])
    as (e & He & Hwe).
  { exists (e1 ++ []). split; [|by rewrite app_nil_r]. eapply runs_bind; [exact H1|]. unfold is_copy.
    destruct (hasPropagatedLabel inst); [apply runs_ret|]. eapply runs_step; [apply runs_getF|].
    eapply runs_step; [by apply runs_nonnil|]. simpl. destruct (CanPropagate t && bool_decide (is_Some d)); apply runs_ret. }
  destruct (is_copy inst d (CanPropagate t)) eqn:Hc.
  - destruct (syncPropagated_runs f inst l d Hf Hok Hl) as (f' & Hr & Hst).
    { unfold is_copy in Hc. apply orb_true_iff in Hc as [?|[_ ?%bool_decide_eq_true]%andb_true_iff]; auto. }
    exists f', (e ++ []). split_and!; [|by rewrite app_nil_r|done]. eapply runs_bind; [exact He|]. simpl.
    unfold verdict in Hr. assert (is_copy inst d true = true) as Hc' by (unfold is_copy in *; destruct (hasPropagatedLabel inst), (CanPropagate t); done).
    rewrite Hc' in Hr. exact Hr.
  - destruct (syncSource_runs f inst l Hf Hok Hl Hg) as (f' & e2 & Hr & Hw2 & Hst). exists f', (e ++ e2 ++ []).
    split_and!; [|by rewrite app_nil_r, writes_app, Hwe, Hw2|done]. eapply runs_bind; [exact He|]. simpl.
    eapply runs_bind; [exact Hr|]. apply runs_ret.
Qed.

(** A halted namespace keeps its objects as they are. *)
Definition act_unless (halted : string) (v : syncAction * option Unstructured * Unstructured) : syncAction * option Unstructured * Unstructured :=
  if decide (halted = "") then v else (actionNop, None, v.2).

Lemma verdict_ns inst d can : om_Namespace (u_Meta (verdict inst d can).2) = dst inst.
Proof. unfold verdict. destruct (is_copy inst d can), d as [src|]; try done. by destruct (up_to_date inst src). Qed.

Lemma syncObject_halted f inst l t root : ready f inst l t → GetHaltedRoot f (Some l) = Done root →
  ∃ f' evs, runs ('(action, srcInst, inst) ← syncObject cfg gvk mode inst;
      ns ← onF (Get (om_Namespace (u_Meta inst))); f ← getF; halted ← lift_outcome (GetHaltedRoot f ns);
      if decide (halted ≠ "") then mret (actionNop, None, inst) else mret (action, srcInst, inst))
    f (act_unless root (verdict inst (want f inst) (CanPropagate t))) f' evs ∧ writes evs = [] ∧
    synced_to f f' l inst (kept inst (want f inst) (CanPropagate t)).
Proof.
  intros Hrd Hroot. destruct (syncObject_runs f inst l t Hrd) as (f' & e & He & Hw & Hst).
  exists f', (e ++ []). split_and!; [|by rewrite app_nil_r|done]. eapply runs_bind; [exact He|].
  pose proof (verdict_ns inst (want f inst) (CanPropagate t)) as Hns.
  destruct (verdict inst (want f inst) (CanPropagate t)) as [[act src] inst']. simpl in Hns. rewrite Hns.
  pose proof (st_vitals _ _ _ _ _ Hst) as Hs. pose proof (sound_vitals _ _ Hs (rd_sound _ _ _ _ Hrd)) as [Hwf' _].
  assert (f_namespaces f' !! dst inst = Some l) as Hl' by (destruct Hs as (<- & _); apply Hrd).
  eapply runs_step; [apply runs_onF; by eapply Get_present|]. eapply runs_step; [apply runs_getF|].
  eapply runs_step; [apply runs_lift; by rewrite (GetHaltedRoot_vitals f f' _ l Hs (rd_sound _ _ _ _ Hrd) (rd_live _ _ _ _ Hrd))|].
  unfold act_unless. simpl. destruct (decide (root ≠ "")) as [Hr|Hr], (decide (root = "")); try done; try (by destruct Hr); apply runs_ret.
Qed.

(** Syncing an object that exists. *)
Lemma syncWithForest_existing f inst l t root : ready f inst l t → u_exists inst = true → GetHaltedRoot f (Some l) = Done root →
  ∃ f' evs, runs (syncWithForest cfg gvk mode inst) f (act_unless root (verdict inst (want f inst) (CanPropagate t))) f' evs ∧
    writes evs = [] ∧ synced_to f f' l inst (kept inst (want f inst) (CanPropagate t)).
Proof.
  intros Hrd He Hroot. destruct (syncObject_halted f inst l t root Hrd Hroot) as (f' & e & Hr & Hw & Hst).
  exists f', e. split_and!; [|done..]. pose proof (rd_sound _ _ _ _ Hrd) as [Hwf _]. unfold syncWithForest.
  eapply (runs_step _ _ f false f).
  { unfold skipNamespace. rewrite (rd_alive _ _ _ _ Hrd). simpl. eapply runs_step; [apply fget_runs; [done|apply Hrd]|].
    eapply runs_step; [apply runs_getF|]. unfold Exists. rewrite (rd_exists _ _ _ _ Hrd). apply runs_ret. }
  eapply (runs_step _ _ f (actionUnknown, inst) f); [unfold syncMissingObject; rewrite He; apply runs_ret|]. exact Hr.
Qed.

(** Syncing an object that does not exist: a source that is gone is forgotten; in
    any other case the object is handled as a copy that is still to be written. *)
Definition as_copy (inst : Unstructured) : Unstructured := set_u_Label LabelInheritedFrom unknownSourceNamespace inst.

Lemma as_copy_label inst : hasPropagatedLabel (as_copy inst) = true.
Proof. unfold hasPropagatedLabel, as_copy, set_u_Label. simpl. by rewrite GetLabel_SetLabel. Qed.

Lemma as_copy_is_copy inst d can : is_copy (as_copy inst) d can = true.
Proof. unfold is_copy. by rewrite as_copy_label. Qed.

Lemma syncWithForest_missing f inst l t root : ready f inst l t → u_exists inst = false → GetHaltedRoot f (Some l) = Done root →
  ∃ f' evs, writes evs = [] ∧
    if HasSourceObject (deref f l) gvk (onm inst)
    then runs (syncWithForest cfg gvk mode inst) f (actionNop, None, inst) f' evs ∧ synced_to f f' l inst None
    else runs (syncWithForest cfg gvk mode inst) f (act_unless root (verdict (as_copy inst) (want f inst) (CanPropagate t))) f' evs ∧
         synced_to f f' l inst None.
Proof.
  intros Hrd He Hroot. pose proof (rd_sound _ _ _ _ Hrd) as [Hwf Hcy]. pose proof (rd_live _ _ _ _ Hrd) as Hl.
  assert (runs (skipNamespace inst) f false f []) as Hskip.
  { unfold skipNamespace. rewrite (rd_alive _ _ _ _ Hrd). simpl. eapply runs_step; [by apply fget_runs|].
    eapply runs_step; [apply runs_getF|]. unfold Exists. rewrite (rd_exists _ _ _ _ Hrd). apply runs_ret. }
  destruct (HasSourceObject (deref f l) gvk (onm inst)) eqn:Hh.
  - set (f1 := DeleteSourceObject l gvk (onm inst) f).
    assert (heap_sim vitals f f1) as Hs by (by apply heap_sim_upd).
    destruct (enqueueDescendants_quiet f1 inst l (sound_vitals _ _ Hs (rd_sound _ _ _ _ Hrd)) Hl) as (e & Hr & Hw).
    exists f1, ((e ++ []) ++ []). split; [by rewrite !app_nil_r|]. split.
    + unfold syncWithForest. eapply runs_step; [exact Hskip|]. eapply (runs_bind _ _ f (actionNop, inst) f1 (e ++ [])).
      * unfold syncMissingObject. rewrite He. eapply runs_step; [by apply fget_runs|]. eapply runs_step; [apply runs_getF|].
        rewrite Hh. eapply runs_step; [apply runs_updF|]. eapply runs_bind; [exact Hr|]. apply runs_ret.
      * apply runs_ret.
    + split; [done|by eapply sources_ok_Delete; [..|apply Hrd]|..].
      * intros x Hx. by apply deref_upd_ne.
      * by apply deref_upd_labels.
      * done.
      * unfold f1. by rewrite (GetSourceObject_Delete f Hwf _ l Hl), decide_True.
  - assert (ready f (as_copy inst) l t) as Hrd' by (destruct Hrd; by split).
    destruct (syncObject_halted f (as_copy inst) l t root Hrd' Hroot) as (f' & e & Hr & Hw & Hst).
    exists f', e. split; [done|]. split.
    + unfold syncWithForest. eapply runs_step; [exact Hskip|]. eapply (runs_step _ _ f (actionUnknown, as_copy inst) f).
      * unfold syncMissingObject. rewrite He. eapply runs_step; [by apply fget_runs|]. eapply runs_step; [apply runs_getF|].
        rewrite Hh. apply runs_ret.
      * exact Hr.
    + destruct Hst as [? ? ? ? ? Hsrc]. split; [done..|]. change (onm (as_copy inst)) with (onm inst) in Hsrc.
      rewrite Hsrc. unfold kept. by rewrite as_copy_is_copy.
Qed.

(** What is decided about an object, whether the API server has it or not, and
    what the forest keeps of it. *)
Definition decision (f : Forest) (inst : Unstructured) (l : loc) (t : TypeSyncer) : syncAction * option Unstructured * Unstructured :=
  if u_exists inst then verdict inst (want f inst) (CanPropagate t)
  else if HasSourceObject (deref f l) gvk (onm inst) then (actionNop, None, inst)
  else verdict (as_copy inst) (want f inst) (CanPropagate t).

Definition remains (f : Forest) (inst : Unstructured) (t : TypeSyncer) : option Unstructured :=
  if u_exists inst then kept inst (want f inst) (CanPropagate t) else None.

Lemma syncWithForest_runs f inst l t root : ready f inst l t → GetHaltedRoot f (Some l) = Done root →
  ∃ f' evs, runs (syncWithForest cfg gvk mode inst) f (act_unless root (decision f inst l t)) f' evs ∧ writes evs = [] ∧
    synced_to f f' l inst (remains f inst t).
Proof.
  intros Hrd Hroot. unfold decision, remains. destruct (u_exists inst) eqn:He; [by apply syncWithForest_existing|].
  destruct (syncWithForest_missing f inst l t root Hrd He Hroot) as (f' & evs & Hw & Hcase). exists f', evs.
  destruct (HasSourceObject _ _ _); destruct Hcase as [Hr Hst]; split_and!; try done.
  unfold act_unless. by destruct (decide _).
Qed.

(** ** Carrying out the action *)
Definition writes_of (v : syncAction * option Unstructured * Unstructured) : list ObjEvent :=
  match v with
  | (actionRemove, _, inst) => [DeleteObj inst]
  | (actionWrite, Some src, inst) =>
      let copy := copy_of src (dst inst) (om_ResourceVersion (u_Meta inst)) in
      [if u_exists inst then UpdateObj copy else CreateObj copy]
  | _ => []
  end.

(** The API server refuses to change a role binding (its role cannot be changed in
    place), so that the copy has to be deleted and created. *)
Definition refused (copy : Unstructured) : bool :=
  match ob_update api with Some (ErrInvalid _) => isRoleBinding copy | _ => false end.

(** All writes of an action, given the answers of the API server, and the error
    that is returned. *)
Definition performed (v : syncAction * option Unstructured * Unstructured) : list ObjEvent :=
  writes_of v ++
  match v with
  | (actionWrite, Some src, inst) =>
      let copy := copy_of src (dst inst) (om_ResourceVersion (u_Meta inst)) in
      if u_exists inst && refused copy
      then DeleteObj copy :: (if decide (ob_delete api = None) then [CreateObj copy] else [])
      else []
  | _ => []
  end.

Definition answered (v : syncAction * option Unstructured * Unstructured) : option apiErr :=
  match v with
  | (actionRemove, _, _) => match ob_delete api with Some (ErrNotFound _) => None | e => e end
  | (actionWrite, Some src, inst) =>
      let copy := copy_of src (dst inst) (om_ResourceVersion (u_Meta inst)) in
      if negb (u_exists inst) then ob_create api
      else if refused copy then (if decide (ob_delete api = None) then ob_create api else ob_delete api)
      else ob_update api
  | _ => None
  end.

Lemma performed_accepted v : ob_update api = None → performed v = writes_of v.
Proof.
  intros Hu. unfold performed, refused. rewrite Hu. destruct v as [[[] [src|]] inst]; try by rewrite app_nil_r.
  by rewrite andb_false_r, app_nil_r.
Qed.

Lemma generateEvents_quiet src inst act err f : quiet (generateEvents src inst act err) f tt.
Proof.
  unfold generateEvents. destruct (hasFinalizers inst); [eexists; split; [apply runs_emit|done]|].
  destruct err as [[]|]; try (apply quiet_runs, runs_ret);
    (eapply quiet_bind; [eexists; split; [apply runs_emit|done]|]); (destruct src; [eexists; split; [apply runs_emit|done]|apply quiet_runs, runs_ret]).
Qed.

Lemma runs_record {B} (m : M OWorld B) g f b f' evs : runs m (upd_syncer gvk g f) b f' evs →
  runs (updF (upd_syncer gvk g) ≫= λ _, m) f b f' evs.
Proof. intros Hm. eapply runs_step; [apply runs_updF|exact Hm]. Qed.

Lemma runs_emit_cons {B} (e : ObjEvent) (m : M OWorld B) f b f' evs : runs m f b f' evs → runs (emit [e] ≫= λ _, m) f b f' (e :: evs).
Proof. intros Hm. change (e :: evs) with ([e] ++ evs). eapply runs_bind; [apply runs_emit|exact Hm]. Qed.

Lemma runs_emit_ret {B} (e : ObjEvent) (b : B) f : runs (emit [e] ≫= λ _, mret b) f b f [e].
Proof. apply runs_emit_cons, runs_ret. Qed.

(** Writing returns the answer of the API server, after the writes it asks for. *)
Lemma writeObject_runs inst src f : let v := (actionWrite, Some src, inst) in
  ∃ ts evs, runs (writeObject gvk api inst src) f (answered v) (set_types ts f) evs ∧ modes (set_types ts f) = modes f ∧
    writes evs = performed v.
Proof.
  intros v. set (copy := copy_of src (dst inst) (om_ResourceVersion (u_Meta inst))).
  assert (∃ m, runs m f (answered v) f (performed v) ∧ writeObject gvk api inst src = (m ≫= λ err, match err with
      | Some e => mret (Some e)
      | None => recordPropagatedObject gvk (om_Namespace (u_Meta copy)) (om_Name (u_Meta copy)) ≫= λ _, mret None
      end)) as (m & Hr & ->).
  { eexists. split; [|reflexivity]. unfold v, performed, answered, refused, writes_of. fold copy.
    destruct (u_exists inst); simpl; [|by apply runs_emit_ret].
    apply runs_emit_cons. destruct (ob_update api) as [[]|]; try apply runs_ret.
    destruct (isRoleBinding copy); [|apply runs_ret]. apply runs_emit_cons.
    destruct (ob_delete api); simpl; [apply runs_ret|by apply runs_emit_ret]. }
  assert (writes (performed v) = performed v) as Hw.
  { unfold performed. cbn -[copy_of refused]. fold copy. destruct (u_exists inst), (refused copy), (decide (ob_delete api = None)); done. }
  destruct (answered v) as [e|].
  - exists (f_types f), (performed v ++ []). split_and!; [|done|by rewrite app_nil_r].
    eapply runs_bind; [exact Hr|]. destruct f. apply runs_ret.
  - eexists _, (performed v ++ []). split_and!; [|apply modes_upd_syncer|by rewrite app_nil_r].
    eapply runs_bind; [exact Hr|]. eapply runs_record, runs_ret.
Qed.

Lemma operate_runs act src inst f : act ≠ actionUnknown → (act = actionWrite → is_Some src) →
  ∃ ts evs, runs (operate gvk api act inst src) f (answered (act, src, inst)) (set_types ts f) evs ∧ modes (set_types ts f) = modes f ∧
    writes evs = performed (act, src, inst).
Proof.
  intros Hk Hsrc. unfold operate.
  assert (∃ ts evs, runs (match act with
        | actionNop => mret None
        | actionRemove => deleteObject gvk api inst
        | actionWrite => src ← nonnil src; writeObject gvk api inst src
        | actionUnknown =>
            mret (Some (ErrOther ("HNC couldn't determine how to update this object (desired action: " +:+ action_string act +:+ ")")))
        end) f (answered (act, src, inst)) (set_types ts f) evs ∧ modes (set_types ts f) = modes f ∧
        writes evs = performed (act, src, inst)) as (ts & evs & Hr & Hmo & Hw).
  { destruct act; [done| | |exists (f_types f), []; split_and!; [destruct f; apply runs_ret|done..]].
    - unfold deleteObject, answered. destruct (ob_delete api) as [e|] eqn:Hd.
      + destruct e; (eexists (f_types f), _; split_and!; [eapply runs_bind; [apply runs_emit|destruct f; apply runs_ret]|done..]).
      + eexists _, _. split_and!; [eapply runs_bind; [apply runs_emit|]; eapply runs_record, runs_ret|apply modes_upd_syncer|done].
    - destruct Hsrc as [s ->]; [done|]. destruct (writeObject_runs inst s f) as (ts & evs & Hr & Hmo & Hw).
      exists ts, evs. split_and!; [|done..]. eapply runs_step; [by apply runs_nonnil|exact Hr]. }
  destruct (generateEvents_quiet src inst act (answered (act, src, inst)) (set_types ts f)) as (e2 & Hg & Hw2).
  exists ts, (evs ++ e2 ++ []). split_and!; [|done|by rewrite app_nil_r, writes_app, Hw, Hw2, app_nil_r].
  eapply runs_bind; [exact Hr|]. eapply runs_bind; [exact Hg|]. apply runs_ret.
Qed.

Lemma verdict_ok inst d can root : let v := act_unless root (verdict inst d can) in
  v.1.1 ≠ actionUnknown ∧ (v.1.1 = actionWrite → is_Some v.1.2).
Proof.
  unfold act_unless, verdict. destruct (decide (root = "")), (is_copy inst d can), d as [src|]; simpl; try done;
    destruct (up_to_date inst src); by simpl; eauto.
Qed.

Lemma synced_types f f' l inst s ts : synced_to f f' l inst s → modes (set_types ts f') = modes f' → synced_to f (set_types ts f') l inst s.
Proof. intros [? ? ? ? Hm ?] Hts. split; try done. by rewrite Hts. Qed.

(** What a reconciliation reads of the object: the API server has it, or it does
    not and a blank object stands for it. *)
Definition read (nnm : NamespacedName) (inst : Unstructured) : Prop :=
  ob_get api nnm = Found inst ∧ u_exists inst = true ∨ ob_get api nnm = NotFound ∧ inst = blankObject gvk nnm.

Lemma decision_ok f inst l t root : let v := act_unless root (decision f inst l t) in
  v.1.1 ≠ actionUnknown ∧ (v.1.1 = actionWrite → is_Some v.1.2).
Proof.
  unfold decision. destruct (u_exists inst); [apply verdict_ok|]. destruct (HasSourceObject _ _ _); [|apply verdict_ok].
  unfold act_unless. by destruct (decide _).
Qed.

Lemma Reconcile_runs nnm inst f l t root : IsManagedNamespace cfg (nn_namespace nnm) = true → mode ≠ Ignore →
  read nnm inst → ready f inst l t → GetHaltedRoot f (Some l) = Done root →
  let v := act_unless root (decision f inst l t) in
  ∃ f' evs, runs (Reconcile cfg gvk mode api nnm) f (answered v) f' evs ∧ writes evs = performed v ∧
    synced_to f f' l inst (remains f inst t).
Proof.
  intros Hm Hmode Hget Hrd Hroot v. destruct (syncWithForest_runs f inst l t root Hrd Hroot) as (f1 & e1 & Hr & Hw & Hst).
  destruct (decision_ok f inst l t root) as [Hu Hs]. fold v in Hr, Hu, Hs. destruct v as [[act src] inst'].
  destruct (operate_runs act src inst' f1 Hu Hs) as (ts & e2 & Ho & Hmo & Hw2).
  exists (set_types ts f1), (e1 ++ e2). split_and!; [|by rewrite writes_app, Hw|by apply synced_types].
  unfold Reconcile. rewrite Hm. rewrite decide_False by done.
  destruct Hget as [[-> _]|[-> ->]]; (eapply runs_bind; [exact Hr|exact Ho]).
Qed.

(** Objects that are being deleted, and namespaces that HNC has not seen, are skipped. *)
Lemma Reconcile_skipped nnm inst f l : IsManagedNamespace cfg (nn_namespace nnm) = true → mode ≠ Ignore →
  read nnm inst → wf f → f_namespaces f !! dst inst = Some l →
  IsZero (om_DeletionTimestamp (u_Meta inst)) && ns_exists (deref f l) = false →
  ∃ err f' evs, runs (Reconcile cfg gvk mode api nnm) f err f' evs ∧ writes evs = [].
Proof.
  intros Hm Hmode Hget Hwf Hl Hskip. assert (runs (syncWithForest cfg gvk mode inst) f (actionNop, None, inst) f []) as Hr.
  { unfold syncWithForest. eapply (runs_step _ _ f true f); [|apply runs_ret]. unfold skipNamespace.
    destruct (IsZero (om_DeletionTimestamp (u_Meta inst))); simpl in *; [|apply runs_ret].
    eapply runs_step; [by apply fget_runs|]. eapply runs_step; [apply runs_getF|]. unfold Exists. rewrite Hskip. apply runs_ret. }
  destruct (operate_runs actionNop None inst f) as (ts & evs & Ho & _ & Hw); [done..|].
  eexists _, _, ([] ++ evs). split; [|exact Hw]. unfold Reconcile. rewrite Hm. rewrite decide_False by done.
  destruct Hget as [[-> _]|[-> ->]]; (eapply runs_bind; [exact Hr|exact Ho]).
Qed.

(** Below a halted namespace nothing is written. *)
Lemma Reconcile_halted nnm f l t root : sound f → sources_ok f → f_namespaces f !! nn_namespace nnm = Some l → nn_name nnm ≠ "" →
  GetTypeSyncer gvk f = Some t → selectors_parse cfg gvk mode f (nn_namespace nnm) (nn_name nnm) →
  (∀ o, ob_get api nnm = Found o → dst o = nn_namespace nnm ∧ onm o = nn_name nnm ∧ u_GVK o = gvk ∧ u_exists o = true) →
  GetHaltedRoot f (Some l) = Done root → root ≠ "" →
  ∃ err f' evs, runs (Reconcile cfg gvk mode api nnm) f err f' evs ∧ writes evs = [].
Proof.
  intros Hf Hok Hl Hne Ht Hp Hfa Hroot Hh.
  destruct (IsManagedNamespace cfg (nn_namespace nnm)) eqn:Hm; [|exists None, f, []; split; [|done]; unfold Reconcile; rewrite Hm; apply runs_ret].
  destruct (decide (mode = Ignore)) as [Hi|Hi].
  { exists None, f, []. split; [|done]. unfold Reconcile. rewrite Hm. rewrite decide_True by done. apply runs_ret. }
  assert ((∃ e, ob_get api nnm = ApiError e) ∨ ∃ inst, read nnm inst ∧ dst inst = nn_namespace nnm ∧ onm inst = nn_name nnm ∧ u_GVK inst = gvk)
    as [[e He]|(inst & Hrd & Hd & Hn & Hg)].
  { unfold read. destruct (ob_get api nnm) as [o| |e]; [right; exists o|right; exists (blankObject gvk nnm)|left; by exists e].
    - destruct (Hfa o eq_refl) as (? & ? & ? & ?). by split_and!; [left|..].
    - by split_and!; [right|..]. }
  { exists (Some (ErrOther e)), f, []. split; [|done]. unfold Reconcile. rewrite Hm, He. rewrite decide_False by done. apply runs_ret. }
  rewrite <- Hd in Hl, Hp. rewrite <- Hn in Hp.
  destruct (IsZero (om_DeletionTimestamp (u_Meta inst)) && ns_exists (deref f l)) eqn:Hs;
    [|eapply Reconcile_skipped; try done; apply Hf].
  apply andb_true_iff in Hs as [Hz Hx]. assert (ready f inst l t) as Hready by (split; first [done|congruence]).
  destruct (Reconcile_runs nnm inst f l t root Hm Hi Hrd Hready Hroot) as (f' & evs & Hr & Hw & _).
  eexists _, f', evs. split; [exact Hr|]. rewrite Hw. unfold act_unless. by rewrite decide_False.
Qed.

Lemma Reconcile_existing nnm inst f l t root : IsManagedNamespace cfg (nn_namespace nnm) = true → mode ≠ Ignore →
  ob_get api nnm = Found inst → ready f inst l t → u_exists inst = true → GetHaltedRoot f (Some l) = Done root →
  ∃ err f' evs, runs (Reconcile cfg gvk mode api nnm) f err f' evs ∧
    writes evs = performed (act_unless root (verdict inst (want f inst) (CanPropagate t))) ∧
    synced_to f f' l inst (kept inst (want f inst) (CanPropagate t)).
Proof.
  intros Hm Hmode Hget Hrd He Hroot.
  destruct (Reconcile_runs nnm inst f l t root Hm Hmode (or_introl (conj Hget He)) Hrd Hroot) as (f' & evs & Hr & Hw & Hst).
  unfold decision, remains in *. rewrite He in *. eauto 6.
Qed.

Lemma Reconcile_missing nnm f l t root : IsManagedNamespace cfg (nn_namespace nnm) = true → mode ≠ Ignore →
  ob_get api nnm = NotFound → ready f (blankObject gvk nnm) l t → GetHaltedRoot f (Some l) = Done root →
  ∃ err f' evs, runs (Reconcile cfg gvk mode api nnm) f err f' evs ∧ synced_to f f' l (blankObject gvk nnm) None ∧
    writes evs = if HasSourceObject (deref f l) gvk (nn_name nnm) then []
                 else writes_of (act_unless root (verdict (as_copy (blankObject gvk nnm)) (want f (blankObject gvk nnm)) (CanPropagate t))).
Proof.
  intros Hm Hmode Hget Hrd Hroot.
  destruct (Reconcile_runs nnm _ f l t root Hm Hmode (or_intror (conj Hget eq_refl)) Hrd Hroot) as (f' & evs & Hr & Hw & Hst).
  eexists _, f', evs. split_and!; [exact Hr|exact Hst|]. rewrite Hw. unfold decision. cbn [u_exists blankObject om_Name u_Meta].
  change (u_exists (blankObject gvk nnm)) with false. cbn iota.
  destruct (HasSourceObject _ _ _); [unfold act_unless; by destruct (decide _)|].
  unfold act_unless, verdict. rewrite as_copy_is_copy. destruct (decide (root = "")); by destruct (desired cfg gvk mode f _ _).
Qed.

(** ** The topmost source *)
Lemma desired_Some f d on src : desired cfg gvk mode f d on = Some src ↔
  ∃ above anc below, proper_ancestors f d = above ++ anc :: below ∧
    GetSourceObject (ns_at f anc) gvk on = Some src ∧ propagates cfg gvk mode f d src = true ∧
    ∀ a s, a ∈ above → GetSourceObject (ns_at f a) gvk on = Some s → propagates cfg gvk mode f d s = false.
Proof.
  unfold desired, candidates. induction (proper_ancestors f d) as [|x k IH]; simpl.
  { split; [done|]. intros (above & anc & below & Hk & _). by destruct above. }
  destruct (GetSourceObject (ns_at f x) gvk on) as [s|] eqn:Hs; simpl.
  - rewrite filter_cons. destruct (decide (propagates cfg gvk mode f d s = true)) as [Hp|Hp]; simpl.
    + split; [intros [= <-]; exists [], x, k; split_and!; try done; intros ? ? ?%elem_of_nil; done|].
      intros (above & anc & below & Hk & Hsrc & Hpr & Hab). destruct above as [|a above]; simplify_eq/=; [congruence|].
      rewrite (Hab a s) in Hp; [done|by left|done].
    + rewrite IH. apply not_true_iff_false in Hp. split.
      * intros (above & anc & below & -> & Hsrc & Hpr & Hab). exists (x :: above), anc, below. split_and!; try done.
        intros a s' [->|Ha]%elem_of_cons; [congruence|by apply Hab].
      * intros (above & anc & below & Hk & Hsrc & Hpr & Hab). destruct above as [|a above]; simplify_eq/=; [congruence|].
        exists above, anc, below. split_and!; try done. intros a' s' Ha. apply Hab. by right.
  - rewrite IH. split.
    + intros (above & anc & below & -> & Hsrc & Hpr & Hab). exists (x :: above), anc, below. split_and!; try done.
      intros a s' [->|Ha]%elem_of_cons; [congruence|by apply Hab].
    + intros (above & anc & below & Hk & Hsrc & Hpr & Hab). destruct above as [|a above]; simplify_eq/=; try congruence.
      exists above, anc, below. split_and!; try done. intros a' s' Ha. apply Hab. by right.
Qed.

Lemma proper_ancestors_above f d x : wf f → x ∈ proper_ancestors f d → tc (up (parent_name f)) d x.
Proof.
  intros Hwf Hx. unfold proper_ancestors in Hx. destruct (f_namespaces f !! d) as [l|] eqn:Hl; [|by apply elem_of_nil in Hx].
  simpl in Hx. destruct (ns_parent (deref f l)) as [p|] eqn:Hp; [|by apply elem_of_nil in Hx].
  destruct (wf_parent _ Hwf _ _ _ Hl Hp) as (pn & Hpn & _). apply (AncestryNames_elem f Hwf pn p x Hpn) in Hx.
  eapply tc_rtc_r; [|exact Hx]. apply tc_once, (parent_name_Some f Hwf). eauto.
Qed.

(** What the reconciler may do to an object that is not labelled as a copy. *)
Lemma user_verdict f inst root t : wf f → u_exists inst = true → hasPropagatedLabel inst = false →
  let v := act_unless root (verdict inst (want f inst) (CanPropagate t)) in
  performed v = [] ∨
  CanPropagate t = true ∧ root = "" ∧
  ∃ anc src, tc (up (parent_name f)) (dst inst) anc ∧ GetSourceObject (ns_at f anc) gvk (onm inst) = Some src ∧
    propagates cfg gvk mode f (dst inst) src = true ∧
    let copy := copy_of src (dst inst) (om_ResourceVersion (u_Meta inst)) in
    performed v = UpdateObj copy ::
      (if refused copy then DeleteObj copy :: (if decide (ob_delete api = None) then [CreateObj copy] else []) else []).
Proof.
  intros Hwf He Hlab v. assert (performed v = [] ∨ ∃ src, want f inst = Some src ∧ CanPropagate t = true ∧ root = "" ∧
    v = (actionWrite, Some src, set_u_Label LabelInheritedFrom (om_Namespace (u_Meta src)) inst)) as [|(src & Hd & Hc & Hr & ->)]; [|by left|].
  { unfold v, act_unless, verdict, is_copy. rewrite Hlab. destruct (decide (root = "")) as [->|]; [|by left].
    destruct (CanPropagate t); [|by left]. destruct (want f inst) as [src|]; simpl; [|by left].
    destruct (up_to_date inst src); [by left|right]. by exists src. }
  right. apply desired_Some in Hd as (above & anc & below & Hk & Hs & Hp & _). split_and!; [done..|].
  exists anc, src. split_and!; [|done..|].
  - apply (proper_ancestors_above f _ _ Hwf). rewrite Hk. set_solver.
  - unfold performed, writes_of. change (u_exists (set_u_Label _ _ inst)) with (u_exists inst). by rewrite He.
Qed.
End sync.
