(* ===== verification/Convergence.v ===== *)
(** * The object reconciler in a loop with the API server

    The reconciler of a type is run against a store that answers its reads and takes
    its writes: the objects of one name, one per namespace.  A schedule is a list of
    namespaces in which the object is reconciled.  Each visit is the whole
    [Objects.Reconcile]; file Propagation says what it writes.  Here the writes are
    applied, and the loop is shown to settle: once each path from a root down has been
    visited in order (twice per namespace, since the first visit may only forget a
    source that has gone), every copy is the one that the sources in the store ask for,
    and later visits change nothing. *)

From S2P Require Import Prelude GoStrings Chains Validation Api Config Selectors Resources Forest ForestWf ForestWalks ForestReads.
From S2P Require Import Sound World Objects Propagation.

(** ** The store of the API server

    What the reconciler relies on: an accepted write is stored with the name, labels,
    annotations and content that were sent, with a creation time, and a deleted object
    without finalizers is gone. *)
Abbreviation Cluster := (gmap string Unstructured).

Class ApiServer := {
  store : Cluster → Unstructured → Unstructured;
  terminate : Unstructured → Unstructured
}.

Class ApiServerLaws `{AS : ApiServer} : Prop := {
  store_gvk cl o : u_GVK (store cl o) = u_GVK o;
  store_content cl o : u_Content (store cl o) = u_Content o;
  store_name cl o : om_Name (u_Meta (store cl o)) = om_Name (u_Meta o);
  store_namespace cl o : om_Namespace (u_Meta (store cl o)) = om_Namespace (u_Meta o);
  store_labels cl o : items (om_Labels (u_Meta (store cl o))) = items (om_Labels (u_Meta o));
  store_annotations cl o : items (om_Annotations (u_Meta (store cl o))) = items (om_Annotations (u_Meta o));
  store_finalizers cl o : om_Finalizers (u_Meta (store cl o)) = om_Finalizers (u_Meta o);
  store_created cl o : IsZero (om_CreationTimestamp (u_Meta (store cl o))) = false;
  store_alive cl o : IsZero (om_DeletionTimestamp (u_Meta (store cl o))) = true
}.

Section loop.
  Context `{RO : RangeOrder} `{RX : RegexpLib} `{SL : SelectorLib} `{AS : ApiServer} (cfg : Config)
    (gvk : GroupVersionKind) (mode : SynchronizationMode) (name : string).

(** ** The loop *)
Definition answers (cl : Cluster) (x : string) : objectApi := {|
  ob_get nnm := match cl !! nn_namespace nnm with Some o => Found o | None => NotFound end;
  ob_create := None;
  ob_update := None;
  ob_delete := match cl !! x with Some _ => None | None => Some (ErrNotFound "not found") end
|}.

Definition apply_write (cl : Cluster) (e : ObjEvent) : Cluster :=
  match e with
  | CreateObj o | UpdateObj o => <[om_Namespace (u_Meta o) := store cl o]> cl
  | DeleteObj o =>
      match cl !! om_Namespace (u_Meta o) with
      | Some o' => if decide (om_Finalizers (u_Meta o') = []) then delete (om_Namespace (u_Meta o)) cl
                   else <[om_Namespace (u_Meta o) := terminate o']> cl
      | None => cl
      end
  | _ => cl
  end.

Definition visit (x : string) (st : Forest * Cluster) : outcome (Forest * Cluster) :=
  '(_, w) ← Reconcile cfg gvk mode (answers st.2 x) (mkNN x name) (mkWorld st.1 []);
  mret (w_forest w, foldl apply_write st.2 (w_events w)).

Fixpoint follow (sched : list string) (st : Forest * Cluster) : outcome (Forest * Cluster) :=
  match sched with
  | [] => mret st
  | x :: sched' => st' ← visit x st; follow sched' st'
  end.

(** ** What the loop should reach *)

(** The object of a namespace as a source: not if it is labelled as a copy. *)
Definition source_in (cl : Cluster) (x : string) : option Unstructured :=
  match cl !! x with
  | Some o => if hasPropagatedLabel o then None else Some (cleanSource cfg o)
  | None => None
  end.

(** The source that a namespace should have a copy of, by the objects in the
    store: the topmost one of a proper ancestor that propagates to it. *)
Definition wanted (f : Forest) (cl : Cluster) (x : string) : option Unstructured :=
  head (filter (λ src, propagates cfg gvk mode f x src = true) (omap (source_in cl) (proper_ancestors f x))).

(** Its object is an up-to-date copy of that source; without one, it is no copy. *)
Definition converged (f : Forest) (cl : Cluster) (x : string) : Prop :=
  match wanted f cl x with
  | Some src => ∃ o, cl !! x = Some o ∧ up_to_date o src = true
  | None => ∀ o, cl !! x = Some o → hasPropagatedLabel o = false
  end.

(** ** One visit *)
Definition source (f : Forest) (x : string) : option Unstructured := GetSourceObject (ns_at f x) gvk name.
Definition can : bool := bool_decide (mode = Propagate) || bool_decide (mode = AllowPropagate).

(** The source in the forest and the object in the store after a visit. *)
Definition after_visit (cl : Cluster) (x : string) (d s c : option Unstructured) : option Unstructured * option Unstructured :=
  match c with
  | None => (None, if s is Some _ then None else (λ src, store cl (copy_of src x "")) <$> d)
  | Some o =>
      if is_copy o d can then
        (None, src ← d; if up_to_date o src then Some o else Some (store cl (copy_of src x (om_ResourceVersion (u_Meta o)))))
      else (Some (cleanSource cfg o), Some o)
  end.

Definition parses (o : Unstructured) : Prop := ∀ labels, ShouldPropagate cfg o labels mode ≠ Panics.

Record stored_at (x : string) (o : Unstructured) : Prop := {
  sa_namespace : om_Namespace (u_Meta o) = x;
  sa_name : om_Name (u_Meta o) = name;
  sa_gvk : u_GVK o = gvk;
  sa_exists : u_exists o = true;
  sa_alive : IsZero (om_DeletionTimestamp (u_Meta o)) = true;
  sa_copy : hasPropagatedLabel o = true → om_Finalizers (u_Meta o) = [];
  sa_parses : hasPropagatedLabel o = false → parses (cleanSource cfg o)
}.

(** The invariant of the loop. *)
Record loop_ok (f : Forest) (cl : Cluster) : Prop := {
  lo_sound : sound f;
  lo_sources : sources_ok f;
  lo_syncer : ∃ t, GetTypeSyncer gvk f = Some t ∧ ts_Mode t = mode;
  lo_parses : ∀ x o, source f x = Some o → u_GVK o = gvk ∧ parses o;
  lo_stored : ∀ x o, cl !! x = Some o → stored_at x o
}.

(** A namespace that exists, is managed, and is not halted. *)
Definition visitable (f : Forest) (x : string) : Prop :=
  ∃ l, f_namespaces f !! x = Some l ∧ ns_exists (deref f l) = true ∧ IsManagedNamespace cfg x = true ∧
    GetHaltedRoot f (Some l) = Done "".

(** What a visit of [x] leaves alone in the forest. *)
Record visited (x : string) (f f' : Forest) : Prop := {
  vi_vitals : heap_sim vitals f f';
  vi_sources : sources_ok f';
  vi_others y : y ≠ x → ns_at f' y = ns_at f y;
  vi_labels : ns_labels (ns_at f' x) = ns_labels (ns_at f x);
  vi_modes : modes f' = modes f
}.

(** Nothing would change at [x]. *)
Definition settled (f : Forest) (cl : Cluster) (x : string) : Prop :=
  after_visit cl x (desired cfg gvk mode f x name) (source f x) (cl !! x) = (source f x, cl !! x).
End loop.

Section facts.
  Context `{RO : RangeOrder} `{RX : RegexpLib} `{SL : SelectorLib} `{AL : ApiServerLaws} (cfg : Config)
    (gvk : GroupVersionKind) (mode : SynchronizationMode) (name : string).
  Context (Hmode : mode = Propagate ∨ mode = AllowPropagate ∨ mode = Remove) (Hname : name ≠ "").

  Abbreviation source := (source gvk name).
  Abbreviation desired f x := (desired cfg gvk mode f x name).
  Abbreviation loop_ok := (loop_ok cfg gvk mode name).
  Abbreviation visitable := (visitable cfg).
  Abbreviation settled := (settled cfg gvk mode name).

(** ** What the store keeps *)
Lemma store_canonical cl o : canonical (store cl o) = canonical o.
Proof using AL. unfold canonical. by rewrite store_gvk, store_content, store_name, store_labels, store_annotations. Qed.

Lemma store_exists cl o : u_exists (store cl o) = true.
Proof using AL. unfold u_exists. by rewrite store_created. Qed.

Lemma store_GetLabel cl o k : GetLabel (u_Meta (store cl o)) k = GetLabel (u_Meta o) k.
Proof using AL. unfold GetLabel. by rewrite store_labels. Qed.

(** A copy in the store is recognised as a copy, and as up to date. *)
Lemma store_copy_label cl src x rv : hasPropagatedLabel (store cl (copy_of src x rv)) = true.
Proof using AL. unfold hasPropagatedLabel. rewrite store_GetLabel. unfold copy_of, set_u_Label. simpl. by rewrite GetLabel_SetLabel. Qed.

Lemma store_copy_up_to_date cl src x rv : up_to_date (store cl (copy_of src x rv)) src = true.
Proof using AL. apply (copy_up_to_date _ _ x rv); [apply store_exists|apply store_canonical|apply store_GetLabel]. Qed.

Lemma up_to_date_label o src : om_Namespace (u_Meta src) ≠ "" → up_to_date o src = true → hasPropagatedLabel o = true.
Proof.
  intros Hn. unfold up_to_date, hasPropagatedLabel, GetLabel, sget. rewrite !andb_true_iff, !bool_decide_eq_true.
  intros [_ Hl]. destruct (items (om_Labels (u_Meta o)) !! LabelInheritedFrom); [done|]. by rewrite <- Hl in Hn.
Qed.

(** ** The forest around a visit *)
Lemma synced_visited f f' x l inst s : wf f → f_namespaces f !! x = Some l → synced_to gvk f f' l inst s → visited x f f'.
Proof.
  intros Hwf Hl [Hv Hs Ho Hlab Hm Hsrc]. pose proof Hv as (Hns & _). split; try done.
  - intros y Hy. unfold ns_at. rewrite <- Hns. destruct (f_namespaces f !! y) as [ly|] eqn:Hly; [|done].
    apply Ho. intros ->. apply Hy. by eapply live_inj.
  - unfold ns_at. by rewrite <- Hns, Hl.
Qed.

Lemma visited_live x f f' y : visited x f f' → f_namespaces f' !! y = f_namespaces f !! y.
Proof. intros Hvi. destruct (vi_vitals _ _ _ Hvi) as (-> & _). done. Qed.

Lemma visited_visitable x f f' y : sound f → visited x f f' → visitable f y → visitable f' y.
Proof.
  intros Hf Hvi (l & Hl & He & Hm & Hr). exists l. rewrite (visited_live x f f' y Hvi). split_and!; try done.
  - pose proof (heap_sim_deref _ _ _ l (vi_vitals _ _ _ Hvi)) as Hd. unfold vitals, shape in Hd. congruence.
  - by rewrite (GetHaltedRoot_vitals f f' y l (vi_vitals _ _ _ Hvi) Hf Hl).
Qed.

Lemma visited_parent x f f' y : visited x f f' → parent_name f' y = parent_name f y.
Proof. intros Hvi. apply vitals_parent, Hvi. Qed.

Lemma visited_ancestors x f f' y : visited x f f' → proper_ancestors f' y = proper_ancestors f y.
Proof.
  intros Hvi. pose proof (vi_vitals _ _ _ Hvi) as Hv. unfold proper_ancestors. rewrite (visited_live x f f' y Hvi).
  assert (heap_sim links f f') as Hlk by (eapply heap_sim_mono, Hv; intros n n' H; by apply shape_links, vitals_shape).
  assert (Parent f' (f_namespaces f !! y) = Parent f (f_namespaces f !! y)) as ->.
  { destruct (f_namespaces f !! y) as [l|]; [|done]. pose proof (heap_sim_deref _ _ _ l Hlk) as Hd. unfold links in Hd. simpl. congruence. }
  symmetry. by apply AncestryNames_links.
Qed.

Lemma visited_ns_labels x f f' y : visited x f f' → ns_labels (ns_at f' y) = ns_labels (ns_at f y).
Proof. intros Hvi. destruct (decide (y = x)) as [->|Hy]; [apply Hvi|by rewrite (vi_others _ _ _ Hvi y Hy)]. Qed.

Lemma visited_propagates x f f' y src : visited x f f' → propagates cfg gvk mode f' y src = propagates cfg gvk mode f y src.
Proof. intros Hvi. unfold propagates. by rewrite (visited_ns_labels x f f' y Hvi). Qed.

(** The desired source depends on the sources of the proper ancestors only. *)
Lemma visited_desired x f f' y : visited x f f' → (x ∈ proper_ancestors f y → source f' x = source f x) →
  desired f' y = desired f y.
Proof.
  intros Hvi Hsrc. unfold Propagation.desired, candidates. rewrite (visited_ancestors x f f' y Hvi). f_equal.
  rewrite (list_filter_iff _ (λ src, propagates cfg gvk mode f y src = true)) by (intros src; by rewrite (visited_propagates x f f' y src Hvi)).
  f_equal. apply list_omap_ext, Forall_Forall2_diag, Forall_forall. intros z Hz.
  destruct (decide (z = x)) as [->|Hzx]; [by apply Hsrc|by rewrite (vi_others _ _ _ Hvi z Hzx)].
Qed.

Lemma desired_source f x src : wf f → sources_ok f → desired f x = Some src →
  om_Namespace (u_Meta src) ≠ "" ∧ om_Name (u_Meta src) = name ∧ ∃ y, y ∈ proper_ancestors f x ∧ source f y = Some src.
Proof.
  intros Hwf Hok Hd. apply desired_Some in Hd as (above & y & below & Hk & Hs & _). unfold ns_at in Hs.
  destruct (f_namespaces f !! y) as [l|] eqn:Hl; [|done]. destruct (Hok y l gvk name src Hl Hs) as [-> ->].
  split_and!; [by eapply wf_name|done|]. exists y. rewrite Hk. split; [set_solver|]. unfold Convergence.source, ns_at. by rewrite Hl.
Qed.

(** ** The effect of a visit *)
Lemma foldl_writes cl evs : foldl apply_write cl evs = foldl apply_write cl (writes evs).
Proof.
  revert cl. induction evs as [|e evs IH]; intros cl; [done|]. unfold writes. rewrite filter_cons. simpl.
  destruct (decide (is_write e)) as [He|He]; simpl; [apply IH|]. rewrite IH. by destruct e; try destruct (He I).
Qed.

Lemma loop_ready f cl x l t inst : loop_ok f cl → f_namespaces f !! x = Some l → ns_exists (deref f l) = true →
  GetTypeSyncer gvk f = Some t → om_Namespace (u_Meta inst) = x → om_Name (u_Meta inst) = name → u_GVK inst = gvk →
  IsZero (om_DeletionTimestamp (u_Meta inst)) = true → ready cfg gvk mode f inst l t.
Proof using Hname.
  intros [Hf Hok _ Hp _] Hl He Ht Hn Hnm Hg Ha. split; try done; [by rewrite Hn|by rewrite Hnm|].
  intros src Hsrc. rewrite Hnm in Hsrc. unfold candidates in Hsrc. apply list_elem_of_omap in Hsrc as (y & _ & Hy). by apply (Hp y src).
Qed.

Lemma visit_runs f cl x err f' evs : runs (Reconcile cfg gvk mode (answers cl x) (mkNN x name)) f err f' evs →
  visit cfg gvk mode name x (f, cl) = Done (f', foldl apply_write cl (writes evs)).
Proof. intros Hr. unfold visit. simpl. rewrite (Hr []). simpl. by rewrite foldl_writes. Qed.

Lemma can_syncer t : ts_Mode t = mode → CanPropagate t = can mode.
Proof. intros Ht. unfold CanPropagate, can. by rewrite Ht. Qed.

Lemma source_synced f f' x l inst s : wf f → f_namespaces f !! x = Some l → synced_to gvk f f' l inst s → om_Name (u_Meta inst) = name →
  source f' x = s.
Proof.
  intros Hwf Hl Hst Hnm. pose proof (st_vitals _ _ _ _ _ _ Hst) as (Hns & _). unfold Convergence.source, ns_at.
  rewrite <- Hns, Hl, <- Hnm. apply Hst.
Qed.

(** The writes of a visit change the store in its namespace only. *)
Lemma writes_existing cl x o d : cl !! x = Some o → stored_at cfg gvk mode name x o →
  let cl' := foldl apply_write cl (writes_of (act_unless "" (verdict o d (can mode)))) in
  (∀ y, y ≠ x → cl' !! y = cl !! y) ∧ cl' !! x = (after_visit cfg mode cl x d None (Some o)).2.
Proof.
  intros Ho Hst. pose proof (sa_namespace _ _ _ _ _ _ Hst) as Hn. unfold act_unless. rewrite decide_True by done.
  unfold verdict, after_visit. destruct (is_copy o d (can mode)) eqn:Hc; [|by simpl].
  destruct d as [src|]; simpl.
  - destruct (up_to_date o src); [by simpl|]. simpl. change (u_exists (set_u_Label _ _ o)) with (u_exists o).
    rewrite (sa_exists _ _ _ _ _ _ Hst). simpl. rewrite Hn. split; [intros y Hy; by rewrite lookup_insert_ne|by rewrite lookup_insert_eq].
  - rewrite Hn, Ho, decide_True.
    + split; [intros y Hy; by rewrite lookup_delete_ne|by rewrite lookup_delete_eq].
    + apply (sa_copy _ _ _ _ _ _ Hst). unfold is_copy in Hc. simpl in Hc. by rewrite andb_false_r, orb_false_r in Hc.
Qed.

Lemma writes_missing cl x d : cl !! x = None →
  let cl' := foldl apply_write cl (writes_of (act_unless "" (verdict (as_copy (blankObject gvk (mkNN x name))) d (can mode)))) in
  (∀ y, y ≠ x → cl' !! y = cl !! y) ∧ cl' !! x = (after_visit cfg mode cl x d None None).2.
Proof.
  intros Ho. unfold act_unless. rewrite decide_True by done. unfold verdict, is_copy. rewrite as_copy_label. simpl.
  destruct d as [src|]; simpl; [|by rewrite Ho]. split; [intros y Hy; by rewrite lookup_insert_ne|by rewrite lookup_insert_eq].
Qed.

Lemma visit_spec f cl x : loop_ok f cl → visitable f x →
  ∃ f' cl', visit cfg gvk mode name x (f, cl) = Done (f', cl') ∧ visited x f f' ∧ (∀ y, y ≠ x → cl' !! y = cl !! y) ∧
    after_visit cfg mode cl x (desired f x) (source f x) (cl !! x) = (source f' x, cl' !! x).
Proof using Hmode Hname.
  intros Hlo (l & Hl & He & Hm & Hroot). pose proof (lo_sound _ _ _ _ _ _ Hlo) as [Hwf _].
  destruct (lo_syncer _ _ _ _ _ _ Hlo) as (t & Ht & Htm).
  assert (mode ≠ Ignore) as Hign by (intros ->; by destruct Hmode as [?|[?|?]]).
  destruct (cl !! x) as [o|] eqn:Ho.
  - pose proof (lo_stored _ _ _ _ _ _ Hlo x o Ho) as Hst. pose proof Hst as [Hn Hnm Hg Hex Ha _ _].
    destruct (Reconcile_existing cfg gvk mode (answers cl x) (mkNN x name) o f l t "") as (err & f' & evs & Hr & Hw & Hsy); try done.
    { by simpl; rewrite Ho. } { by eapply loop_ready. }
    rewrite performed_accepted in Hw by done. rewrite Hn, Hnm, (can_syncer t Htm) in Hw, Hsy. destruct (writes_existing cl x o (desired f x) Ho Hst) as [Hoth Hat].
    rewrite <- Hw in Hoth, Hat. exists f', (foldl apply_write cl (writes evs)). split_and!; [by eapply visit_runs|by eapply synced_visited|done|].
    rewrite Hat, (source_synced f f' x l o _ Hwf Hl Hsy Hnm). unfold kept, after_visit. by destruct (is_copy o (desired f x) (can mode)).
  - destruct (Reconcile_missing cfg gvk mode (answers cl x) (mkNN x name) f l t "") as (err & f' & evs & Hr & Hsy & Hw); try done.
    { by simpl; rewrite Ho. } { by eapply loop_ready. }
    rewrite (can_syncer t Htm) in Hw. change (nn_name (mkNN x name)) with name in Hw.
    pose proof (source_synced f f' x l _ _ Hwf Hl Hsy eq_refl) as Hs'.
    assert (HasSourceObject (deref f l) gvk name = bool_decide (is_Some (source f x))) as Hh.
    { unfold HasSourceObject, Convergence.source, ns_at, GetSourceObject. by rewrite Hl. }
    rewrite Hh in Hw. exists f', (foldl apply_write cl (writes evs)).
    split; [by eapply visit_runs|]. split; [by eapply synced_visited|]. rewrite Hw, Hs'. unfold after_visit.
    destruct (source f x) as [s|]; simpl; [by rewrite Ho|].
    destruct (writes_missing cl x (desired f x) Ho) as [Hoth Hat]. split; [exact Hoth|]. by rewrite Hat.
Qed.

(** ** The invariant is kept *)
Lemma modes_syncer f f' : modes f' = modes f → ts_Mode <$> GetTypeSyncer gvk f' = ts_Mode <$> GetTypeSyncer gvk f.
Proof.
  unfold modes, GetTypeSyncer. generalize (f_types f) as ts. generalize (f_types f') as ts'.
  induction ts' as [|t' ts' IH]; intros [|t ts] Hm; simplify_eq/=; [done|].
  destruct (bool_decide_reflect (ts_GVK t' = gvk)), (bool_decide_reflect (ts_GVK t = gvk)); try congruence; simpl; [congruence|].
  by apply IH.
Qed.

Lemma cleanSource_gvk o : u_GVK (cleanSource cfg o) = u_GVK o.
Proof. done. Qed.

(** What can be at a namespace after a visit. *)
Lemma after_visit_cases cl x d s c s' c' : after_visit cfg mode cl x d s c = (s', c') →
  (∀ o, s' = Some o → ∃ o', c = Some o' ∧ c' = Some o' ∧ is_copy o' d (can mode) = false ∧ o = cleanSource cfg o') ∧
  (∀ o, c' = Some o → c = Some o ∨ ∃ src rv, d = Some src ∧ o = store cl (copy_of src x rv)).
Proof.
  unfold after_visit. destruct c as [o|].
  - destruct (is_copy o d (can mode)) eqn:Hc; intros [= <- <-].
    + split; [done|]. intros o' Ho'. destruct d as [src|]; [|done]. simpl in Ho'. destruct (up_to_date o src); simplify_eq; eauto 8.
    + split; intros o' [= <-]; eauto 8.
  - intros [= <- <-]. split; [done|]. intros o Ho. destruct s, d as [src|]; simplify_eq/=; eauto 8.
Qed.

Lemma visit_loop_ok f cl x f' cl' : loop_ok f cl → visited x f f' → (∀ y, y ≠ x → cl' !! y = cl !! y) →
  after_visit cfg mode cl x (desired f x) (source f x) (cl !! x) = (source f' x, cl' !! x) → loop_ok f' cl'.
Proof using AL Hmode Hname.
  intros [Hf Hok Hsy Hp Hst] Hvi Hoth Hav. destruct (after_visit_cases _ _ _ _ _ _ _ Hav) as [Hs Hc]. split.
  - eapply sound_vitals, Hf. apply Hvi.
  - apply Hvi.
  - destruct Hsy as (t & Ht & Hm). pose proof (modes_syncer f f' (vi_modes _ _ _ Hvi)) as Hts. rewrite Ht in Hts.
    apply fmap_Some in Hts as (t' & Ht' & Hm'). exists t'. split; [done|congruence].
  - intros y o Ho. destruct (decide (y = x)) as [->|Hy].
    + destruct (Hs o Ho) as (o' & Ho' & _ & Hcp & ->). pose proof (Hst x o' Ho') as Hst'. rewrite cleanSource_gvk.
      split; [apply Hst'|]. apply Hst'. unfold is_copy in Hcp. by apply orb_false_iff in Hcp as [? _].
    + apply (Hp y). unfold Convergence.source in *. by rewrite <- (vi_others _ _ _ Hvi y Hy).
  - intros y o Ho. destruct (decide (y = x)) as [->|Hy]; [|apply Hst; by rewrite <- Hoth].
    destruct (Hc o Ho) as [?|(src & rv & Hd & ->)]; [by apply Hst|].
    destruct (desired_source f x src) as (_ & Hn & y & _ & Hy); [apply Hf|done|done|]. destruct (Hp y src Hy) as [Hg _].
    split; rewrite ?store_namespace, ?store_name, ?store_gvk, ?store_exists, ?store_alive, ?store_finalizers, ?store_copy_label; done.
Qed.

(** ** Settling *)

(** A second visit changes nothing, unless the first only forgot a source. *)
Lemma after_visit_idem cl cl' x d s c s' c' : after_visit cfg mode cl x d s c = (s', c') → (c = None → s = None) →
  (∀ src, d = Some src → om_Namespace (u_Meta src) ≠ "") →
  after_visit cfg mode cl' x d s' c' = (s', c').
Proof using AL.
  intros Hav Hsc Hd. unfold after_visit in Hav. destruct c as [o|].
  - destruct (is_copy o d (can mode)) eqn:Hc.
    + injection Hav as <- <-. destruct d as [src|]; [|done]. simpl. destruct (up_to_date o src) eqn:Hu; unfold after_visit; simpl.
      * by rewrite Hc, Hu.
      * unfold is_copy. by rewrite store_copy_label, store_copy_up_to_date.
    + injection Hav as <- <-. unfold after_visit. by rewrite Hc.
  - rewrite (Hsc eq_refl) in Hav. injection Hav as <- <-. destruct d as [src|]; simpl; [|done].
    unfold is_copy. by rewrite store_copy_label, store_copy_up_to_date.
Qed.

Lemma proper_ancestors_irrefl f x : wf f → ¬ in_cycle (parent_name f) x → x ∉ proper_ancestors f x.
Proof. intros Hwf Hc Hx. by apply (proper_ancestors_above f x x Hwf) in Hx. Qed.

(** The desired source does not change by a visit below it. *)
Lemma visit_desired_self f f' x : wf f → ¬ in_cycle (parent_name f) x → visited x f f' → desired f' x = desired f x.
Proof. intros Hwf Hc Hvi. apply (visited_desired x); [done|]. intros Hx. by apply (proper_ancestors_irrefl f x Hwf Hc) in Hx. Qed.

(** No source is remembered of an object that has gone. *)
Definition remembered (f : Forest) (cl : Cluster) (x : string) : Prop := cl !! x = None → source f x = None.

Lemma visitable_no_cycle f x : sound f → visitable f x → ¬ in_cycle (parent_name f) x.
Proof.
  intros [Hwf Hc] (l & Hl & _ & _ & Hr) Hcy. destruct (Hc x Hcy) as (z & Hz & Hh).
  destruct (GetHaltedRoot_blocked f Hwf Hc x l z Hl Hz Hh) as (root & Hroot & Hne). congruence.
Qed.

(** ** Schedules *)

(** What all the forests of a run have in common. *)
Record similar (f f' : Forest) : Prop := {
  si_parent y : parent_name f' y = parent_name f y;
  si_visitable y : visitable f y → visitable f' y;
  si_ancestors y : proper_ancestors f' y = proper_ancestors f y;
  si_propagates y src : propagates cfg gvk mode f' y src = propagates cfg gvk mode f y src
}.

#[local] Instance similar_preorder : PreOrder similar.
Proof.
  split; [by split|]. intros f g h [H1 H2 H3 H4] [K1 K2 K3 K4].
  split; [intros y; by rewrite K1|auto|intros y; by rewrite K3|intros y src; by rewrite K4].
Qed.

Lemma visited_similar f f' x : sound f → visited x f f' → similar f f'.
Proof.
  intros Hf Hvi. split; intros y; [by apply (visited_parent x)|by apply (visited_visitable x)|by apply (visited_ancestors x)|].
  intros src. by apply (visited_propagates x).
Qed.

Definition closed (f : Forest) (A : list string) : Prop := ∀ y z, y ∈ A → tc (up (parent_name f)) y z → z ∈ A.
Definition all_settled (f : Forest) (cl : Cluster) (A : list string) : Prop := ∀ y, y ∈ A → settled f cl y.

Lemma similar_closed f f' A : similar f f' → closed f A → closed f' A.
Proof.
  intros Hs HA y z Hy Hz. apply (HA y z Hy). revert Hz. apply tc_mono. intros a b. unfold up. by rewrite (si_parent _ _ Hs).
Qed.

Lemma after_visit_fixed cl cl' x d s c : after_visit cfg mode cl x d s c = (s, c) → after_visit cfg mode cl' x d s c = (s, c).
Proof using AL.
  unfold after_visit. destruct c as [o|].
  - destruct (is_copy o d (can mode)); [|done]. intros [= <- Ho]. f_equal. destruct d as [src|]; [|done]. simpl in *.
    destruct (up_to_date o src) eqn:Hu; [done|]. injection Ho as Ho. by rewrite <- Ho, store_copy_up_to_date in Hu.
  - destruct s; [done|]. by destruct d.
Qed.

(** One visit, with all that it keeps: nothing changes in a settled set of
    namespaces that is closed under parents. *)
Lemma visit_keeps f cl x A : loop_ok f cl → visitable f x → closed f A → all_settled f cl A →
  ∃ f' cl', visit cfg gvk mode name x (f, cl) = Done (f', cl') ∧ loop_ok f' cl' ∧ similar f f' ∧
    all_settled f' cl' A ∧ (∀ y, y ∈ A → cl' !! y = cl !! y) ∧
    (∀ y, remembered f cl y ∨ y = x → remembered f' cl' y) ∧ (remembered f cl x → settled f' cl' x).
Proof using AL Hmode Hname.
  intros Hlo Hvx HA Hset. pose proof (lo_sound _ _ _ _ _ _ Hlo) as Hf. pose proof Hf as [Hwf _].
  destruct (visit_spec f cl x Hlo Hvx) as (f' & cl' & Hv & Hvi & Hoth & Hav).
  assert (∀ y, y ∈ A → source f' y = source f y ∧ cl' !! y = cl !! y) as Hsame.
  { intros y Hy. destruct (decide (y = x)) as [->|Hne].
    - pose proof (Hset x Hy) as Hx. unfold Convergence.settled in Hx. rewrite Hav in Hx. by simplify_eq.
    - rewrite (Hoth y Hne). unfold Convergence.source. by rewrite (vi_others _ _ _ Hvi y Hne). }
  exists f', cl'. split_and!; [done|by eapply visit_loop_ok|by eapply visited_similar| |intros y Hy; by apply Hsame| |].
  - intros y Hy. destruct (Hsame y Hy) as [Hs Hc]. unfold Convergence.settled. rewrite Hs, Hc.
    rewrite (visited_desired x f f' y Hvi); [by eapply after_visit_fixed, Hset|].
    intros Hx. apply Hsame, (HA y x Hy), proper_ancestors_above; done.
  - intros y Hy. unfold remembered. destruct (decide (y = x)) as [->|Hne].
    + intros Hc'. destruct (after_visit_cases _ _ _ _ _ _ _ Hav) as [Hs _].
      destruct (source f' x) as [o|]; [|done]. destruct (Hs o eq_refl) as (o' & _ & Ho & _). congruence.
    + rewrite (Hoth y Hne). unfold Convergence.source. rewrite (vi_others _ _ _ Hvi y Hne). by destruct Hy as [Hy|].
  - intros Hrem. unfold Convergence.settled. rewrite (visit_desired_self f f' x Hwf); [|by apply visitable_no_cycle|done].
    eapply after_visit_idem; [exact Hav|exact Hrem|]. intros src Hd. by apply (desired_source f x src Hwf (lo_sources _ _ _ _ _ _ Hlo)) in Hd as [].
Qed.

Lemma follow_app s1 s2 st : follow cfg gvk mode name (s1 ++ s2) st = (follow cfg gvk mode name s1 st ≫= follow cfg gvk mode name s2).
Proof.
  revert st. induction s1 as [|x s1 IH]; intros st; [done|]. simpl. destruct (visit cfg gvk mode name x st) as [st'| |]; [apply IH|done|done].
Qed.

Lemma similar_sched f f' sched : similar f f' → Forall (visitable f) sched → Forall (visitable f') sched.
Proof. intros Hs Hv. eapply Forall_impl; [exact Hv|]. apply Hs. Qed.

Lemma follow_keeps sched : ∀ f cl A, loop_ok f cl → Forall (visitable f) sched → closed f A → all_settled f cl A →
  ∃ f' cl', follow cfg gvk mode name sched (f, cl) = Done (f', cl') ∧ loop_ok f' cl' ∧ similar f f' ∧
    all_settled f' cl' A ∧ (∀ y, y ∈ A → cl' !! y = cl !! y) ∧ (∀ y, remembered f cl y → remembered f' cl' y).
Proof using AL Hmode Hname.
  induction sched as [|x sched IH]; intros f cl A Hlo Hvs HA Hset; [by exists f, cl|].
  apply Forall_cons in Hvs as [Hx Hvs]. destruct (visit_keeps f cl x A Hlo Hx HA Hset) as (f1 & cl1 & Hv & Hlo1 & Hs1 & Hset1 & Hsame1 & Hrem1 & _).
  destruct (IH f1 cl1 A Hlo1 (similar_sched _ _ _ Hs1 Hvs) (similar_closed _ _ _ Hs1 HA) Hset1) as (f2 & cl2 & Hfo & Hlo2 & Hs2 & Hset2 & Hsame2 & Hrem2).
  exists f2, cl2. simpl. rewrite Hv. simpl. split_and!; [done|done|by transitivity f1|done| |].
  - intros y Hy. by rewrite Hsame2, Hsame1.
  - intros y Hy. apply Hrem2, Hrem1. by left.
Qed.

(** Each element of a list twice. *)
Definition twice (l : list string) : list string := l ≫= λ x, [x; x].

(** A path down from a closed set, visited twice in this order, settles. *)
Lemma follow_path path : ∀ f cl above sched, loop_ok f cl → Forall (visitable f) sched → closed f above → all_settled f cl above →
  (∀ p1 y p2, path = p1 ++ y :: p2 → ∀ z, tc (up (parent_name f)) y z → z ∈ above ++ p1) → twice path `sublist_of` sched →
  ∃ f' cl', follow cfg gvk mode name sched (f, cl) = Done (f', cl') ∧ loop_ok f' cl' ∧ similar f f' ∧ all_settled f' cl' (above ++ path).
Proof using AL Hmode Hname.
  induction path as [|y path IH]; intros f cl above sched Hlo Hvs HA Hset Hpath Hsub.
  { destruct (follow_keeps sched f cl above Hlo Hvs HA Hset) as (f' & cl' & ? & ? & ? & ? & _). exists f', cl'. by rewrite app_nil_r. }
  change (twice (y :: path)) with (y :: y :: twice path) in Hsub.
  apply sublist_cons_l in Hsub as (s1 & k & -> & Hsub). apply sublist_cons_l in Hsub as (s2 & s3 & -> & Hsub).
  rewrite !Forall_app, !Forall_cons, Forall_app, Forall_cons in Hvs. destruct Hvs as (Hv1 & Hy & Hv2 & _ & Hv3).
  destruct (follow_keeps s1 f cl above Hlo Hv1 HA Hset) as (f1 & cl1 & E1 & Hlo1 & S1 & Hset1 & _).
  destruct (visit_keeps f1 cl1 y above Hlo1 (si_visitable _ _ S1 _ Hy) (similar_closed _ _ _ S1 HA) Hset1)
    as (f2 & cl2 & E2 & Hlo2 & S2' & Hset2 & _ & Hrem2 & _).
  assert (similar f f2) as S2 by (by transitivity f1).
  destruct (follow_keeps s2 f2 cl2 above Hlo2 (similar_sched _ _ _ S2 Hv2) (similar_closed _ _ _ S2 HA) Hset2)
    as (f3 & cl3 & E3 & Hlo3 & S3' & Hset3 & _ & Hrem3).
  assert (similar f f3) as S3 by (by transitivity f2).
  destruct (visit_keeps f3 cl3 y above Hlo3 (si_visitable _ _ S3 _ Hy) (similar_closed _ _ _ S3 HA) Hset3)
    as (f4 & cl4 & E4 & Hlo4 & S4' & Hset4 & _ & _ & Hsy).
  assert (similar f f4) as S4 by (by transitivity f3).
  assert (closed f (above ++ [y])) as HA'.
  { intros a z [Ha|Ha%list_elem_of_singleton]%elem_of_app Hz; [apply elem_of_app; left; by eapply HA|subst a].
    apply (Hpath [] y path eq_refl) in Hz. rewrite app_nil_r in Hz. set_solver. }
  destruct (IH f4 cl4 (above ++ [y]) s3 Hlo4 (similar_sched _ _ _ S4 Hv3) (similar_closed _ _ _ S4 HA')) as (f5 & cl5 & E5 & Hlo5 & S5 & Hset5).
  - intros a [Ha|Ha%list_elem_of_singleton]%elem_of_app; [by apply Hset4|subst a]. apply Hsy, Hrem3, Hrem2. by right.
  - intros p1 a p2 -> z Hz. rewrite <- app_assoc. apply (Hpath (y :: p1) a p2 eq_refl). revert Hz. apply tc_mono.
    intros u v. unfold up. by rewrite (si_parent _ _ S4).
  - exact Hsub.
  - exists f5, cl5. split_and!; [|done|by transitivity f4|by rewrite <- app_assoc in Hset5].
    rewrite follow_app, E1. simpl. rewrite E2. simpl. rewrite follow_app, E3. simpl. by rewrite E4.
Qed.

(** ** From settled to converged *)
Lemma settled_source f cl x : loop_ok f cl → settled f cl x → source f x = source_in cfg cl x.
Proof.
  intros Hlo Hset. pose proof (lo_sound _ _ _ _ _ _ Hlo) as [Hwf _]. unfold Convergence.settled, after_visit in Hset. unfold source_in.
  destruct (cl !! x) as [o|]; [|by injection Hset].
  destruct (is_copy o (desired f x) (can mode)) eqn:Hc.
  - injection Hset as Hs Ho. rewrite <- Hs. destruct (hasPropagatedLabel o) eqn:Hl; [done|]. destruct (desired f x) as [src|] eqn:Hd; [|done]. simpl in Ho.
    destruct (up_to_date o src) eqn:Hu.
    + apply (up_to_date_label o src) in Hu; [congruence|]. by apply (desired_source f x src Hwf (lo_sources _ _ _ _ _ _ Hlo)) in Hd as [].
    + injection Ho as Ho. by rewrite <- Ho, store_copy_label in Hl.
  - injection Hset as <-. unfold is_copy in Hc. by apply orb_false_iff in Hc as [-> _].
Qed.

Lemma settled_wanted f cl x : loop_ok f cl → all_settled f cl (proper_ancestors f x) → desired f x = wanted cfg gvk mode f cl x.
Proof.
  intros Hlo Hset. unfold Propagation.desired, wanted, candidates. do 2 f_equal.
  apply list_omap_ext, Forall_Forall2_diag, Forall_forall. intros y Hy. by apply settled_source, Hset.
Qed.

Lemma propagates_can f x src : propagates cfg gvk mode f x src = true → can mode = true.
Proof using Hmode.
  unfold propagates, can. destruct (ShouldPropagate _ _ _ _) as [[|[]]| |]; try done. destruct Hmode as [->|[->| ->]]; done.
Qed.

Lemma settled_converged f cl x : loop_ok f cl → settled f cl x → all_settled f cl (proper_ancestors f x) → converged cfg gvk mode f cl x.
Proof using AL Hmode Hname.
  intros Hlo Hx Hanc. unfold converged. rewrite <- (settled_wanted f cl x Hlo Hanc).
  unfold Convergence.settled, after_visit in Hx. destruct (desired f x) as [src|] eqn:Hd.
  - assert (can mode = true) as Hcan.
    { apply desired_Some in Hd as (_ & _ & _ & _ & _ & Hp & _). by eapply propagates_can. }
    destruct (cl !! x) as [o|]; [|by destruct (source f x)]. exists o. split; [done|]. unfold is_copy in Hx.
    rewrite Hcan, orb_true_r in Hx. simpl in Hx. destruct (up_to_date o src) eqn:Hu; [done|]. injection Hx as _ Ho.
    by rewrite <- Ho, store_copy_up_to_date in Hu.
  - intros o Ho. rewrite Ho in Hx. unfold is_copy in Hx. destruct (hasPropagatedLabel o); [|done]. by injection Hx.
Qed.

Lemma similar_converged f f' cl x : similar f f' → converged cfg gvk mode f' cl x ↔ converged cfg gvk mode f cl x.
Proof.
  intros Hs. unfold converged. assert (wanted cfg gvk mode f' cl x = wanted cfg gvk mode f cl x) as ->; [|done].
  unfold wanted. rewrite (si_ancestors _ _ Hs). f_equal. apply list_filter_iff. intros src. by rewrite (si_propagates _ _ Hs).
Qed.

(** ** Paths *)
Abbreviation path f x := (AncestryNames f (f_namespaces f !! x)).

Lemma walk_no_repeat f x l : sound f → visitable f x → full_walk (parent_name f) x l → NoDup l ∧ ends_at_root (parent_name f) l.
Proof.
  intros [Hwf Hc] (lx & Hl & _ & _ & Hr) (Hhd & Hch & [?|(k & z & -> & Hnd & Hz)]); [done|exfalso].
  apply list_elem_of_split in Hz as (k1 & k2 & ->). rewrite <- app_assoc in Hch. simpl in Hch.
  assert (in_cycle (parent_name f) z) as Hcy by (eapply chain_reach_last, chain_app_r; [|exact Hch]; done).
  destruct (Hc z Hcy) as (y & Hy & Hh).
  assert (rtc (up (parent_name f)) x y) as Hxy.
  { etrans; [|exact Hy]. destruct ((k1 ++ z :: k2) ++ [z]) as [|x' k'] eqn:Hk; simplify_eq/=.
    rewrite <- app_assoc in Hk. simpl in Hk. rewrite Hk in Hch. eapply chain_reach; [exact Hch|]. rewrite <- Hk. set_solver. }
  destruct (GetHaltedRoot_blocked f Hwf Hc x lx y Hl Hxy Hh) as (root & Hroot & Hne). congruence.
Qed.

(** What is above a namespace on the path comes before it. *)
Lemma path_above f x p1 y p2 z : sound f → visitable f x → path f x = p1 ++ y :: p2 → tc (up (parent_name f)) y z → z ∈ p1.
Proof.
  intros Hf Hx Hp Hz. pose proof Hf as [Hwf _]. destruct (id Hx) as (l & Hl & _). rewrite Hl in Hp.
  pose proof (AncestryNames_walk f Hwf x l Hl) as Hw. destruct (walk_no_repeat f x _ Hf Hx Hw) as [_ (r & Hr & Hroot)].
  destruct Hw as (_ & Hch & _). rewrite Hp, reverse_app, reverse_cons, <- app_assoc in Hch, Hr. simpl in Hch, Hr.
  apply chain_app_r in Hch; [|done]. apply tc_up_inv in Hz as (w & Hu & Hwz).
  rewrite last_app_cons in Hr. apply elem_of_reverse. destruct (reverse p1) as [|w' k].
  { simplify_eq/=. unfold up in Hu. congruence. }
  apply chain_inv in Hch as [Hu' Hch]. rewrite (up_det _ _ _ _ Hu Hu') in Hwz.
  eapply reach_closed; [|by left|exact Hwz]. intros a b Ha Hab. eapply root_walk_closed; [exact Hch| |exact Ha|exact Hab].
  by exists r.
Qed.

Lemma path_settles f cl sched x : loop_ok f cl → Forall (visitable f) sched → visitable f x → twice (path f x) `sublist_of` sched →
  ∃ f' cl', follow cfg gvk mode name sched (f, cl) = Done (f', cl') ∧ loop_ok f' cl' ∧ similar f f' ∧ all_settled f' cl' (path f x).
Proof using AL Hmode Hname.
  intros Hlo Hvs Hx Hsub. destruct (follow_path (path f x) f cl [] sched) as (f' & cl' & H); [done|done| | | |done|by exists f', cl'].
  - intros y z Hy. by apply elem_of_nil in Hy.
  - intros y Hy. by apply elem_of_nil in Hy.
  - intros p1 y p2 Hp z Hz. by apply (path_above f x p1 y p2 z (lo_sound _ _ _ _ _ _ Hlo) Hx Hp Hz).
Qed.

Lemma path_elem f x y : wf f → visitable f x → y ∈ path f x ↔ rtc (up (parent_name f)) x y.
Proof. intros Hwf (l & Hl & _). rewrite Hl. by apply (AncestryNames_elem f Hwf x l y). Qed.

(** All the paths at once, and any visits after that. *)
Lemma paths_converge f cl sched (xs : list string) : loop_ok f cl → Forall (visitable f) sched →
  (∀ x, x ∈ xs → visitable f x ∧ twice (path f x) `sublist_of` sched) →
  ∃ f' cl', follow cfg gvk mode name sched (f, cl) = Done (f', cl') ∧ (∀ x, x ∈ xs → converged cfg gvk mode f cl' x) ∧
    ∀ more, Forall (visitable f) more → ∃ f'' cl'', follow cfg gvk mode name more (f', cl') = Done (f'', cl'') ∧
      ∀ x, x ∈ xs → cl'' !! x = cl' !! x.
Proof using AL Hmode Hname.
  intros Hlo Hvs Hxs. pose proof (lo_sound _ _ _ _ _ _ Hlo) as [Hwf _].
  destruct (follow_keeps sched f cl [] Hlo Hvs) as (f' & cl' & E & Hlo' & S & _); [by intros y z ?%elem_of_nil|by intros y ?%elem_of_nil|].
  assert (∀ x, x ∈ xs → all_settled f' cl' (path f x)) as Hset.
  { intros x Hx. destruct (Hxs x Hx) as [Hv Hsub]. destruct (path_settles f cl sched x Hlo Hvs Hv Hsub) as (f1 & cl1 & E1 & _ & _ & H1).
    rewrite E in E1. by injection E1 as <- <-. }
  exists f', cl'. split_and!; [done| |].
  - intros x Hx. destruct (Hxs x Hx) as [Hv _]. apply (similar_converged f f' cl' x S), settled_converged; [done|apply (Hset x Hx), path_elem; done|].
    rewrite (si_ancestors _ _ S). intros y Hy. apply (Hset x Hx), path_elem; [done..|].
    by apply tc_rtc, (proper_ancestors_above f).
  - intros more Hm. destruct (follow_keeps more f' cl' (xs ≫= λ x, path f x) Hlo' (similar_sched _ _ _ S Hm)) as (f2 & cl2 & E2 & _ & _ & _ & Hsame & _).
    + apply (similar_closed f f' _ S). intros y z (x & Hy & Hx)%list_elem_of_bind Hz. apply list_elem_of_bind. exists x. split; [|done].
      destruct (Hxs x Hx) as [Hv _]. apply path_elem; [done..|]. apply path_elem in Hy; [|done..]. etrans; [exact Hy|by apply tc_rtc].
    + intros y (x & Hy & Hx)%list_elem_of_bind. by apply (Hset x).
    + exists f2, cl2. split; [done|]. intros x Hx. apply Hsame, list_elem_of_bind. exists x. split; [|done].
      destruct (Hxs x Hx) as [Hv _]. by apply path_elem.
Qed.
End facts.
