(* ===== verification/ObjectsValidator.v ===== *)
(** * The object webhook (internal/objects/validator.go)

    Users may not touch propagated objects, may only use well-formed propagation
    exceptions on their own objects, and may not create a source that would
    overwrite an object below it. *)

From Stdlib Require Import Ascii.
From S2P Require Import Prelude GoStrings Chains Validation Api Config Selectors Resources Forest ForestWf ForestWalks.
From S2P Require Import ForestReads World Objects.

Record request := {
  rq_obj : Unstructured;
  rq_oldObj : Unstructured;
  rq_op : Operation;
  rq_gr : string
}.

(** The object decoded from an empty document. *)
Definition emptyObject : Unstructured := mkObj (mkGVK "" "" "") blankMeta None ∅.

Definition rq_name (req : request) : string := om_Namespace (u_Meta (rq_obj req)) +:+ "/" +:+ om_Name (u_Meta (rq_obj req)).

Section validator.
  Context `{RO : RangeOrder} `{RX : RegexpLib} `{SL : SelectorLib} (cfg : Config) (getNS : string → ApiResult K8sNamespace).

Definition syncType (gvk : GroupVersionKind) (f : Forest) : SynchronizationMode :=
  match GetTypeSyncerFromGroupKind (Group gvk) (Kind gvk) f with
  | None => Ignore
  | Some ts => ts_Mode ts
  end.
Definition isPropagateType gvk f : bool := bool_decide (syncType gvk f = Propagate).
Definition isAllowPropagateType gvk f : bool := bool_decide (syncType gvk f = AllowPropagate).
Definition canPropagateType gvk f : bool := isPropagateType gvk f || isAllowPropagateType gvk f.

(** ** Propagation exceptions *)
Definition selector_keys : list string := [AnnotationSelector; AnnotationTreeSelector; AnnotationNoneSelector; AnnotationAllSelector].

(** An annotation of a prefix of the HNC group that is not a propagation exception. *)
Definition illegal_annotation (key : string) : bool :=
  match SplitN2 key "/"%char with
  | [] => false
  | seg :: _ =>
      match SplitN2 seg "."%char with
      | _ :: p :: _ =>
          bool_decide (p = MetaGroup) &&
          (negb (bool_decide (seg = AnnotationPropagatePrefix)) || negb (bool_decide (key ∈ selector_keys)))
      | _ => false
      end
  end.

Definition validateSelectorAnnot (inst : Unstructured) : string :=
  match List.find illegal_annotation (keys_of (items (om_Annotations (u_Meta inst)))) with
  | Some key =>
      "invalid HNC exceptions annotation: " +:+ key +:+ ", should be one of the following: " +:+
      AnnotationSelector +:+ "; " +:+ AnnotationTreeSelector +:+ "; " +:+ AnnotationNoneSelector +:+ "; " +:+ AnnotationAllSelector
  | None => ""
  end.

(** The exceptions set on an object, in the order in which they are reported. *)
Definition exceptions (inst : Unstructured) : list string :=
  (if decide (GetSelectorAnnotation inst ≠ "") then [AnnotationSelector] else []) ++
  (if decide (GetTreeSelectorAnnotation inst ≠ "") then [AnnotationTreeSelector] else []) ++
  (if decide (GetNoneSelectorAnnotation inst ≠ "") then [AnnotationNoneSelector] else []) ++
  (if decide (GetAllSelectorAnnotation inst ≠ "") then [AnnotationAllSelector] else []).

Definition isSelectorChange (inst oldInst : Unstructured) : bool :=
  negb (bool_decide (GetSelectorAnnotation oldInst = GetSelectorAnnotation inst)) ||
  negb (bool_decide (GetTreeSelectorAnnotation oldInst = GetTreeSelectorAnnotation inst)) ||
  negb (bool_decide (GetNoneSelectorAnnotation oldInst = GetNoneSelectorAnnotation inst)) ||
  negb (bool_decide (GetAllSelectorAnnotation oldInst = GetAllSelectorAnnotation inst)).

Definition validateSelectorUniqueness (inst oldInst : Unstructured) : string :=
  if negb (isSelectorChange inst oldInst) then ""
  else
    let found := exceptions inst in
    if decide (length found ≤ 1) then ""
    else "cannot have more than one selector at the same time, but got multiple: " +:+ Join found ", ".

(** The value of an annotation is parsed only if it is new. *)
Definition validate_change {A} (annot : Unstructured → string) (parse : Unstructured → E A) (inst oldInst : Unstructured) : E unit :=
  if decide (annot inst = "" ∨ annot oldInst = annot inst) then mret tt
  else parse inst ≫= λ _, mret tt.
Definition validateSelectorChange := validate_change GetSelectorAnnotation GetSelector.
Definition validateTreeSelectorChange := validate_change GetTreeSelectorAnnotation GetTreeSelector.
Definition validateNoneSelectorChange := validate_change GetNoneSelectorAnnotation GetNoneSelector.
Definition validateAllSelectorChange := validate_change GetAllSelectorAnnotation GetAllSelector.

(** ** Conflicts below a source *)
Fixpoint conflicting (inst : Unstructured) (descs : list string) (conflicts : list string) : M Forest (list string) :=
  match descs with
  | [] => mret conflicts
  | desc :: descs' =>
      d ← GetM desc ≫= nonnil;
      f ← get;
      if HasSourceObject (deref f d) (u_GVK inst) (om_Name (u_Meta inst)) then
        n ← GetM (om_Namespace (u_Meta inst)) ≫= nonnil;
        f ← get;
        r ← lift_outcome (ShouldPropagate cfg inst (items (GetLabels f n)) (syncType (u_GVK inst) f));
        conflicting inst descs' (match r with inr true => conflicts ++ [desc] | _ => conflicts end)
      else conflicting inst descs' conflicts
  end.

Definition hasConflict (inst : Unstructured) : M Forest (bool * list string) :=
  if decide (om_Namespace (u_Meta inst) = "") then mret (false, [])
  else
    l ← GetM (om_Namespace (u_Meta inst)) ≫= nonnil;
    f ← get;
    conflicts ← conflicting inst (DescendantNames f l) [];
    mret (negb (bool_decide (conflicts = [])), conflicts).

(** ** Propagated objects *)
Definition isDeletingNS (ns : string) : string + bool :=
  match getNS ns with
  | NotFound => inr true
  | ApiError err => inl ("while determining whether namespace " +:+ quoted ns +:+ " is being deleted: " +:+ err)
  | Found nsObj => inr (negb (IsZero (om_DeletionTimestamp (kn_Meta nsObj))))
  end.

Definition handleInherited (req : request) (newSource oldSource : string) : Response :=
  let inst := rq_obj req in
  let oldInst := rq_oldObj req in
  let dq s := dquote +:+ s +:+ dquote in
  match rq_op req with
  | Create => DenyForbidden (rq_gr req) (rq_name req) ("cannot create objects with the label " +:+ dq LabelInheritedFrom)
  | Delete =>
      match isDeletingNS (om_Namespace (u_Meta oldInst)) with
      | inl err => DenyInternalError ("cannot delete object propagated from namespace " +:+ oldSource +:+ " with error: " +:+ err)
      | inr false => DenyForbidden (rq_gr req) (rq_name req) ("cannot delete object propagated from namespace " +:+ dq oldSource)
      | inr true => Allow "allowing deletion of propagated object since namespace is being deleted"
      end
  | Update =>
      if decide (newSource ≠ oldSource) then
        DenyForbidden (rq_gr req) (rq_name req) ("cannot modify the label " +:+ dq LabelInheritedFrom)
      else if negb (bool_decide (canonical inst = canonical oldInst)) then
        DenyForbidden (rq_gr req) (rq_name req) ("cannot modify object propagated from namespace " +:+ dq oldSource)
      else if negb (bool_decide (om_Labels (u_Meta oldInst) = om_Labels (u_Meta inst))) ||
              negb (bool_decide (om_Annotations (u_Meta oldInst) = om_Annotations (u_Meta inst))) then
        DenyForbidden (rq_gr req) (rq_name req) ("cannot modify object propagated from namespace " +:+ dq oldSource)
      else Allow "no illegal updates to propagated object"
  | Connect => DenyInternalError "unknown operation: CONNECT"
  end.

(** [if err := check; err != nil { return DenyBadRequest(wrap(err)) }] *)
Definition or_reject (check : E unit) (wrap : string → string) (rest : M Forest Response) : M Forest Response :=
  r ← lift_outcome check;
  match r with
  | inl err => mret (DenyBadRequest (wrap err))
  | inr _ => rest
  end.

Definition handle (req : request) : M Forest Response :=
  let inst := rq_obj req in
  let oldInst := rq_oldObj req in
  let old := GetLabel (u_Meta oldInst) LabelInheritedFrom in
  let new := GetLabel (u_Meta inst) LabelInheritedFrom in
  if decide (old = None ∧ new = None) then
    if decide (validateSelectorAnnot inst ≠ "") then mret (DenyBadRequest (validateSelectorAnnot inst))
    else
      or_reject (validateSelectorChange inst oldInst) (λ err, "invalid Kubernetes labelSelector: " +:+ err)
      (or_reject (validateTreeSelectorChange inst oldInst)
         (λ err, "invalid HNC " +:+ quoted AnnotationTreeSelector +:+ " value: " +:+ err)
      (or_reject (validateNoneSelectorChange inst oldInst) id
      (or_reject (validateAllSelectorChange inst oldInst) id
        (if decide (validateSelectorUniqueness inst oldInst ≠ "") then mret (DenyBadRequest (validateSelectorUniqueness inst oldInst))
         else
           '(yes, dnses) ← hasConflict inst;
           if (yes : bool) then
             mret (DenyConflict (rq_gr req) (rq_name req)
               ("would overwrite objects in the following descendant namespace(s): " +:+ Join dnses "," +:+
                ". To fix this, choose a different name for the object, or remove the conflicting objects from the listed namespaces"))
           else mret (Allow "source object")))))
  else mret (handleInherited req (default "" new) (default "" old)).

(** [Handle] without the decoding of the request. *)
Definition Handle (ui : UserInfo) (namespace : string) (kind : GroupVersionKind) (req : request) : M Forest Response :=
  if negb (IsManagedNamespace cfg namespace) then mret (Allow ("unmanaged namespace " +:+ namespace))
  else
    f ← get;
    if negb (canPropagateType kind f) then mret (Allow "Non-propagate-mode types")
    else if IsHNCServiceAccount cfg (Some ui) then mret (Allow "HNC SA")
    else handle req.
End validator.

(** ** Facts *)
Section facts.
  Context `{RO : RangeOrder} `{RX : RegexpLib} `{SL : SelectorLib} (cfg : Config) (getNS : string → ApiResult K8sNamespace).

Lemma eq_comm {A} (x y : A) : x = y ↔ y = x.
Proof. split; congruence. Qed.

Lemma handleInherited_update req new old : rq_op req = Update →
  Allowed (handleInherited getNS req new old) = true ↔
  new = old ∧ canonical (rq_obj req) = canonical (rq_oldObj req) ∧
  om_Labels (u_Meta (rq_obj req)) = om_Labels (u_Meta (rq_oldObj req)) ∧
  om_Annotations (u_Meta (rq_obj req)) = om_Annotations (u_Meta (rq_oldObj req)).
Proof.
  intros Hop. unfold handleInherited. rewrite Hop. rewrite (eq_comm (om_Labels (u_Meta (rq_obj req)))), (eq_comm (om_Annotations (u_Meta (rq_obj req)))).
  destruct (decide (new ≠ old)) as [Hn|Hn]; [simpl; intuition congruence|]. apply dec_stable in Hn.
  destruct (bool_decide_reflect (canonical (rq_obj req) = canonical (rq_oldObj req))) as [Hc|Hc]; [|simpl; intuition congruence].
  destruct (bool_decide_reflect (om_Labels (u_Meta (rq_oldObj req)) = om_Labels (u_Meta (rq_obj req)))) as [Hl|Hl]; [|simpl; intuition congruence].
  destruct (bool_decide_reflect (om_Annotations (u_Meta (rq_oldObj req)) = om_Annotations (u_Meta (rq_obj req)))) as [Ha|Ha]; simpl; intuition congruence.
Qed.

(** The descendants in conflict with a source, by the labels of its own namespace. *)
Definition conflicts_below (f : Forest) (inst : Unstructured) (l : loc) : list string :=
  match ShouldPropagate cfg inst (items (ns_labels (deref f l))) (syncType (u_GVK inst) f) with
  | Done (inr true) => filter (λ d, HasSourceObject (ns_at f d) (u_GVK inst) (om_Name (u_Meta inst)) = true) (DescendantNames f l)
  | _ => []
  end.

Lemma conflicting_spec f inst l descs acc : wf f → f_namespaces f !! om_Namespace (u_Meta inst) = Some l →
  ShouldPropagate cfg inst (items (ns_labels (deref f l))) (syncType (u_GVK inst) f) ≠ Panics →
  (∀ d, d ∈ descs → is_Some (f_namespaces f !! d)) →
  conflicting cfg inst descs acc f = Done (acc ++
    match ShouldPropagate cfg inst (items (ns_labels (deref f l))) (syncType (u_GVK inst) f) with
    | Done (inr true) => filter (λ d, HasSourceObject (ns_at f d) (u_GVK inst) (om_Name (u_Meta inst)) = true) descs
    | _ => []
    end, f).
Proof.
  intros Hwf Hl Hp. revert acc. induction descs as [|d descs IH]; intros acc Hlive.
  { simpl. destruct (ShouldPropagate cfg inst _ _) as [[|[]]| |]; by rewrite app_nil_r. }
  destruct (Hlive d) as [ld Hld]; [by left|]. cbn [conflicting].
  assert (∀ nm l, f_namespaces f !! nm = Some l → (GetM nm ≫= nonnil) f = Done (l, f)) as Hget.
  { intros nm l' Hl'. unfold mbind, M_bind, GetM. by rewrite (Get_present nm l' f Hwf Hl'). }
  rewrite (M_bind_Done _ _ _ _ _ (Hget _ _ Hld)), (M_bind_Done get _ f f f) by done.
  rewrite filter_cons, (ns_at_live _ _ _ Hld). specialize (λ acc, IH acc (λ d' Hd', Hlive d' (list_elem_of_further _ _ _ Hd'))).
  destruct (HasSourceObject (deref f ld) _ _) eqn:Hh; simpl.
  2:{ rewrite IH. by destruct (ShouldPropagate cfg inst _ _) as [[|[]]| |]. }
  rewrite (M_bind_Done _ _ _ _ _ (Hget _ _ Hl)), (M_bind_Done get _ f f f) by done. unfold GetLabels.
  pose proof (ShouldPropagate_finite cfg inst (items (ns_labels (deref f l))) (syncType (u_GVK inst) f)) as Hfin. unfold finite in Hfin.
  unfold mbind at 1, M_bind at 1, lift_outcome.
  destruct (ShouldPropagate cfg inst _ _) as [[err|b]| |]; [apply IH| |by destruct Hp|by destruct Hfin].
  destruct b; rewrite IH; [|done]. by rewrite <- app_assoc.
Qed.

Lemma hasConflict_spec f inst l : wf f → f_namespaces f !! om_Namespace (u_Meta inst) = Some l →
  ShouldPropagate cfg inst (items (ns_labels (deref f l))) (syncType (u_GVK inst) f) ≠ Panics →
  hasConflict cfg inst f = Done ((negb (bool_decide (conflicts_below f inst l = [])), conflicts_below f inst l), f).
Proof.
  intros Hwf Hl Hp. unfold hasConflict. rewrite decide_False by (by eapply wf_name).
  rewrite (M_bind_Done _ _ f l f), (M_bind_Done get _ f f f); [|done|unfold mbind, M_bind, GetM; by rewrite (Get_present _ l f Hwf Hl)].
  rewrite (M_bind_Done _ _ _ _ _ (conflicting_spec f inst l _ [] Hwf Hl Hp ltac:(
    intros d Hd; apply (DescendantNames_elem f Hwf _ l d Hl), tc_rtc in Hd;
    destruct (rtc_inv _ _ Hd) as [->|(z & Hz & _)]; [eauto|by apply (up_live f Hwf) in Hz as [? _]]))). done.
Qed.

(** ** The webhook only reads the forest, and always returns *)
Lemma conflicting_reads inst descs acc : reads (conflicting cfg inst descs acc).
Proof.
  revert acc. induction descs as [|d descs IH]; intros acc; simpl; [auto with hnc|].
  apply reads_bind; [auto with hnc|]. intros ld. apply reads_bind; [auto with hnc|]. intros f.
  destruct (HasSourceObject _ _ _); [|apply IH]. apply reads_bind; [auto with hnc|]. intros n.
  apply reads_bind; [auto with hnc|]. intros g. apply reads_bind; [auto with hnc|]. intros r. apply IH.
Qed.

Lemma hasConflict_reads inst : reads (hasConflict cfg inst).
Proof.
  unfold hasConflict. destruct (decide _); [auto with hnc|]. apply reads_bind; [auto with hnc|]. intros l.
  apply reads_bind; [auto with hnc|]. intros f. apply reads_bind; [apply conflicting_reads|]. auto with hnc.
Qed.

Lemma objects_handle_reads req : reads (handle cfg getNS req).
Proof.
  unfold handle, or_reject. destruct (decide _); [|auto with hnc]. destruct (decide _); [auto with hnc|].
  do 4 (apply reads_bind; [auto with hnc|]; intros [|[]]; [auto with hnc|]).
  destruct (decide _); [auto with hnc|]. apply reads_bind; [apply hasConflict_reads|]. intros [[] ?]; auto with hnc.
Qed.

(** ** What the webhook asks of a source object *)
Definition changes_parse (inst oldInst : Unstructured) : Prop :=
  validateSelectorChange inst oldInst = mret tt ∧ validateTreeSelectorChange inst oldInst = mret tt ∧
  validateNoneSelectorChange inst oldInst = mret tt ∧ validateAllSelectorChange inst oldInst = mret tt.

Lemma or_reject_spec (check : E unit) wrap rest f (P : Prop) : check ≠ Panics → check ≠ Diverges →
  (check = mret tt → ∃ resp, rest f = Done (resp, f) ∧ (Allowed resp = true ↔ P)) →
  ∃ resp, or_reject check wrap rest f = Done (resp, f) ∧ (Allowed resp = true ↔ check = mret tt ∧ P).
Proof.
  intros Hp Hd Hrest. unfold or_reject, mbind, M_bind, lift_outcome. destruct check as [[err|[]]| |]; try done.
  - eexists. split; [done|]. split; [done|]. by intros [? _].
  - destruct Hrest as (resp & Hr & Ha); [done|]. exists resp. split; [done|]. rewrite Ha. split; [by split|by intros [_ ?]].
Qed.

Lemma validateSelectorUniqueness_nil inst oldInst : validateSelectorUniqueness inst oldInst = "" ↔
  (isSelectorChange inst oldInst = true → length (exceptions inst) ≤ 1).
Proof.
  unfold validateSelectorUniqueness. destruct (isSelectorChange inst oldInst); simpl; [|naive_solver].
  destruct (decide (length (exceptions inst) ≤ 1)); [naive_solver|]. split; [done|]. intros H. by specialize (H eq_refl).
Qed.

Lemma find_key_None {V} (p : string → bool) (m : gmap string V) : List.find p (keys_of m) = None ↔ ∀ k, is_Some (m !! k) → p k = false.
Proof.
  split.
  - intros Hf k Hk. apply elem_of_keys, list_elem_of_In in Hk. by eapply find_none in Hf.
  - intros Hall. destruct (List.find p (keys_of m)) as [x|] eqn:Hf; [|done]. apply find_some in Hf as [Hx Hp].
    apply list_elem_of_In, elem_of_keys in Hx. rewrite Hall in Hp; done.
Qed.

Lemma validateSelectorAnnot_nil inst : validateSelectorAnnot inst = "" ↔
  ∀ key, is_Some (items (om_Annotations (u_Meta inst)) !! key) → illegal_annotation key = false.
Proof.
  unfold validateSelectorAnnot. rewrite <- find_key_None. destruct (List.find _ _); [|done]. split; [|done].
  rewrite !string_app_cons. done.
Qed.

Lemma change_finite {A} annot (parse : Unstructured → E A) inst oldInst : finite (parse inst) → finite (validate_change annot parse inst oldInst).
Proof. intros Hf. unfold validate_change. destruct (decide _); [done|]. by apply finite_bind. Qed.

Lemma change_total {A} annot (parse : Unstructured → E A) inst oldInst : (∃ r, parse inst = Done r) →
  validate_change annot parse inst oldInst ≠ Panics ∧ validate_change annot parse inst oldInst ≠ Diverges.
Proof. intros [r Hr]. unfold validate_change. destruct (decide _); [done|]. rewrite Hr. by destruct r. Qed.

Lemma handle_source f req l : wf f →
  GetLabel (u_Meta (rq_obj req)) LabelInheritedFrom = None → GetLabel (u_Meta (rq_oldObj req)) LabelInheritedFrom = None →
  f_namespaces f !! om_Namespace (u_Meta (rq_obj req)) = Some l →
  validateTreeSelectorChange (rq_obj req) (rq_oldObj req) ≠ Panics →
  ShouldPropagate cfg (rq_obj req) (items (ns_labels (deref f l))) (syncType (u_GVK (rq_obj req)) f) ≠ Panics →
  ∃ resp, handle cfg getNS req f = Done (resp, f) ∧
    (Allowed resp = true ↔
      (∀ key, is_Some (items (om_Annotations (u_Meta (rq_obj req))) !! key) → illegal_annotation key = false) ∧
      changes_parse (rq_obj req) (rq_oldObj req) ∧
      (isSelectorChange (rq_obj req) (rq_oldObj req) = true → length (exceptions (rq_obj req)) ≤ 1) ∧
      conflicts_below f (rq_obj req) l = []).
Proof.
  intros Hwf Hnew Hold Hl Htree Hsp. unfold handle. rewrite Hnew, Hold, decide_True by done.
  match goal with |- ∃ resp, ?m = _ ∧ _ => assert (∃ resp, m = Done (resp, f) ∧ (Allowed resp = true ↔ validateSelectorAnnot (rq_obj req) = "" ∧
    (validateSelectorChange (rq_obj req) (rq_oldObj req) = mret tt ∧ (validateTreeSelectorChange (rq_obj req) (rq_oldObj req) = mret tt ∧
     (validateNoneSelectorChange (rq_obj req) (rq_oldObj req) = mret tt ∧ (validateAllSelectorChange (rq_obj req) (rq_oldObj req) = mret tt ∧
       (validateSelectorUniqueness (rq_obj req) (rq_oldObj req) = "" ∧ conflicts_below f (rq_obj req) l = [])))))))
    as (resp & Hr & Ha) end.
  2:{ exists resp. split; [done|]. rewrite Ha, validateSelectorAnnot_nil, validateSelectorUniqueness_nil. unfold changes_parse. tauto. }
  destruct (decide (validateSelectorAnnot (rq_obj req) ≠ "")) as [Hva|Hva].
  { eexists. split; [done|]. split; [done|]. by intros [? _]. }
  apply dec_stable in Hva.
  assert (∀ m (P Q : Prop), P → (∃ resp : Response, m = Done (resp, f) ∧ (Allowed resp = true ↔ Q)) →
    ∃ resp, m = Done (resp, f) ∧ (Allowed resp = true ↔ P ∧ Q)) as Hdrop by (intros m P Q HP (r & ? & ?); exists r; tauto).
  apply Hdrop; [done|]. clear Hdrop.
  apply or_reject_spec; [apply change_total, GetSelector_total..|]. intros _.
  apply or_reject_spec; [done|apply change_finite, GetTreeSelector_finite|]. intros _.
  apply or_reject_spec; [apply change_total, GetNoneSelector_total..|]. intros _.
  apply or_reject_spec; [apply change_total, GetAllSelector_total..|].
  intros _.
  destruct (decide (validateSelectorUniqueness (rq_obj req) (rq_oldObj req) ≠ "")) as [Hu|Hu].
  { eexists. split; [done|]. split; [done|]. by intros [? _]. }
  apply dec_stable in Hu. rewrite (M_bind_Done _ _ _ _ _ (hasConflict_spec f _ l Hwf Hl Hsp)).
  destruct (conflicts_below f (rq_obj req) l) eqn:Hc; simpl.
  - eexists. split; [done|]. split; [done|]. done.
  - eexists. split; [done|]. split; [done|]. by intros [_ ?].
Qed.
End facts.
