(* ===== verification/HncConfig.v ===== *)
(** * The HNC configuration (internal/hncconfig: reconciler.go)

    The reconciler of the cluster-wide singleton: it maps the configured resources
    to kinds, keeps one object reconciler per kind in the configured mode (files
    Objects and Forest hold their state), and reports statuses and conditions.  The
    mapping from resources to kinds is answered by the API server (parameter
    [mapper]); the tables of active types are rebuilt in every reconciliation. *)

From S2P Require Import Prelude GoStrings Chains Validation Api Config Selectors Resources Forest ForestWf ForestWalks.
From S2P Require Import World Objects.

(** ** api/v1alpha2/hnc_config.go *)
Definition HNCConfigSingleton : string := "config".
Definition RBACGroup : string := "rbac.authorization.k8s.io".
Definition RoleResource : string := "roles".
Definition RoleBindingResource : string := "rolebindings".
Definition ConditionBadTypeConfiguration : string := "BadConfiguration".
Definition ConditionOutOfSync : string := "OutOfSync".
Definition ConditionNamespace : string := "NamespaceCondition".
Definition ReasonMultipleConfigsForType : string := "MultipleConfigurationsForType".
Definition ReasonResourceNotFound : string := "ResourceNotFound".
Definition ReasonResourceNotNamespaced : string := "ResourceNotNamespaced".
Definition ReasonUnknown : string := "Unknown".

Record GroupResource := mkGR { gr_Group : string; gr_Resource : string }.
#[export] Instance GroupResource_eq_dec : EqDecision GroupResource.
Proof. solve_decision. Defined.
#[export] Instance GroupResource_countable : Countable GroupResource.
Proof. refine (inj_countable' (λ g, (gr_Group g, gr_Resource g)) (λ t, mkGR t.1 t.2) _). by intros []. Defined.
(** [schema.GroupResource.String] *)
Definition gr_String (gr : GroupResource) : string :=
  if decide (gr_Group gr = "") then gr_Resource gr else gr_Resource gr +:+ "." +:+ gr_Group gr.

Record ResourceSpec := { rsp_GR : GroupResource; rsp_Mode : SynchronizationMode }.
Record ResourceStatus := {
  rst_GR : GroupResource;
  rst_Version : string;
  rst_Mode : SynchronizationMode;
  rst_NumPropagatedObjects : option nat;
  rst_NumSourceObjects : option nat
}.
Record HNCConfiguration := mkHNCConfig {
  hn_Meta : ObjectMeta;
  hn_Resources : list ResourceSpec;
  hn_Statuses : list ResourceStatus;
  hn_Conditions : list Condition
}.

Definition EnforcedTypes : list ResourceSpec :=
  [{| rsp_GR := mkGR RBACGroup RoleResource; rsp_Mode := Propagate |};
   {| rsp_GR := mkGR RBACGroup RoleBindingResource; rsp_Mode := Propagate |}].

Definition IsEnforcedType (grm : ResourceSpec) : bool := existsb (λ tp, bool_decide (rsp_GR tp = rsp_GR grm)) EnforcedTypes.

(** api/v1alpha2/hierarchy_types.go *)
Definition AllConditions : gmap string (list string) :=
  {[ConditionActivitiesHalted := [ReasonAncestor; ReasonDeletingCRD; ReasonIllegalManagedAnnotation; ReasonIllegalManagedLabel;
      ReasonIllegalParent; ReasonInCycle; ReasonParentMissing];
    ConditionBadConfiguration := [ReasonAnchorMissing]]}.

(** ** Mapping resources to kinds *)
Inductive mapError :=
  | NoMatch (msg : string)
  | NotNamespaced (msg : string)
  | MapOther (msg : string).
Definition mapError_msg (e : mapError) : string := match e with NoMatch m | NotNamespaced m | MapOther m => m end.

Definition reasonForGVKError (e : mapError) : string :=
  match e with
  | NoMatch _ => ReasonResourceNotFound
  | NotNamespaced _ => ReasonResourceNotNamespaced
  | MapOther _ => ReasonUnknown
  end.

Definition zeroGVK : GroupVersionKind := mkGVK "" "" "".

Record gvkMode := { gm_gvk : GroupVersionKind; gm_mode : SynchronizationMode }.
Abbreviation gr2gvkMode := (gmap GroupResource gvkMode).
Abbreviation gvk2gr := (gmap GroupVersionKind GroupResource).

Section config.
  Context `{RO : RangeOrder} (mapper : GroupResource → mapError + GroupVersionKind) (now : Z).

Definition newGVKChecker : list GroupVersionKind :=
  (λ t, match mapper (rsp_GR t) with inr gvk => gvk | inl _ => zeroGVK end) <$> EnforcedTypes.
Definition isEnforced (gvk : GroupVersionKind) : bool := existsb (λ e, bool_decide (gvk = e)) newGVKChecker.

Definition writeCondition (tp reason msg : string) (inst : HNCConfiguration) : HNCConfiguration :=
  mkHNCConfig (hn_Meta inst) (hn_Resources inst) (hn_Statuses inst)
    (SetStatusCondition now (mkCondition tp ConditionTrue None reason msg) (hn_Conditions inst)).

(** The reconciler's tables: GR to GVK and mode, and GVK to GR. *)
Record tables := { tb_activeGVKMode : gr2gvkMode; tb_activeGR : gvk2gr }.
Definition activate (gr : GroupResource) (gvk : GroupVersionKind) (mode : SynchronizationMode) (tb : tables) : tables :=
  {| tb_activeGVKMode := <[gr := {| gm_gvk := gvk; gm_mode := mode |}]> (tb_activeGVKMode tb);
     tb_activeGR := <[gvk := gr]> (tb_activeGR tb) |}.

(** Stops with an error at an enforced type that cannot be mapped. *)
Fixpoint ensureEnforcedTypes (ts : list ResourceSpec) (inst : HNCConfiguration) (tb : tables)
    : HNCConfiguration * tables * option mapError :=
  match ts with
  | [] => (inst, tb, None)
  | t :: ts' =>
      match mapper (rsp_GR t) with
      | inl err => (writeCondition ConditionBadTypeConfiguration (reasonForGVKError err) (mapError_msg err) inst, tb, Some err)
      | inr gvk => ensureEnforcedTypes ts' inst (activate (rsp_GR t) gvk (rsp_Mode t) tb)
      end
  end.

(** The first configuration of a kind wins; the others are reported. *)
Definition configType (it : HNCConfiguration * tables) (rsc : ResourceSpec) : HNCConfiguration * tables :=
  let '(inst, tb) := it in
  let gr := rsp_GR rsc in
  match mapper gr with
  | inl err => (writeCondition ConditionBadTypeConfiguration (reasonForGVKError err) (mapError_msg err) inst, tb)
  | inr gvk =>
      match tb_activeGR tb !! gvk with
      | Some firstGR =>
          let mode := match tb_activeGVKMode tb !! firstGR with Some gm => gm_mode gm | None => "" end in
          let msg := if isEnforced gvk
                     then "The sync mode for " +:+ quoted (gr_String gr) +:+ " is enforced by HNC as " +:+ quoted Propagate +:+ " and cannot be overridden"
                     else "Multiple sync mode settings found for " +:+ quoted (gr_String gr) +:+ "; all but one (" +:+ quoted mode +:+ ") will be ignored" in
          (writeCondition ConditionBadTypeConfiguration ReasonMultipleConfigsForType msg inst, tb)
      | None => (inst, activate gr gvk (rsp_Mode rsc) tb)
      end
  end.
Definition reconcileConfigTypes (inst : HNCConfiguration) (tb : tables) : HNCConfiguration * tables :=
  fold_left configType (hn_Resources inst) (inst, tb).

Definition reconcileTypes (inst : HNCConfiguration) : HNCConfiguration * tables * option mapError :=
  match ensureEnforcedTypes EnforcedTypes inst {| tb_activeGVKMode := ∅; tb_activeGR := ∅ |} with
  | (inst, tb, Some err) => (inst, tb, Some err)
  | (inst, tb, None) => let '(inst, tb) := reconcileConfigTypes inst tb in (inst, tb, None)
  end.

(** ** The API server *)
Inductive CfgEvent :=
  | CreateConfig (c : HNCConfiguration)
  | UpdateConfig (c : HNCConfiguration)
  | PatchRules (rules : list (string * list string))
  | ObjectsEvent (e : ObjEvent).

Record configApi := {
  ca_get : ApiResult HNCConfiguration;
  ca_webhooks : string + list string;       (* the names of the validating webhooks *)
  ca_patch : option string;
  ca_isDeletingCRD : string + bool;
  ca_create : option string;
  ca_update : option string;
  ca_list : GroupVersionKind → string → string + list Unstructured;
  ca_setup : GroupVersionKind → option string  (* starting an object reconciler *)
}.
Context (api : configApi).

Definition ObjectsWebhookName : string := "objects.hnc.x-k8s.io".
Definition ValidatingWebhookConfigurationName : string := "hnc-validating-webhook-configuration".

Definition validateSingleton (inst : HNCConfiguration) : HNCConfiguration :=
  if decide (om_Name (hn_Meta inst) = "")
  then mkHNCConfig (set_om_NamespacedName (om_Namespace (hn_Meta inst)) HNCConfigSingleton (hn_Meta inst))
         (hn_Resources inst) (hn_Statuses inst) (hn_Conditions inst)
  else inst.

Definition getSingleton : string + HNCConfiguration :=
  match ca_get api with
  | ApiError err => inl err
  | Found inst => inr (validateSingleton inst)
  | NotFound => inr (validateSingleton (mkHNCConfig blankMeta [] [] []))
  end.

Definition writeSingleton (inst : HNCConfiguration) : M (World CfgEvent) (option string) :=
  if IsZero (om_CreationTimestamp (hn_Meta inst)) then
    match ca_isDeletingCRD api with
    | inl err => mret (Some err)
    | inr true => mret None
    | inr false => emit [CreateConfig inst] ≫= λ _, mret (ca_create api)
    end
  else emit [UpdateConfig inst] ≫= λ _, mret (ca_update api).

(** One rule per group, with the resources of the group. *)
Definition objectWebhookRules (mode : gr2gvkMode) : list (string * list string) :=
  let g2r : gmap string (list string) :=
    fold_left (λ m gr, <[gr_Group gr := default [] (m !! gr_Group gr) ++ [gr_Resource gr]]> m) (keys_of mode) ∅ in
  range g2r.

Definition syncObjectWebhookConfigs (tb : tables) : M (World CfgEvent) (option string) :=
  match ca_webhooks api with
  | inl err => mret (Some err)
  | inr names =>
      if existsb (λ n, bool_decide (n = ObjectsWebhookName)) names
      then emit [PatchRules (objectWebhookRules (tb_activeGVKMode tb))] ≫= λ _, mret (ca_patch api)
      else mret (Some ("webhook " +:+ quoted ObjectsWebhookName +:+ " not found in ValidatingWebhookConfiguration " +:+ quoted ValidatingWebhookConfigurationName))
  end.

(** ** Object reconcilers *)
Definition gvk_text (gvk : GroupVersionKind) : string := Group gvk +:+ "/" +:+ Version gvk +:+ ", Kind=" +:+ Kind gvk.

Definition createObjectReconciler (gvk : GroupVersionKind) (mode : SynchronizationMode) (inst : HNCConfiguration)
    : M (World CfgEvent) HNCConfiguration :=
  updF (AddListener (ObjectListener gvk)) ≫= λ _,
  match ca_setup api gvk with
  | Some err => mret (writeCondition ConditionOutOfSync ReasonUnknown ("Cannot sync objects of type " +:+ gvk_text gvk +:+ ": " +:+ err) inst)
  | None =>
      updF (AddTypeSyncer {| ts_GVK := gvk; ts_Mode := GetValidateMode mode; ts_propagatedObjects := ∅ |}) ≫= λ _, mret inst
  end.

Definition setMode (gvk : GroupVersionKind) (mode : SynchronizationMode) : M (World CfgEvent) (option string) :=
  embed ObjectsEvent (SetMode gvk mode (ca_list api gvk)).

Fixpoint syncActiveReconcilers (gms : list gvkMode) (inst : HNCConfiguration) : M (World CfgEvent) (HNCConfiguration * option string) :=
  match gms with
  | [] => mret (inst, None)
  | gm :: gms' =>
      f ← getF;
      match GetTypeSyncer (gm_gvk gm) f with
      | Some _ =>
          err ← setMode (gm_gvk gm) (gm_mode gm);
          match err with
          | Some e => mret (inst, Some e)
          | None => syncActiveReconcilers gms' inst
          end
      | None =>
          inst ← createObjectReconciler (gm_gvk gm) (gm_mode gm) inst;
          syncActiveReconcilers gms' inst
      end
  end.

Fixpoint syncRemovedReconcilers (active : list GroupVersionKind) (ts : list TypeSyncer) : M (World CfgEvent) (option string) :=
  match ts with
  | [] => mret None
  | t :: ts' =>
      if decide (ts_GVK t ∈ active) then syncRemovedReconcilers active ts'
      else
        err ← setMode (ts_GVK t) Ignore;
        match err with
        | Some e => mret (Some e)
        | None => syncRemovedReconcilers active ts'
        end
  end.

Definition syncObjectReconcilers (tb : tables) (inst : HNCConfiguration) : M (World CfgEvent) (HNCConfiguration * option string) :=
  let gms := (range (tb_activeGVKMode tb)).*2 in
  '(inst, err) ← syncActiveReconcilers gms inst;
  match err with
  | Some e => mret (inst, Some e)
  | None =>
      f ← getF;
      err ← syncRemovedReconcilers (gm_gvk <$> gms) (GetTypeSyncers f);
      mret (inst, err)
  end.

(** ** Statuses and conditions *)
Definition type_status (f : Forest) (tb : tables) (t : TypeSyncer) : list ResourceStatus :=
  match tb_activeGR tb !! ts_GVK t with
  | None => []
  | Some gr =>
      [{| rst_GR := gr;
          rst_Version := Version (ts_GVK t);
          rst_Mode := ts_Mode t;
          rst_NumPropagatedObjects := if decide (ts_Mode t ≠ Ignore) then Some (size (ts_propagatedObjects t)) else None;
          rst_NumSourceObjects := if CanPropagate t
            then Some (sum_list_with (λ nm, GetNumSourceObjects (ns_at f nm) (ts_GVK t)) (GetNamespaceNames f)) else None |}]
  end.

(** The order of the statuses: by group, then by resource. *)
Definition status_le (s s' : ResourceStatus) : Prop :=
  if decide (gr_Group (rst_GR s) = gr_Group (rst_GR s')) then String.le (gr_Resource (rst_GR s)) (gr_Resource (rst_GR s'))
  else String.le (gr_Group (rst_GR s)) (gr_Group (rst_GR s')).
#[local] Instance status_le_dec : RelDecision status_le.
Proof. intros s s'. unfold status_le. destruct (decide _); apply _. Defined.

Definition setTypeStatuses (f : Forest) (tb : tables) (inst : HNCConfiguration) : HNCConfiguration :=
  mkHNCConfig (hn_Meta inst) (hn_Resources inst) (merge_sort status_le (GetTypeSyncers f ≫= type_status f tb)) (hn_Conditions inst).

(** The names of the namespaces with a condition, once per condition. *)
Definition affected_by (f : Forest) (tp reason : string) : outcome (list string) :=
  foldr (λ nsnm rest,
    cs ← match f_namespaces f !! nsnm with Some l => Conditions f l | None => Done [] end;
    names ← rest;
    mret (((λ _, nsnm) <$> filter (λ c, c_Type c = tp ∧ c_Reason c = reason) cs) ++ names))
    (Done []) (GetNamespaceNames f).

Definition condition_msg (nsnms : list string) (reason : string) : string :=
  let l := length nsnms in
  let sep := dquote +:+ ", " +:+ dquote in
  if decide (3 < l) then
    Itoa l +:+ " namespaces " +:+ dquote +:+ Join (take 3 nsnms) sep +:+ dquote +:+ " ... are affected by " +:+ quoted reason
  else if decide (l = 1) then "Namespaces " +:+ quoted (default "" (head nsnms)) +:+ " is affected by " +:+ quoted reason
  else Itoa l +:+ " namespaces " +:+ dquote +:+ Join nsnms sep +:+ dquote +:+ " are affected by " +:+ quoted reason.

Fixpoint load_conditions (f : Forest) (pairs : list (string * string)) (inst : HNCConfiguration) : outcome HNCConfiguration :=
  match pairs with
  | [] => Done inst
  | (tp, reason) :: pairs' =>
      nsnms ← affected_by f tp reason;
      load_conditions f pairs'
        (if decide (nsnms = []) then inst
         else writeCondition ConditionNamespace tp (condition_msg (sort_Strings nsnms) reason) inst)
  end.

Definition loadNamespaceConditions (f : Forest) (inst : HNCConfiguration) : outcome HNCConfiguration :=
  load_conditions f (range AllConditions ≫= λ '(tp, reasons), pair tp <$> reasons) inst.

Definition clear_conditions (inst : HNCConfiguration) : HNCConfiguration :=
  mkHNCConfig (hn_Meta inst) (hn_Resources inst) (hn_Statuses inst) [].

Definition Reconcile : M (World CfgEvent) (option string) :=
  match getSingleton with
  | inl err => mret (Some err)
  | inr inst =>
      match reconcileTypes (clear_conditions inst) with
      | (_, _, Some err) => mret (Some (mapError_msg err))
      | (inst, tb, None) =>
          err ← syncObjectWebhookConfigs tb;
          match err with
          | Some e => mret (Some e)
          | None =>
              '(inst, syncErr) ← syncObjectReconcilers tb inst;
              f ← getF;
              let inst := setTypeStatuses f tb inst in
              inst ← lift_outcome (loadNamespaceConditions f inst);
              err ← writeSingleton inst;
              match err with
              | Some e => mret (Some e)
              | None => mret syncErr
              end
          end
      end
  end.
End config.
