(* ===== verification/HncConfigFacts.v ===== *)
(** * Properties of the HNC configuration reconciler

    The tables of active types, the modes of the object reconcilers after a
    reconciliation, and the reported conditions. *)

From S2P Require Import Prelude GoStrings Chains Validation Api Config Selectors Resources Forest ForestWf ForestWalks.
From S2P Require Import ForestReads Sound World Objects HncConfig.

(** ** The tables of active types *)
Section tables.
  Context `{RO : RangeOrder} (mapper : GroupResource → mapError + GroupVersionKind) (now : Z).

(** The two tables agree with the mapper and with each other; a kind is in one mode only. *)
Record tables_ok (tb : tables) : Prop := {
  tk_mapper gr gm : tb_activeGVKMode tb !! gr = Some gm → mapper gr = inr (gm_gvk gm);
  tk_active gr gm : tb_activeGVKMode tb !! gr = Some gm → is_Some (tb_activeGR tb !! gm_gvk gm);
  tk_first gvk gr : tb_activeGR tb !! gvk = Some gr → ∃ mode, tb_activeGVKMode tb !! gr = Some {| gm_gvk := gvk; gm_mode := mode |};
  tk_mode gr gr' gm gm' : tb_activeGVKMode tb !! gr = Some gm → tb_activeGVKMode tb !! gr' = Some gm' →
    gm_gvk gm = gm_gvk gm' → gm_mode gm = gm_mode gm'
}.

Lemma activate_ok tb gr gvk mode : tables_ok tb → mapper gr = inr gvk →
  (∀ gr' gm, tb_activeGVKMode tb !! gr' = Some gm → gm_gvk gm = gvk → gm_mode gm = mode) →
  tables_ok (activate gr gvk mode tb).
Proof.
  intros [Hm Ha Hf Hmd] Hgr Hsame. split; simpl.
  - intros gr' gm [[<- <-]|[_ ?]]%lookup_insert_Some; [done|eauto].
  - intros gr' gm [[<- <-]|[_ Hg]]%lookup_insert_Some; simpl; [by rewrite lookup_insert_eq|].
    destruct (decide (gvk = gm_gvk gm)) as [->|]; [by rewrite lookup_insert_eq|]. rewrite lookup_insert_ne by done. eauto.
  - intros g gr' [[<- <-]|[Hne Hg]]%lookup_insert_Some; [rewrite lookup_insert_eq; eauto|].
    destruct (Hf _ _ Hg) as [md Hmd']. destruct (decide (gr = gr')) as [->|]; [|rewrite lookup_insert_ne by done; eauto].
    exfalso. apply Hm in Hmd'. simpl in Hmd'. congruence.
  - intros gr1 gr2 gm1 gm2 [[<- <-]|[_ H1]]%lookup_insert_Some [[<- <-]|[_ H2]]%lookup_insert_Some Heq; simpl in *; eauto.
    symmetry. eauto.
Qed.

Lemma configType_ok it rsc : tables_ok it.2 → tables_ok (configType mapper now it rsc).2.
Proof.
  destruct it as [inst tb]. simpl. intros Hok. destruct (mapper (rsp_GR rsc)) as [|gvk] eqn:Hm; [done|].
  destruct (tb_activeGR tb !! gvk) as [gr|] eqn:Ha; [done|]. simpl. apply activate_ok; [done..|].
  intros gr' gm Hg <-. apply (tk_active _ Hok) in Hg as [? ?]. congruence.
Qed.

Lemma configTypes_ok rs it : tables_ok it.2 → tables_ok (fold_left (configType mapper now) rs it).2.
Proof. revert it. induction rs as [|r rs IH]; intros it Hok; [done|]. simpl. by apply IH, configType_ok. Qed.

Lemma tables_ok_empty : tables_ok {| tb_activeGVKMode := ∅; tb_activeGR := ∅ |}.
Proof. split; simpl; [intros ??|intros ??|intros ??|intros ????]; by rewrite lookup_empty. Qed.

(** The first entry of a list of resources that is for a kind. *)
Definition is_for (gvk : GroupVersionKind) (r : ResourceSpec) : bool :=
  match mapper (rsp_GR r) with inr g => bool_decide (g = gvk) | inl _ => false end.
Definition first_for (rs : list ResourceSpec) (gvk : GroupVersionKind) : option ResourceSpec := List.find (is_for gvk) rs.

(** The mode that a configuration asks for: the enforced types come first, and of several
    resources of a kind the first counts. *)
Definition configured (rs : list ResourceSpec) (gvk : GroupVersionKind) : option SynchronizationMode :=
  rsp_Mode <$> first_for (EnforcedTypes ++ rs) gvk.

Lemma is_for_spec gvk r : is_for gvk r = true ↔ mapper (rsp_GR r) = inr gvk.
Proof. unfold is_for. destruct (mapper (rsp_GR r)); [naive_solver|]. rewrite bool_decide_eq_true. naive_solver. Qed.

Lemma first_for_app rs rs' gvk : first_for (rs ++ rs') gvk = match first_for rs gvk with Some r => Some r | None => first_for rs' gvk end.
Proof. unfold first_for. induction rs as [|r rs IH]; simpl; [done|]. by destruct (is_for gvk r). Qed.

(** The tables hold what the entries seen so far ask for. *)
Definition represents (tb : tables) (seen : list ResourceSpec) : Prop := ∀ g,
  match first_for seen g with
  | Some r => ∃ gr, tb_activeGR tb !! g = Some gr ∧ tb_activeGVKMode tb !! gr = Some {| gm_gvk := g; gm_mode := rsp_Mode r |}
  | None => tb_activeGR tb !! g = None
  end.

Lemma configType_represents it rsc seen : tables_ok it.2 → represents it.2 seen →
  represents (configType mapper now it rsc).2 (seen ++ [rsc]).
Proof.
  destruct it as [inst tb]. simpl. intros Hok Hrep g. specialize (Hrep g) as Hg. rewrite first_for_app. unfold first_for at 2. simpl.
  destruct (is_for g rsc) eqn:Hf.
  - apply is_for_spec in Hf. rewrite Hf. destruct (first_for seen g) as [r|].
    + destruct Hg as (gr & Hgr & Hm). rewrite Hgr. simpl. eauto.
    + rewrite Hg. simpl. exists (rsp_GR rsc). by rewrite !lookup_insert_eq.
  - assert (mapper (rsp_GR rsc) ≠ inr g) as Hne by (intros Hm%is_for_spec; congruence).
    destruct (mapper (rsp_GR rsc)) as [e|gvk] eqn:Hm; [by destruct (first_for seen g)|].
    destruct (tb_activeGR tb !! gvk) as [gr|] eqn:Ha; [by destruct (first_for seen g)|]. simpl.
    assert (gvk ≠ g) as Hgvk by congruence. rewrite lookup_insert_ne by done. destruct (first_for seen g) as [r|]; [|done].
    destruct Hg as (gr & Hgr & Hmd). exists gr. rewrite lookup_insert_ne; [done|]. intros <-.
    apply (tk_mapper _ Hok) in Hmd. simpl in Hmd. congruence.
Qed.

Lemma configTypes_represents rs it seen : tables_ok it.2 → represents it.2 seen →
  represents (fold_left (configType mapper now) rs it).2 (seen ++ rs).
Proof.
  revert it seen. induction rs as [|r rs IH]; intros it seen Hok Hrep; simpl; [by rewrite app_nil_r|].
  rewrite cons_middle, app_assoc. apply IH; [by apply configType_ok|by apply configType_represents].
Qed.

(** The enforced types are always in the tables first. *)
Lemma ensureEnforced_represents inst : (∀ t, t ∈ EnforcedTypes → ∃ gvk, mapper (rsp_GR t) = inr gvk) →
  ∃ tb, ensureEnforcedTypes mapper now EnforcedTypes inst {| tb_activeGVKMode := ∅; tb_activeGR := ∅ |} = (inst, tb, None) ∧
    tables_ok tb ∧ represents tb EnforcedTypes.
Proof.
  intros Hmap. unfold EnforcedTypes in *.
  set (t1 := {| rsp_GR := mkGR RBACGroup RoleResource; rsp_Mode := Propagate |}) in *.
  set (t2 := {| rsp_GR := mkGR RBACGroup RoleBindingResource; rsp_Mode := Propagate |}) in *.
  destruct (Hmap t1) as [g1 H1]; [by left|]. destruct (Hmap t2) as [g2 H2]; [by right; left|].
  eexists. split; [cbn [ensureEnforcedTypes]; rewrite H1, H2; reflexivity|]. split.
  - apply activate_ok; [apply activate_ok; [apply tables_ok_empty|done|]|done|].
    + intros gr gm. simpl. by rewrite lookup_empty.
    + intros gr gm. simpl. intros [[_ <-]|[_ Hl]]%lookup_insert_Some; [done|by rewrite lookup_empty in Hl].
  - intros g. unfold first_for. cbn [List.find]. unfold is_for. rewrite H1, H2. simpl.
    destruct (bool_decide_reflect (g1 = g)) as [->|Hg1].
    + destruct (decide (g2 = g)) as [->|Hg2]; [exists (rsp_GR t2); by rewrite !lookup_insert_eq|].
      exists (rsp_GR t1). rewrite lookup_insert_ne, lookup_insert_eq by done. by rewrite lookup_insert_ne, lookup_insert_eq by done.
    + destruct (bool_decide_reflect (g2 = g)) as [->|Hg2]; [exists (rsp_GR t2); by rewrite !lookup_insert_eq|].
      by rewrite !lookup_insert_ne, lookup_empty.
Qed.

Lemma reconcileTypes_represents inst : (∀ t, t ∈ EnforcedTypes → ∃ gvk, mapper (rsp_GR t) = inr gvk) →
  ∃ inst' tb, reconcileTypes mapper now inst = (inst', tb, None) ∧ tables_ok tb ∧ represents tb (EnforcedTypes ++ hn_Resources inst).
Proof.
  intros Hmap. destruct (ensureEnforced_represents inst Hmap) as (tb & He & Hok & Hrep). unfold reconcileTypes. rewrite He.
  unfold reconcileConfigTypes. pose proof (configTypes_ok (hn_Resources inst) (inst, tb) Hok) as Hok'.
  pose proof (configTypes_represents (hn_Resources inst) (inst, tb) _ Hok Hrep) as Hrep'.
  destruct (fold_left _ _ _) as [inst2 tb2]. eauto.
Qed.
End tables.

(** ** The modes of the object reconcilers *)
Definition mode_of (f : Forest) (gvk : GroupVersionKind) : option SynchronizationMode := ts_Mode <$> GetTypeSyncer gvk f.

(** Forests that differ in the registered types and listeners only. *)
Definition same_namespaces (f f' : Forest) : Prop :=
  f_namespaces f' = f_namespaces f ∧ f_heap f' = f_heap f ∧ f_next f' = f_next f.

Lemma same_namespaces_vitals f f' : same_namespaces f f' → heap_sim vitals f f'.
Proof. intros (Hn & Hh & Hx). unfold heap_sim. by rewrite Hn, Hh, Hx. Qed.

Lemma same_namespaces_trans f g h : same_namespaces f g → same_namespaces g h → same_namespaces f h.
Proof. unfold same_namespaces. intuition congruence. Qed.

Lemma find_map_gvk (g : TypeSyncer → TypeSyncer) gvk gvk' ts : (∀ t, ts_GVK (g t) = ts_GVK t) →
  List.find (λ t, bool_decide (ts_GVK t = gvk')) ((λ t, if decide (ts_GVK t = gvk) then g t else t) <$> ts) =
  (if decide (gvk' = gvk) then fmap g else id) (List.find (λ t, bool_decide (ts_GVK t = gvk')) ts).
Proof.
  intros Hg. induction ts as [|t ts IH]; simpl; [by destruct (decide _)|].
  destruct (decide (ts_GVK t = gvk)) as [<-|Hne].
  - rewrite Hg. destruct (decide (gvk' = ts_GVK t)) as [->|Hne']; [by rewrite !bool_decide_eq_true_2|].
    rewrite !bool_decide_eq_false_2 by congruence. exact IH.
  - destruct (bool_decide_reflect (ts_GVK t = gvk')) as [<-|]; [|exact IH]. by rewrite decide_False.
Qed.

Lemma mode_of_upd gvk m f g : mode_of (upd_syncer gvk (set_ts_Mode m) f) g =
  if decide (g = gvk) then (λ _, m) <$> mode_of f g else mode_of f g.
Proof.
  unfold mode_of, GetTypeSyncer, upd_syncer. simpl. rewrite find_map_gvk by done. destruct (decide (g = gvk)); [|done].
  by destruct (List.find _ _).
Qed.

Lemma GetTypeSyncer_gvk gvk f t : GetTypeSyncer gvk f = Some t → ts_GVK t = gvk.
Proof. unfold GetTypeSyncer. intros Hf. apply find_some in Hf as [_ Hf]. by apply bool_decide_eq_true in Hf. Qed.

Section set_mode.
  Context `{RO : RangeOrder}.

Lemma enqueue_namespaces_runs lst keys f : ∃ err evs, runs (enqueue_namespaces lst keys) f err f evs.
Proof.
  induction keys as [|k keys (err & evs & IH)]; [eexists _, _; apply runs_ret|]. simpl. unfold enqueueExistingObjects.
  destruct (lst k) as [e|items].
  - eexists _, _. eapply runs_bind; [apply runs_ret|]. apply runs_ret.
  - eexists _, _. eapply runs_bind; [eapply runs_bind; [apply runs_emit|apply runs_ret]|]. exact IH.
Qed.

(** The mode is set even if the objects could not be listed. *)
Lemma SetMode_runs gvk mode lst f : is_Some (GetTypeSyncer gvk f) →
  ∃ err f' evs, runs (SetMode gvk mode lst) f err f' evs ∧ same_namespaces f f' ∧
    ∀ g, mode_of f' g = if decide (g = gvk) then Some (GetValidateMode mode) else mode_of f g.
Proof.
  intros [t Ht]. unfold SetMode. destruct (decide (GetValidateMode mode = ts_Mode t)) as [Hm|Hm].
  - exists None, f, []. split_and!; [|done|].
    + eapply runs_step; [apply runs_getF|]. eapply runs_step; [by apply runs_nonnil|]. rewrite decide_True by done. apply runs_ret.
    + intros g. destruct (decide (g = gvk)) as [->|]; [|done]. unfold mode_of. rewrite Ht. simpl. by rewrite Hm.
  - set (f' := upd_syncer gvk (set_ts_Mode (GetValidateMode mode)) f).
    assert (∃ err evs, runs (if decide (GetValidateMode mode ≠ Ignore) then enqueueAllObjects lst else mret None) f' err f' evs) as (err & evs & Hr).
    { destruct (decide _); [|eexists _, _; apply runs_ret]. destruct (enqueue_namespaces_runs lst (GetNamespaceNames f') f') as (err & evs & Hr).
      eexists _, _. eapply runs_step; [apply runs_getF|exact Hr]. }
    exists err, f', evs. split_and!; [|done|].
    + eapply runs_step; [apply runs_getF|]. eapply runs_step; [by apply runs_nonnil|]. rewrite decide_False by done.
      eapply runs_step; [apply runs_updF|]. exact Hr.
    + intros g. unfold f'. rewrite mode_of_upd. destruct (decide (g = gvk)) as [->|]; [|done]. unfold mode_of. by rewrite Ht.
Qed.
End set_mode.

Section sync.
  Context `{RO : RangeOrder} (mapper : GroupResource → mapError + GroupVersionKind) (now : Z) (api : configApi).

Lemma setMode_runs gvk mode f : is_Some (GetTypeSyncer gvk f) →
  ∃ err f' evs, runs (setMode api gvk mode) f err f' evs ∧ same_namespaces f f' ∧
    ∀ g, mode_of f' g = if decide (g = gvk) then Some (GetValidateMode mode) else mode_of f g.
Proof.
  intros Ht. destruct (SetMode_runs gvk mode (ca_list api gvk) f Ht) as (err & f' & evs & Hr & ? & ?).
  eexists err, f', _. split_and!; [by apply runs_embed|done..].
Qed.

Lemma createObjectReconciler_runs gvk mode inst f : GetTypeSyncer gvk f = None →
  ∃ inst' f', runs (createObjectReconciler now api gvk mode inst) f inst' f' [] ∧ same_namespaces f f' ∧
    ∀ g, mode_of f' g = if decide (g = gvk ∧ ca_setup api gvk = None) then Some (GetValidateMode mode) else mode_of f g.
Proof.
  intros Hn. unfold createObjectReconciler. destruct (ca_setup api gvk) as [e|] eqn:Hs.
  - eexists _, _. split_and!; [eapply runs_step; [apply runs_updF|apply runs_ret]|done|]. intros g. rewrite decide_False; [done|]. by intros [_ ?].
  - eexists _, _. split_and!; [eapply runs_step; [apply runs_updF|]; eapply runs_step; [apply runs_updF|apply runs_ret]|done|].
    intros g. unfold mode_of, GetTypeSyncer in *. simpl.
    assert (∀ ts t, List.find (λ t, bool_decide (ts_GVK t = g)) (ts ++ [t]) =
      match List.find (λ t, bool_decide (ts_GVK t = g)) ts with Some x => Some x | None => if decide (ts_GVK t = g) then Some t else None end) as Hf.
    { intros ts t. induction ts as [|x ts IH]; simpl; [destruct (bool_decide_reflect (ts_GVK t = g)); [by rewrite decide_True|by rewrite decide_False]|]. by destruct (bool_decide _). }
    rewrite Hf. destruct (decide (g = gvk)) as [->|Hne]; simpl.
    + rewrite Hn, !decide_True by done. done.
    + rewrite (decide_False (P := gvk = g)) by done. destruct (decide (g = gvk ∧ None = None)) as [[? _]|_]; [done|]. by destruct (List.find (λ t, bool_decide (ts_GVK t = g)) (f_types f)).
Qed.

(** The mode that an active type ends in: there is none if it is new and its reconciler
    cannot be set up. *)
Definition established (f : Forest) (g : GroupVersionKind) (m : SynchronizationMode) : option SynchronizationMode :=
  if decide (mode_of f g = None ∧ ca_setup api g ≠ None) then None else Some (GetValidateMode m).

(** Every active type ends in its configured mode. *)
Lemma syncActiveReconcilers_runs gms inst f :
  (∀ gm gm', gm ∈ gms → gm' ∈ gms → gm_gvk gm = gm_gvk gm' → gm_mode gm = gm_mode gm') →
  ∃ inst' err f' evs, runs (syncActiveReconcilers now api gms inst) f (inst', err) f' evs ∧ same_namespaces f f' ∧
    (∀ g, g ∉ gm_gvk <$> gms → mode_of f' g = mode_of f g) ∧
    (err = None → ∀ gm, gm ∈ gms → mode_of f' (gm_gvk gm) = established f (gm_gvk gm) (gm_mode gm)).
Proof.
  revert inst f. induction gms as [|gm gms IH]; intros inst f Hfun.
  { eexists _, _, f, _. split_and!; [apply runs_ret|done..|]. by intros _ gm ?%elem_of_nil. }
  assert (∀ inst1 f1, same_namespaces f f1 →
    (∀ g, mode_of f1 g = if decide (g = gm_gvk gm) then established f g (gm_mode gm) else mode_of f g) →
    ∃ inst' err f' evs, runs (syncActiveReconcilers now api gms inst1) f1 (inst', err) f' evs ∧ same_namespaces f f' ∧
      (∀ g, g ∉ gm_gvk <$> gm :: gms → mode_of f' g = mode_of f g) ∧
      (err = None → ∀ gm', gm' ∈ gm :: gms → mode_of f' (gm_gvk gm') = established f (gm_gvk gm') (gm_mode gm'))) as Hrest.
  { intros inst1 f1 Hs Hm. destruct (IH inst1 f1) as (inst' & err & f' & evs & Hr & Hs' & Hoff & Hon).
    - intros; apply Hfun; [by right..|done].
    - exists inst', err, f', evs. split_and!; [done|by eapply same_namespaces_trans|..].
      + intros g Hg. rewrite fmap_cons, not_elem_of_cons in Hg. destruct Hg as [Hg1 Hg2]. rewrite Hoff, Hm by done. by rewrite decide_False.
      + assert (∀ gm', gm' ∈ gm :: gms → established f1 (gm_gvk gm') (gm_mode gm') = established f (gm_gvk gm') (gm_mode gm')) as Heq.
        { intros gm' Hin. unfold established at 1. rewrite Hm. destruct (decide (gm_gvk gm' = gm_gvk gm)) as [Hg|]; [|done].
          rewrite (Hfun gm' gm) by (done || left). unfold established.
          destruct (decide (mode_of f (gm_gvk gm') = None ∧ ca_setup api (gm_gvk gm') ≠ None)) as [[_ ?]|]; [by rewrite decide_True|].
          rewrite decide_False; [done|]. by intros [? _]. }
        intros He gm' Hin. destruct (decide (gm_gvk gm' ∈ gm_gvk <$> gms)) as [Hin'|Hnin].
        * apply list_elem_of_fmap in Hin' as (gm2 & Hg2 & Hin2). rewrite Hg2, (Hon He gm2 Hin2), (Heq gm2) by (by right).
          f_equal. apply Hfun; [by right|done|done].
        * apply elem_of_cons in Hin as [->|Hin]; [|destruct Hnin; apply list_elem_of_fmap; eauto].
          rewrite Hoff, Hm by done. by rewrite decide_True. }
  cbn [syncActiveReconcilers]. destruct (GetTypeSyncer (gm_gvk gm) f) as [t|] eqn:Ht.
  - destruct (setMode_runs (gm_gvk gm) (gm_mode gm) f) as (err & f1 & e1 & Hr1 & Hs1 & Hm1); [by eexists|]. destruct err as [e|].
    + exists inst, (Some e), f1, (e1 ++ []). split_and!; [|done| |done].
      * eapply runs_step; [apply runs_getF|]. rewrite Ht. eapply runs_bind; [exact Hr1|]. apply runs_ret.
      * intros g Hg. rewrite fmap_cons, not_elem_of_cons in Hg. destruct Hg as [Hg _]. rewrite Hm1. by rewrite decide_False.
    + destruct (Hrest inst f1) as (inst' & err & f' & evs & Hr & Hs' & Hoff & Hon); [done| |].
      { intros g. rewrite Hm1. destruct (decide (g = gm_gvk gm)) as [->|]; [|done]. unfold established.
        rewrite decide_False; [done|]. unfold mode_of. rewrite Ht. by intros [? _]. }
      exists inst', err, f', (e1 ++ evs). split_and!; [|done..|].
      * eapply runs_step; [apply runs_getF|]. rewrite Ht. eapply runs_bind; [exact Hr1|]. exact Hr.
      * intros He. by apply Hon.
  - destruct (createObjectReconciler_runs (gm_gvk gm) (gm_mode gm) inst f Ht) as (inst1 & f1 & Hr1 & Hs1 & Hm1).
    destruct (Hrest inst1 f1) as (inst' & err & f' & evs & Hr & Hs' & Hoff & Hon); [done| |].
    { intros g. rewrite Hm1. unfold established. destruct (decide (g = gm_gvk gm)) as [->|Hne]; [|rewrite decide_False; [done|by intros [? _]]].
      assert (mode_of f (gm_gvk gm) = None) as Hn by (unfold mode_of; by rewrite Ht).
      destruct (ca_setup api (gm_gvk gm)); [rewrite decide_False by (by intros [_ ?]); by rewrite decide_True|].
      rewrite decide_True by done. by rewrite decide_False by (by intros [_ ?]). }
    exists inst', err, f', evs. split_and!; [|done..|].
    * eapply runs_step; [apply runs_getF|]. rewrite Ht. eapply runs_step; [exact Hr1|]. exact Hr.
    * intros He. by apply Hon.
Qed.

(** Types that are no longer configured are ignored. *)
Lemma syncRemovedReconcilers_runs active ts f : (∀ t, t ∈ ts → is_Some (GetTypeSyncer (ts_GVK t) f)) →
  ∃ err f' evs, runs (syncRemovedReconcilers api active ts) f err f' evs ∧ same_namespaces f f' ∧
    (∀ g, g ∈ active → mode_of f' g = mode_of f g) ∧
    (∀ g, g ∉ active → mode_of f' g = mode_of f g ∨ is_Some (mode_of f g) ∧ mode_of f' g = Some Ignore) ∧
    (err = None → ∀ t, t ∈ ts → ts_GVK t ∉ active → mode_of f' (ts_GVK t) = Some Ignore).
Proof.
  revert f. induction ts as [|t ts IH]; intros f Hts.
  { eexists _, f, _. split_and!; [apply runs_ret|done|done|by left|]. by intros _ t ?%elem_of_nil. }
  cbn [syncRemovedReconcilers]. destruct (decide (ts_GVK t ∈ active)) as [Ha|Ha].
  { destruct (IH f) as (err & f' & evs & Hr & Hs & Hact & Hoff & Hon); [intros; apply Hts; by right|].
    exists err, f', evs. split_and!; [done..|]. intros He t' [->|Ht']%elem_of_cons ?; [done|auto]. }
  destruct (setMode_runs (ts_GVK t) Ignore f) as (err & f1 & e1 & Hr1 & Hs1 & Hm1); [apply Hts; by left|].
  change (GetValidateMode Ignore) with Ignore in Hm1. destruct err as [e|].
  { exists (Some e), f1, (e1 ++ []). split_and!; [eapply runs_bind; [exact Hr1|apply runs_ret]|done|..|done].
    - intros g Hg. rewrite Hm1, decide_False; [done|]. by intros ->.
    - intros g _. rewrite Hm1. destruct (decide _) as [->|]; [right|by left]. split; [|done]. apply fmap_is_Some, Hts. by left. }
  destruct (IH f1) as (err & f' & evs & Hr & Hs & Hact & Hoff & Hon).
  { intros t' Ht'. assert (is_Some (mode_of f1 (ts_GVK t'))) as Hmo; [|unfold mode_of in Hmo; by apply fmap_is_Some in Hmo].
    rewrite Hm1. destruct (decide _); [done|]. unfold mode_of. apply fmap_is_Some, Hts. by right. }
  exists err, f', (e1 ++ evs). split_and!; [eapply runs_bind; [exact Hr1|exact Hr]|by eapply same_namespaces_trans|..].
  - intros g Hg. rewrite Hact, Hm1, decide_False; [done|by intros ->|done].
  - assert (is_Some (mode_of f (ts_GVK t))) as Hst by (apply fmap_is_Some, Hts; by left).
    intros g Hg. destruct (Hoff g Hg) as [->|[Hsg ->]]; rewrite Hm1 in *; destruct (decide _) as [->|]; auto.
  - intros He t' [->|Ht']%elem_of_cons Hna; [|by apply Hon]. destruct (Hoff _ Hna) as [->|[_ ->]]; [|done]. rewrite Hm1. by rewrite decide_True.
Qed.

Lemma GetTypeSyncer_in f t : t ∈ f_types f → is_Some (GetTypeSyncer (ts_GVK t) f).
Proof.
  intros Ht. unfold GetTypeSyncer. destruct (List.find _ _) as [x|] eqn:Hf; [by eexists|]. apply list_elem_of_In in Ht.
  eapply find_none in Hf; [|exact Ht]. by rewrite bool_decide_eq_true_2 in Hf.
Qed.

Lemma mode_of_in f g m : mode_of f g = Some m → ∃ t, t ∈ f_types f ∧ ts_GVK t = g.
Proof.
  unfold mode_of, GetTypeSyncer. intros (t & Ht & _)%fmap_Some. apply find_some in Ht as [Hin Hg].
  exists t. split; [by apply list_elem_of_In|by apply bool_decide_eq_true in Hg].
Qed.

(** After a successful sync the modes are those of the tables. *)
Lemma syncObjectReconcilers_runs tb inst f : tables_ok mapper tb →
  ∃ inst' err f' evs, runs (syncObjectReconcilers now api tb inst) f (inst', err) f' evs ∧ same_namespaces f f' ∧
    (err = None →
      (∀ gr gm, tb_activeGVKMode tb !! gr = Some gm → mode_of f' (gm_gvk gm) = established f (gm_gvk gm) (gm_mode gm)) ∧
      (∀ g, tb_activeGR tb !! g = None → mode_of f' g = (λ _, Ignore) <$> mode_of f g)).
Proof.
  intros Hok. unfold syncObjectReconcilers. set (gms := (range (tb_activeGVKMode tb)).*2).
  assert (∀ gm, gm ∈ gms ↔ ∃ gr, tb_activeGVKMode tb !! gr = Some gm) as Hin.
  { intros gm. unfold gms. rewrite list_elem_of_fmap. split.
    - intros ([gr gm'] & -> & ?%elem_of_range). by exists gr.
    - intros [gr ?%elem_of_range]. by exists (gr, gm). }
  destruct (syncActiveReconcilers_runs gms inst f) as (inst' & err & f1 & e1 & Hr1 & Hs1 & Hoff1 & Hon1).
  { intros gm gm' [gr Hg]%Hin [gr' Hg']%Hin. by apply (tk_mode _ _ Hok gr gr'). }
  destruct err as [e|].
  { exists inst', (Some e), f1, (e1 ++ []). split_and!; [eapply runs_bind; [exact Hr1|apply runs_ret]|done|done]. }
  destruct (syncRemovedReconcilers_runs (gm_gvk <$> gms) (GetTypeSyncers f1) f1) as (err & f2 & e2 & Hr2 & Hs2 & Hact2 & Hoff2 & Hon2).
  { intros t Ht. by apply GetTypeSyncer_in. }
  exists inst', err, f2, (e1 ++ e2 ++ []). split_and!; [|by eapply same_namespaces_trans|].
  - eapply runs_bind; [exact Hr1|]. simpl. eapply runs_step; [apply runs_getF|]. eapply runs_bind; [exact Hr2|]. apply runs_ret.
  - intros He. split.
    + intros gr gm Hg. assert (gm ∈ gms) as Hgm by (apply Hin; eauto). rewrite Hact2 by (apply list_elem_of_fmap; eauto). by apply Hon1.
    + intros g Hg. assert (g ∉ gm_gvk <$> gms) as Hna.
      { intros (gm & -> & [gr Hgm]%Hin)%list_elem_of_fmap. apply (tk_active _ _ Hok) in Hgm as [? ?]. congruence. }
      rewrite <- (Hoff1 g Hna). destruct (mode_of f1 g) as [m|] eqn:Hm.
      * apply mode_of_in in Hm as (t & Ht & <-). by apply (Hon2 He t Ht).
      * simpl. destruct (Hoff2 g Hna) as [->|[[? ?] _]]; congruence.
Qed.

(** ... which are those of the configuration. *)
Lemma syncObjectReconcilers_configured tb inst rs f : tables_ok mapper tb → represents mapper tb (EnforcedTypes ++ rs) →
  ∃ inst' err f' evs, runs (syncObjectReconcilers now api tb inst) f (inst', err) f' evs ∧ same_namespaces f f' ∧
    (err = None → ∀ g, mode_of f' g =
      match configured mapper rs g with Some m => established f g m | None => (λ _, Ignore) <$> mode_of f g end).
Proof.
  intros Hok Hrep. destruct (syncObjectReconcilers_runs tb inst f Hok) as (inst' & err & f' & evs & Hr & Hs & Hm).
  exists inst', err, f', evs. split_and!; [done..|]. intros He g. destruct (Hm He) as [Hact Hrem]. specialize (Hrep g).
  unfold configured. destruct (first_for mapper _ g) as [r|]; simpl; [|by apply Hrem].
  destruct Hrep as (gr & _ & Hg). by apply Hact in Hg.
Qed.
End sync.

(** ** A failed change of mode is not repeated *)
Lemma SetMode_again `{RO : RangeOrder} gvk mode lst lst' f err f' evs : is_Some (GetTypeSyncer gvk f) →
  runs (SetMode gvk mode lst) f err f' evs → runs (SetMode gvk mode lst') f' None f' [].
Proof.
  intros Ht Hr. destruct (SetMode_runs gvk mode lst f Ht) as (err1 & f1 & evs1 & Hr1 & _ & Hm).
  assert (f1 = f') as ->. { specialize (Hr []). specialize (Hr1 []). rewrite Hr in Hr1. by simplify_eq. }
  specialize (Hm gvk). rewrite decide_True in Hm by done. unfold mode_of in Hm. apply fmap_Some in Hm as (t & Ht' & Hmd).
  unfold SetMode. eapply runs_step; [apply runs_getF|]. eapply runs_step; [by apply runs_nonnil|]. rewrite decide_True by done. apply runs_ret.
Qed.

(** ** Namespace conditions *)

(** Conditions are kept by type, so those of namespaces overwrite each other. *)
Lemma SetStatusCondition_types now c cs : NoDup (c_Type <$> cs) →
  NoDup (c_Type <$> SetStatusCondition now c cs) ∧
  ∀ tp, tp ∈ c_Type <$> SetStatusCondition now c cs ↔ tp = c_Type c ∨ tp ∈ c_Type <$> cs.
Proof.
  induction cs as [|e cs IH]; simpl.
  { intros _. split; [apply NoDup_singleton|]. set_solver. }
  intros [He Hnd]%NoDup_cons. destruct (decide (c_Type e = c_Type c)) as [Heq|Hne]; simpl.
  - split; [by constructor|]. rewrite Heq. set_solver.
  - destruct (IH Hnd) as [Hnd' Hin]. split; [constructor; [|done]|].
    + rewrite Hin. intros [?|?]; [congruence|done].
    + intros tp. rewrite !elem_of_cons, Hin. tauto.
Qed.

Section conditions.
  Context `{RO : RangeOrder} (now : Z).

Lemma load_conditions_types f pairs inst inst' : load_conditions now f pairs inst = Done inst' →
  NoDup (c_Type <$> hn_Conditions inst) → NoDup (c_Type <$> hn_Conditions inst').
Proof.
  revert inst. induction pairs as [|[tp reason] pairs IH]; intros inst; simpl; [by intros [= <-]|].
  unfold mbind, outcome_bind. destruct (affected_by f tp reason) as [nsnms| |]; [|done..]. intros Hl Hnd. eapply IH; [exact Hl|].
  destruct (decide _); [done|]. by apply SetStatusCondition_types.
Qed.
End conditions.
