(* ===== verification/GoMemory.v ===== *)
(** * Go memory: pointers, slices and maps

    The parts of Go's memory that deep copies are about.  The memory [mem] maps addresses to variables, arrays
    and maps.  A struct is a record over a choice of references [Refs]: in memory ([Mem]) a pointer, slice or map
    is an address (or nil); in a value ([Val]) it is what it refers to.  Reading a value out of memory gives the
    set of the addresses read with it ([L]); what is read depends on these addresses only ([Local]).

    A copy routine is correct ([Copies]) when it returns, leaves the memory as it was, and its result has the
    value of the original and no address of the old memory.  The class is the interface of the copy routines:
    the one of a struct is proved against those of its fields. *)

From S2P Require Import Prelude Api HncConfig.

Abbreviation addr := positive (only parsing).

(** A slice: the address of its array, its offset in it and its length. *)
Record slice := mkSlice { sl_ptr : addr; sl_off : nat; sl_len : nat }.

Record Refs := { Ptr : Type → Type; Slice : Type → Type; Map : Type → Type }.
Definition Mem : Refs := {| Ptr _ := option addr; Slice _ := option slice; Map _ := option addr |}.
Definition Val : Refs := {| Ptr T := option T; Slice T := option (list T); Map V := option (gmap string V) |}.

(** ** Structs of the libraries (apimachinery) *)
Record Dec := { dec_unscaled : Z; dec_scale : Z }.
Record QuantityT (R : Refs) := mkQuantity {
  q_i : Z * Z; q_d : Ptr R Dec; q_s : string; q_Format : string }.
Record TypeMeta := { tm_Kind : string; tm_APIVersion : string }.
Record OwnerReferenceT (R : Refs) := mkOwnerReference {
  or_APIVersion : string; or_Kind : string; or_Name : string; or_UID : string;
  or_Controller : Ptr R bool; or_BlockOwnerDeletion : Ptr R bool }.
Record FieldsV1T (R : Refs) := mkFieldsV1 { fv_Raw : Slice R Z }.
Record ManagedFieldsEntryT (R : Refs) := mkManagedFieldsEntry {
  mf_Manager : string; mf_Operation : string; mf_APIVersion : string; mf_Time : Ptr R Z;
  mf_FieldsType : string; mf_FieldsV1 : Ptr R (FieldsV1T R); mf_Subresource : string }.
Record ObjectMetaT (R : Refs) := mkObjectMeta {
  m_Name : string; m_GenerateName : string; m_Namespace : string; m_SelfLink : string; m_UID : string;
  m_ResourceVersion : string; m_Generation : Z; m_CreationTimestamp : option Z;
  m_DeletionTimestamp : Ptr R Z; m_DeletionGracePeriodSeconds : Ptr R Z;
  m_Labels : Map R string; m_Annotations : Map R string;
  m_OwnerReferences : Slice R (OwnerReferenceT R); m_Finalizers : Slice R string;
  m_ManagedFields : Slice R (ManagedFieldsEntryT R) }.
Record ListMetaT (R : Refs) := mkListMeta {
  lm_SelfLink : string; lm_ResourceVersion : string; lm_Continue : string; lm_RemainingItemCount : Ptr R Z }.

(** ** The structs of api/v1alpha2 *)
Record ResourceStatusT (R : Refs) := mkResourceStatus {
  s_Group : string; s_Resource : string; s_Version : string; s_Mode : string;
  s_NumPropagatedObjects : Ptr R Z; s_NumSourceObjects : Ptr R Z }.
Record HNCConfigurationSpecT (R : Refs) := mkHNCConfigurationSpec { hns_Resources : Slice R ResourceSpec }.
Record HNCConfigurationStatusT (R : Refs) := mkHNCConfigurationStatus {
  hnt_Resources : Slice R (ResourceStatusT R); hnt_Conditions : Slice R Condition }.
Record HierarchicalResourceQuotaSpecT (R : Refs) := mkHRQSpec { hqs_Hard : Map R (QuantityT R) }.
Record HierarchicalResourceQuotaStatusT (R : Refs) := mkHRQStatus {
  hqt_Hard : Map R (QuantityT R); hqt_Used : Map R (QuantityT R);
  hqt_RequestsSummary : string; hqt_LimitsSummary : string }.
Record HierarchyConfigurationSpecT (R : Refs) := mkHierarchyConfigurationSpec {
  h_Parent : string; h_AllowCascadingDeletion : bool; h_Labels : Slice R MetaKVP; h_Annotations : Slice R MetaKVP }.
Record HierarchyConfigurationStatusT (R : Refs) := mkHierarchyConfigurationStatus {
  h_Children : Slice R string; h_Conditions : Slice R Condition }.
Record SubnamespaceAnchorSpecT (R : Refs) := mkSubnamespaceAnchorSpec {
  a_Labels : Slice R MetaKVP; a_Annotations : Slice R MetaKVP }.
Record SubnamespaceAnchorStatus := { a_State : string }.

(** The custom resources have the same shape: type, metadata, spec and status; and so have their lists. *)
Record Resource (S T : Refs → Type) (R : Refs) := mkResource {
  o_TypeMeta : TypeMeta; o_ObjectMeta : ObjectMetaT R; o_Spec : S R; o_Status : T R }.
Record ResourceListOf (O : Refs → Type) (R : Refs) := mkResourceList {
  l_TypeMeta : TypeMeta; l_ListMeta : ListMetaT R; l_Items : Slice R (O R) }.
Definition HNCConfigurationT : Refs → Type := Resource HNCConfigurationSpecT HNCConfigurationStatusT.
Definition HierarchicalResourceQuotaT : Refs → Type := Resource HierarchicalResourceQuotaSpecT HierarchicalResourceQuotaStatusT.
Definition HierarchyConfigurationT : Refs → Type := Resource HierarchyConfigurationSpecT HierarchyConfigurationStatusT.
Definition SubnamespaceAnchorT : Refs → Type := Resource SubnamespaceAnchorSpecT (λ _, SubnamespaceAnchorStatus).
Definition HNCConfigurationListT : Refs → Type := ResourceListOf HNCConfigurationT.
Definition HierarchicalResourceQuotaListT : Refs → Type := ResourceListOf HierarchicalResourceQuotaT.
Definition HierarchyConfigurationListT : Refs → Type := ResourceListOf HierarchyConfigurationT.
Definition SubnamespaceAnchorListT : Refs → Type := ResourceListOf SubnamespaceAnchorT.

Arguments mkQuantity {R}. Arguments q_i {R}. Arguments q_d {R}. Arguments q_s {R}. Arguments q_Format {R}.
Arguments mkOwnerReference {R}. Arguments or_Controller {R}. Arguments or_BlockOwnerDeletion {R}.
Arguments or_APIVersion {R}. Arguments or_Kind {R}. Arguments or_Name {R}. Arguments or_UID {R}.
Arguments mkFieldsV1 {R}. Arguments fv_Raw {R}.
Arguments mkManagedFieldsEntry {R}. Arguments mf_Manager {R}. Arguments mf_Operation {R}. Arguments mf_APIVersion {R}.
Arguments mf_Time {R}. Arguments mf_FieldsType {R}. Arguments mf_FieldsV1 {R}. Arguments mf_Subresource {R}.
Arguments mkObjectMeta {R}. Arguments m_Name {R}. Arguments m_GenerateName {R}. Arguments m_Namespace {R}.
Arguments m_SelfLink {R}. Arguments m_UID {R}. Arguments m_ResourceVersion {R}. Arguments m_Generation {R}.
Arguments m_CreationTimestamp {R}. Arguments m_DeletionTimestamp {R}. Arguments m_DeletionGracePeriodSeconds {R}.
Arguments m_Labels {R}. Arguments m_Annotations {R}. Arguments m_OwnerReferences {R}. Arguments m_Finalizers {R}.
Arguments m_ManagedFields {R}.
Arguments mkListMeta {R}. Arguments lm_SelfLink {R}. Arguments lm_ResourceVersion {R}. Arguments lm_Continue {R}.
Arguments lm_RemainingItemCount {R}.
Arguments mkResourceStatus {R}. Arguments s_Group {R}. Arguments s_Resource {R}. Arguments s_Version {R}.
Arguments s_Mode {R}. Arguments s_NumPropagatedObjects {R}. Arguments s_NumSourceObjects {R}.
Arguments mkHNCConfigurationSpec {R}. Arguments hns_Resources {R}.
Arguments mkHNCConfigurationStatus {R}. Arguments hnt_Resources {R}. Arguments hnt_Conditions {R}.
Arguments mkHRQSpec {R}. Arguments hqs_Hard {R}. Arguments mkHRQStatus {R}. Arguments hqt_Hard {R}.
Arguments hqt_Used {R}. Arguments hqt_RequestsSummary {R}. Arguments hqt_LimitsSummary {R}.
Arguments mkHierarchyConfigurationSpec {R}. Arguments h_Parent {R}. Arguments h_AllowCascadingDeletion {R}.
Arguments h_Labels {R}. Arguments h_Annotations {R}. Arguments mkHierarchyConfigurationStatus {R}.
Arguments h_Children {R}. Arguments h_Conditions {R}. Arguments mkSubnamespaceAnchorSpec {R}.
Arguments a_Labels {R}. Arguments a_Annotations {R}.
Arguments mkResource {S T R}. Arguments o_TypeMeta {S T R}. Arguments o_ObjectMeta {S T R}.
Arguments o_Spec {S T R}. Arguments o_Status {S T R}.
Arguments mkResourceList {O R}. Arguments l_TypeMeta {O R}. Arguments l_ListMeta {O R}. Arguments l_Items {O R}.

(** ** Memory *)
Inductive gotype :=
  | GInt | GBool | GString | GTime | GByte | GDec | GQuantity | GOwnerReference | GFieldsV1 | GManagedFieldsEntry
  | GCondition | GMetaKVP | GResourceSpec | GResourceStatus
  | GHNCConfigurationSpec | GHNCConfigurationStatus | GHNCConfiguration | GHNCConfigurationList
  | GHRQSpec | GHRQStatus | GHRQ | GHRQList
  | GHierarchyConfigurationSpec | GHierarchyConfigurationStatus | GHierarchyConfiguration | GHierarchyConfigurationList
  | GSubnamespaceAnchorSpec | GSubnamespaceAnchorStatus | GSubnamespaceAnchor | GSubnamespaceAnchorList.
#[export] Instance gotype_eq_dec : EqDecision gotype.
Proof. solve_decision. Defined.

Definition struct (t : gotype) (R : Refs) : Type :=
  match t with
  | GInt | GTime | GByte => Z
  | GBool => bool
  | GString => string
  | GDec => Dec
  | GQuantity => QuantityT R
  | GOwnerReference => OwnerReferenceT R
  | GFieldsV1 => FieldsV1T R
  | GManagedFieldsEntry => ManagedFieldsEntryT R
  | GCondition => Condition
  | GMetaKVP => MetaKVP
  | GResourceSpec => ResourceSpec
  | GResourceStatus => ResourceStatusT R
  | GHNCConfigurationSpec => HNCConfigurationSpecT R
  | GHNCConfigurationStatus => HNCConfigurationStatusT R
  | GHNCConfiguration => HNCConfigurationT R
  | GHNCConfigurationList => HNCConfigurationListT R
  | GHRQSpec => HierarchicalResourceQuotaSpecT R
  | GHRQStatus => HierarchicalResourceQuotaStatusT R
  | GHRQ => HierarchicalResourceQuotaT R
  | GHRQList => HierarchicalResourceQuotaListT R
  | GHierarchyConfigurationSpec => HierarchyConfigurationSpecT R
  | GHierarchyConfigurationStatus => HierarchyConfigurationStatusT R
  | GHierarchyConfiguration => HierarchyConfigurationT R
  | GHierarchyConfigurationList => HierarchyConfigurationListT R
  | GSubnamespaceAnchorSpec => SubnamespaceAnchorSpecT R
  | GSubnamespaceAnchorStatus => SubnamespaceAnchorStatus
  | GSubnamespaceAnchor => SubnamespaceAnchorT R
  | GSubnamespaceAnchorList => SubnamespaceAnchorListT R
  end.
Abbreviation den t := (struct t Mem).

Inductive cell :=
  | CVar (t : gotype) (x : den t)
  | CArr (t : gotype) (xs : list (den t))
  | CMap (t : gotype) (m : gmap string (den t)).
Abbreviation mem := (gmap addr cell).

Definition cast {t t'} (F : Type → Type) (e : t = t') (x : F (den t)) : F (den t') :=
  eq_rect t (λ t, F (den t)) x t' e.
Definition as_var (t : gotype) (c : cell) : option (den t) :=
  match c with CVar t' x => match decide (t' = t) with left e => Some (cast id e x) | right _ => None end | _ => None end.
Definition as_arr (t : gotype) (c : cell) : option (list (den t)) :=
  match c with CArr t' xs => match decide (t' = t) with left e => Some (cast list e xs) | right _ => None end | _ => None end.
Definition as_map (t : gotype) (c : cell) : option (gmap string (den t)) :=
  match c with CMap t' m => match decide (t' = t) with left e => Some (cast (gmap string) e m) | right _ => None end | _ => None end.

Lemma cast_refl {t} (F : Type → Type) (e : t = t) (x : F (den t)) : cast F e x = x.
Proof. unfold cast. symmetry. apply (Eqdep_dec.eq_rect_eq_dec gotype_eq_dec (λ t, F (den t))). Qed.
Lemma as_var_var t x : as_var t (CVar t x) = Some x.
Proof. simpl. destruct (decide (t = t)); [|done]. by rewrite (cast_refl id). Qed.
Lemma as_arr_arr t xs : as_arr t (CArr t xs) = Some xs.
Proof. simpl. destruct (decide (t = t)); [|done]. by rewrite (cast_refl list). Qed.
Lemma as_map_map t m : as_map t (CMap t m) = Some m.
Proof. simpl. destruct (decide (t = t)); [|done]. by rewrite (cast_refl (gmap string)). Qed.

Arguments as_var : simpl never. Arguments as_arr : simpl never. Arguments as_map : simpl never.

(** [new], [make]: a cell at an address that is not in use. *)
Definition alloc (c : cell) : M mem addr := λ h, let l := fresh (dom h) in Done (l, <[l := c]> h).
(** Reads and writes through a pointer; the type system keeps other cells out. *)
Definition fetch {A} (as_ : cell → option A) (l : addr) : M mem A := λ h,
  match h !! l ≫= as_ with Some a => Done (a, h) | None => Panics end.
Definition store (l : addr) (c : cell) : M mem unit := modify (<[l := c]>).

(** ** Reading values out of memory

    The value and the addresses it was read from; [None] when an address is dangling. *)
Definition L (A : Type) : Type := mem → option (A * gset addr).
#[export] Instance L_ret : MRet L := λ A a h, Some (a, ∅).
#[export] Instance L_bind : MBind L := λ A B k m h,
  match m h with
  | Some (a, F) => match k a h with Some (b, G) => Some (b, F ∪ G) | None => None end
  | None => None
  end.
Definition peek {A} (as_ : cell → option A) (l : addr) : L A := λ h, (λ a, (a, {[l]})) <$> (h !! l ≫= as_).
Fixpoint load_list {A B} (ld : A → L B) (xs : list A) : L (list B) :=
  match xs with [] => mret [] | x :: xs => y ← ld x; ys ← load_list ld xs; mret (y :: ys) end.

Lemma L_bind_inv {A B} (m : L A) (k : A → L B) h b H :
  (m ≫= k) h = Some (b, H) → ∃ a F G, m h = Some (a, F) ∧ k a h = Some (b, G) ∧ H = F ∪ G.
Proof. unfold mbind, L_bind. destruct (m h) as [[a F]|]; [|done]. destruct (k a h) as [[c G]|] eqn:?; naive_solver. Qed.
Lemma L_bind_intro {A B} (m : L A) (k : A → L B) h a b F G :
  m h = Some (a, F) → k a h = Some (b, G) → (m ≫= k) h = Some (b, F ∪ G).
Proof. intros H1 H2. unfold mbind, L_bind. by rewrite H1, H2. Qed.

(** What is read depends on the cells that are read, all of which exist. *)
Class Local {A} (m : L A) : Prop := {
  local_dom : ∀ h a F, m h = Some (a, F) → F ⊆ dom h;
  local_eq : ∀ h h' a F, m h = Some (a, F) → (∀ l, l ∈ F → h' !! l = h !! l) → m h' = Some (a, F)
}.
#[export] Instance Local_ret {A} (a : A) : Local (mret a : L A).
Proof. split; intros; unfold mret, L_ret in *; simplify_eq; [set_solver|done]. Qed.
#[export] Instance Local_bind {A B} (m : L A) (k : A → L B) : Local m → (∀ a, Local (k a)) → Local (m ≫= k).
Proof.
  intros Hm Hk. split.
  - intros h b H (a & F & G & H1 & H2 & ->)%L_bind_inv. apply local_dom in H1, H2. set_solver.
  - intros h h' b H (a & F & G & H1 & H2 & ->)%L_bind_inv Heq. apply L_bind_intro with a.
    + eapply local_eq; [done|]. set_solver.
    + eapply local_eq; [done|]. set_solver.
Qed.
#[export] Instance Local_peek {A} (as_ : cell → option A) l : Local (peek as_ l).
Proof.
  split; unfold peek; intros h; destruct (h !! l) as [c|] eqn:Hl; intros; simplify_eq/=; try done;
    destruct (as_ c) as [x|] eqn:Hc; simplify_eq/=.
  - apply elem_of_dom_2 in Hl. set_solver.
  - rewrite H0, Hl by set_solver. simpl. by rewrite Hc.
Qed.
#[export] Instance Local_load_list {A B} (ld : A → L B) xs : (∀ x, Local (ld x)) → Local (load_list ld xs).
Proof. intros. induction xs; simpl; apply _. Qed.

Lemma local_mono {A} (m : L A) `{!Local m} h h' a F : m h = Some (a, F) → h ⊆ h' → m h' = Some (a, F).
Proof.
  intros Hm Hsub. eapply local_eq; [done|]. intros l Hl. apply (local_dom _ _ _ Hm), elem_of_dom in Hl as [c Hc].
  rewrite Hc. by eapply lookup_weaken.
Qed.

(** ** Pointers, slices and maps *)
Section refs.
  Context {t : gotype} {V : Type} (ld : den t → L V).
Definition load_ptr (p : option addr) : L (option V) :=
  match p with None => mret None | Some l => x ← peek (as_var t) l; v ← ld x; mret (Some v) end.
Definition elements (s : slice) (xs : list (den t)) : list (den t) := take (sl_len s) (drop (sl_off s) xs).
Definition as_slice (s : slice) (c : cell) : option (list (den t)) :=
  xs ← as_arr t c; if decide (sl_off s + sl_len s ≤ length xs) then Some (elements s xs) else None.
Definition load_slice (s : option slice) : L (option (list V)) :=
  match s with None => mret None | Some s => xs ← peek (as_slice s) (sl_ptr s); vs ← load_list ld xs; mret (Some vs) end.
Definition load_map (p : option addr) : L (option (gmap string V)) :=
  match p with
  | None => mret None
  | Some l => m ← peek (as_map t) l; vs ← load_list (λ kx, v ← ld kx.2; mret (kx.1, v)) (map_to_list m);
              mret (Some (list_to_map vs))
  end.

  Context `{!∀ x, Local (ld x)}.
#[export] Instance Local_load_ptr p : Local (load_ptr p).
Proof. destruct p; simpl; apply _. Qed.
#[export] Instance Local_load_slice s : Local (load_slice s).
Proof. destruct s; simpl; apply _. Qed.
#[export] Instance Local_load_map p : Local (load_map p).
Proof. destruct p; simpl; apply _. Qed.
End refs.

(** ** Copies *)

(** A value in memory that uses none of the addresses [D]. *)
Definition fresh_copy {T V} (D : gset addr) (ld : T → L V) (v : V) (y : T) (h : mem) : Prop :=
  ∃ F, ld y h = Some (v, F) ∧ F ## D.
(** [m] returns, changes no cell of [h], and its result satisfies [Q]. *)
Definition allocates {A} (m : M mem A) (h : mem) (Q : A → mem → Prop) : Prop :=
  ∃ a h', m h = Done (a, h') ∧ h ⊆ h' ∧ Q a h'.
Class Copies {T V} (ld : T → L V) (copy : T → M mem T) : Prop := {
  copies_local :: ∀ x, Local (ld x);
  copies_ok : ∀ h x v F, ld x h = Some (v, F) → allocates (copy x) h (fresh_copy (dom h) ld v)
}.

Lemma allocates_ret {A} (a : A) h (Q : A → mem → Prop) : Q a h → allocates (mret a) h Q.
Proof. intros HQ. exists a, h. done. Qed.
Lemma allocates_bind {A B} (m : M mem A) (k : A → M mem B) h Q :
  allocates m h (λ a h', h ⊆ h' → allocates (k a) h' Q) → allocates (m ≫= k) h Q.
Proof.
  intros (a & h' & Hm & Hsub & Hk). destruct (Hk Hsub) as (b & h'' & Hb & Hsub' & HQ). exists b, h''.
  split; [by erewrite M_bind_Done by done|]. split; [by transitivity h'|done].
Qed.
Lemma allocates_mono {A} (m : M mem A) h (Q Q' : A → mem → Prop) :
  allocates m h Q → (∀ a h', h ⊆ h' → Q a h' → Q' a h') → allocates m h Q'.
Proof. intros (a & h' & ? & ? & ?) ?. exists a, h'. eauto. Qed.

Lemma fresh_copy_mono {T V} (ld : T → L V) `{!∀ x, Local (ld x)} D v y h h' :
  fresh_copy D ld v y h → h ⊆ h' → fresh_copy D ld v y h'.
Proof. intros (F & HF & HD) Hsub. exists F. split; [by apply (local_mono (ld y) h)|done]. Qed.
(** Writes to [D] do not touch it. *)
Lemma fresh_copy_insert {T V} (ld : T → L V) `{!∀ x, Local (ld x)} D v y h l c :
  fresh_copy D ld v y h → l ∈ D → fresh_copy D ld v y (<[l := c]> h).
Proof.
  intros (F & HF & HD) Hl. exists F. split; [|done]. eapply local_eq; [done|].
  intros k Hk. apply lookup_insert_ne. set_solver.
Qed.

(** One field: the copy of what was in [h0] is fresh. *)
Lemma allocates_copy {T V} (ld : T → L V) copy `{!Copies ld copy} D h0 h x v F :
  ld x h0 = Some (v, F) → h0 ⊆ h → D ⊆ dom h → allocates (copy x) h (fresh_copy D ld v).
Proof.
  intros HF Hsub HD. eapply allocates_mono; [eapply copies_ok, (local_mono (ld x) h0); eassumption|].
  intros y h' _ (G & HG & HG'). exists G. split; [done|set_solver].
Qed.

Lemma alloc_fresh h c : ∃ l, alloc c h = Done (l, <[l := c]> h) ∧ h !! l = None.
Proof. exists (fresh (dom h)). split; [done|]. apply not_elem_of_dom, is_fresh. Qed.

(** *** Through a pointer: a new variable, filled by the copy of the old one *)
Section copy_ptr.
  Context {t : gotype} {V : Type} (ld : den t → L V) (zero : den t) (into : den t → M mem (den t)).
Definition copy_ptr (p : option addr) : M mem (option addr) :=
  match p with
  | None => mret None
  | Some l => out ← alloc (CVar t zero); x ← fetch (as_var t) l; y ← into x;
              _ ← store out (CVar t y); mret (Some out)
  end.

#[export] Instance Copies_ptr `{!Copies ld into} : Copies (load_ptr ld) copy_ptr.
Proof.
  split; [apply _|]. intros h0 [l|] v F Hl; simpl in *; unfold mret, L_ret in Hl; simplify_eq/=.
  2: { apply allocates_ret. exists ∅. split; [done|set_solver]. }
  apply L_bind_inv in Hl as (x & F1 & G1 & Hx & Hv & ->). unfold peek in Hx.
  destruct (h0 !! l) as [c|] eqn:Hc; [|done]. simpl in Hx. destruct (as_var t c) as [x'|] eqn:Hx'; [|done].
  injection Hx as <- <-.
  apply L_bind_inv in Hv as (w & F2 & G2 & Hw & Hv & ->). injection Hv as <- <-.
  destruct (alloc_fresh h0 (CVar t zero)) as (out & Ha & Hout).
  assert (h0 ⊆ <[out := CVar t zero]> h0) as Hsub1 by by apply insert_subseteq.
  destruct (allocates_copy ld into ({[out]} ∪ dom h0) _ _ _ _ _ Hw Hsub1 ltac:(set_solver)) as (y & h2 & Hy & Hsub2 & HF).
  exists (Some out), (<[out := CVar t y]> h2). split; [|split].
  - rewrite (M_bind_Done _ _ _ _ _ Ha).
    erewrite M_bind_Done; [|unfold fetch; rewrite (lookup_weaken _ _ _ _ Hc Hsub1); simpl; by rewrite Hx'].
    by rewrite (M_bind_Done _ _ _ _ _ Hy).
  - apply insert_subseteq_r; [done|]. etrans; [apply Hsub1|done].
  - apply (fresh_copy_insert _ _ _ _ _ out (CVar t y)) in HF as (F' & HF' & HD); [|set_solver].
    exists ({[out]} ∪ (F' ∪ ∅)). split; [|apply not_elem_of_dom in Hout; set_solver].
    simpl. eapply L_bind_intro; [|eapply L_bind_intro; [done|done]]. unfold peek.
    rewrite lookup_insert_eq. simpl. by rewrite as_var_var.
Qed.
End copy_ptr.

(** *** Element by element: a new array of the same length, filled in a loop *)
Lemma load_list_Forall2 {A B} (ld : A → L B) xs vs F h : load_list ld xs h = Some (vs, F) →
  Forall2 (λ x v, ∃ G, ld x h = Some (v, G) ∧ G ⊆ F) xs vs.
Proof.
  revert vs F. induction xs as [|x xs IH]; intros vs F Hl; simpl in Hl.
  { injection Hl as <- _. constructor. }
  apply L_bind_inv in Hl as (v & F1 & G1 & Hx & (ws & F2 & G2 & Hxs & Hr & ->)%L_bind_inv & ->).
  injection Hr as <- <-. constructor; [exists F1; split; [done|set_solver]|].
  eapply Forall2_impl; [by apply IH|]. intros y w (G & ? & ?). exists G. split; [done|set_solver].
Qed.
Lemma load_list_fresh {A B} (ld : A → L B) D ys vs h :
  Forall2 (λ y v, fresh_copy D ld v y h) ys vs → ∃ F, load_list ld ys h = Some (vs, F) ∧ F ## D.
Proof.
  induction 1 as [|y v ys vs (F & HF & HD) _ (G & HG & HD')]; simpl; [exists ∅; split; [done|set_solver]|].
  exists (F ∪ (G ∪ ∅)). split; [|set_solver]. eapply L_bind_intro; [done|]. by eapply L_bind_intro.
Qed.

Section copy_slice.
  Context {t : gotype} {V : Type} (ld : den t → L V) (zero : den t) (into : den t → M mem (den t)).
Definition copy_elem (s : slice) (out : addr) (i : nat) : M mem unit :=
  xs ← fetch (as_slice s) (sl_ptr s); x ← nonnil (xs !! i); y ← into x;
  ys ← fetch (as_arr t) out; store out (CArr t (<[i := y]> ys)).
Definition copy_elems (s : slice) (out : addr) (ixs : list nat) : M mem unit :=
  foldr (λ i rest, _ ← copy_elem s out i; rest) (mret tt) ixs.
Definition copy_slice (s : option slice) : M mem (option slice) :=
  match s with
  | None => mret None
  | Some s => out ← alloc (CArr t (replicate (sl_len s) zero)); _ ← copy_elems s out (seq 0 (sl_len s));
              mret (Some (mkSlice out 0 (sl_len s)))
  end.

  Context `{!Copies ld into} (h0 : mem) (s : slice) (out : addr) (xs : list (den t)) (vs : list V) (F : gset addr).
  Context (Hs : h0 !! sl_ptr s ≫= as_slice s = Some xs) (Hvs : load_list ld xs h0 = Some (vs, F)) (Hout : h0 !! out = None).
Let D := {[out]} ∪ dom h0.

(** Before element [i]: the elements below [i] are copied. *)
Record copied (i : nat) (h : mem) (ys : list (den t)) : Prop := {
  cp_old : h0 ⊆ h;
  cp_out : h !! out = Some (CArr t ys);
  cp_len : length ys = length xs;
  cp_done : Forall2 (λ y v, fresh_copy D ld v y h) (take i ys) (take i vs)
}.

Lemma copy_elem_copied i h ys : copied i h ys → i < length xs →
  ∃ h' ys', copy_elem s out i h = Done (tt, h') ∧ copied (S i) h' ys'.
Proof.
  intros [Hold Hcell Hlen Hdone] Hi. destruct (lookup_lt_is_Some_2 xs i Hi) as [x Hx].
  apply load_list_Forall2 in Hvs as HF. destruct (Forall2_lookup_l _ _ _ _ _ HF Hx) as (v & Hv & G & HG & _).
  destruct (allocates_copy ld into D _ h _ _ _ HG Hold) as (y & h' & Hy & Hsub & Hfresh).
  { apply subseteq_dom in Hold. apply elem_of_dom_2 in Hcell. subst D. set_solver. }
  exists (<[out := CArr t (<[i := y]> ys)]> h'), (<[i := y]> ys). split.
  - unfold copy_elem. erewrite M_bind_Done.
    2: { unfold fetch. destruct (h0 !! sl_ptr s) as [c|] eqn:Hc; [|done]. rewrite (lookup_weaken _ _ _ _ Hc Hold).
         simpl in *. by rewrite Hs. }
    rewrite Hx. erewrite M_bind_Done by done. rewrite (M_bind_Done _ _ _ _ _ Hy).
    erewrite M_bind_Done; [done|]. unfold fetch. rewrite (lookup_weaken _ _ _ _ Hcell Hsub). simpl. by rewrite as_arr_arr.
  - split.
    + apply insert_subseteq_r; [done|]. by transitivity h.
    + apply lookup_insert_eq.
    + by rewrite length_insert.
    + rewrite (take_S_r _ _ y) by (apply list_lookup_insert_eq; lia). rewrite (take_S_r _ _ v) by done.
      rewrite take_insert_ge by done. apply Forall2_app; [|constructor; [|done]].
      * eapply Forall2_impl; [apply Hdone|]. intros z w Hz. apply fresh_copy_insert; [apply _| |set_solver].
        by apply (fresh_copy_mono ld D w z h).
      * apply fresh_copy_insert; [apply _|done|set_solver].
Qed.

Lemma copy_elems_copied n i h ys : copied i h ys → i + n = length xs →
  ∃ h' ys', copy_elems s out (seq i n) h = Done (tt, h') ∧ copied (length xs) h' ys'.
Proof.
  revert i h ys. induction n as [|n IH]; intros i h ys Hc Hn.
  { exists h, ys. replace (length xs) with i by lia. done. }
  destruct (copy_elem_copied i h ys Hc) as (h1 & ys1 & H1 & Hc1); [lia|].
  destruct (IH (S i) h1 ys1 Hc1) as (h2 & ys2 & H2 & Hc2); [lia|]. exists h2, ys2. split; [|done].
  simpl. by rewrite (M_bind_Done _ _ _ _ _ H1).
Qed.
End copy_slice.

#[export] Instance Copies_slice {t V} (ld : den t → L V) zero into `{!Copies ld into} :
  Copies (load_slice ld) (copy_slice zero into).
Proof.
  split; [apply _|]. intros h0 [s|] v F Hl; simpl in *; unfold mret, L_ret in Hl; simplify_eq/=.
  2: { apply allocates_ret. exists ∅. split; [done|set_solver]. }
  apply L_bind_inv in Hl as (xs & F1 & G1 & Hx & (vs & F2 & G2 & Hvs & Hv & ->)%L_bind_inv & ->).
  injection Hv as <- <-. unfold peek in Hx.
  destruct (h0 !! sl_ptr s ≫= as_slice s) as [xs'|] eqn:Hs; [|done]. injection Hx as <- <-.
  assert (length xs' = sl_len s) as Hlen.
  { destruct (h0 !! sl_ptr s) as [c|]; [|done]. simpl in Hs. unfold as_slice in Hs.
    destruct (as_arr t c) as [l|]; [|done]. simpl in Hs. case_decide; [|done]. injection Hs as <-.
    unfold elements. rewrite length_take, length_drop. lia. }
  destruct (alloc_fresh h0 (CArr t (replicate (sl_len s) zero))) as (out & Ha & Hout).
  destruct (copy_elems_copied ld into h0 s out xs' vs F2 Hs Hvs Hout (sl_len s) 0
    (<[out := CArr t (replicate (sl_len s) zero)]> h0) (replicate (sl_len s) zero)) as (h2 & ys & H2 & [Hold Hcell Hl Hd]).
  { split; [by apply insert_subseteq|apply lookup_insert_eq|by rewrite length_replicate|constructor]. }
  { done. }
  exists (Some (mkSlice out 0 (sl_len s))), h2. split; [|split; [done|]].
  { rewrite (M_bind_Done _ _ _ _ _ Ha). by rewrite (M_bind_Done _ _ _ _ _ H2). }
  pose proof (Forall2_length _ _ _ (load_list_Forall2 _ _ _ _ _ Hvs)) as Hlv.
  rewrite !take_ge in Hd by lia. destruct (load_list_fresh ld _ _ _ _ Hd) as (G & HG & HD).
  exists ({[out]} ∪ (G ∪ ∅)). split; [|apply not_elem_of_dom in Hout; set_solver].
  simpl. eapply L_bind_intro; [|by eapply L_bind_intro]. unfold peek. rewrite Hcell. simpl. unfold as_slice.
  rewrite as_arr_arr. simpl. rewrite decide_True by (simpl; lia). unfold elements. simpl. by rewrite drop_0, take_ge by lia.
Qed.

(** *** [copy]: a new array with the elements of the slice, for elements without references *)
Definition copy_flat {t} (zero : den t) (s : option slice) : M mem (option slice) :=
  match s with
  | None => mret None
  | Some s => out ← alloc (CArr t (replicate (sl_len s) zero)); xs ← fetch (as_slice s) (sl_ptr s);
              _ ← store out (CArr t xs); mret (Some (mkSlice out 0 (sl_len s)))
  end.

(** *** Entry by entry: a new map, filled in a loop over the old one *)
Section copy_map.
  Context `{RO : RangeOrder} {t : gotype} {V : Type} (ld : den t → L V) (copy : den t → M mem (den t)).
Definition copy_entry (out : addr) (kx : string * den t) : M mem unit :=
  y ← copy kx.2; m ← fetch (as_map t) out; store out (CMap t (<[kx.1 := y]> m)).
Definition copy_entries (out : addr) (kxs : list (string * den t)) : M mem unit :=
  foldr (λ kx rest, _ ← copy_entry out kx; rest) (mret tt) kxs.
Definition copy_map (p : option addr) : M mem (option addr) :=
  match p with
  | None => mret None
  | Some l => out ← alloc (CMap t ∅); m ← fetch (as_map t) l; _ ← copy_entries out (range m); mret (Some out)
  end.


(** The values of the entries of a map, in any order. *)
Definition entries_at (h : mem) (m : gmap string (den t)) (mv : gmap string V) (D : gset addr) : Prop :=
  ∀ k, match m !! k, mv !! k with
       | Some x, Some v => fresh_copy D ld v x h
       | None, None => True
       | _, _ => False
       end.
Let load_entry (kx : string * den t) : L (string * V) := v ← ld kx.2; mret (kx.1, v).

Lemma load_entries_keys h kxs kvs D :
  Forall2 (λ kx kv, fresh_copy D load_entry kv kx h) kxs kvs → kvs.*1 = kxs.*1.
Proof.
  induction 1 as [|kx kv kxs kvs (F & (v & F1 & F2 & _ & Hr & _)%L_bind_inv & _) _ IH]; [done|].
  injection Hr as <- _. csimpl. by rewrite IH.
Qed.

Lemma not_in_keys (m : gmap string (den t)) k : m !! k = None → k ∉ (map_to_list m).*1.
Proof. intros Hk ([k' x] & -> & Hin%elem_of_map_to_list)%list_elem_of_fmap. simpl in *. congruence. Qed.

Lemma load_entries_at h m kvs F : load_list load_entry (map_to_list m) h = Some (kvs, F) →
  entries_at h m (list_to_map kvs) ∅.
Proof.
  intros Hl%load_list_Forall2. assert (Forall2 (λ kx kv, fresh_copy ∅ load_entry kv kx h) (map_to_list m) kvs) as HF.
  { eapply Forall2_impl; [done|]. intros kx kv (G & HG & _). exists G. split; [done|set_solver]. }
  apply load_entries_keys in HF as Hk. assert (NoDup kvs.*1) as Hnd by (rewrite Hk; apply NoDup_fst_map_to_list).
  intros k. destruct (m !! k) as [x|] eqn:Hx.
  - apply elem_of_map_to_list, list_elem_of_lookup in Hx as [i Hi].
    destruct (Forall2_lookup_l _ _ _ _ _ HF Hi) as ([k' v] & Hv & G & (w & F1 & F2 & Hw & Hr & ->)%L_bind_inv & HD).
    injection Hr as <- <- <-. apply list_elem_of_lookup_2, elem_of_list_to_map in Hv as ->; [|done].
    exists F1. split; [done|set_solver].
  - rewrite not_elem_of_list_to_map_1; [done|]. rewrite Hk. by apply not_in_keys.
Qed.

Lemma entries_at_load h m mv D : entries_at h m mv D →
  ∃ kvs F, load_list load_entry (map_to_list m) h = Some (kvs, F) ∧ list_to_map kvs = mv ∧ F ## D.
Proof.
  intros He.
  assert (∃ kvs, Forall2 (λ kx kv, fresh_copy D load_entry kv kx h ∧ mv !! kv.1 = Some kv.2) (map_to_list m) kvs) as [kvs' HF].
  { apply Forall_exists_Forall2_l, Forall_forall. intros [k x] Hx%elem_of_map_to_list. specialize (He k).
    rewrite Hx in He. destruct (mv !! k) as [v|] eqn:Hv; [|done]. destruct He as (F & HF & HD).
    exists (k, v). split; [|done]. exists (F ∪ ∅). split; [by eapply L_bind_intro|set_solver]. }
  assert (Forall2 (λ kx kv, fresh_copy D load_entry kv kx h) (map_to_list m) kvs') as HF1
    by (eapply Forall2_impl; [done|naive_solver]).
  destruct (load_list_fresh _ _ _ _ _ HF1) as (F & HL & HD). exists kvs', F. split_and!; [done| |done].
  apply load_entries_keys in HF1 as Hk. assert (NoDup kvs'.*1) as Hnd by (rewrite Hk; apply NoDup_fst_map_to_list).
  apply map_eq. intros k. specialize (He k). destruct (m !! k) as [x|] eqn:Hx.
  - apply elem_of_map_to_list, list_elem_of_lookup in Hx as [i Hi].
    destruct (Forall2_lookup_l _ _ _ _ _ HF Hi) as ([k' v] & Hv & Hc & Hkv).
    destruct (Forall2_lookup_l _ _ _ _ _ HF1 Hi) as ([k2 v2] & Hv2 & G & (w & F1 & F2 & _ & Hr & _)%L_bind_inv & _).
    injection Hr as -> _ _. simplify_eq/=. rewrite Hkv. by apply elem_of_list_to_map, list_elem_of_lookup_2 with i.
  - destruct (mv !! k) eqn:Hv; [done|]. apply not_elem_of_list_to_map_1. rewrite Hk. by apply not_in_keys.
Qed.

  Context `{!Copies ld copy} (h0 : mem) (out : addr) (Hout : h0 !! out = None) (m0 : gmap string (den t)) (mv0 : gmap string V).
  Context (H0 : entries_at h0 m0 mv0 ∅).
Let D := {[out]} ∪ dom h0.

(** After the entries [done]: the new map has copies of these entries. *)
Definition copied_entries (done : gset string) (h : mem) : Prop :=
  h0 ⊆ h ∧ ∃ m, h !! out = Some (CMap t m) ∧ entries_at h m (filter (λ kv, kv.1 ∈ done) mv0) D.

Lemma copy_entry_copied done h k x : copied_entries done h → m0 !! k = Some x → k ∉ done →
  ∃ h', copy_entry out (k, x) h = Done (tt, h') ∧ copied_entries ({[k]} ∪ done) h'.
Proof.
  intros (Hold & m & Hm & He) Hx Hk. pose proof (H0 k) as Hv. rewrite Hx in Hv.
  destruct (mv0 !! k) as [v|] eqn:Hv0; [|done]. destruct Hv as (G & HG & _).
  destruct (allocates_copy ld copy D _ h _ _ _ HG Hold) as (y & h' & Hy & Hsub & Hfresh).
  { apply subseteq_dom in Hold. apply elem_of_dom_2 in Hm. subst D. set_solver. }
  exists (<[out := CMap t (<[k := y]> m)]> h'). split.
  { unfold copy_entry. simpl. rewrite (M_bind_Done _ _ _ _ _ Hy). erewrite M_bind_Done; [done|].
    unfold fetch. rewrite (lookup_weaken _ _ _ _ Hm Hsub). simpl. by rewrite as_map_map. }
  split; [apply insert_subseteq_r; [done|by transitivity h]|]. exists (<[k := y]> m). split; [apply lookup_insert_eq|].
  intros j. destruct (decide (j = k)) as [->|Hne].
  - rewrite lookup_insert_eq. rewrite (map_lookup_filter_Some_2 _ _ _ v); [|done|set_solver].
    apply fresh_copy_insert; [apply _|done|set_solver].
  - rewrite lookup_insert_ne by done. specialize (He j).
    assert (filter (λ kv, kv.1 ∈ {[k]} ∪ done) mv0 !! j = filter (λ kv, kv.1 ∈ done) mv0 !! j) as ->.
    { rewrite !map_lookup_filter. destruct (mv0 !! j); [|done]. simpl. repeat case_guard; set_solver. }
    destruct (m !! j), (filter (λ kv, kv.1 ∈ done) mv0 !! j) as [w|]; try done.
    apply fresh_copy_insert; [apply _| |set_solver]. by apply (fresh_copy_mono ld D w _ h).
Qed.

Lemma copy_entries_copied kxs done h : copied_entries done h → NoDup kxs.*1 →
  (∀ k x, (k, x) ∈ kxs → m0 !! k = Some x ∧ k ∉ done) →
  ∃ h', copy_entries out kxs h = Done (tt, h') ∧ copied_entries (list_to_set kxs.*1 ∪ done) h'.
Proof.
  revert done h. induction kxs as [|[k x] kxs IH]; intros done h Hc Hnd Hin.
  { exists h. split; [done|]. csimpl. by rewrite (left_id_L ∅ (∪)). }
  destruct (Hin k x) as [Hx Hk]; [by left|]. csimpl in Hnd. apply NoDup_cons in Hnd as [Hk' Hnd].
  destruct (copy_entry_copied _ _ _ _ Hc Hx Hk) as (h1 & H1 & Hc1).
  destruct (IH ({[k]} ∪ done) h1 Hc1 Hnd) as (h2 & H2 & Hc2).
  { intros j z Hj. split; [apply Hin; by right|]. intros [->%elem_of_singleton|Hd]%elem_of_union.
    - apply Hk', list_elem_of_fmap. by exists (k, z).
    - destruct (Hin j z) as [_ ?]; [by right|done]. }
  exists h2. split; [simpl; by rewrite (M_bind_Done _ _ _ _ _ H1)|].
  csimpl. rewrite (comm_L (∪) {[k]}), <- (assoc_L (∪)). done.
Qed.
End copy_map.

#[export] Instance Copies_map `{RO : RangeOrder} {t V} (ld : den t → L V) copy `{!Copies ld copy} :
  Copies (load_map ld) (copy_map copy).
Proof.
  split; [apply _|]. intros h0 [l|] v F Hl; simpl in *; unfold mret, L_ret in Hl; simplify_eq/=.
  2: { apply allocates_ret. exists ∅. split; [done|set_solver]. }
  apply L_bind_inv in Hl as (m & F1 & G1 & Hm & (kvs & F2 & G2 & Hkvs & Hv & ->)%L_bind_inv & ->).
  injection Hv as <- <-. unfold peek in Hm.
  destruct (h0 !! l) as [c|] eqn:Hc; [|done]. simpl in Hm. destruct (as_map t c) as [m'|] eqn:Hm'; [|done].
  injection Hm as <- <-. apply load_entries_at in Hkvs as He.
  destruct (alloc_fresh h0 (CMap t ∅)) as (out & Ha & Hout).
  assert (h0 ⊆ <[out := CMap t ∅]> h0) as Hsub by by apply insert_subseteq.
  destruct (copy_entries_copied ld copy h0 out Hout m' (list_to_map kvs) He (range m') ∅ (<[out := CMap t ∅]> h0))
    as (h2 & H2 & Hold & m2 & Hm2 & He2).
  { split; [done|]. exists ∅. split; [apply lookup_insert_eq|]. intros k. rewrite lookup_empty, map_lookup_filter.
    destruct (_ !! k); simpl; [|done]. case_guard; [set_solver|done]. }
  { apply NoDup_keys. }
  { intros k x Hkx%elem_of_range. split; [done|set_solver]. }
  exists (Some out), h2. split; [|split; [done|]].
  { rewrite (M_bind_Done _ _ _ _ _ Ha).
    erewrite M_bind_Done; [|unfold fetch; rewrite (lookup_weaken _ _ _ _ Hc Hsub); simpl; by rewrite Hm'].
    by rewrite (M_bind_Done _ _ _ _ _ H2). }
  rewrite map_filter_id in He2.
  2: { intros k v Hk. simpl. rewrite (right_id_L ∅ (∪)), elem_of_list_to_set. apply elem_of_keys.
       specialize (He k). rewrite Hk in He. by destruct (m' !! k). }
  destruct (entries_at_load ld copy _ _ _ _ He2) as (kvs' & G & HG & Hkvs' & HD).
  exists ({[out]} ∪ (G ∪ ∅)). split; [|apply not_elem_of_dom in Hout; set_solver].
  simpl. eapply L_bind_intro; [|rewrite <- Hkvs'; by eapply L_bind_intro]. unfold peek. rewrite Hm2. simpl. by rewrite as_map_map.
Qed.

(** ** Elements without references are copied by assignment *)
Definition load_flat {T} (x : T) : L T := mret x.
#[export] Instance Copies_flat {T} : Copies (load_flat (T:=T)) mret.
Proof.
  split; [unfold load_flat; apply _|]. intros h x v F Hx. injection Hx as <- <-.
  apply allocates_ret. exists ∅. split; [done|set_solver].
Qed.
Lemma load_list_flat {T} (xs : list T) h : load_list load_flat xs h = Some (xs, ∅).
Proof.
  induction xs as [|x xs IH]; [done|]. simpl. replace ∅ with (∅ ∪ (∅ ∪ ∅) : gset addr) by set_solver.
  eapply L_bind_intro; [done|]. by eapply L_bind_intro.
Qed.
#[export] Instance Copies_copy {t} (zero : den t) : Copies (load_slice (t:=t) load_flat) (copy_flat zero).
Proof.
  split; [apply Local_load_slice; unfold load_flat; apply _|].
  intros h0 [s|] v F Hl; simpl in *; unfold mret, L_ret in Hl; simplify_eq/=.
  2: { apply allocates_ret. exists ∅. split; [done|set_solver]. }
  apply L_bind_inv in Hl as (xs & F1 & G1 & Hx & (vs & F2 & G2 & Hvs & Hv & ->)%L_bind_inv & ->).
  injection Hv as <- <-. rewrite load_list_flat in Hvs. injection Hvs as <- <-. unfold peek in Hx.
  destruct (h0 !! sl_ptr s) as [c|] eqn:Hc; [|done]. simpl in Hx. destruct (as_slice s c) as [xs'|] eqn:Hs; [|done].
  injection Hx as <- <-. destruct (alloc_fresh h0 (CArr t (replicate (sl_len s) zero))) as (out & Ha & Hout).
  exists (Some (mkSlice out 0 (sl_len s))), (<[out := CArr t xs']> (<[out := CArr t (replicate (sl_len s) zero)]> h0)).
  split; [|split].
  - rewrite (M_bind_Done _ _ _ _ _ Ha). erewrite M_bind_Done; [done|]. unfold fetch.
    rewrite lookup_insert_ne, Hc by congruence. simpl. by rewrite Hs.
  - rewrite insert_insert_eq. by apply insert_subseteq.
  - exists ({[out]} ∪ (∅ ∪ ∅)). split; [|apply not_elem_of_dom in Hout; set_solver]. simpl.
    eapply L_bind_intro; [|eapply L_bind_intro; [apply load_list_flat|done]]. unfold peek. rewrite lookup_insert_eq. simpl.
    unfold as_slice in *. rewrite as_arr_arr. simpl. destruct (as_arr t c) as [l|]; [|done]. simpl in Hs.
    case_decide; [|done]. injection Hs as <-.
    assert (length (elements s l) = sl_len s) as Hl by (unfold elements; rewrite length_take, length_drop; lia).
    rewrite decide_True by (simpl; lia). unfold elements at 1. simpl. by rewrite drop_0, take_ge by lia.
Qed.
