(* ===== verification/DeepCopy.v ===== *)
(** * Deep copies (api/v1alpha2/zz_generated.deepcopy.go)

    [DeepCopyInto], [DeepCopy] and [DeepCopyObject] of the custom resources, over the memory of GoMemory.
    [X_DeepCopyInto] takes the content of [*in] and gives the content of [*out] when the method returns; what it
    allocates is in the memory.  [*out = *in] is the assignment of the fields that are not copied further.  The methods of
    the library structs they use (apimachinery's ObjectMeta, ListMeta, Quantity) are modelled too.

    Each routine is an instance of [Copies]. *)

From S2P Require Import Prelude Api HncConfig GoMemory.

(** ** Zero values: what [new] and [make] fill their memory with *)
Definition zeroTypeMeta : TypeMeta := {| tm_Kind := ""; tm_APIVersion := "" |}.
Definition zeroObjectMeta : ObjectMetaT Mem := mkObjectMeta (R:=Mem) "" "" "" "" "" "" 0 None None None None None None None None.
Definition zeroListMeta : ListMetaT Mem := mkListMeta (R:=Mem) "" "" "" None.
Definition zero (t : gotype) : den t :=
  match t with
  | GInt | GTime | GByte => 0%Z
  | GBool => false
  | GString => ""
  | GDec => {| dec_unscaled := 0; dec_scale := 0 |}
  | GQuantity => mkQuantity (R:=Mem) (0, 0)%Z None "" ""
  | GOwnerReference => mkOwnerReference (R:=Mem) "" "" "" "" None None
  | GFieldsV1 => mkFieldsV1 (R:=Mem) None
  | GManagedFieldsEntry => mkManagedFieldsEntry (R:=Mem) "" "" "" None "" None ""
  | GCondition => mkCondition "" "" None "" ""
  | GMetaKVP => {| kvp_Key := ""; kvp_Value := "" |}
  | GResourceSpec => {| rsp_GR := mkGR "" ""; rsp_Mode := "" |}
  | GResourceStatus => mkResourceStatus (R:=Mem) "" "" "" "" None None
  | GHNCConfigurationSpec => mkHNCConfigurationSpec (R:=Mem) None
  | GHNCConfigurationStatus => mkHNCConfigurationStatus (R:=Mem) None None
  | GHNCConfiguration => mkResource (R:=Mem) zeroTypeMeta zeroObjectMeta (mkHNCConfigurationSpec (R:=Mem) None)
                           (mkHNCConfigurationStatus (R:=Mem) None None)
  | GHRQSpec => mkHRQSpec (R:=Mem) None
  | GHRQStatus => mkHRQStatus (R:=Mem) None None "" ""
  | GHRQ => mkResource (R:=Mem) zeroTypeMeta zeroObjectMeta (mkHRQSpec (R:=Mem) None) (mkHRQStatus (R:=Mem) None None "" "")
  | GHierarchyConfigurationSpec => mkHierarchyConfigurationSpec (R:=Mem) "" false None None
  | GHierarchyConfigurationStatus => mkHierarchyConfigurationStatus (R:=Mem) None None
  | GHierarchyConfiguration => mkResource (R:=Mem) zeroTypeMeta zeroObjectMeta
      (mkHierarchyConfigurationSpec (R:=Mem) "" false None None) (mkHierarchyConfigurationStatus (R:=Mem) None None)
  | GSubnamespaceAnchorSpec => mkSubnamespaceAnchorSpec (R:=Mem) None None
  | GSubnamespaceAnchorStatus => {| a_State := "" |}
  | GSubnamespaceAnchor => mkResource (R:=Mem) (T:=λ _, SubnamespaceAnchorStatus) zeroTypeMeta zeroObjectMeta
      (mkSubnamespaceAnchorSpec (R:=Mem) None None) {| a_State := "" |}
  | GHNCConfigurationList | GHRQList | GHierarchyConfigurationList | GSubnamespaceAnchorList =>
      mkResourceList (R:=Mem) zeroTypeMeta zeroListMeta None
  end.

(** A slice, map or pointer of a field, with the zero value of its type. *)
Abbreviation load_p t ld := (load_ptr (t:=t) ld) (only parsing).
Abbreviation load_s t ld := (load_slice (t:=t) ld) (only parsing).
Abbreviation load_m t ld := (load_map (t:=t) ld) (only parsing).
Abbreviation new_ t into := (copy_ptr (t:=t) (zero t) into) (only parsing).
Abbreviation make_ t into := (copy_slice (t:=t) (zero t) into) (only parsing).
Abbreviation copy_ t := (copy_flat (t:=t) (zero t)) (only parsing).
Abbreviation make_map t copy := (copy_map (t:=t) copy) (only parsing).

(** ** The values of the structs *)
Definition load_Quantity (x : QuantityT Mem) : L (QuantityT Val) :=
  d ← load_p GDec load_flat (q_d x); mret (mkQuantity (R:=Val) (q_i x) d (q_s x) (q_Format x)).
Definition load_OwnerReference (x : OwnerReferenceT Mem) : L (OwnerReferenceT Val) :=
  c ← load_p GBool load_flat (or_Controller x); b ← load_p GBool load_flat (or_BlockOwnerDeletion x);
  mret (mkOwnerReference (R:=Val) (or_APIVersion x) (or_Kind x) (or_Name x) (or_UID x) c b).
Definition load_FieldsV1 (x : FieldsV1T Mem) : L (FieldsV1T Val) :=
  r ← load_s GByte load_flat (fv_Raw x); mret (mkFieldsV1 (R:=Val) r).
Definition load_ManagedFieldsEntry (x : ManagedFieldsEntryT Mem) : L (ManagedFieldsEntryT Val) :=
  tm ← load_p GTime load_flat (mf_Time x); fv ← load_p GFieldsV1 load_FieldsV1 (mf_FieldsV1 x);
  mret (mkManagedFieldsEntry (R:=Val) (mf_Manager x) (mf_Operation x) (mf_APIVersion x) tm (mf_FieldsType x) fv (mf_Subresource x)).
Definition load_ObjectMeta (x : ObjectMetaT Mem) : L (ObjectMetaT Val) :=
  d ← load_p GTime load_flat (m_DeletionTimestamp x); g ← load_p GInt load_flat (m_DeletionGracePeriodSeconds x);
  l ← load_m GString load_flat (m_Labels x); a ← load_m GString load_flat (m_Annotations x);
  o ← load_s GOwnerReference load_OwnerReference (m_OwnerReferences x); f ← load_s GString load_flat (m_Finalizers x);
  mf ← load_s GManagedFieldsEntry load_ManagedFieldsEntry (m_ManagedFields x);
  mret (mkObjectMeta (R:=Val) (m_Name x) (m_GenerateName x) (m_Namespace x) (m_SelfLink x) (m_UID x) (m_ResourceVersion x)
    (m_Generation x) (m_CreationTimestamp x) d g l a o f mf).
Definition load_ListMeta (x : ListMetaT Mem) : L (ListMetaT Val) :=
  r ← load_p GInt load_flat (lm_RemainingItemCount x);
  mret (mkListMeta (R:=Val) (lm_SelfLink x) (lm_ResourceVersion x) (lm_Continue x) r).
Definition load_ResourceStatus (x : ResourceStatusT Mem) : L (ResourceStatusT Val) :=
  p ← load_p GInt load_flat (s_NumPropagatedObjects x); q ← load_p GInt load_flat (s_NumSourceObjects x);
  mret (mkResourceStatus (R:=Val) (s_Group x) (s_Resource x) (s_Version x) (s_Mode x) p q).
Definition load_HNCConfigurationSpec (x : HNCConfigurationSpecT Mem) : L (HNCConfigurationSpecT Val) :=
  r ← load_s GResourceSpec load_flat (hns_Resources x); mret (mkHNCConfigurationSpec (R:=Val) r).
Definition load_HNCConfigurationStatus (x : HNCConfigurationStatusT Mem) : L (HNCConfigurationStatusT Val) :=
  r ← load_s GResourceStatus load_ResourceStatus (hnt_Resources x); c ← load_s GCondition load_flat (hnt_Conditions x);
  mret (mkHNCConfigurationStatus (R:=Val) r c).
Definition load_HRQSpec (x : HierarchicalResourceQuotaSpecT Mem) : L (HierarchicalResourceQuotaSpecT Val) :=
  m ← load_m GQuantity load_Quantity (hqs_Hard x); mret (mkHRQSpec (R:=Val) m).
Definition load_HRQStatus (x : HierarchicalResourceQuotaStatusT Mem) : L (HierarchicalResourceQuotaStatusT Val) :=
  m ← load_m GQuantity load_Quantity (hqt_Hard x); u ← load_m GQuantity load_Quantity (hqt_Used x);
  mret (mkHRQStatus (R:=Val) m u (hqt_RequestsSummary x) (hqt_LimitsSummary x)).
Definition load_HierarchyConfigurationSpec (x : HierarchyConfigurationSpecT Mem) : L (HierarchyConfigurationSpecT Val) :=
  l ← load_s GMetaKVP load_flat (h_Labels x); a ← load_s GMetaKVP load_flat (h_Annotations x);
  mret (mkHierarchyConfigurationSpec (R:=Val) (h_Parent x) (h_AllowCascadingDeletion x) l a).
Definition load_HierarchyConfigurationStatus (x : HierarchyConfigurationStatusT Mem) : L (HierarchyConfigurationStatusT Val) :=
  c ← load_s GString load_flat (h_Children x); d ← load_s GCondition load_flat (h_Conditions x);
  mret (mkHierarchyConfigurationStatus (R:=Val) c d).
Definition load_SubnamespaceAnchorSpec (x : SubnamespaceAnchorSpecT Mem) : L (SubnamespaceAnchorSpecT Val) :=
  l ← load_s GMetaKVP load_flat (a_Labels x); a ← load_s GMetaKVP load_flat (a_Annotations x);
  mret (mkSubnamespaceAnchorSpec (R:=Val) l a).
Definition load_resource {S T : Refs → Type} (ldS : S Mem → L (S Val)) (ldT : T Mem → L (T Val)) (x : Resource S T Mem)
    : L (Resource S T Val) :=
  m ← load_ObjectMeta (o_ObjectMeta x); s ← ldS (o_Spec x); st ← ldT (o_Status x);
  mret (mkResource (o_TypeMeta x) m s st).
Definition load_HNCConfiguration : HNCConfigurationT Mem → L (HNCConfigurationT Val) :=
  load_resource load_HNCConfigurationSpec load_HNCConfigurationStatus.
Definition load_HRQ : HierarchicalResourceQuotaT Mem → L (HierarchicalResourceQuotaT Val) :=
  load_resource load_HRQSpec load_HRQStatus.
Definition load_HierarchyConfiguration : HierarchyConfigurationT Mem → L (HierarchyConfigurationT Val) :=
  load_resource load_HierarchyConfigurationSpec load_HierarchyConfigurationStatus.
Definition load_SubnamespaceAnchor : SubnamespaceAnchorT Mem → L (SubnamespaceAnchorT Val) :=
  load_resource (T:=λ _, SubnamespaceAnchorStatus) load_SubnamespaceAnchorSpec load_flat.
Definition load_list_of {O : Refs → Type} (ld : option slice → L (option (list (O Val)))) (x : ResourceListOf O Mem)
    : L (ResourceListOf O Val) :=
  m ← load_ListMeta (l_ListMeta x); i ← ld (l_Items x); mret (mkResourceList (R:=Val) (l_TypeMeta x) m i).

Section deepcopy.
  Context `{RO : RangeOrder}.

(** ** The methods of the libraries *)
Definition Quantity_DeepCopy (q : QuantityT Mem) : M mem (QuantityT Mem) :=
  d ← new_ GDec mret (q_d q); mret (mkQuantity (R:=Mem) (q_i q) d (q_s q) (q_Format q)).
Definition OwnerReference_DeepCopyInto (x : OwnerReferenceT Mem) : M mem (OwnerReferenceT Mem) :=
  c ← new_ GBool mret (or_Controller x); b ← new_ GBool mret (or_BlockOwnerDeletion x);
  mret (mkOwnerReference (R:=Mem) (or_APIVersion x) (or_Kind x) (or_Name x) (or_UID x) c b).
Definition FieldsV1_DeepCopyInto (x : FieldsV1T Mem) : M mem (FieldsV1T Mem) :=
  r ← copy_ GByte (fv_Raw x); mret (mkFieldsV1 (R:=Mem) r).
Definition ManagedFieldsEntry_DeepCopyInto (x : ManagedFieldsEntryT Mem) : M mem (ManagedFieldsEntryT Mem) :=
  tm ← new_ GTime mret (mf_Time x); fv ← new_ GFieldsV1 FieldsV1_DeepCopyInto (mf_FieldsV1 x);
  mret (mkManagedFieldsEntry (R:=Mem) (mf_Manager x) (mf_Operation x) (mf_APIVersion x) tm (mf_FieldsType x) fv (mf_Subresource x)).
Definition ObjectMeta_DeepCopyInto (x : ObjectMetaT Mem) : M mem (ObjectMetaT Mem) :=
  d ← new_ GTime mret (m_DeletionTimestamp x);
  g ← new_ GInt mret (m_DeletionGracePeriodSeconds x);
  l ← make_map GString mret (m_Labels x);
  a ← make_map GString mret (m_Annotations x);
  o ← make_ GOwnerReference OwnerReference_DeepCopyInto (m_OwnerReferences x);
  f ← copy_ GString (m_Finalizers x);
  mf ← make_ GManagedFieldsEntry ManagedFieldsEntry_DeepCopyInto (m_ManagedFields x);
  mret (mkObjectMeta (R:=Mem) (m_Name x) (m_GenerateName x) (m_Namespace x) (m_SelfLink x) (m_UID x) (m_ResourceVersion x)
    (m_Generation x) (m_CreationTimestamp x) d g l a o f mf).
Definition ListMeta_DeepCopyInto (x : ListMetaT Mem) : M mem (ListMetaT Mem) :=
  r ← new_ GInt mret (lm_RemainingItemCount x);
  mret (mkListMeta (R:=Mem) (lm_SelfLink x) (lm_ResourceVersion x) (lm_Continue x) r).

(** ** HNCConfiguration *)
Definition ResourceSpec_DeepCopyInto (in_ : ResourceSpec) : M mem ResourceSpec := mret in_.
Definition ResourceStatus_DeepCopyInto (in_ : ResourceStatusT Mem) : M mem (ResourceStatusT Mem) :=
  p ← new_ GInt mret (s_NumPropagatedObjects in_);
  q ← new_ GInt mret (s_NumSourceObjects in_);
  mret (mkResourceStatus (R:=Mem) (s_Group in_) (s_Resource in_) (s_Version in_) (s_Mode in_) p q).
Definition HNCConfigurationSpec_DeepCopyInto (in_ : HNCConfigurationSpecT Mem) : M mem (HNCConfigurationSpecT Mem) :=
  r ← copy_ GResourceSpec (hns_Resources in_); mret (mkHNCConfigurationSpec (R:=Mem) r).
Definition HNCConfigurationStatus_DeepCopyInto (in_ : HNCConfigurationStatusT Mem) : M mem (HNCConfigurationStatusT Mem) :=
  r ← make_ GResourceStatus ResourceStatus_DeepCopyInto (hnt_Resources in_);
  c ← make_ GCondition mret (hnt_Conditions in_);
  mret (mkHNCConfigurationStatus (R:=Mem) r c).
Definition HNCConfiguration_DeepCopyInto (in_ : HNCConfigurationT Mem) : M mem (HNCConfigurationT Mem) :=
  m ← ObjectMeta_DeepCopyInto (o_ObjectMeta in_);
  s ← HNCConfigurationSpec_DeepCopyInto (o_Spec in_);
  t ← HNCConfigurationStatus_DeepCopyInto (o_Status in_);
  mret (mkResource (R:=Mem) (o_TypeMeta in_) m s t).
Definition HNCConfigurationList_DeepCopyInto (in_ : HNCConfigurationListT Mem) : M mem (HNCConfigurationListT Mem) :=
  m ← ListMeta_DeepCopyInto (l_ListMeta in_);
  i ← make_ GHNCConfiguration HNCConfiguration_DeepCopyInto (l_Items in_);
  mret (mkResourceList (R:=Mem) (l_TypeMeta in_) m i).

(** ** HierarchicalResourceQuota *)
Definition HierarchicalResourceQuotaSpec_DeepCopyInto (in_ : HierarchicalResourceQuotaSpecT Mem)
    : M mem (HierarchicalResourceQuotaSpecT Mem) :=
  m ← make_map GQuantity Quantity_DeepCopy (hqs_Hard in_); mret (mkHRQSpec (R:=Mem) m).
Definition HierarchicalResourceQuotaStatus_DeepCopyInto (in_ : HierarchicalResourceQuotaStatusT Mem)
    : M mem (HierarchicalResourceQuotaStatusT Mem) :=
  m ← make_map GQuantity Quantity_DeepCopy (hqt_Hard in_);
  u ← make_map GQuantity Quantity_DeepCopy (hqt_Used in_);
  mret (mkHRQStatus (R:=Mem) m u (hqt_RequestsSummary in_) (hqt_LimitsSummary in_)).
Definition HierarchicalResourceQuota_DeepCopyInto (in_ : HierarchicalResourceQuotaT Mem) : M mem (HierarchicalResourceQuotaT Mem) :=
  m ← ObjectMeta_DeepCopyInto (o_ObjectMeta in_);
  s ← HierarchicalResourceQuotaSpec_DeepCopyInto (o_Spec in_);
  t ← HierarchicalResourceQuotaStatus_DeepCopyInto (o_Status in_);
  mret (mkResource (R:=Mem) (o_TypeMeta in_) m s t).
Definition HierarchicalResourceQuotaList_DeepCopyInto (in_ : HierarchicalResourceQuotaListT Mem)
    : M mem (HierarchicalResourceQuotaListT Mem) :=
  m ← ListMeta_DeepCopyInto (l_ListMeta in_);
  i ← make_ GHRQ HierarchicalResourceQuota_DeepCopyInto (l_Items in_);
  mret (mkResourceList (R:=Mem) (l_TypeMeta in_) m i).

(** ** HierarchyConfiguration *)
Definition MetaKVP_DeepCopyInto (in_ : MetaKVP) : M mem MetaKVP := mret in_.
Definition HierarchyConfigurationSpec_DeepCopyInto (in_ : HierarchyConfigurationSpecT Mem)
    : M mem (HierarchyConfigurationSpecT Mem) :=
  l ← copy_ GMetaKVP (h_Labels in_);
  a ← copy_ GMetaKVP (h_Annotations in_);
  mret (mkHierarchyConfigurationSpec (R:=Mem) (h_Parent in_) (h_AllowCascadingDeletion in_) l a).
Definition HierarchyConfigurationStatus_DeepCopyInto (in_ : HierarchyConfigurationStatusT Mem)
    : M mem (HierarchyConfigurationStatusT Mem) :=
  c ← copy_ GString (h_Children in_);
  d ← make_ GCondition mret (h_Conditions in_);
  mret (mkHierarchyConfigurationStatus (R:=Mem) c d).
Definition HierarchyConfiguration_DeepCopyInto (in_ : HierarchyConfigurationT Mem) : M mem (HierarchyConfigurationT Mem) :=
  m ← ObjectMeta_DeepCopyInto (o_ObjectMeta in_);
  s ← HierarchyConfigurationSpec_DeepCopyInto (o_Spec in_);
  t ← HierarchyConfigurationStatus_DeepCopyInto (o_Status in_);
  mret (mkResource (R:=Mem) (o_TypeMeta in_) m s t).
Definition HierarchyConfigurationList_DeepCopyInto (in_ : HierarchyConfigurationListT Mem) : M mem (HierarchyConfigurationListT Mem) :=
  m ← ListMeta_DeepCopyInto (l_ListMeta in_);
  i ← make_ GHierarchyConfiguration HierarchyConfiguration_DeepCopyInto (l_Items in_);
  mret (mkResourceList (R:=Mem) (l_TypeMeta in_) m i).

(** ** SubnamespaceAnchor *)
Definition SubnamespaceAnchorSpec_DeepCopyInto (in_ : SubnamespaceAnchorSpecT Mem) : M mem (SubnamespaceAnchorSpecT Mem) :=
  l ← copy_ GMetaKVP (a_Labels in_);
  a ← copy_ GMetaKVP (a_Annotations in_);
  mret (mkSubnamespaceAnchorSpec (R:=Mem) l a).
Definition SubnamespaceAnchorStatus_DeepCopyInto (in_ : SubnamespaceAnchorStatus) : M mem SubnamespaceAnchorStatus := mret in_.
Definition SubnamespaceAnchor_DeepCopyInto (in_ : SubnamespaceAnchorT Mem) : M mem (SubnamespaceAnchorT Mem) :=
  m ← ObjectMeta_DeepCopyInto (o_ObjectMeta in_);
  s ← SubnamespaceAnchorSpec_DeepCopyInto (o_Spec in_);
  mret (mkResource (R:=Mem) (T:=λ _, SubnamespaceAnchorStatus) (o_TypeMeta in_) m s (o_Status in_)).
Definition SubnamespaceAnchorList_DeepCopyInto (in_ : SubnamespaceAnchorListT Mem) : M mem (SubnamespaceAnchorListT Mem) :=
  m ← ListMeta_DeepCopyInto (l_ListMeta in_);
  i ← make_ GSubnamespaceAnchor SubnamespaceAnchor_DeepCopyInto (l_Items in_);
  mret (mkResourceList (R:=Mem) (l_TypeMeta in_) m i).
End deepcopy.

(** ** Each of them is a copy *)
Section fresh.
  Context (D : gset addr).
Definition fresh_at {A} (m : L A) (a : A) (h : mem) : Prop := ∃ F, m h = Some (a, F) ∧ F ## D.
Lemma fresh_at_ret {A} (a : A) h : fresh_at (mret a) a h.
Proof. exists ∅. split; [done|set_solver]. Qed.
Lemma fresh_at_bind {A B} (m : L A) (k : A → L B) a b h :
  fresh_at m a h → fresh_at (k a) b h → fresh_at (m ≫= k) b h.
Proof. intros (F & HF & ?) (G & HG & ?). exists (F ∪ G). split; [by eapply L_bind_intro|set_solver]. Qed.
End fresh.

(** A struct: its fields in order, each by its own instance. *)
Ltac copy_field h0 :=
  apply allocates_bind; eapply allocates_mono;
    [eapply allocates_copy with (D:=dom h0); [apply _|eassumption|first [reflexivity|eassumption]|first [reflexivity|by apply subseteq_dom]]|];
    let y := fresh "y" in let h := fresh "h" in let Hs := fresh "Hs" in let Hf := fresh "Hf" in
    intros y h Hs Hf _;
    repeat match goal with
    | H : fresh_copy _ ?ld _ _ ?h1, H' : ?h1 ⊆ h |- _ =>
        let X := fresh in pose proof (fresh_copy_mono ld _ _ _ _ _ H H') as X; clear H; rename X into H
    | H : h0 ⊆ ?h1, H' : ?h1 ⊆ h |- _ =>
        lazymatch goal with _ : h0 ⊆ h |- _ => fail | _ => assert (h0 ⊆ h) by (by transitivity h1) end
    end.
Ltac copy_struct :=
  split; [intros; apply _|];
  let Hl := fresh "Hl" in
  intros h x v F Hl; repeat (apply L_bind_inv in Hl as (? & ? & ? & ? & Hl & ->)); injection Hl as <- <-;
  repeat match goal with H : load_flat _ _ = Some _ |- _ => injection H as <- <- end;
  repeat copy_field h; apply allocates_ret;
  repeat (eapply fresh_at_bind; [first [eassumption|apply fresh_at_ret]|]); apply fresh_at_ret.

Section instances.
  Context `{RO : RangeOrder}.
#[export] Instance Copies_Quantity : Copies load_Quantity Quantity_DeepCopy.
Proof. unfold load_Quantity, Quantity_DeepCopy. copy_struct. Qed.
#[export] Instance Copies_OwnerReference : Copies load_OwnerReference OwnerReference_DeepCopyInto.
Proof. unfold load_OwnerReference, OwnerReference_DeepCopyInto. copy_struct. Qed.
#[export] Instance Copies_FieldsV1 : Copies load_FieldsV1 FieldsV1_DeepCopyInto.
Proof. unfold load_FieldsV1, FieldsV1_DeepCopyInto. copy_struct. Qed.
#[export] Instance Copies_ManagedFieldsEntry : Copies load_ManagedFieldsEntry ManagedFieldsEntry_DeepCopyInto.
Proof. unfold load_ManagedFieldsEntry, ManagedFieldsEntry_DeepCopyInto. copy_struct. Qed.
#[export] Instance Copies_ObjectMeta : Copies load_ObjectMeta ObjectMeta_DeepCopyInto.
Proof. unfold load_ObjectMeta, ObjectMeta_DeepCopyInto. copy_struct. Qed.
#[export] Instance Copies_ListMeta : Copies load_ListMeta ListMeta_DeepCopyInto.
Proof. unfold load_ListMeta, ListMeta_DeepCopyInto. copy_struct. Qed.
#[export] Instance Copies_ResourceStatus : Copies load_ResourceStatus ResourceStatus_DeepCopyInto.
Proof. unfold load_ResourceStatus, ResourceStatus_DeepCopyInto. copy_struct. Qed.
#[export] Instance Copies_HNCConfigurationSpec : Copies load_HNCConfigurationSpec HNCConfigurationSpec_DeepCopyInto.
Proof. unfold load_HNCConfigurationSpec, HNCConfigurationSpec_DeepCopyInto. copy_struct. Qed.
#[export] Instance Copies_HNCConfigurationStatus : Copies load_HNCConfigurationStatus HNCConfigurationStatus_DeepCopyInto.
Proof. unfold load_HNCConfigurationStatus, HNCConfigurationStatus_DeepCopyInto. copy_struct. Qed.
#[export] Instance Copies_HierarchicalResourceQuotaSpec : Copies load_HRQSpec HierarchicalResourceQuotaSpec_DeepCopyInto.
Proof. unfold load_HRQSpec, HierarchicalResourceQuotaSpec_DeepCopyInto. copy_struct. Qed.
#[export] Instance Copies_HierarchicalResourceQuotaStatus : Copies load_HRQStatus HierarchicalResourceQuotaStatus_DeepCopyInto.
Proof. unfold load_HRQStatus, HierarchicalResourceQuotaStatus_DeepCopyInto. copy_struct. Qed.
#[export] Instance Copies_HierarchyConfigurationSpec : Copies load_HierarchyConfigurationSpec HierarchyConfigurationSpec_DeepCopyInto.
Proof. unfold load_HierarchyConfigurationSpec, HierarchyConfigurationSpec_DeepCopyInto. copy_struct. Qed.
#[export] Instance Copies_HierarchyConfigurationStatus : Copies load_HierarchyConfigurationStatus HierarchyConfigurationStatus_DeepCopyInto.
Proof. unfold load_HierarchyConfigurationStatus, HierarchyConfigurationStatus_DeepCopyInto. copy_struct. Qed.
#[export] Instance Copies_SubnamespaceAnchorSpec : Copies load_SubnamespaceAnchorSpec SubnamespaceAnchorSpec_DeepCopyInto.
Proof. unfold load_SubnamespaceAnchorSpec, SubnamespaceAnchorSpec_DeepCopyInto. copy_struct. Qed.
#[export] Instance Copies_HNCConfiguration : Copies load_HNCConfiguration HNCConfiguration_DeepCopyInto.
Proof. unfold load_HNCConfiguration, load_resource, HNCConfiguration_DeepCopyInto. copy_struct. Qed.
#[export] Instance Copies_HierarchicalResourceQuota : Copies load_HRQ HierarchicalResourceQuota_DeepCopyInto.
Proof. unfold load_HRQ, load_resource, HierarchicalResourceQuota_DeepCopyInto. copy_struct. Qed.
#[export] Instance Copies_HierarchyConfiguration : Copies load_HierarchyConfiguration HierarchyConfiguration_DeepCopyInto.
Proof. unfold load_HierarchyConfiguration, load_resource, HierarchyConfiguration_DeepCopyInto. copy_struct. Qed.
(** The status is copied by assignment. *)
#[export] Instance Copies_SubnamespaceAnchor : Copies load_SubnamespaceAnchor SubnamespaceAnchor_DeepCopyInto.
Proof. unfold load_SubnamespaceAnchor, load_resource, SubnamespaceAnchor_DeepCopyInto. copy_struct. Qed.
#[export] Instance Copies_HNCConfigurationList : Copies (load_list_of (load_s GHNCConfiguration load_HNCConfiguration)) HNCConfigurationList_DeepCopyInto.
Proof. unfold load_list_of, HNCConfigurationList_DeepCopyInto. copy_struct. Qed.
#[export] Instance Copies_HierarchicalResourceQuotaList : Copies (load_list_of (load_s GHRQ load_HRQ)) HierarchicalResourceQuotaList_DeepCopyInto.
Proof. unfold load_list_of, HierarchicalResourceQuotaList_DeepCopyInto. copy_struct. Qed.
#[export] Instance Copies_HierarchyConfigurationList : Copies (load_list_of (load_s GHierarchyConfiguration load_HierarchyConfiguration)) HierarchyConfigurationList_DeepCopyInto.
Proof. unfold load_list_of, HierarchyConfigurationList_DeepCopyInto. copy_struct. Qed.
#[export] Instance Copies_SubnamespaceAnchorList : Copies (load_list_of (load_s GSubnamespaceAnchor load_SubnamespaceAnchor)) SubnamespaceAnchorList_DeepCopyInto.
Proof. unfold load_list_of, SubnamespaceAnchorList_DeepCopyInto. copy_struct. Qed.
End instances.

(** ** DeepCopy and DeepCopyObject *)
Definition load (t : gotype) : den t → L (struct t Val) :=
  match t with
  | GQuantity => load_Quantity
  | GOwnerReference => load_OwnerReference
  | GFieldsV1 => load_FieldsV1
  | GManagedFieldsEntry => load_ManagedFieldsEntry
  | GResourceStatus => load_ResourceStatus
  | GHNCConfigurationSpec => load_HNCConfigurationSpec
  | GHNCConfigurationStatus => load_HNCConfigurationStatus
  | GHNCConfiguration => load_HNCConfiguration
  | GHNCConfigurationList => load_list_of (load_s GHNCConfiguration load_HNCConfiguration)
  | GHRQSpec => load_HRQSpec
  | GHRQStatus => load_HRQStatus
  | GHRQ => load_HRQ
  | GHRQList => load_list_of (load_s GHRQ load_HRQ)
  | GHierarchyConfigurationSpec => load_HierarchyConfigurationSpec
  | GHierarchyConfigurationStatus => load_HierarchyConfigurationStatus
  | GHierarchyConfiguration => load_HierarchyConfiguration
  | GHierarchyConfigurationList => load_list_of (load_s GHierarchyConfiguration load_HierarchyConfiguration)
  | GSubnamespaceAnchorSpec => load_SubnamespaceAnchorSpec
  | GSubnamespaceAnchor => load_SubnamespaceAnchor
  | GSubnamespaceAnchorList => load_list_of (load_s GSubnamespaceAnchor load_SubnamespaceAnchor)
  | GInt | GBool | GString | GTime | GByte | GDec | GCondition | GMetaKVP | GResourceSpec | GSubnamespaceAnchorStatus => load_flat
  end.

Section methods.
  Context `{RO : RangeOrder}.

(** The method [DeepCopyInto] of each type; assignment for the types that have no references. *)
Definition DeepCopyInto (t : gotype) : den t → M mem (den t) :=
  match t with
  | GQuantity => Quantity_DeepCopy
  | GOwnerReference => OwnerReference_DeepCopyInto
  | GFieldsV1 => FieldsV1_DeepCopyInto
  | GManagedFieldsEntry => ManagedFieldsEntry_DeepCopyInto
  | GHNCConfiguration => HNCConfiguration_DeepCopyInto
  | GHNCConfigurationList => HNCConfigurationList_DeepCopyInto
  | GHNCConfigurationSpec => HNCConfigurationSpec_DeepCopyInto
  | GHNCConfigurationStatus => HNCConfigurationStatus_DeepCopyInto
  | GHRQ => HierarchicalResourceQuota_DeepCopyInto
  | GHRQList => HierarchicalResourceQuotaList_DeepCopyInto
  | GHRQSpec => HierarchicalResourceQuotaSpec_DeepCopyInto
  | GHRQStatus => HierarchicalResourceQuotaStatus_DeepCopyInto
  | GHierarchyConfiguration => HierarchyConfiguration_DeepCopyInto
  | GHierarchyConfigurationList => HierarchyConfigurationList_DeepCopyInto
  | GHierarchyConfigurationSpec => HierarchyConfigurationSpec_DeepCopyInto
  | GHierarchyConfigurationStatus => HierarchyConfigurationStatus_DeepCopyInto
  | GMetaKVP => MetaKVP_DeepCopyInto
  | GResourceSpec => ResourceSpec_DeepCopyInto
  | GResourceStatus => ResourceStatus_DeepCopyInto
  | GSubnamespaceAnchor => SubnamespaceAnchor_DeepCopyInto
  | GSubnamespaceAnchorList => SubnamespaceAnchorList_DeepCopyInto
  | GSubnamespaceAnchorSpec => SubnamespaceAnchorSpec_DeepCopyInto
  | GSubnamespaceAnchorStatus => SubnamespaceAnchorStatus_DeepCopyInto
  | GInt | GBool | GString | GTime | GByte | GDec | GCondition => mret
  end.
#[export] Instance Copies_DeepCopyInto t : Copies (load t) (DeepCopyInto t).
Proof. destruct t; simpl; apply _. Qed.

(** A runtime.Object: nil, or a pointer with its type. *)
Abbreviation Object := (option (gotype * addr)).

(** [if in == nil { return nil }; out := new(T); in.DeepCopyInto(out); return out] *)
Definition DeepCopy_of (t : gotype) (in_ : option addr) : M mem (option addr) :=
  match in_ with None => mret None | Some _ => copy_ptr (zero t) (DeepCopyInto t) in_ end.
(** [if c := in.DeepCopy(); c != nil { return c }; return nil] *)
Definition DeepCopyObject_of (t : gotype) (in_ : option addr) : M mem Object :=
  c ← DeepCopy_of t in_; match c with Some l => mret (Some (t, l)) | None => mret None end.

Definition HNCConfiguration_DeepCopy := DeepCopy_of GHNCConfiguration.
Definition HNCConfiguration_DeepCopyObject := DeepCopyObject_of GHNCConfiguration.
Definition HNCConfigurationList_DeepCopy := DeepCopy_of GHNCConfigurationList.
Definition HNCConfigurationList_DeepCopyObject := DeepCopyObject_of GHNCConfigurationList.
Definition HNCConfigurationSpec_DeepCopy := DeepCopy_of GHNCConfigurationSpec.
Definition HNCConfigurationStatus_DeepCopy := DeepCopy_of GHNCConfigurationStatus.
Definition HierarchicalResourceQuota_DeepCopy := DeepCopy_of GHRQ.
Definition HierarchicalResourceQuota_DeepCopyObject := DeepCopyObject_of GHRQ.
Definition HierarchicalResourceQuotaList_DeepCopy := DeepCopy_of GHRQList.
Definition HierarchicalResourceQuotaList_DeepCopyObject := DeepCopyObject_of GHRQList.
Definition HierarchicalResourceQuotaSpec_DeepCopy := DeepCopy_of GHRQSpec.
Definition HierarchicalResourceQuotaStatus_DeepCopy := DeepCopy_of GHRQStatus.
Definition HierarchyConfiguration_DeepCopy := DeepCopy_of GHierarchyConfiguration.
Definition HierarchyConfiguration_DeepCopyObject := DeepCopyObject_of GHierarchyConfiguration.
Definition HierarchyConfigurationList_DeepCopy := DeepCopy_of GHierarchyConfigurationList.
Definition HierarchyConfigurationList_DeepCopyObject := DeepCopyObject_of GHierarchyConfigurationList.
Definition HierarchyConfigurationSpec_DeepCopy := DeepCopy_of GHierarchyConfigurationSpec.
Definition HierarchyConfigurationStatus_DeepCopy := DeepCopy_of GHierarchyConfigurationStatus.
Definition MetaKVP_DeepCopy := DeepCopy_of GMetaKVP.
Definition ResourceSpec_DeepCopy := DeepCopy_of GResourceSpec.
Definition ResourceStatus_DeepCopy := DeepCopy_of GResourceStatus.
Definition SubnamespaceAnchor_DeepCopy := DeepCopy_of GSubnamespaceAnchor.
Definition SubnamespaceAnchor_DeepCopyObject := DeepCopyObject_of GSubnamespaceAnchor.
Definition SubnamespaceAnchorList_DeepCopy := DeepCopy_of GSubnamespaceAnchorList.
Definition SubnamespaceAnchorList_DeepCopyObject := DeepCopyObject_of GSubnamespaceAnchorList.
Definition SubnamespaceAnchorSpec_DeepCopy := DeepCopy_of GSubnamespaceAnchorSpec.
Definition SubnamespaceAnchorStatus_DeepCopy := DeepCopy_of GSubnamespaceAnchorStatus.

Lemma DeepCopy_of_eq t p : DeepCopy_of t p = copy_ptr (zero t) (DeepCopyInto t) p.
Proof. by destruct p. Qed.
End methods.

(** Writes to memory, in order. *)
Definition write_all (ws : list (addr * cell)) (h : mem) : mem := foldl (λ h lc, <[lc.1 := lc.2]> h) h ws.
Lemma write_all_other ws h l : l ∉ ws.*1 → write_all ws h !! l = h !! l.
Proof.
  revert h. induction ws as [|[k c] ws IH]; intros h; csimpl; [done|]. rewrite not_elem_of_cons. intros [Hne Hl].
  unfold write_all in *. simpl. rewrite IH by done. by apply lookup_insert_ne.
Qed.
