(* ===== verification/HncConfigValidator.v ===== *)
(** * The HNC configuration webhook (internal/hncconfig/validator.go)

    It refuses configurations with unknown, enforced or duplicate types, and
    changes of mode that would overwrite objects of users: those are found by a walk
    down each tree of the forest. *)

From S2P Require Import Prelude GoStrings Chains Validation Api Config Selectors Resources Forest ForestWf ForestWalks.
From S2P Require Import ForestReads World Objects Propagation HncConfig.

Definition HNCConfigurationGR : string := "hncconfigurations.hnc.x-k8s.io".
Definition HNCConfigurationGK : string := "HNCConfiguration.hnc.x-k8s.io".

Abbreviation gvkSet := (gmap GroupVersionKind SynchronizationMode).
Abbreviation ancestorObjects := (gmap string (list string)).

Definition ao_get (a : ancestorObjects) (onm : string) : list string := default [] (a !! onm).
Definition ao_add (a : ancestorObjects) (onm nm : string) : ancestorObjects := <[onm := ao_get a onm ++ [nm]]> a.

Section validator.
  Context `{RO : RangeOrder} `{RX : RegexpLib} `{SL : SelectorLib} (cfg : Config)
    (mapper : GroupResource → mapError + GroupVersionKind).

(** The errors of the entry with index [i], and the set with its kind added. *)
Definition validate_type (i : nat) (r : ResourceSpec) (ts : gvkSet) : list fieldError * gvkSet :=
  let gr := gr_String (rsp_GR r) in
  let fldPath := "spec.resources[" +:+ Itoa i +:+ "]" in
  let '(gvk, errs) := match mapper (rsp_GR r) with
                      | inr gvk => (gvk, [])
                      | inl err => (zeroGVK, [Invalid fldPath gr (mapError_msg err)])
                      end in
  (errs ++
   (if isEnforced mapper gvk then [Invalid fldPath gr "always uses the 'Propagate' mode and cannot be configured"] else []) ++
   (if decide (is_Some (ts !! gvk)) then [Duplicate fldPath gr] else []),
   <[gvk := rsp_Mode r]> ts).

Fixpoint validate_types (i : nat) (rs : list ResourceSpec) (ts : gvkSet) : list fieldError * gvkSet :=
  match rs with
  | [] => ([], ts)
  | r :: rs' =>
      let '(errs, ts) := validate_type i r ts in
      let '(errs', ts) := validate_types (S i) rs' ts in
      (errs ++ errs', ts)
  end.

Definition validateTypes (inst : HNCConfiguration) : Response * gvkSet :=
  let '(allErrs, ts) := validate_types 0 (hn_Resources inst) ∅ in
  match allErrs with
  | [] => (Allow "", ts)
  | _ => (DenyInvalid HNCConfigurationGK HNCConfigSingleton allErrs, ts)
  end.

(** ** Conflicts *)
Section tree.
  Context (f : Forest) (gvk : GroupVersionKind) (mode : SynchronizationMode).

(** The ancestors [nnms] that have a source named [onm], against the namespace [ns]. *)
Fixpoint check_against (ns : loc) (onm : string) (nnms : list string) : outcome (list string) :=
  match nnms with
  | [] => Done []
  | nnm :: nnms' =>
      match GetSourceObject (ns_at f nnm) gvk onm with
      | None => Panics
      | Some inst =>
          ok ← ShouldPropagate cfg inst (items (GetLabels f ns)) mode;
          rest ← check_against ns onm nnms';
          mret (match ok with
                | inr true => ["  Object " +:+ quoted onm +:+ " in namespace " +:+ quoted nnm +:+ " would overwrite the one in " +:+ quoted (Name f (Some ns))]
                | _ => []
                end ++ rest)
      end
  end.

Fixpoint check_sources (ns : loc) (srcs : list NamespacedName) (objs : ancestorObjects) : outcome (list string * ancestorObjects) :=
  match srcs with
  | [] => Done ([], objs)
  | srcNNM :: srcs' =>
      let onm := nn_name srcNNM in
      cs ← check_against ns onm (ao_get objs onm);
      '(cs', objs) ← check_sources ns srcs' (ao_add objs onm (Name f (Some ns)));
      mret (cs ++ cs', objs)
  end.

Fixpoint checkConflictsForTree (fuel : nat) (ao : ancestorObjects) (ns : loc) : outcome (list string) :=
  match fuel with
  | O => Diverges
  | S fuel' =>
      '(conflicts, objs) ← check_sources ns (GetSourceNames (deref f ns) gvk) ao;
      fold_left (λ acc cnm,
        cs ← acc;
        cs' ← match f_namespaces f !! cnm with Some c => checkConflictsForTree fuel' objs c | None => Done [] end;
        mret (cs ++ cs')) (ChildNames (deref f ns)) (Done conflicts)
  end.

Definition checkConflictsForGVK : outcome (list string) :=
  fold_left (λ acc ns,
    cs ← acc;
    cs' ← checkConflictsForTree (steps f) ∅ ns;
    mret (cs ++ cs')) (GetRoots f) (Done []).
End tree.

(** The types that are to be propagated and are not yet. *)
Definition getNewPropagateTypes (f : Forest) (ts : gvkSet) : gvkSet :=
  let newPts := filter (λ '(_, mode), mode = Propagate ∨ mode = AllowPropagate) ts in
  fold_left (λ pts t, if CanPropagate t then delete (ts_GVK t) pts else pts) (GetTypeSyncers f) newPts.

Fixpoint check_types (f : Forest) (gvks : list (GroupVersionKind * SynchronizationMode)) : outcome Response :=
  match gvks with
  | [] => Done (Allow "")
  | (gvk, mode) :: gvks' =>
      conflicts ← checkConflictsForGVK f gvk mode;
      match conflicts with
      | [] => check_types f gvks'
      | _ =>
          let nl := String (Ascii.ascii_of_nat 10) EmptyString in
          mret (DenyConflict HNCConfigurationGR Singleton
            ("Cannot update configuration because setting type " +:+ quoted (gvk_text gvk) +:+
             " to 'Propagate' mode or 'AllowPropagate' mode would overwrite user-created object(s):" +:+ nl +:+
             Join conflicts nl +:+ nl +:+ "To fix this, please rename or remove the conflicting objects first."))
      end
  end.

Definition checkForest (f : Forest) (ts : gvkSet) : outcome Response := check_types f (range (getNewPropagateTypes f ts)).

Definition handle (f : Forest) (inst : HNCConfiguration) : outcome Response :=
  let '(rp, ts) := validateTypes inst in
  if negb (Allowed rp) then Done rp else checkForest f ts.

(** [Handle] without the decoding of the request. *)
Definition Handle (f : Forest) (ui : UserInfo) (op : Operation) (name : string) (inst : HNCConfiguration) : outcome Response :=
  if IsHNCServiceAccount cfg (Some ui) then Done (Allow "HNC SA")
  else if decide (op = Delete) then
    if decide (name = HNCConfigSingleton)
    then Done (DenyForbidden HNCConfigurationGR HNCConfigSingleton "deleting the 'config' object is forbidden")
    else Done (Allow "")
  else handle f inst.
End validator.

(** ** Facts *)
Section facts.
  Context `{RO : RangeOrder} `{RX : RegexpLib} `{SL : SelectorLib} (cfg : Config).
  Context (f : Forest) (Hwf : wf f) (Hok : sources_ok f) (gvk : GroupVersionKind) (mode : SynchronizationMode).

Definition source_at (x onm : string) : option Unstructured := GetSourceObject (ns_at f x) gvk onm.

(** The source [onm] of [y] would be propagated to [x]. *)
Definition overwrites (y x onm : string) : Prop :=
  ∃ o, source_at y onm = Some o ∧ ShouldPropagate cfg o (items (ns_labels (ns_at f x))) mode = Done (inr true).

(** No source makes the parser of tree selectors panic. *)
Definition parses : Prop := ∀ x y onm o, source_at y onm = Some o →
  ShouldPropagate cfg o (items (ns_labels (ns_at f x))) mode ≠ Panics.
Context (Hparse : parses).

Lemma check_against_spec x l onm nnms : f_namespaces f !! x = Some l → (∀ y, y ∈ nnms → is_Some (source_at y onm)) →
  ∃ cs, check_against cfg f gvk mode l onm nnms = Done cs ∧ (cs = [] ↔ ∀ y, y ∈ nnms → ¬ overwrites y x onm).
Proof.
  intros Hl. induction nnms as [|y nnms IH]; intros Hy; cbn [check_against].
  { exists []. split; [done|]. split; [|done]. by intros _ y ?%elem_of_nil. }
  destruct (Hy y) as [o Ho]; [by left|]. pose proof Ho as Ho'. unfold source_at in Ho'. rewrite Ho'.
  destruct IH as (cs & Hcs & Hiff); [intros; apply Hy; by right|].
  pose proof (Hparse x y onm o Ho) as Hp. pose proof (ShouldPropagate_finite cfg o (items (ns_labels (ns_at f x))) mode) as Hfin.
  unfold finite in Hfin. rewrite (ns_at_live _ _ _ Hl) in Hp, Hfin. unfold GetLabels.
  destruct (ShouldPropagate cfg o (items (ns_labels (deref f l))) mode) as [r| |] eqn:Hs; [|by destruct Hp|by destruct Hfin].
  cbn [mbind outcome_bind]. rewrite Hcs. cbn [mbind outcome_bind].
  assert (overwrites y x onm ↔ r = inr true) as Hov.
  { unfold overwrites. rewrite (ns_at_live _ _ _ Hl). split; [|intros ->; by exists o]. intros (o' & Ho'' & Hs'). simplify_eq. congruence. }
  setoid_rewrite elem_of_cons. destruct r as [err|[]]; (eexists; split; [done|]); simpl.
  - rewrite Hiff. split; [intros Hall z [->|Hz]; [by rewrite Hov|auto]|auto].
  - split; [done|]. intros Hall. destruct (Hall y (or_introl eq_refl)). by apply Hov.
  - rewrite Hiff. split; [intros Hall z [->|Hz]; [by rewrite Hov|auto]|auto].
Qed.

(** [objs] lists the namespaces of [path] that have a source, by its name. *)
Definition objs_ok (objs : ancestorObjects) (path : list string) : Prop :=
  ∀ onm y, y ∈ ao_get objs onm ↔ y ∈ path ∧ is_Some (source_at y onm).

Lemma ao_get_add objs onm nm o : ao_get (ao_add objs onm nm) o = if decide (o = onm) then ao_get objs onm ++ [nm] else ao_get objs o.
Proof.
  unfold ao_get, ao_add. destruct (decide (o = onm)) as [->|]; [by rewrite lookup_insert_eq|by rewrite lookup_insert_ne].
Qed.

Lemma check_sources_spec x l srcs objs : f_namespaces f !! x = Some l → NoDup (nn_name <$> srcs) →
  (∀ s, s ∈ srcs → ∀ y, y ∈ ao_get objs (nn_name s) → is_Some (source_at y (nn_name s))) →
  ∃ cs objs', check_sources cfg f gvk mode l srcs objs = Done (cs, objs') ∧
    (cs = [] ↔ ∀ s y, s ∈ srcs → y ∈ ao_get objs (nn_name s) → ¬ overwrites y x (nn_name s)) ∧
    ∀ onm, ao_get objs' onm = if decide (onm ∈ nn_name <$> srcs) then ao_get objs onm ++ [x] else ao_get objs onm.
Proof.
  intros Hl. revert objs. induction srcs as [|s srcs IH]; intros objs Hnd Hy; cbn [check_sources].
  { exists [], objs. split_and!; [done| |done]. split; [|done]. by intros _ s y ?%elem_of_nil. }
  rewrite fmap_cons in Hnd. apply NoDup_cons in Hnd as [Hs Hnd].
  destruct (check_against_spec x l (nn_name s) (ao_get objs (nn_name s)) Hl) as (cs & -> & Hcs); [apply Hy; by left|].
  assert (∀ s', s' ∈ srcs → ao_get (ao_add objs (nn_name s) (Name f (Some l))) (nn_name s') = ao_get objs (nn_name s')) as Hsame.
  { intros s' Hs'. rewrite ao_get_add. destruct (decide _) as [Heq|]; [|done]. destruct Hs. rewrite <- Heq. by apply list_elem_of_fmap_2. }
  destruct (IH (ao_add objs (nn_name s) (Name f (Some l))) Hnd) as (cs' & objs' & Hr & Hcs' & Hobjs).
  { intros s' Hs' y. rewrite Hsame by done. apply Hy. by right. }
  cbn [mbind outcome_bind]. rewrite Hr. cbn [mbind outcome_bind]. eexists _, objs'. split; [done|]. split.
  - rewrite app_nil, Hcs, Hcs'. split.
    + intros [H1 H2] s' y [->|Hs']%elem_of_cons Hin; [by apply H1|]. apply H2; [done|]. by rewrite Hsame.
    + intros Hall. split; [intros y Hin; apply Hall; [by left|done]|]. intros s' y Hs' Hin. apply Hall; [by right|]. by rewrite Hsame in Hin.
  - intros onm. rewrite Hobjs, !ao_get_add. simpl. rewrite (live_name f Hwf _ _ Hl).
    destruct (decide (onm = nn_name s)) as [->|Hne].
    + rewrite decide_False by done. rewrite decide_True by (by left). done.
    + destruct (decide (onm ∈ nn_name <$> srcs)); [rewrite decide_True by (by right)|rewrite decide_False by (rewrite elem_of_cons; tauto)]; done.
Qed.

(** The sources of a namespace, by name. *)
Lemma GetSourceNames_names x l : f_namespaces f !! x = Some l →
  NoDup (nn_name <$> GetSourceNames (deref f l) gvk) ∧
  ∀ onm, onm ∈ nn_name <$> GetSourceNames (deref f l) gvk ↔ is_Some (source_at x onm).
Proof.
  intros Hl. unfold source_at. rewrite (ns_at_live _ _ _ Hl). unfold GetSourceNames, GetSourceObject.
  set (m := default ∅ (ns_sourceObjects (deref f l) !! gvk)).
  assert (∀ k o, m !! k = Some o → om_Name (u_Meta o) = k) as Hm.
  { intros k o Hk. by apply (Hok x l gvk k o Hl). }
  assert (nn_name <$> ((λ '(_, obj), mkNN (om_Namespace (u_Meta obj)) (om_Name (u_Meta obj))) <$> range m) = keys_of m) as ->.
  { unfold keys_of. rewrite <- list_fmap_compose. apply list_fmap_ext. intros i [k o] Hi%list_elem_of_lookup_2%elem_of_range.
    simpl. by apply Hm. }
  split; [apply NoDup_keys|]. intros onm. apply elem_of_keys.
Qed.

(** ** The walk down a tree *)

(** [x :: path] are the namespaces from [x] up to a root. *)
Definition rooted (x : string) (path : list string) : Prop :=
  chain (parent_name f) (x :: path) ∧ NoDup (x :: path) ∧ ends_at_root (parent_name f) (x :: path).

Lemma rooted_child x path c : rooted x path → parent_name f c = Some x → rooted c (x :: path).
Proof.
  intros (Hc & Hnd & Hend) Hp. split_and!.
  - by apply (chain_join _ [] c x path); [constructor|..].
  - constructor; [|done]. intros Hin. destruct Hend as (r & Hr & Hroot).
    assert (in_cycle (parent_name f) x) as Hcyc.
    { pose proof (chain_reach _ _ _ _ Hc Hin) as Hrt. unfold in_cycle. apply rtc_tc in Hrt as [<-|Ht]; [by apply tc_once|by eapply tc_r]. }
    assert (rtc (up (parent_name f)) x r) as Hxr by (eapply chain_reach; [exact Hc|by eapply last_Some_elem_of]).
    apply (in_cycle_reach _ _ _ Hcyc) in Hxr. apply in_cycle_has_parent in Hxr as [? ?]. congruence.
  - destruct Hend as (r & ? & ?). by exists r.
Qed.

Lemma rooted_length x path l : f_namespaces f !! x = Some l → rooted x path → length (x :: path) ≤ size (f_namespaces f).
Proof.
  intros Hl (Hc & Hnd & _). rewrite <- size_dom. apply NoDup_length_bound; [done|]. intros y Hy. apply elem_of_dom.
  eapply (rtc_live f Hwf x y); [by eexists|]. by eapply chain_reach.
Qed.

Lemma rooted_tc x path y : rooted x path → y ∈ path ↔ tc (up (parent_name f)) x y.
Proof. intros (Hc & Hnd & Hend). apply (full_walk_tail (parent_name f)). split; [done|]. split; [done|]. by left. Qed.

Lemma fold_gather {A B} (g : A → outcome (list B)) (P : A → Prop) (xs : list A) (r0 : list B) :
  (∀ a, a ∈ xs → ∃ r, g a = Done r ∧ (r = [] ↔ P a)) →
  ∃ r, fold_left (λ acc a, cs ← acc; cs' ← g a; mret (cs ++ cs')) xs (Done r0) = Done r ∧ (r = [] ↔ r0 = [] ∧ ∀ a, a ∈ xs → P a).
Proof.
  revert r0. induction xs as [|a xs IH]; intros r0 Hg; simpl.
  { exists r0. split; [done|]. split; [intros ->; split; [done|]; by intros a ?%elem_of_nil|by intros [? _]]. }
  destruct (Hg a) as (ra & -> & Ha); [by left|]. cbn [mbind outcome_bind mret outcome_ret].
  destruct (IH (r0 ++ ra)) as (r & Hr & Hiff); [intros; apply Hg; by right|]. exists r. split; [done|].
  rewrite Hiff, app_nil, Ha. setoid_rewrite elem_of_cons. naive_solver.
Qed.

(** Nothing at or below [x] would be overwritten. *)
Definition no_conflict_below (x : string) : Prop :=
  ∀ z onm y, rtc (up (parent_name f)) z x → tc (up (parent_name f)) z y → is_Some (source_at z onm) → ¬ overwrites y z onm.

Lemma checkConflictsForTree_spec fuel x l path objs : f_namespaces f !! x = Some l → rooted x path → objs_ok objs path →
  size (f_namespaces f) < length path + fuel →
  ∃ cs, checkConflictsForTree cfg f gvk mode fuel objs l = Done cs ∧ (cs = [] ↔ no_conflict_below x).
Proof.
  revert x l path objs. induction fuel as [|fuel IH]; intros x l path objs Hl Hr Hobjs Hfuel.
  { pose proof (rooted_length x path l Hl Hr). simpl in *. lia. }
  cbn [checkConflictsForTree]. destruct (GetSourceNames_names x l Hl) as [Hnd Hnames].
  destruct (check_sources_spec x l (GetSourceNames (deref f l) gvk) objs Hl Hnd) as (cs & objs' & -> & Hcs & Hobjs').
  { intros s Hs y Hy. by apply Hobjs in Hy as [_ ?]. }
  cbn [mbind outcome_bind].
  assert (objs_ok objs' (x :: path)) as Hok'.
  { intros onm y. rewrite Hobjs', elem_of_cons. destruct (decide (onm ∈ _)) as [Hin|Hin]; rewrite Hnames in Hin.
    - rewrite elem_of_app, list_elem_of_singleton, (Hobjs onm y). naive_solver.
    - rewrite (Hobjs onm y). naive_solver. }
  destruct (fold_gather (λ cnm, match f_namespaces f !! cnm with Some c => checkConflictsForTree cfg f gvk mode fuel objs' c | None => Done [] end)
    no_conflict_below (ChildNames (deref f l)) cs) as (r & Hrun & Hiff).
  { intros c Hc. apply (ChildNames_elem f Hwf x l c Hl) in Hc. destruct (up_live f Hwf c x Hc) as [[lc Hlc] _]. rewrite Hlc.
    apply (IH c lc (x :: path)); [done|by apply rooted_child|done|]. simpl. lia. }
  exists r. split; [exact Hrun|]. rewrite Hiff, Hcs. split.
  - intros [Hself Hch] z onm y Hz Hy Hs. apply rtc_inv_r in Hz as [->|(c & Hzc & Hcx)].
    + apply (rooted_tc x path y Hr) in Hy. pose proof Hs as Hn. apply Hnames, list_elem_of_fmap in Hn as (s & -> & Hin).
      intros Hov. apply (Hself s y Hin); [|done]. apply Hobjs. split; [done|]. destruct Hov as (o & Ho & _). eauto.
    + apply (ChildNames_elem f Hwf x l c Hl) in Hcx. by apply (Hch c Hcx).
  - intros Hall. split.
    + intros s y Hs [Hy _]%Hobjs. apply (Hall x); [done|by apply (rooted_tc x path)|].
      apply Hnames. by apply list_elem_of_fmap_2.
    + intros c Hc z onm y Hz. apply (ChildNames_elem f Hwf x l c Hl) in Hc. apply Hall. by eapply rtc_r.
Qed.

(** All trees: the walk terminates, and finds a conflict exactly if there is one. *)
Lemma checkConflictsForGVK_spec : ∃ cs, checkConflictsForGVK cfg f gvk mode = Done cs ∧
  (cs = [] ↔ ∀ x y r onm, rtc (up (parent_name f)) x r → parent_name f r = None → is_Some (f_namespaces f !! r) →
     tc (up (parent_name f)) x y → is_Some (source_at x onm) → ¬ overwrites y x onm).
Proof.
  destruct (fold_gather (checkConflictsForTree cfg f gvk mode (steps f) ∅)
    (λ l, no_conflict_below (ns_name (deref f l))) (GetRoots f) []) as (r & Hrun & Hiff).
  { intros l Hl. unfold GetRoots in Hl. apply list_elem_of_filter in Hl as [Hroot ([x l'] & -> & Hx)%list_elem_of_fmap].
    apply elem_of_range in Hx. change (x, l').2 with l' in *. rewrite (live_name f Hwf _ _ Hx).
    apply (checkConflictsForTree_spec _ x _ []); [done|..].
    - split_and!; [constructor|apply NoDup_singleton|]. exists x. split; [done|]. by rewrite (parent_name_live f _ _ Hx), Hroot.
    - intros onm y. unfold ao_get. rewrite lookup_empty. simpl. rewrite elem_of_nil. tauto.
    - unfold steps. simpl. lia. }
  exists r. split; [exact Hrun|]. rewrite Hiff. split.
  - intros [_ Hall] x y rt onm Hxr Hrt [lr Hlr]. intros Hxy Hs. specialize (Hall lr).
    rewrite (live_name f Hwf _ _ Hlr) in Hall. apply Hall; [|done..]. unfold GetRoots. apply list_elem_of_filter.
    rewrite (parent_name_live f _ _ Hlr) in Hrt. apply fmap_None in Hrt. split; [done|]. apply list_elem_of_fmap.
    exists (rt, lr). split; [done|]. by apply elem_of_range.
  - intros Hall. split; [done|]. intros l Hl z onm y Hz. unfold GetRoots in Hl.
    apply list_elem_of_filter in Hl as [Hroot ([x l'] & -> & Hx)%list_elem_of_fmap]. apply elem_of_range in Hx. simpl in *.
    rewrite (live_name f Hwf _ _ Hx) in Hz. apply (Hall z y x onm Hz); [|by eexists].
    by rewrite (parent_name_live f _ _ Hx), Hroot.
Qed.
End facts.
