(* ===== verification/HrqControllers.v ===== *)
(** * Hierarchical resource quotas: the controllers and webhooks (internal/hrq)

    The HRQ reconciler copies limits into the forest and usages out of it; the
    resource quota reconciler keeps one ResourceQuota per namespace with the
    strictest limits that apply there and feeds its usages into the forest; the
    webhook on the status of that ResourceQuota admits or rejects usages (file
    Quotas has the theory of the operations on the forest).  The text form of a
    quantity is the API machinery's (parameter [qstring]). *)

From S2P Require Import Prelude GoStrings Chains Validation Api Config Resources Forest ForestWf ForestWalks.
From S2P Require Import ForestReads Quotas Sound World.

Definition ResourceQuotaSingleton : string := "hrq." +:+ MetaGroup.
Definition HRQLabelCleanup : string := MetaGroup +:+ "/hrq".
Definition NonPropagateAnnotation : string := AnnotationPropagatePrefix +:+ "/none".
Definition ResourceQuotaAdmissionControllerUsername : string := "system:apiserver".
Definition fieldInfo : string := ".spec.hard".

Record HierarchicalResourceQuota := mkHRQ {
  hq_Meta : ObjectMeta;
  hq_SpecHard : ResourceList;
  hq_StatusHard : ResourceList;
  hq_Used : ResourceList;
  hq_RequestsSummary : string;
  hq_LimitsSummary : string
}.

Record ResourceQuota := mkRQ {
  rq_Meta : ObjectMeta;
  rq_SpecHard : ResourceList;
  rq_Used : ResourceList
}.

Inductive HrqEvent :=
  | UpdateHRQ (q : HierarchicalResourceQuota)
  | CreateRQ (q : ResourceQuota)
  | UpdateRQ (q : ResourceQuota)
  | DeleteRQ (q : ResourceQuota)
  | TriggerRQ (ns : string)
  | TriggerHRQ (ns nm : string)
  | WarnHRQ (q : HierarchicalResourceQuota) (msg : string).

Abbreviation QWorld := (World HrqEvent).

Section hrq.
  Context `{RO : RangeOrder} (qstring : Quantity → string).

Definition getNS (nm : string) : M QWorld loc := onF (Get nm) ≫= nonnil.

(** ** hrqreconciler.go *)
Definition isDeleted (inst : HierarchicalResourceQuota) : bool := IsZero (om_CreationTimestamp (hq_Meta inst)).

Definition TrimSuffix (s suf : string) : string :=
  if HasSuffix s suf then String.substring 0 (String.length s - String.length suf) s else s.

Definition is_limit (r : ResourceName) : bool :=
  match Split r (Ascii.ascii_of_nat 46) with p :: _ :: _ => bool_decide (p = "limits") | _ => false end.

(** The column of the resources selected by [p], as [kubectl get] shows it. *)
Definition summary (p : ResourceName → bool) (used hard : ResourceList) : string :=
  TrimSuffix (foldr (λ r rest, (if p r then r +:+ ": " +:+ qstring (qty used r) +:+ "/" +:+ qstring (qty hard r) +:+ ", " else "") +:+ rest)
    "" (sort_Strings (keys_of (items hard)))) ", ".

Definition syncLimits (inst : HierarchicalResourceQuota) : M QWorld bool :=
  ns ← getNS (om_Namespace (hq_Meta inst));
  if isDeleted inst then updF (RemoveLimits ns (om_Name (hq_Meta inst))) ≫= λ _, mret true
  else onF (UpdateLimits ns (om_Name (hq_Meta inst)) (hq_SpecHard inst)).

Definition syncUsages (inst : HierarchicalResourceQuota) : M QWorld HierarchicalResourceQuota :=
  if isDeleted inst then mret inst
  else
    ns ← getNS (om_Namespace (hq_Meta inst));
    f ← getF;
    let used := FilterUnlimited (subtree_of (deref f ns)) (hq_SpecHard inst) in
    mret (mkHRQ (hq_Meta inst) (hq_SpecHard inst) (hq_StatusHard inst) used
      (summary (λ r, negb (is_limit r)) used (hq_StatusHard inst)) (summary is_limit used (hq_StatusHard inst))).

(** The object, whether it was updated, and whether the forest was. *)
Definition syncHRQ (inst : HierarchicalResourceQuota) : M QWorld (HierarchicalResourceQuota * bool * bool) :=
  let changed := negb (Equals (hq_SpecHard inst) (hq_StatusHard inst)) in
  let inst := if changed then mkHRQ (hq_Meta inst) (hq_SpecHard inst) (hq_SpecHard inst) (hq_Used inst) (hq_RequestsSummary inst) (hq_LimitsSummary inst)
              else inst in
  let oldUsages := hq_Used inst in
  updatedForest ← syncLimits inst;
  inst ← syncUsages inst;
  mret (inst, changed || negb (Equals oldUsages (hq_Used inst)), updatedForest).

(** rqreconciler.go: the ResourceQuotas of a namespace and its descendants. *)
Definition EnqueueSubtree (nsnm : string) : M QWorld unit :=
  ns ← getNS nsnm;
  f ← getF;
  emit (TriggerRQ <$> (DescendantNames f ns ++ [nsnm])).

Record hrqApi := {
  hr_get : NamespacedName → ApiResult HierarchicalResourceQuota;
  hr_update : option string
}.

Definition blankHRQ : HierarchicalResourceQuota := mkHRQ blankMeta None None None "" "".
Definition named_HRQ (nnm : NamespacedName) (inst : HierarchicalResourceQuota) : HierarchicalResourceQuota :=
  mkHRQ (set_om_NamespacedName (nn_namespace nnm) (nn_name nnm) (hq_Meta inst)) (hq_SpecHard inst) (hq_StatusHard inst)
    (hq_Used inst) (hq_RequestsSummary inst) (hq_LimitsSummary inst).

Definition ReconcileHRQ (api : hrqApi) (nnm : NamespacedName) : M QWorld (option string) :=
  match hr_get api nnm with
  | ApiError err => mret (Some err)
  | r =>
      let inst := match r with Found i => i | _ => blankHRQ end in
      let inst := if isDeleted inst then named_HRQ nnm inst else inst in
      '(inst, updatedInst, updatedForest) ← syncHRQ inst;
      err ← (if negb (isDeleted inst) && updatedInst then emit [UpdateHRQ inst] ≫= λ _, mret (hr_update api) else mret None);
      match err with
      | Some e => mret (Some e)
      | None =>
          (if (updatedForest : bool) then EnqueueSubtree (om_Namespace (hq_Meta inst)) else mret tt) ≫= λ _,
          mret None
      end
  end.

(** Despite its name, the HRQs of the namespace and its ancestors. *)
Definition allSubtreeHRQs (f : Forest) (ns : loc) : list NamespacedName :=
  AncestryNames f (Some ns) ≫= λ nsnm, mkNN nsnm <$> HRQNames (ns_at f nsnm).

Definition OnChangeNamespaceHRQ (ns : loc) : M QWorld unit :=
  f ← getF; emit ((λ n, TriggerHRQ (nn_namespace n) (nn_name n)) <$> allSubtreeHRQs f ns).

(** ** rqreconciler.go *)
Definition OnChangeNamespaceRQ (ns : loc) : M QWorld unit :=
  f ← getF; emit [TriggerRQ (Name f (Some ns))].

Definition set_SpecHard (l : ResourceList) (inst : ResourceQuota) : ResourceQuota := mkRQ (rq_Meta inst) l (rq_Used inst).

Definition syncResourceLimits (f : Forest) (ns : loc) (inst : ResourceQuota) : bool * ResourceQuota :=
  let l := Limits f ns in
  if Equals l (rq_SpecHard inst) then (false, inst) else (true, set_SpecHard l inst).

Definition syncRQ (inst : ResourceQuota) : M QWorld (bool * ResourceQuota) :=
  ns ← getNS (om_Namespace (rq_Meta inst));
  f ← getF;
  let '(updated, inst) := syncResourceLimits f ns inst in
  updF (UseResources ns (rq_Used inst)) ≫= λ _,
  f ← getF;
  emit ((λ n, TriggerHRQ (nn_namespace n) (nn_name n)) <$> allSubtreeHRQs f ns) ≫= λ _,
  mret (updated, inst).

Record rqApi := {
  ra_get : string → ApiResult ResourceQuota;
  ra_getHRQ : NamespacedName → ApiResult HierarchicalResourceQuota;
  ra_create : option string;
  ra_update : option string;
  ra_delete : option string
}.

(** The text after the first colon and space, if the error has that form. *)
Definition ignoreRQErr (err : string) : string :=
  TrimPrefix err (match Split err (Ascii.ascii_of_nat 58) with p :: _ => p | [] => "" end +:+ ": ").

(** The same loops as in [allSubtreeHRQs]. *)
Definition getAncestorHRQs (inst : ResourceQuota) : M QWorld (list NamespacedName) :=
  ns ← getNS (om_Namespace (rq_Meta inst)); f ← getF; mret (allSubtreeHRQs f ns).

Definition reportHRQEvent (api : rqApi) (inst : ResourceQuota) (err : string) : M QWorld unit :=
  nnms ← getAncestorHRQs inst;
  emit (nnms ≫= λ nnm,
    match ra_getHRQ api nnm with
    | Found hrq => [WarnHRQ hrq ("could not create/update lower-level ResourceQuota in namespace " +:+
                      quoted (om_Namespace (rq_Meta inst)) +:+ ": " +:+ ignoreRQErr err)]
    | _ => []
    end).

Definition writeSingleton (api : rqApi) (inst : ResourceQuota) : M QWorld (option string) :=
  if IsZero (om_CreationTimestamp (rq_Meta inst)) then
    let inst := mkRQ (SetAnnotation (SetLabel (rq_Meta inst) HRQLabelCleanup "true") NonPropagateAnnotation "true") (rq_SpecHard inst) (rq_Used inst) in
    emit [CreateRQ inst] ≫= λ _,
    match ra_create api with
    | Some err => reportHRQEvent api inst err ≫= λ _, mret (Some ("while creating rq: " +:+ err))
    | None => mret None
    end
  else
    emit [UpdateRQ inst] ≫= λ _,
    match ra_update api with
    | Some err => reportHRQEvent api inst err ≫= λ _, mret (Some ("while updating rq: " +:+ err))
    | None => mret None
    end.

Definition deleteSingleton (api : rqApi) (inst : ResourceQuota) : M QWorld (option string) :=
  if IsZero (om_CreationTimestamp (rq_Meta inst)) then mret None
  else
    emit [DeleteRQ inst] ≫= λ _,
    mret ((λ err, "while deleting rq: " +:+ err) <$> ra_delete api).

(** The singleton of the namespace; a blank one with its name if it is not found. *)
Definition rq_getSingleton (api : rqApi) (ns : string) : string + ResourceQuota :=
  match ra_get api ns with
  | ApiError err => inl err
  | Found i => inr i
  | NotFound => inr (mkRQ (set_om_NamespacedName ns ResourceQuotaSingleton blankMeta) None None)
  end.

Definition ReconcileRQ (api : rqApi) (nnm : NamespacedName) : M QWorld (option string) :=
  if decide (nn_name nnm ≠ ResourceQuotaSingleton) then mret None
  else match rq_getSingleton api (nn_namespace nnm) with
  | inl err => mret (Some err)
  | inr inst =>
      '(updated, inst) ← syncRQ inst;
      if decide (rq_SpecHard inst = None) then deleteSingleton api inst
      else if (updated : bool) then writeSingleton api inst
      else mret None
  end.

(** ** rqstatusvalidator.go and hrqvalidator.go *)
Inductive StatusReason :=
  | ReasonUnknown | ReasonUnauthorized | ReasonForbidden | ReasonConflict | ReasonBadRequest | ReasonInvalid | ReasonInternalError
  | ReasonOther (s : string).

Definition codeFromReason (r : StatusReason) : Z :=
  match r with
  | ReasonUnknown => 500
  | ReasonUnauthorized => 401
  | ReasonForbidden => 403
  | ReasonConflict => 409
  | ReasonBadRequest => 400
  | ReasonInvalid => 422
  | ReasonInternalError => 500
  | ReasonOther _ => 500
  end%Z.

Inductive hrqResponse :=
  | allow (msg : string)
  | deny (reason : StatusReason) (msg : string)
  | denyInvalidField (field msg : string).
Definition resp_allowed (r : hrqResponse) : bool := match r with allow _ => true | _ => false end.
Definition resp_code (r : hrqResponse) : Z :=
  match r with allow _ => 0%Z | deny reason _ => codeFromReason reason | denyInvalidField _ _ => codeFromReason ReasonInvalid end.

(** The text of a rejection. *)
Definition quota_message (e : quotaError) : string :=
  foldl (λ msg '(rnm, (rq, uq, lq)),
      msg +:+ ", requested: " +:+ rnm +:+ "=" +:+ qstring rq +:+ ", used: " +:+ rnm +:+ "=" +:+ qstring uq +:+
      ", limited: " +:+ rnm +:+ "=" +:+ qstring lq)
    ("exceeded hierarchical quota in namespace " +:+ quoted (qe_ns e) +:+ ": " +:+ quoted (qe_hrq e)) (qe_exceeded e).

Definition tryUseM (ns : loc) (rl : ResourceList) : M Forest (option quotaError) := λ f, Done (TryUseResources ns rl f).

Definition handleStatus (inst : ResourceQuota) : M Forest hrqResponse :=
  ns ← GetM (om_Namespace (rq_Meta inst)) ≫= nonnil;
  err ← tryUseM ns (rq_Used inst);
  match err with
  | Some e => mret (deny ReasonForbidden (quota_message e))
  | None => mret (allow "the usage update is in compliance with the ancestors' (including itself) HRQs")
  end.

Definition isResourceQuotaAdmissionControllerServiceAccount (user : option UserInfo) : bool :=
  match user with None => true | Some u => bool_decide (ui_Username u = ResourceQuotaAdmissionControllerUsername) end.

(** [Handle] without the decoding of the request. *)
Definition HandleStatus (ui : UserInfo) (name : string) (inst : ResourceQuota) : M Forest hrqResponse :=
  if decide (name ≠ ResourceQuotaSingleton) then mret (allow "non-HRQ-singleton RQ status change ignored")
  else if negb (isResourceQuotaAdmissionControllerServiceAccount (Some ui)) then mret (allow "")
  else handleStatus inst.

(** The webhook on HRQs: the API server is asked for a dry run. *)
Definition handleHRQ (validate : ResourceQuota → option string) (rqName : string) (inst : HierarchicalResourceQuota) : hrqResponse :=
  let rq := mkRQ (set_om_NamespacedName (om_Namespace (hq_Meta inst)) rqName blankMeta) (hq_SpecHard inst) None in
  match validate rq with
  | Some err => denyInvalidField fieldInfo (ignoreRQErr err)
  | None => allow ""
  end.

(** setup/reconcilers.go: the periodic repair of the subtree usages. *)
Definition checkHRQDrift : M QWorld bool :=
  updated ← onF RectifySubtreeUsages;
  emit ((λ n, TriggerHRQ (nn_namespace n) (nn_name n)) <$> updated) ≫= λ _,
  mret (negb (bool_decide (updated = []))).
End hrq.

(** ** Facts *)
Section facts.
  Context `{RO : RangeOrder} (qstring : Quantity → string).

Lemma getNS_runs f nm l : wf f → f_namespaces f !! nm = Some l → runs (getNS nm) f l f [].
Proof. intros Hwf Hl. eapply runs_step; [apply runs_onF; by eapply Get_present|]. by apply runs_nonnil. Qed.

(** The HRQs that a change of usage in [ns] concerns. *)
Lemma elem_of_allSubtreeHRQs f ns a q : mkNN a q ∈ allSubtreeHRQs f ns ↔
  a ∈ AncestryNames f (Some ns) ∧ is_Some (limits_of (ns_at f a) !! q).
Proof.
  unfold allSubtreeHRQs, HRQNames. rewrite list_elem_of_bind. setoid_rewrite list_elem_of_fmap. setoid_rewrite elem_of_keys. naive_solver.
Qed.

Definition triggers (names : list NamespacedName) : list HrqEvent := (λ n, TriggerHRQ (nn_namespace n) (nn_name n)) <$> names.

(** What one reconciliation writes to the ResourceQuota of a namespace, given the
    limits that the forest has for it. *)
Definition rq_fresh (inst : ResourceQuota) : ResourceQuota :=
  mkRQ (SetAnnotation (SetLabel (rq_Meta inst) HRQLabelCleanup "true") NonPropagateAnnotation "true") (rq_SpecHard inst) (rq_Used inst).

Definition rq_writes (inst : ResourceQuota) (limits : ResourceList) : list HrqEvent :=
  let fresh := IsZero (om_CreationTimestamp (rq_Meta inst)) in
  if Equals limits (rq_SpecHard inst) then (if decide (rq_SpecHard inst = None ∧ fresh = false) then [DeleteRQ inst] else [])
  else if fresh then [CreateRQ (rq_fresh (set_SpecHard limits inst))] else [UpdateRQ (set_SpecHard limits inst)].

(** What the API server answers to a write, and the warnings that follow it. *)
Definition rq_refused (api : rqApi) (e : HrqEvent) : option string :=
  match e with CreateRQ _ => ra_create api | UpdateRQ _ => ra_update api | DeleteRQ _ => ra_delete api | _ => None end.

Definition rq_warning (ns err : string) : string :=
  "could not create/update lower-level ResourceQuota in namespace " +:+ quoted ns +:+ ": " +:+ ignoreRQErr err.

Definition rq_warnings (api : rqApi) (names : list NamespacedName) (ns : string) (e : HrqEvent) : list HrqEvent :=
  match e, rq_refused api e with
  | DeleteRQ _, _ | _, None => []
  | _, Some err => names ≫= λ nnm, match ra_getHRQ api nnm with Found hrq => [WarnHRQ hrq (rq_warning ns err)] | _ => [] end
  end.

(** The limits of a namespace are never nil, only empty. *)
Lemma Limits_not_nil f l : Limits f l ≠ None.
Proof.
  unfold Limits. assert (∀ k rl, rl ≠ None → fold_left (λ rs nsnm, fold_left (λ rs '(_, lm), Min rs lm) (range (limits_of (ns_at f nsnm))) rs) k rl ≠ None) as Hne; [|by apply Hne].
  intros k. induction k as [|x k IH]; intros rl Hrl; simpl; [done|]. apply IH. revert rl Hrl.
  induction (range (limits_of (ns_at f x))) as [|[q lm] L IHL]; intros rl Hrl; simpl; [done|]. by apply IHL.
Qed.

Lemma reportHRQEvent_runs api f l inst err : wf f → f_namespaces f !! om_Namespace (rq_Meta inst) = Some l →
  runs (reportHRQEvent api inst err) f tt f (allSubtreeHRQs f l ≫= λ nnm, match ra_getHRQ api nnm with
    Found hrq => [WarnHRQ hrq (rq_warning (om_Namespace (rq_Meta inst)) err)] | _ => [] end).
Proof.
  intros Hwf Hl. unfold reportHRQEvent, getAncestorHRQs. eapply (runs_step _ _ f (allSubtreeHRQs f l) f); [|apply runs_emit].
  eapply runs_step; [by apply getNS_runs|]. eapply runs_step; [apply runs_getF|]. apply runs_ret.
Qed.

Lemma syncRQ_runs f ns l inst : wf f → f_namespaces f !! ns = Some l → om_Namespace (rq_Meta inst) = ns →
  let f' := UseResources l (rq_Used inst) f in
  runs (syncRQ inst) f (syncResourceLimits f l inst) f' (triggers (allSubtreeHRQs f' l)).
Proof.
  intros Hwf Hl Hns f'. unfold syncRQ. rewrite Hns. eapply runs_step; [by apply getNS_runs|]. eapply runs_step; [apply runs_getF|].
  assert (rq_Used (syncResourceLimits f l inst).2 = rq_Used inst) as Hu by (unfold syncResourceLimits; by destruct (Equals _ _)).
  destruct (syncResourceLimits f l inst) as [updated inst1]. simpl in Hu. rewrite Hu.
  eapply runs_step; [apply runs_updF|]. eapply runs_step; [apply runs_getF|].
  eapply runs_end; [apply runs_emit|apply runs_ret].
Qed.

Lemma writeSingleton_runs api f l inst : wf f → f_namespaces f !! om_Namespace (rq_Meta inst) = Some l →
  let e := if IsZero (om_CreationTimestamp (rq_Meta inst)) then CreateRQ (rq_fresh inst) else UpdateRQ inst in
  ∃ err, runs (writeSingleton api inst) f err f (e :: rq_warnings api (allSubtreeHRQs f l) (om_Namespace (rq_Meta inst)) e) ∧
    (err = None ↔ rq_refused api e = None).
Proof.
  intros Hwf Hl. unfold writeSingleton. destruct (IsZero _); simpl.
  - destruct (ra_create api) as [err|] eqn:Hr.
    + exists (Some ("while creating rq: " +:+ err)). split; [|by simpl].
      eapply (runs_bind _ _ _ _ _ [_]); [apply runs_emit|]. eapply runs_end; [|apply runs_ret]. by apply (reportHRQEvent_runs api f l (rq_fresh inst)).
    + exists None. split; [|by simpl]. eapply (runs_bind _ _ _ _ _ [_]); [apply runs_emit|apply runs_ret].
  - destruct (ra_update api) as [err|] eqn:Hr.
    + exists (Some ("while updating rq: " +:+ err)). split; [|by simpl].
      eapply (runs_bind _ _ _ _ _ [_]); [apply runs_emit|]. eapply runs_end; [|apply runs_ret]. by apply (reportHRQEvent_runs api f l inst).
    + exists None. split; [|by simpl]. eapply (runs_bind _ _ _ _ _ [_]); [apply runs_emit|apply runs_ret].
Qed.

(** One reconciliation of the ResourceQuota of a namespace, whatever the API
    server answers to the write. *)
Lemma ReconcileRQ_runs api f ns l inst : wf f → f_namespaces f !! ns = Some l →
  rq_getSingleton api ns = inr inst → om_Namespace (rq_Meta inst) = ns →
  let f' := UseResources l (rq_Used inst) f in
  let writes := rq_writes inst (Limits f l) in
  ∃ err, runs (ReconcileRQ api (mkNN ns ResourceQuotaSingleton)) f err f'
      (triggers (allSubtreeHRQs f' l) ++ writes ++ (writes ≫= rq_warnings api (allSubtreeHRQs f' l) ns)) ∧
    (err = None ↔ Forall (λ e, rq_refused api e = None) writes).
Proof.
  intros Hwf Hl Hget Hns f' writes. unfold ReconcileRQ. rewrite decide_False by (intros H0; by apply H0). simpl. rewrite Hget.
  destruct (UseResources_spec f ns l (rq_Used inst) Hwf Hl) as [Hsim _].
  assert (wf f') as Hwf' by (by eapply wf_sim). assert (f_namespaces f' !! ns = Some l) as Hl' by (unfold f'; by destruct Hsim as [<- _]).
  pose proof (syncRQ_runs f ns l inst Hwf Hl Hns) as Hsync. unfold writes, rq_writes. unfold syncResourceLimits in Hsync.
  destruct (Equals (Limits f l) (rq_SpecHard inst)) eqn:He.
  - assert (∀ m evs, (∃ err, runs m f' err f' (evs ++ (evs ≫= rq_warnings api (allSubtreeHRQs f' l) ns)) ∧
        (err = None ↔ Forall (λ e, rq_refused api e = None) evs)) →
      (if decide (rq_SpecHard inst = None) then deleteSingleton api inst else mret None) = m →
      ∃ err, runs (syncRQ inst ≫= λ '(updated, inst0),
        if decide (rq_SpecHard inst0 = None) then deleteSingleton api inst0 else if (updated : bool) then writeSingleton api inst0 else mret None) f err f'
        (triggers (allSubtreeHRQs f' l) ++ evs ++ (evs ≫= rq_warnings api (allSubtreeHRQs f' l) ns)) ∧
        (err = None ↔ Forall (λ e, rq_refused api e = None) evs)) as Hk.
    { intros m evs (err & Hm & Herr) <-. exists err. split; [|done]. by eapply runs_bind; [exact Hsync|]. }
    eapply Hk; [|done]. clear Hk. unfold deleteSingleton. destruct (decide (rq_SpecHard inst = None)) as [Hn|Hn].
    + destruct (IsZero _) eqn:Hz; [rewrite decide_False by (by intros [_ ?])|rewrite decide_True by done].
      * eexists. split; [apply runs_ret|]. by split.
      * eexists. split; [eapply (runs_bind _ _ _ _ _ [_]); [apply runs_emit|apply runs_ret]|].
        rewrite Forall_singleton. simpl. by destruct (ra_delete api).
    + rewrite decide_False by (by intros [? _]). eexists. split; [apply runs_ret|]. by split.
  - destruct (writeSingleton_runs api f' l (set_SpecHard (Limits f l) inst)) as (err & Hw & Herr); [done|by simpl; rewrite Hns|].
    exists err. cbn in Hw, Herr. rewrite Hns in Hw. split.
    + eapply runs_bind; [exact Hsync|]. simpl. rewrite decide_False by apply Limits_not_nil.
      destruct (IsZero _); simpl; rewrite app_nil_r; exact Hw.
    + rewrite Herr. destruct (IsZero _); by rewrite Forall_singleton.
Qed.

(** The object as the HRQ reconciler writes it. *)
Definition hrq_synced (f : Forest) (l : loc) (inst : HierarchicalResourceQuota) : HierarchicalResourceQuota :=
  let hard := if Equals (hq_SpecHard inst) (hq_StatusHard inst) then hq_StatusHard inst else hq_SpecHard inst in
  let used := FilterUnlimited (subtree_of (deref f l)) (hq_SpecHard inst) in
  mkHRQ (hq_Meta inst) (hq_SpecHard inst) hard used
    (summary qstring (λ r, negb (is_limit r)) used hard) (summary qstring is_limit used hard).

Definition hrq_stale (f : Forest) (l : loc) (inst : HierarchicalResourceQuota) : bool :=
  negb (Equals (hq_SpecHard inst) (hq_StatusHard inst)) || negb (Equals (hq_Used inst) (FilterUnlimited (subtree_of (deref f l)) (hq_SpecHard inst))).

Lemma UpdateLimits_vitals l nm lm f : heap_sim vitals f (UpdateLimits l nm lm f).2.
Proof.
  unfold UpdateLimits. destruct (Equals _ _); simpl; [by apply heap_sim_upd|].
  transitivity (upd l (set_limits (Some (limits_of (deref f l)))) f); by apply heap_sim_upd.
Qed.

Lemma UpdateLimits_subtree l nm lm f x : subtree_of (deref (UpdateLimits l nm lm f).2 x) = subtree_of (deref f x).
Proof.
  symmetry. apply (heap_sim_deref subtree_of). unfold UpdateLimits. destruct (Equals _ _); simpl; [by apply heap_sim_upd|].
  transitivity (upd l (set_limits (Some (limits_of (deref f l)))) f); by apply heap_sim_upd.
Qed.

Lemma ReconcileHRQ_runs api f ns nm l inst : sound f → f_namespaces f !! ns = Some l →
  hr_get api (mkNN ns nm) = Found inst → om_Namespace (hq_Meta inst) = ns → om_Name (hq_Meta inst) = nm → isDeleted inst = false →
  let '(changed, f') := UpdateLimits l nm (hq_SpecHard inst) f in
  let err := if hrq_stale f l inst then hr_update api else None in
  runs (ReconcileHRQ qstring api (mkNN ns nm)) f err f'
    ((if hrq_stale f l inst then [UpdateHRQ (hrq_synced f l inst)] else []) ++
     (if (changed : bool) && bool_decide (err = None) then TriggerRQ <$> (DescendantNames f' l ++ [ns]) else [])).
Proof.
  intros Hf Hl Hget Hns Hnm Hd. pose proof (UpdateLimits_vitals l nm (hq_SpecHard inst) f) as Hs.
  pose proof (UpdateLimits_subtree l nm (hq_SpecHard inst) f l) as Hsub.
  destruct (UpdateLimits l nm (hq_SpecHard inst) f) as [changed f'] eqn:Hul. simpl in Hs, Hsub.
  pose proof Hf as [Hwf _]. pose proof (sound_vitals _ _ Hs Hf) as [Hwf' _].
  assert (f_namespaces f' !! ns = Some l) as Hl' by (by destruct Hs as (<- & _)).
  unfold ReconcileHRQ. rewrite Hget, Hd.
  assert (runs (syncHRQ qstring inst) f (hrq_synced f l inst, hrq_stale f l inst, changed) f' []) as Hsync.
  { unfold syncHRQ. set (inst1 := if negb (Equals _ _) then _ else inst).
    assert (om_Namespace (hq_Meta inst1) = ns ∧ om_Name (hq_Meta inst1) = nm ∧ isDeleted inst1 = false ∧ hq_SpecHard inst1 = hq_SpecHard inst ∧
      hq_Used inst1 = hq_Used inst ∧ hq_Meta inst1 = hq_Meta inst ∧
      hq_StatusHard inst1 = if Equals (hq_SpecHard inst) (hq_StatusHard inst) then hq_StatusHard inst else hq_SpecHard inst) as (H1 & H2 & H3 & H4 & H5 & H6 & H7).
    { unfold inst1. destruct (Equals _ _); by split_and!. }
    eapply runs_step.
    { unfold syncLimits. eapply runs_step; [by apply getNS_runs; [|by rewrite H1]|]. rewrite H3, H2, H4. by apply runs_onF. }
    eapply runs_step.
    { unfold syncUsages. rewrite H3. eapply runs_step; [by apply getNS_runs; [|by rewrite H1]|]. eapply runs_step; [apply runs_getF|]. apply runs_ret. }
    rewrite H4, H5, H6, H7, Hsub. apply runs_ret. }
  eapply runs_step; [exact Hsync|]. simpl. change (isDeleted (hrq_synced f l inst)) with (isDeleted inst). rewrite Hd, Hns. simpl.
  eapply (runs_bind _ _ f' (if hrq_stale f l inst then hr_update api else None) f').
  - destruct (hrq_stale f l inst); [|apply runs_ret]. rewrite <- (app_nil_r [UpdateHRQ _]).
    eapply runs_bind; [apply runs_emit|apply runs_ret].
  - destruct (if hrq_stale f l inst then hr_update api else None) as [s|]; cbn [bool_decide].
    + rewrite bool_decide_false, andb_false_r by done. apply runs_ret.
    + rewrite bool_decide_true, andb_true_r by done. eapply runs_end; [|apply runs_ret]. destruct changed; [|apply runs_ret].
      unfold EnqueueSubtree. eapply runs_step; [by apply getNS_runs|]. eapply runs_step; [apply runs_getF|]. apply runs_emit.
Qed.

(** A second update with the same limits finds nothing to change. *)
Lemma UpdateLimits_again l nm lm f : is_Some (f_heap f !! l) → (UpdateLimits l nm lm (UpdateLimits l nm lm f).2).1 = false.
Proof.
  intros Hl. unfold UpdateLimits. destruct (Equals (default None (limits_of (deref f l) !! nm)) lm) eqn:He; simpl.
  - rewrite deref_upd_eq by done. destruct (deref f l). cbn. cbn in He. by rewrite He.
  - rewrite deref_upd_eq by (by apply upd_dom). destruct (deref (upd l _ f) l). cbn. rewrite lookup_insert_eq. simpl.
    destruct (Equals lm lm) eqn:Hs; [done|]. by apply Equals_false in Hs.
Qed.

Lemma UpdateLimits_records l nm lm f : is_Some (f_heap f !! l) → let '(changed, f') := UpdateLimits l nm lm f in
  limits_of (deref f' l) !! nm = if (changed : bool) then Some lm else limits_of (deref f l) !! nm.
Proof.
  intros Hl. unfold UpdateLimits. destruct (Equals _ _); rewrite !deref_upd_eq by (rewrite ?upd_dom; done).
  - by destruct (deref f l).
  - cbn. destruct (deref f l). cbn. by rewrite lookup_insert_eq.
Qed.

(** The status webhook: what fits is recorded, what does not is rejected with its
    reason and changes nothing. *)
Lemma handleStatus_spec f inst l : f_namespaces f !! om_Namespace (rq_Meta inst) = Some l → wf f →
  ∃ resp f', handleStatus qstring inst f = Done (resp, f') ∧
    (resp_allowed resp = true ↔ fits f l (rq_Used inst)) ∧
    (resp_allowed resp = true → f' = UseResources l (rq_Used inst) f) ∧
    (resp_allowed resp = false → f' = f ∧ ∃ e, resp = deny ReasonForbidden (quota_message qstring e) ∧ exceeds f l (rq_Used inst) e).
Proof.
  intros Hl Hwf. setoid_rewrite <- canUseResources_fits. unfold handleStatus.
  rewrite (M_bind_Done _ _ f l f) by (unfold mbind, M_bind, GetM; by rewrite (Get_present _ l f Hwf Hl)).
  unfold mbind, M_bind, tryUseM, TryUseResources. destruct (canUseResources f l (rq_Used inst)) as [e|] eqn:Hc.
  - eexists _, f. split; [done|]. split_and!; [done..|]. intros _. split; [done|]. exists e. split; [done|]. by apply canUseResources_exceeds.
  - eexists _, _. split; [done|]. by split_and!.
Qed.
End facts.
