(* ===== verification/Setup.v ===== *)
(** * Wiring of the manager (internal/setup, internal/crd, the SetupWithManager methods)

    What the controllers and webhooks of HNC register with the controller manager, as a state of the manager: webhooks by
    path, controllers with what they watch, certificate rotators, background goroutines.  The calls that can fail (the
    client of internal/crd, the builders of controllers, the rotators of the certificate library) are answered by
    [setupEnv]; [Register] of the webhook server panics on a path that is taken. *)

From S2P Require Import Prelude GoStrings Api Resources Forest HncConfig.

(** ** Controllers *)

(** The types that controllers watch. *)
Inductive watchedKind :=
  | SubnamespaceAnchorKind | HierarchyConfigurationKind | HNCConfigurationKind | HRQKind | ResourceQuotaKind
  | NamespaceKind | CRDKind | ObjectKind (gvk : GroupVersionKind).
#[export] Instance watchedKind_eq_dec : EqDecision watchedKind.
Proof. solve_decision. Defined.

(** [ctrl.NewControllerManagedBy]: the type it is for, the types it watches with their map functions, the concurrency
    (0 is the default), and the delays of the rate limiter in milliseconds where it is set. *)
Record controller := mkController {
  ctl_For : watchedKind;
  ctl_Watches : list (watchedKind * (ObjectMeta → list NamespacedName));
  ctl_MaxConcurrentReconciles : Z;
  ctl_RateLimiter : option (Z * Z)
}.

(** [handler.EnqueueRequestForObject] *)
Definition EnqueueRequestForObject (obj : ObjectMeta) : list NamespacedName := [mkNN (om_Namespace obj) (om_Name obj)].

(** The requests that an event on an object gives a controller. *)
Definition requests (c : controller) (kind : watchedKind) (obj : ObjectMeta) : list NamespacedName :=
  (if decide (kind = ctl_For c) then EnqueueRequestForObject obj else []) ++
  (ctl_Watches c ≫= λ w, if decide (kind = w.1) then w.2 obj else []).

Definition annotation (obj : ObjectMeta) (k : string) : string := sget (items (om_Annotations obj)) k.

(** anchor/reconciler.go *)
Definition anchor_nsMapFn (obj : ObjectMeta) : list NamespacedName :=
  if decide (annotation obj SubnamespaceOf = "") then [] else [mkNN (annotation obj SubnamespaceOf) (om_Name obj)].

Definition anchor_SetupWithManager : controller := mkController SubnamespaceAnchorKind [(NamespaceKind, anchor_nsMapFn)] 0 None.

(** hierarchyconfig/reconciler.go *)
Definition hc_nsMapFn (obj : ObjectMeta) : list NamespacedName := [mkNN (om_Name obj) Singleton].

Definition hc_anchorMapFn (obj : ObjectMeta) : list NamespacedName :=
  [mkNN (om_Namespace obj) Singleton; mkNN (om_Name obj) Singleton].

Definition hc_SetupWithManager (maxReconciles : Z) : controller :=
  mkController HierarchyConfigurationKind [(NamespaceKind, hc_nsMapFn); (SubnamespaceAnchorKind, hc_anchorMapFn)] maxReconciles None.

(** hncconfig/reconciler.go: the whole configuration is one object. *)
Definition crdMapFn (_ : ObjectMeta) : list NamespacedName := [mkNN "" HNCConfigSingleton].

Definition hncconfig_SetupWithManager : controller := mkController HNCConfigurationKind [(CRDKind, crdMapFn)] 0 None.

(** The refresh interval in milliseconds. *)
Definition refresh_duration (configured : Z) : Z := if decide (configured = 0)%Z then 10000%Z else configured.

(** objects/reconciler.go *)
Definition object_SetupWithManager (gvk : GroupVersionKind) (maxReconciles : Z) : controller :=
  mkController (ObjectKind gvk) [] maxReconciles (Some (250, 10000)%Z).

(** [workqueue.NewItemExponentialFailureRateLimiter]: the delay after some failures. *)
Definition retry_delay (limits : Z * Z) (failures : nat) : Z := Z.min (limits.1 * 2 ^ Z.of_nat failures) limits.2.

(** hrq *)
Definition hrq_SetupWithManager : controller := mkController HRQKind [] 0 None.
Definition rq_SetupWithManager : controller := mkController ResourceQuotaKind [] 0 None.

(** ** The manager *)
Inductive webhookHandler :=
  | HierarchyValidatorH | ObjectsValidatorH | ConfigValidatorH | AnchorValidatorH | NamespaceValidatorH | NamespaceMutatorH
  | ResourceQuotaStatusH | HRQValidatorH.
#[export] Instance webhookHandler_eq_dec : EqDecision webhookHandler.
Proof. solve_decision. Defined.

(** The channel that tells that the certificates are in place is named by a number: rotators can share it. *)
Inductive certTarget := ValidatingWebhook (name : string) | MutatingWebhook (name : string) | APIService (name : string).
Record CertRotator := mkRotator {
  cr_SecretKey : NamespacedName; cr_CertDir : string; cr_CAName : string; cr_CAOrganization : string; cr_DNSName : string;
  cr_IsReady : nat; cr_Webhooks : list certTarget; cr_RestartOnSecretRefresh : bool
}.

Inductive background := PeriodicRefresh (interval : Z) | WatchHRQDrift (interval : Z).

Record Manager := mkManager {
  m_webhooks : gmap string webhookHandler;
  m_controllers : list controller;
  m_rotators : list CertRotator;
  m_background : list background;
  m_crdClient : option bool;       (* the client of internal/crd, if set: the fake one or a real one *)
  m_forest : Forest
}.

Record Options := mkOptions {
  MaxReconciles : Z; UseFakeClient : bool; NoWebhooks : bool; HNCCfgRefresh : Z; HRQ : bool; HRQSyncInterval : Z
}.

(** Errors: of the client of internal/crd, of the mapper of API types, of a controller, of a rotator. *)
Record setupEnv := mkEnv {
  env_crdClient : option string;
  env_mapper : option string;
  env_controller : watchedKind → option string;
  env_rotator : string → option string
}.

Section setup.
  Context (env : setupEnv).

Definition set_webhooks w (m : Manager) : Manager :=
  mkManager w (m_controllers m) (m_rotators m) (m_background m) (m_crdClient m) (m_forest m).

Definition Register (path : string) (h : webhookHandler) : M Manager unit :=
  m ← get;
  match m_webhooks m !! path with
  | Some _ => panic
  | None => put (set_webhooks (<[path := h]> (m_webhooks m)) m)
  end.

Definition onForest (g : Forest → Forest) : M Manager unit :=
  modify (λ m, mkManager (m_webhooks m) (m_controllers m) (m_rotators m) (m_background m) (m_crdClient m) (g (m_forest m))).

Definition goroutine (b : background) : M Manager unit :=
  modify (λ m, mkManager (m_webhooks m) (m_controllers m) (m_rotators m) (m_background m ++ [b]) (m_crdClient m) (m_forest m)).

(** [Complete] registers a controller, or fails. *)
Definition Complete (c : controller) : M Manager (option string) :=
  match env_controller env (ctl_For c) with
  | Some err => mret (Some err)
  | None =>
      modify (λ m, mkManager (m_webhooks m) (m_controllers m ++ [c]) (m_rotators m) (m_background m) (m_crdClient m) (m_forest m)) ≫= λ _,
      mret None
  end.

(** A step that can fail, and the rest when it does not. *)
Definition checked (prefix : string) (m : M Manager (option string)) (k : M Manager (option string)) : M Manager (option string) :=
  err ← m; match err with Some e => mret (Some (prefix +:+ e)) | None => k end.

(** ** internal/crd *)
Definition Setup (fake : bool) : M Manager (option string) :=
  let set b := modify (λ m, mkManager (m_webhooks m) (m_controllers m) (m_rotators m) (m_background m) (Some b) (m_forest m)) in
  if fake then set true ≫= λ _, mret None
  else match env_crdClient env with
       | Some err => mret (Some ("cannot create crdClient: " +:+ err))
       | None => set false ≫= λ _, mret None
       end.

(** ** webhooks.go *)
Definition hierarchy_ServingPath : string := "/validate-hnc-x-k8s-io-v1alpha2-hierarchyconfigurations".
Definition objects_ServingPath : string := "/validate-objects".
Definition hncconfig_ServingPath : string := "/validate-hnc-x-k8s-io-v1alpha2-hncconfigurations".
Definition anchor_ServingPath : string := "/validate-hnc-x-k8s-io-v1alpha2-subnamespaceanchors".
Definition namespace_ServingPath : string := "/validate-v1-namespace".
Definition MutatorServingPath : string := "/mutate-namespace".
Definition ResourceQuotasStatusServingPath : string := "/validate-hnc-x-k8s-io-v1alpha2-resourcequotasstatus".
Definition HRQServingPath : string := "/validate-hnc-x-k8s-io-v1alpha2-hrq".

Definition createWebhooks (opts : Options) : M Manager unit :=
  Register hierarchy_ServingPath HierarchyValidatorH ≫= λ _,
  Register objects_ServingPath ObjectsValidatorH ≫= λ _,
  Register hncconfig_ServingPath ConfigValidatorH ≫= λ _,
  Register anchor_ServingPath AnchorValidatorH ≫= λ _,
  Register namespace_ServingPath NamespaceValidatorH ≫= λ _,
  Register MutatorServingPath NamespaceMutatorH ≫= λ _,
  if HRQ opts then
    Register ResourceQuotasStatusServingPath ResourceQuotaStatusH ≫= λ _,
    Register HRQServingPath HRQValidatorH
  else mret tt.

Definition MutatingWebhookConfigurationName : string := "hnc-mutating-webhook-configuration".
Definition apiExtName : string := "v1alpha2.resources.hnc.x-k8s.io".

(** [cert.AddRotator] *)
Definition AddRotator (cr : CertRotator) : M Manager (option string) :=
  match env_rotator env (nn_name (cr_SecretKey cr)) with
  | Some err => mret (Some err)
  | None =>
      modify (λ m, mkManager (m_webhooks m) (m_controllers m) (m_rotators m ++ [cr]) (m_background m) (m_crdClient m) (m_forest m)) ≫= λ _,
      mret None
  end.

Definition webhook_rotator (hncNamespace : string) (setupFinished : nat) (restart : bool) : CertRotator :=
  mkRotator (mkNN hncNamespace "hnc-webhook-server-cert") "/tmp/k8s-webhook-server/serving-certs" "hnc-ca" "hnc"
    ("hnc-webhook-service." +:+ hncNamespace +:+ ".svc") setupFinished
    [ValidatingWebhook ValidatingWebhookConfigurationName; MutatingWebhook MutatingWebhookConfigurationName] restart.

Definition apiext_rotator (hncNamespace : string) (setupFinished : nat) (restart : bool) : CertRotator :=
  mkRotator (mkNN hncNamespace "hnc-resourcelist") "/certs" "hnc-ca" "hnc"
    ("hnc-resourcelist." +:+ hncNamespace +:+ ".svc") setupFinished [APIService apiExtName] restart.

Definition ManageCerts (hncNamespace : string) (setupFinished : nat) (restartOnSecretRefresh : bool) : M Manager (option string) :=
  checked "" (AddRotator (webhook_rotator hncNamespace setupFinished restartOnSecretRefresh))
    (AddRotator (apiext_rotator hncNamespace setupFinished restartOnSecretRefresh)).

(** ** reconcilers.go *)

(** The configuration reconciler also needs a mapper of types, and then refreshes itself. *)
Definition setup_hncconfig (refresh : Z) : M Manager (option string) :=
  match env_mapper env with
  | Some err => mret (Some ("cannot create API mapper: " +:+ err))
  | None => checked "" (Complete hncconfig_SetupWithManager) (goroutine (PeriodicRefresh (refresh_duration refresh)) ≫= λ _, mret None)
  end.

Definition CreateReconcilers (opts : Options) : M Manager (option string) :=
  checked "" (Setup (UseFakeClient opts))
    (onForest (AddListener AnchorListener) ≫= λ _,
     let rest :=
       checked "cannot create anchor reconciler: " (Complete anchor_SetupWithManager)
         (checked "cannot create Config reconciler: " (setup_hncconfig (HNCCfgRefresh opts))
            (checked "cannot create Hierarchy reconciler: " (Complete (hc_SetupWithManager (MaxReconciles opts))) (mret None))) in
     if HRQ opts then
       onForest (AddListener ResourceQuotaListener) ≫= λ _,
       onForest (AddListener HRQListener) ≫= λ _,
       checked "cannot create resource quota reconciler: " (Complete rq_SetupWithManager)
         (checked "cannot create hierarchical resource quota reconciler: " (Complete hrq_SetupWithManager)
            ((if decide (HRQSyncInterval opts ≠ 0)%Z then goroutine (WatchHRQDrift (HRQSyncInterval opts)) else mret tt) ≫= λ _, rest))
     else rest).

(** The error makes the process exit. *)
Definition Create (opts : Options) : M Manager (option string) :=
  (if NoWebhooks opts then mret tt else createWebhooks opts) ≫= λ _, CreateReconcilers opts.
End setup.

(** ** What is registered *)
Definition expected_webhooks (opts : Options) : gmap string webhookHandler :=
  if NoWebhooks opts then ∅
  else list_to_map ([(hierarchy_ServingPath, HierarchyValidatorH); (objects_ServingPath, ObjectsValidatorH);
      (hncconfig_ServingPath, ConfigValidatorH); (anchor_ServingPath, AnchorValidatorH);
      (namespace_ServingPath, NamespaceValidatorH); (MutatorServingPath, NamespaceMutatorH)] ++
    if HRQ opts then [(ResourceQuotasStatusServingPath, ResourceQuotaStatusH); (HRQServingPath, HRQValidatorH)] else []).

Definition expected_controllers (opts : Options) : list controller :=
  (if HRQ opts then [rq_SetupWithManager; hrq_SetupWithManager] else []) ++
  [anchor_SetupWithManager; hncconfig_SetupWithManager; hc_SetupWithManager (MaxReconciles opts)].

Definition expected_listeners (opts : Options) : list NamespaceListener :=
  AnchorListener :: if HRQ opts then [ResourceQuotaListener; HRQListener] else [].

Definition expected_background (opts : Options) : list background :=
  (if HRQ opts && bool_decide (HRQSyncInterval opts ≠ 0%Z) then [WatchHRQDrift (HRQSyncInterval opts)] else []) ++
  [PeriodicRefresh (refresh_duration (HNCCfgRefresh opts))].

(** Nothing of the environment fails. *)
Definition env_ok (env : setupEnv) (opts : Options) : Prop :=
  (UseFakeClient opts = true ∨ env_crdClient env = None) ∧ env_mapper env = None ∧
  ∀ c, c ∈ expected_controllers opts → env_controller env (ctl_For c) = None.

Section wiring.
  Context (env : setupEnv).

Lemma Register_free path h m : m_webhooks m !! path = None →
  Register path h m = Done (tt, set_webhooks (<[path := h]> (m_webhooks m)) m).
Proof. intros H. unfold Register, mbind, M_bind, get. by rewrite H. Qed.

Lemma set_webhooks_twice w1 w2 m : set_webhooks w2 (set_webhooks w1 m) = set_webhooks w2 m.
Proof. done. Qed.

Lemma createWebhooks_run opts m : m_webhooks m = ∅ → NoWebhooks opts = false →
  createWebhooks opts m = Done (tt, set_webhooks (expected_webhooks opts) m).
Proof.
  intros Hm Hn. unfold createWebhooks, expected_webhooks. rewrite Hn.
  repeat (erewrite M_bind_Done by (apply Register_free; simpl; rewrite ?Hm; by vm_compute); cbv beta).
  destruct (HRQ opts); [repeat (erewrite M_bind_Done by (apply Register_free; simpl; rewrite ?Hm; by vm_compute); cbv beta)|].
  - rewrite Register_free by (simpl; rewrite ?Hm; by vm_compute). rewrite !set_webhooks_twice. simpl. rewrite Hm.
    do 3 f_equal; by vm_compute.
  - unfold mret, M_ret. rewrite !set_webhooks_twice. simpl. rewrite Hm. do 3 f_equal; by vm_compute.
Qed.

(** What the registration of reconcilers leaves alone. *)
Definition same_but_listeners (f g : Forest) : Prop :=
  f_namespaces f = f_namespaces g ∧ f_heap f = f_heap g ∧ f_next f = f_next g ∧ f_types f = f_types g.

(** A computation that succeeds when [P] holds, and then has added controllers, goroutines and listeners. *)
Definition registers (P : Prop) (k : M Manager (option string)) (cs : list controller) (bs : list background)
    (ls : list NamespaceListener) : Prop :=
  ∀ m, ∃ r, k m = Done r ∧ m_webhooks r.2 = m_webhooks m ∧ m_rotators r.2 = m_rotators m ∧ m_crdClient r.2 = m_crdClient m ∧
    same_but_listeners (m_forest m) (m_forest r.2) ∧ (r.1 = None ↔ P) ∧
    (r.1 = None → m_controllers r.2 = m_controllers m ++ cs ∧ m_background r.2 = m_background m ++ bs ∧
       f_listeners (m_forest r.2) = f_listeners (m_forest m) ++ ls).

Lemma registers_checked P Q k1 k2 cs1 cs2 bs1 bs2 ls1 ls2 prefix :
  registers P k1 cs1 bs1 ls1 → registers Q k2 cs2 bs2 ls2 →
  registers (P ∧ Q) (checked prefix k1 k2) (cs1 ++ cs2) (bs1 ++ bs2) (ls1 ++ ls2).
Proof.
  intros H1 H2 m. destruct (H1 m) as ([e m1] & Hk & Hw & Hr & Hc & Hf & He & Hn). simpl in *. unfold checked.
  erewrite M_bind_Done by done. destruct e as [e|].
  - eexists. split; [reflexivity|]. simpl. split_and!; [done..| |done]. split; [done|]. intros [HP _]. by apply He in HP.
  - destruct (H2 m1) as ([e m2] & -> & Hw2 & Hr2 & Hc2 & Hf2 & He2 & Hn2). simpl in *. eexists. split; [reflexivity|]. simpl.
    destruct (Hn eq_refl) as (Hcs & Hbs & Hls). rewrite Hcs, Hbs, Hls in Hn2. rewrite !app_assoc. unfold same_but_listeners in *.
    destruct_and!. split_and!; [congruence..|tauto|done].
Qed.

Lemma registers_Complete c : registers (env_controller env (ctl_For c) = None) (Complete env c) [c] [] [].
Proof.
  intros m. unfold Complete. destruct (env_controller env (ctl_For c)); eexists; (split; [reflexivity|]); simpl; [done|].
  by rewrite !app_nil_r.
Qed.

Lemma registers_done : registers True (mret None) [] [] [].
Proof. intros m. eexists. split; [reflexivity|]. simpl. by rewrite !app_nil_r. Qed.

Lemma registers_goroutine P k cs bs ls b : registers P k cs bs ls → registers P (goroutine b ≫= λ _, k) cs (b :: bs) ls.
Proof.
  intros Hk m. erewrite M_bind_Done by reflexivity. edestruct Hk as (r & Hr & Hall). exists r. split; [exact Hr|]. simpl in *.
  by rewrite <- app_assoc in Hall.
Qed.

Lemma registers_listener P k cs bs ls l : registers P k cs bs ls → registers P (onForest (AddListener l) ≫= λ _, k) cs bs (l :: ls).
Proof.
  intros Hk m. erewrite M_bind_Done by reflexivity. edestruct Hk as (r & Hr & Hall). exists r. split; [exact Hr|]. simpl in *.
  by rewrite <- app_assoc in Hall.
Qed.

Lemma registers_iff P Q k cs bs ls : P ↔ Q → registers P k cs bs ls → registers Q k cs bs ls.
Proof. intros HPQ Hk m. destruct (Hk m) as (r & Hr). exists r. by rewrite <- HPQ. Qed.

Lemma registers_hncconfig refresh :
  registers (env_mapper env = None ∧ env_controller env HNCConfigurationKind = None) (setup_hncconfig env refresh)
    [hncconfig_SetupWithManager] [PeriodicRefresh (refresh_duration refresh)] [].
Proof.
  unfold setup_hncconfig. destruct (env_mapper env).
  - intros m. eexists. split; [reflexivity|]. simpl. split_and!; [done..| |done]. naive_solver.
  - eapply registers_iff; last first.
    + eapply (registers_checked _ _ _ _ [hncconfig_SetupWithManager] [] [] [PeriodicRefresh (refresh_duration refresh)] [] []);
        [apply registers_Complete|apply registers_goroutine, registers_done].
    + simpl. tauto.
Qed.

(** All of it, or an error of the environment. *)
Definition wired (opts : Options) (m : Manager) (r : option string * Manager) : Prop :=
  m_rotators r.2 = m_rotators m ∧ same_but_listeners (m_forest m) (m_forest r.2) ∧
  (r.1 = None ↔ env_ok env opts) ∧
  (r.1 = None → m_controllers r.2 = m_controllers m ++ expected_controllers opts ∧
     f_listeners (m_forest r.2) = f_listeners (m_forest m) ++ expected_listeners opts ∧
     m_background r.2 = m_background m ++ expected_background opts ∧ m_crdClient r.2 = Some (UseFakeClient opts)).

Lemma env_ok_controllers opts : env_ok env opts ↔
  (UseFakeClient opts = true ∨ env_crdClient env = None) ∧ env_mapper env = None ∧
  (HRQ opts = true → env_controller env ResourceQuotaKind = None ∧ env_controller env HRQKind = None) ∧
  env_controller env SubnamespaceAnchorKind = None ∧ env_controller env HNCConfigurationKind = None ∧
  env_controller env HierarchyConfigurationKind = None.
Proof.
  unfold env_ok, expected_controllers. setoid_rewrite <- Forall_forall. rewrite Forall_app, !Forall_cons, Forall_nil.
  destruct (HRQ opts); [rewrite !Forall_cons|]; rewrite Forall_nil; simpl; naive_solver.
Qed.

(** The part after the client of internal/crd is set up. *)
Definition after_crd (opts : Options) : M Manager (option string) :=
  onForest (AddListener AnchorListener) ≫= λ _,
  let rest :=
    checked "cannot create anchor reconciler: " (Complete env anchor_SetupWithManager)
      (checked "cannot create Config reconciler: " (setup_hncconfig env (HNCCfgRefresh opts))
         (checked "cannot create Hierarchy reconciler: " (Complete env (hc_SetupWithManager (MaxReconciles opts))) (mret None))) in
  if HRQ opts then
    onForest (AddListener ResourceQuotaListener) ≫= λ _,
    onForest (AddListener HRQListener) ≫= λ _,
    checked "cannot create resource quota reconciler: " (Complete env rq_SetupWithManager)
      (checked "cannot create hierarchical resource quota reconciler: " (Complete env hrq_SetupWithManager)
         ((if decide (HRQSyncInterval opts ≠ 0)%Z then goroutine (WatchHRQDrift (HRQSyncInterval opts)) else mret tt) ≫= λ _, rest))
  else rest.

Lemma registers_rest opts :
  registers (env_controller env SubnamespaceAnchorKind = None ∧ (env_mapper env = None ∧ env_controller env HNCConfigurationKind = None) ∧
      env_controller env HierarchyConfigurationKind = None ∧ True)
    (checked "cannot create anchor reconciler: " (Complete env anchor_SetupWithManager)
      (checked "cannot create Config reconciler: " (setup_hncconfig env (HNCCfgRefresh opts))
         (checked "cannot create Hierarchy reconciler: " (Complete env (hc_SetupWithManager (MaxReconciles opts))) (mret None))))
    [anchor_SetupWithManager; hncconfig_SetupWithManager; hc_SetupWithManager (MaxReconciles opts)]
    [PeriodicRefresh (refresh_duration (HNCCfgRefresh opts))] [].
Proof.
  eapply (registers_checked _ _ _ _ [_] [_; _] [] [_] [] []); [apply registers_Complete|].
  eapply (registers_checked _ _ _ _ [_] [_] [_] [] [] []); [apply registers_hncconfig|].
  eapply (registers_checked _ _ _ _ [_] [] [] [] [] []); [apply registers_Complete|apply registers_done].
Qed.

Lemma registers_after_crd opts :
  registers (env_mapper env = None ∧
      (HRQ opts = true → env_controller env ResourceQuotaKind = None ∧ env_controller env HRQKind = None) ∧
      env_controller env SubnamespaceAnchorKind = None ∧ env_controller env HNCConfigurationKind = None ∧
      env_controller env HierarchyConfigurationKind = None)
    (after_crd opts) (expected_controllers opts) (expected_background opts) (expected_listeners opts).
Proof.
  pose proof (registers_rest opts) as Hrest. unfold after_crd, expected_controllers, expected_background, expected_listeners.
  apply registers_listener. destruct (HRQ opts); simpl.
  - do 2 apply registers_listener. eapply registers_iff; last first.
    + eapply (registers_checked _ _ _ _ [_] (_ :: _) [] _ [] []); [apply registers_Complete|].
      eapply (registers_checked _ _ _ _ [_] _ [] _ [] []); [apply registers_Complete|].
      case_decide as Hi; [rewrite bool_decide_true by done; apply registers_goroutine, Hrest|rewrite bool_decide_false by (intros Hne; by destruct Hne); exact Hrest].
    + simpl. naive_solver.
  - eapply registers_iff; [|exact Hrest]. naive_solver.
Qed.

Lemma CreateReconcilers_run opts m : ∃ r, CreateReconcilers env opts m = Done r ∧ m_webhooks r.2 = m_webhooks m ∧ wired opts m r.
Proof.
  change (CreateReconcilers env opts) with (checked "" (Setup env (UseFakeClient opts)) (after_crd opts)).
  unfold wired. setoid_rewrite env_ok_controllers. unfold Setup, checked.
  assert (∀ b, b = UseFakeClient opts → (UseFakeClient opts = true ∨ env_crdClient env = None) →
    ∃ r, after_crd opts (mkManager (m_webhooks m) (m_controllers m) (m_rotators m) (m_background m) (Some b) (m_forest m)) = Done r ∧
      m_webhooks r.2 = m_webhooks m ∧ m_rotators r.2 = m_rotators m ∧ same_but_listeners (m_forest m) (m_forest r.2) ∧
      (r.1 = None ↔ (UseFakeClient opts = true ∨ env_crdClient env = None) ∧ env_mapper env = None ∧
         (HRQ opts = true → env_controller env ResourceQuotaKind = None ∧ env_controller env HRQKind = None) ∧
         env_controller env SubnamespaceAnchorKind = None ∧ env_controller env HNCConfigurationKind = None ∧
         env_controller env HierarchyConfigurationKind = None) ∧
      (r.1 = None → m_controllers r.2 = m_controllers m ++ expected_controllers opts ∧
         f_listeners (m_forest r.2) = f_listeners (m_forest m) ++ expected_listeners opts ∧
         m_background r.2 = m_background m ++ expected_background opts ∧ m_crdClient r.2 = Some (UseFakeClient opts))) as Hgen.
  { intros b -> Hcrd. edestruct (registers_after_crd opts) as (r & Hr & Hw & Hro & Hc & Hf & He & Hn). exists r.
    split; [exact Hr|]. simpl in *. split_and!; [done..|tauto|]. intros Hnone. destruct (Hn Hnone) as (? & ? & ?). done. }
  destruct (UseFakeClient opts) eqn:Hfake in Hgen |- *; [by apply (Hgen true); [|left]|].
  destruct (env_crdClient env) as [err|] eqn:Hcrd in Hgen |- *; [|by apply (Hgen false); [|right]].
  eexists. split; [reflexivity|]. simpl. split_and!; [done..| |done]. split; [done|]. by intros [[?|?] _].
Qed.

Lemma Create_run opts m : m_webhooks m = ∅ →
  ∃ r, Create env opts m = Done r ∧ m_webhooks r.2 = expected_webhooks opts ∧ wired opts m r.
Proof.
  intros Hm. unfold Create. destruct (NoWebhooks opts) eqn:Hn.
  - erewrite M_bind_Done by reflexivity. destruct (CreateReconcilers_run opts m) as (r & Hr & Hw & Hall).
    exists r. split; [done|]. split; [|done]. rewrite Hw, Hm. unfold expected_webhooks. by rewrite Hn.
  - rewrite (M_bind_Done _ _ _ _ _ (createWebhooks_run opts m Hm Hn)).
    destruct (CreateReconcilers_run opts (set_webhooks (expected_webhooks opts) m)) as (r & Hr & Hw & Hall). by exists r.
Qed.
End wiring.
