(* ===== verification/ManagerMain.v ===== *)
(** * The manager process (cmd/manager/main.go)

    The command line becomes the configuration of internal/config; then the process starts: certificates, probe endpoints,
    a goroutine that waits for the certificates and wires the controllers (Setup.v), and the manager itself.  The start is a
    step relation over the channel [certsReady], the rotators that close it, the goroutine and the status of the process.
    The flags' variables keep their names, in a module of their own because the packages reuse some. *)

From stdpp Require Import functions.
From Stdlib Require Import Ascii String.
From S2P Require Import Prelude GoStrings Flags Validation Api Config Resources Forest HncConfig Setup.

(** ** The variables of the flags *)
Module Vars.
Inductive stringVar := probeAddr | metricsAddr | leaderElectionId | includedNamespacesRegex | hncNamespace.
Inductive boolVar :=
  | enableStackdriver | enableLeaderElection | noWebhooks | debugLogs | testLog | internalCert | SuppressObjectTags
  | restartOnSecretRefresh | webhooksOnly | enableHRQ.
Inductive intVar := maxReconciles | qps | webhookServerPort.
(** flags that can be given several times ([arrayArg]) *)
Inductive arrayVar :=
  | unpropagatedAnnotations | unpropagatedLabels | excludedNamespaces | managedNamespaceLabels | managedNamespaceAnnots
  | nopropagationLabel.

#[export] Instance stringVar_eq_dec : EqDecision stringVar.
Proof. solve_decision. Defined.
#[export] Instance boolVar_eq_dec : EqDecision boolVar.
Proof. solve_decision. Defined.
#[export] Instance intVar_eq_dec : EqDecision intVar.
Proof. solve_decision. Defined.
#[export] Instance arrayVar_eq_dec : EqDecision arrayVar.
Proof. solve_decision. Defined.

Record vars := mkVars {
  v_string : stringVar → string; v_bool : boolVar → bool; v_int : intVar → Z; v_array : arrayVar → list string;
  v_hrqSyncInterval : Z  (* in nanoseconds *)
}.

Definition set_string (x : stringVar) (v : string) (s : vars) : vars :=
  mkVars (<[x := v]> (v_string s)) (v_bool s) (v_int s) (v_array s) (v_hrqSyncInterval s).
Definition set_bool (x : boolVar) (v : bool) (s : vars) : vars :=
  mkVars (v_string s) (<[x := v]> (v_bool s)) (v_int s) (v_array s) (v_hrqSyncInterval s).
Definition set_int (x : intVar) (v : Z) (s : vars) : vars :=
  mkVars (v_string s) (v_bool s) (<[x := v]> (v_int s)) (v_array s) (v_hrqSyncInterval s).
Definition set_array (x : arrayVar) (v : list string) (s : vars) : vars :=
  mkVars (v_string s) (v_bool s) (v_int s) (<[x := v]> (v_array s)) (v_hrqSyncInterval s).
Definition set_interval (v : Z) (s : vars) : vars := mkVars (v_string s) (v_bool s) (v_int s) (v_array s) v.

(** The defaults that the registration of the flags stores. *)
Definition defaults : vars := mkVars
  (λ x, match x with
        | probeAddr => ":8081" | metricsAddr => ":8080" | leaderElectionId => "controller-leader-election-helper"
        | includedNamespacesRegex => ".*" | hncNamespace => "hnc-system"
        end)
  (λ x, bool_decide (x = enableStackdriver ∨ x = SuppressObjectTags))
  (λ x, match x with maxReconciles => 1 | qps => 50 | webhookServerPort => 443 end)%Z
  (λ _, [])
  60000000000.
End Vars.

Section flags.
  Context (ParseDuration : string → option Z).

(** [arrayArg.Set] appends. *)
Definition Var (name : string) (x : Vars.arrayVar) : Flag Vars.vars :=
  mkFlag name false (λ v s, Some (Vars.set_array x (Vars.v_array s x ++ [v]) s)).

Definition flags : list (Flag Vars.vars) := [
  StringVar "health-probe-bind-address" (Vars.set_string Vars.probeAddr);
  StringVar "metrics-addr" (Vars.set_string Vars.metricsAddr);
  BoolVar "enable-stackdriver" (Vars.set_bool Vars.enableStackdriver);
  BoolVar "enable-leader-election" (Vars.set_bool Vars.enableLeaderElection);
  StringVar "leader-election-id" (Vars.set_string Vars.leaderElectionId);
  BoolVar "no-webhooks" (Vars.set_bool Vars.noWebhooks);
  BoolVar "debug-logs" (Vars.set_bool Vars.debugLogs);
  BoolVar "enable-test-log" (Vars.set_bool Vars.testLog);
  BoolVar "enable-internal-cert-management" (Vars.set_bool Vars.internalCert);
  IntVar "max-reconciles" (Vars.set_int Vars.maxReconciles);
  IntVar "apiserver-qps-throttle" (Vars.set_int Vars.qps);
  BoolVar "suppress-object-tags" (Vars.set_bool Vars.SuppressObjectTags);
  IntVar "webhook-server-port" (Vars.set_int Vars.webhookServerPort);
  Var "unpropagated-label" Vars.unpropagatedLabels;
  Var "unpropagated-annotation" Vars.unpropagatedAnnotations;
  Var "excluded-namespace" Vars.excludedNamespaces;
  StringVar "included-namespace-regex" (Vars.set_string Vars.includedNamespacesRegex);
  BoolVar "cert-restart-on-secret-refresh" (Vars.set_bool Vars.restartOnSecretRefresh);
  Var "managed-namespace-label" Vars.managedNamespaceLabels;
  Var "managed-namespace-annotation" Vars.managedNamespaceAnnots;
  BoolVar "webhooks-only" (Vars.set_bool Vars.webhooksOnly);
  BoolVar "enable-hrq" (Vars.set_bool Vars.enableHRQ);
  StringVar "namespace" (Vars.set_string Vars.hncNamespace);
  DurationVar ParseDuration "hrq-sync-interval" Vars.set_interval;
  Var "nopropagation-label" Vars.nopropagationLabel
].

(** The process goes on with a value, exits with a status, or panics. *)
Inductive launch (A : Type) := Launched (a : A) | Exited (status : Z) (why : string) | Crashed.
#[global] Arguments Launched {_} _.
#[global] Arguments Exited {_} _ _.
#[global] Arguments Crashed {_}.

Section config.
  Context `{RX : RegexpLib}.

(** [key=val] with one equals sign and a key; the error exits. *)
Definition parse_exclusion (label : string) : string + NoPropagationLabel :=
  match Split label "="%char with
  | [labelKey; labelValue] =>
      if decide (labelKey = "") then inl ("--nopropagation-label must not have an empty key for the label: " +:+ label)
      else inr {| npl_Key := labelKey; npl_Value := labelValue |}
  | _ => inl ("--nopropagation-label must contain exactly one equal sign (=): " +:+ label)
  end.

Fixpoint parse_exclusions (labels : list string) (acc : list NoPropagationLabel) : string + list NoPropagationLabel :=
  match labels with
  | [] => inr acc
  | label :: rest =>
      match parse_exclusion label with
      | inl err => inl err
      | inr l => parse_exclusions rest (acc ++ [l])
      end
  end.

Definition set_unpropagated (an ls : list string) (npl : list NoPropagationLabel) (c : Config) : Config :=
  mkConfig RX (Config.excludedNamespaces c) (Config.includedNamespacesRegex c) (includedNamespacesStr c) (managedLabels c)
    (managedAnnotations c) (Config.hncNamespace c) an ls npl.

(** [parseFlags], after the flags are read. *)
Definition configure (v : Vars.vars) (c : Config) : launch Config :=
  let arr := Vars.v_array v in
  match parse_exclusions (arr Vars.nopropagationLabel) (NoPropagationLabels c) with
  | inl why => Exited 1 why
  | inr npl =>
      let c := set_unpropagated (arr Vars.unpropagatedAnnotations) (arr Vars.unpropagatedLabels) npl c in
      match SetNamespaces (Vars.v_string v Vars.includedNamespacesRegex) (arr Vars.excludedNamespaces) c with
      | Done c =>
          match SetManagedMeta (arr Vars.managedNamespaceLabels) (arr Vars.managedNamespaceAnnots) c with
          | (Some err, _) => Exited 1 "Illegal flag values"
          | (None, c) =>
              if Vars.v_bool v Vars.webhooksOnly && Vars.v_bool v Vars.noWebhooks
              then Exited 1 "Cannot set both --webhooks-only and --no-webhooks"
              else Launched (SetHNCNamespace (Vars.v_string v Vars.hncNamespace) c)
          end
      | _ => Crashed
      end
  end.

Definition parseFlags (args : list string) (c : Config) : launch (Vars.vars * Config) :=
  match Parse flags args Vars.defaults with
  | Usage => Exited 0 "help"
  | BadFlag msg => Exited 2 msg
  | Parsed v _ =>
      match configure v c with
      | Launched c => Launched (v, c)
      | Exited status why => Exited status why
      | Crashed => Crashed
      end
  end.
End config.
End flags.

(** ** Metrics *)

(** The deferred cleanup of main: nil unless the Stackdriver exporter was created and started. *)
Definition enableMetrics (v : Vars.vars) (newExporter startExporter : option string) : option unit :=
  if Vars.v_bool v Vars.enableStackdriver then
    match newExporter, startExporter with
    | None, None => Some tt
    | _, _ => None
    end
  else None.

(** [defer metricsCleanupFn()]: a call of a nil function panics. *)
Definition deferred (cleanupFn : option unit) : outcome unit := match cleanupFn with Some _ => Done tt | None => Panics end.

(** ** Clients *)

(** [float32]: an integer number of units, rounded to 24 bits, to the nearest and then to the even one. *)
Definition round_half_even (a b : Z) : Z :=
  let q := (a / b)%Z in
  let r := (2 * (a mod b))%Z in
  if decide (r < b)%Z then q else if decide (b < r)%Z then (q + 1)%Z else if Z.even q then q else (q + 1)%Z.
Definition float32 (z : Z) : Z :=
  let excess := (Z.log2 (Z.abs z) + 1 - 24)%Z in
  if decide (excess ≤ 0)%Z then z else (round_half_even z (2 ^ excess) * 2 ^ excess)%Z.

(** [cfg.QPS = float32(qps)] and [cfg.Burst = int(cfg.QPS * 1.5)]: the product in halves, rounded, then truncated. *)
Definition QPS (v : Vars.vars) : Z := float32 (Vars.v_int v Vars.qps).
Definition Burst (v : Vars.vars) : Z := Z.quot (float32 (3 * QPS v)) 2.

(** ** The start of the process *)

(** What the environment answers while the process starts: the errors, if any, of creating and starting the exporter of
    metrics, of finding the API server, of creating the manager, and of adding the two probes. *)
Record processEnv := mkProcessEnv {
  pe_newExporter : option string; pe_startExporter : option string;
  pe_config : option string; pe_newManager : option string; pe_healthz : option string; pe_readyz : option string
}.

(** The goroutine of [startControllers]. *)
Inductive starter := WaitingForCerts | Wired | Failed (err : string).

(** The process exits with status 1 because the wiring or the manager failed, ends after a signal, or panics: because a
    channel is closed twice, in the wiring, or in the deferred cleanup. *)
Inductive exitCause := SetupError | ManagerError.
Inductive panicSite := SecondClose | InSetup | InCleanup.
Inductive status := Running | Stopped (cause : exitCause) | Terminated | Panicked (site : panicSite).

Record process := mkProcess {
  p_ready : bool;              (* [certsReady] is closed *)
  p_pending : list CertRotator; (* the rotators that have not closed it *)
  p_starter : starter;
  p_started : bool;            (* [mgr.Start] was called *)
  p_manager : Manager;
  p_status : status
}.

Definition blank_manager : Manager := mkManager ∅ [] [] [] None NewForest.

Definition certsReady : nat := 0.

Definition options_of (v : Vars.vars) : Options :=
  mkOptions (Vars.v_int v Vars.maxReconciles) false (Vars.v_bool v Vars.noWebhooks) 0 (Vars.v_bool v Vars.enableHRQ) (Vars.v_hrqSyncInterval v).

Section start.
  Context (env : setupEnv) (pe : processEnv) (v : Vars.vars).

Definition rotates_certs : bool := Vars.v_bool v Vars.internalCert && negb (Vars.v_bool v Vars.webhooksOnly).

(** [GetConfigOrDie] exits too. *)
Definition createManager : launch Manager :=
  match pe_config pe with
  | Some _ => Exited 1 "unable to get kubeconfig"
  | None => match pe_newManager pe with Some _ => Exited 1 "unable to create manager" | None => Launched blank_manager end
  end.

Definition setupProbeEndpoints : launch unit :=
  match pe_healthz pe with
  | Some _ => Exited 1 "unable to set up health check"
  | None => match pe_readyz pe with Some _ => Exited 1 "unable to set up ready check" | None => Launched tt end
  end.

(** The certificates of [main]: the rotators that are added and whether the channel is closed at once. *)
Definition setupCerts (m : Manager) : launch (bool * Manager) :=
  if rotates_certs then
    match ManageCerts env (Vars.v_string v Vars.hncNamespace) certsReady (Vars.v_bool v Vars.restartOnSecretRefresh) m with
    | Done (Some err, _) => Exited 1 "unable to set up cert rotation"
    | Done (None, m) => Launched (false, m)
    | _ => Crashed
    end
  else Launched (true, m).

(** [main] on the values of the flags, up to [go startControllers]. *)
Definition main : launch process :=
  match createManager with
  | Launched m =>
      match setupCerts m with
      | Launched (ready, m) =>
          match setupProbeEndpoints with
          | Launched _ => Launched (mkProcess ready (m_rotators m) WaitingForCerts false m Running)
          | Exited status why => Exited status why
          | Crashed => Crashed
          end
      | Exited status why => Exited status why
      | Crashed => Crashed
      end
  | Exited status why => Exited status why
  | Crashed => Crashed
  end.

(** The end of [main] when [mgr.Start] returns without an error: the deferred cleanup runs. *)
Definition after_main : status :=
  match deferred (enableMetrics v (pe_newExporter pe) (pe_startExporter pe)) with Done _ => Terminated | _ => Panicked InCleanup end.

(** What goes on: [mgr.Start]; a rotator that has its certificates in place closes its channel, and a second close of one
    channel panics; the goroutine, once the channel is closed, which wires everything, or exits when that fails; and the
    manager, once started: it fails (a rotator or anything else it runs does), and the process exits, or it returns after
    a signal. *)
Inductive start_step : process → process → Prop :=
  | st_start ready pending st m :
      start_step (mkProcess ready pending st false m Running) (mkProcess ready pending st true m Running)
  | st_ready cr before after st m :
      start_step (mkProcess false (before ++ cr :: after) st true m Running) (mkProcess true (before ++ after) st true m Running)
  | st_ready_again cr before after st m :
      start_step (mkProcess true (before ++ cr :: after) st true m Running) (mkProcess true (before ++ after) st true m (Panicked SecondClose))
  | st_wired pending started m m' :
      Create env (options_of v) m = Done (None, m') →
      start_step (mkProcess true pending WaitingForCerts started m Running) (mkProcess true pending Wired started m' Running)
  | st_failed pending started m m' err :
      Create env (options_of v) m = Done (Some err, m') →
      start_step (mkProcess true pending WaitingForCerts started m Running) (mkProcess true pending (Failed err) started m' (Stopped SetupError))
  | st_crashed pending started m :
      Create env (options_of v) m = Panics →
      start_step (mkProcess true pending WaitingForCerts started m Running) (mkProcess true pending WaitingForCerts started m (Panicked InSetup))
  | st_manager_fails ready pending st m :
      start_step (mkProcess ready pending st true m Running) (mkProcess ready pending st true m (Stopped ManagerError))
  | st_signal ready pending st m :
      start_step (mkProcess ready pending st true m Running) (mkProcess ready pending st true m after_main).

(** The check behind the probe endpoints, with the answer of the webhook server. *)
Definition checker (startedChecker : option string) (p : process) : option string :=
  if Vars.v_bool v Vars.noWebhooks then None
  else if p_ready p then startedChecker else Some "HNC internal certs are not yet ready".
End start.

(** ** What a command line sets *)
Definition array_flag (x : Vars.arrayVar) : string :=
  match x with
  | Vars.unpropagatedAnnotations => "unpropagated-annotation" | Vars.unpropagatedLabels => "unpropagated-label"
  | Vars.excludedNamespaces => "excluded-namespace" | Vars.managedNamespaceLabels => "managed-namespace-label"
  | Vars.managedNamespaceAnnots => "managed-namespace-annotation" | Vars.nopropagationLabel => "nopropagation-label"
  end.
Definition string_flag (x : Vars.stringVar) : string :=
  match x with
  | Vars.probeAddr => "health-probe-bind-address" | Vars.metricsAddr => "metrics-addr" | Vars.leaderElectionId => "leader-election-id"
  | Vars.includedNamespacesRegex => "included-namespace-regex" | Vars.hncNamespace => "namespace"
  end.
Definition bool_flag (x : Vars.boolVar) : string :=
  match x with
  | Vars.enableStackdriver => "enable-stackdriver" | Vars.enableLeaderElection => "enable-leader-election"
  | Vars.noWebhooks => "no-webhooks" | Vars.debugLogs => "debug-logs" | Vars.testLog => "enable-test-log"
  | Vars.internalCert => "enable-internal-cert-management" | Vars.SuppressObjectTags => "suppress-object-tags"
  | Vars.restartOnSecretRefresh => "cert-restart-on-secret-refresh" | Vars.webhooksOnly => "webhooks-only" | Vars.enableHRQ => "enable-hrq"
  end.
Definition int_flag (x : Vars.intVar) : string :=
  match x with
  | Vars.maxReconciles => "max-reconciles" | Vars.qps => "apiserver-qps-throttle" | Vars.webhookServerPort => "webhook-server-port"
  end.

(** The values given for a flag, in their order; each replaces the one before for flags with one value. *)
Definition given (name : string) (settings : list (string * string)) : list string :=
  omap (λ nv, if decide (nv.1 = name) then Some nv.2 else None) settings.

Definition latest {A} (parse : string → option A) (name : string) (settings : list (string * string)) (old : A) : A :=
  fold_left (λ old v, default old (parse v)) (given name settings) old.

Section read.
  Context (ParseDuration : string → option Z).

(** One setting. *)
Record sets (f : string) (v : string) (s s' : Vars.vars) : Prop := {
  se_array x : Vars.v_array s' x = Vars.v_array s x ++ (if decide (f = array_flag x) then [v] else []);
  se_string x : Vars.v_string s' x = if decide (f = string_flag x) then v else Vars.v_string s x;
  se_bool x : (if decide (f = bool_flag x) then ParseBool v else Some (Vars.v_bool s x)) = Some (Vars.v_bool s' x);
  se_int x : (if decide (f = int_flag x) then ParseInt0 v else Some (Vars.v_int s x)) = Some (Vars.v_int s' x);
  se_interval : (if decide (f = "hrq-sync-interval") then ParseDuration v else Some (Vars.v_hrqSyncInterval s)) = Some (Vars.v_hrqSyncInterval s')
}.

Lemma flag_sets f v s s' : f ∈ flags ParseDuration → fl_Set f v s = Some s' → sets (fl_Name f) v s s'.
Proof.
  intros Hf Hs. apply list_elem_of_In in Hf. simpl in Hf.
  repeat (destruct Hf as [<-|Hf]); [..|done]; simpl in Hs; simplify_eq/=; try (apply fmap_Some in Hs as (z & Hz & ->));
    (split; [intros []..|]); simpl; rewrite ?app_nil_r, ?fn_lookup_insert, ?fn_lookup_insert_ne by done; try done.
Qed.

Lemma given_cons name n v settings : given name ((n, v) :: settings) = (if decide (n = name) then [v] else []) ++ given name settings.
Proof. unfold given. simpl. by case_decide. Qed.

Lemma latest_cons {A} (parse : string → option A) name n v settings old new :
  (if decide (n = name) then parse v else Some old) = Some new → latest parse name ((n, v) :: settings) old = latest parse name settings new.
Proof. intros Hn. unfold latest. rewrite given_cons, fold_left_app. f_equal. case_decide; simpl; [by rewrite Hn|by simplify_eq]. Qed.

(** What a list of settings does to every variable. *)
Lemma settings_read settings v v' : set_all (flags ParseDuration) settings v = Some v' →
  (∀ x, Vars.v_array v' x = Vars.v_array v x ++ given (array_flag x) settings) ∧
  (∀ x, Vars.v_string v' x = latest Some (string_flag x) settings (Vars.v_string v x)) ∧
  (∀ x, Vars.v_bool v' x = latest ParseBool (bool_flag x) settings (Vars.v_bool v x)) ∧
  (∀ x, Vars.v_int v' x = latest ParseInt0 (int_flag x) settings (Vars.v_int v x)) ∧
  Vars.v_hrqSyncInterval v' = latest ParseDuration "hrq-sync-interval" settings (Vars.v_hrqSyncInterval v).
Proof.
  revert v. induction settings as [|[n w] settings IH]; intros v Hs; cbn [set_all] in Hs.
  { simplify_eq. split_and!; [intros; by rewrite app_nil_r|done..]. }
  destruct (lookup_flag (flags ParseDuration) n) as [f|] eqn:Hf; [|done].
  destruct (fl_Set f w v) as [v1|] eqn:Hw; [|done]. apply find_some in Hf as [Hin%list_elem_of_In Hn%bool_decide_eq_true]. subst n.
  destruct (flag_sets f w v v1 Hin Hw) as [H1 H2 H3 H4 H5]. destruct (IH v1 Hs) as (I1 & I2 & I3 & I4 & I5). split_and!.
  - intros x. by rewrite I1, H1, given_cons, app_assoc.
  - intros x. rewrite I2. symmetry. apply latest_cons. rewrite H2. destruct (decide (fl_Name f = string_flag x)); reflexivity.
  - intros x. rewrite I3. symmetry. apply latest_cons, H3.
  - intros x. rewrite I4. symmetry. apply latest_cons, H4.
  - rewrite I5. symmetry. apply latest_cons, H5.
Qed.
End read.

(** ** Exclusion labels *)
Lemma parse_exclusion_spec label l : parse_exclusion label = inr l ↔
  label = npl_Key l +:+ "=" +:+ npl_Value l ∧ npl_Key l ≠ "" ∧ (cut (npl_Key l) "=").2 = None ∧ (cut (npl_Value l) "=").2 = None.
Proof.
  unfold parse_exclusion. split.
  - destruct (Split label "=") as [|k [|w [|? ?]]] eqn:Hs; try done. case_decide as Hk; [done|]. intros [= <-]. simpl.
    pose proof (Join_Split label "=") as Hj. rewrite Hs in Hj. simpl in Hj.
    split_and!; [done|done|..]; eapply Split_no_sep; rewrite Hs; set_solver.
  - destruct l as [k w]. simpl. intros (-> & Hk & Hck & Hcw). change (k +:+ "=" +:+ w) with (k +:+ String "=" w).
    rewrite (Split_cut k w "=" Hck), (Split_id w "=" Hcw).
    by rewrite decide_False.
Qed.

Lemma parse_exclusions_spec labels acc ls : parse_exclusions labels acc = inr ls ↔
  ∃ new, ls = acc ++ new ∧ Forall2 (λ label l, parse_exclusion label = inr l) labels new.
Proof.
  revert acc. induction labels as [|label labels IH]; intros acc; simpl.
  - split; [intros [= <-]; exists []; by rewrite app_nil_r|]. intros (new & -> & Hn%Forall2_nil_inv_l). subst. by rewrite app_nil_r.
  - destruct (parse_exclusion label) as [err|l] eqn:Hl.
    + split; [done|]. intros (new & _ & Hn). inv Hn. congruence.
    + rewrite IH. split.
      * intros (new & -> & Hn). exists (l :: new). rewrite <- app_assoc. by split; [|constructor].
      * intros (new & -> & Hn). inv Hn. match goal with H : parse_exclusion label = inr ?y |- _ => assert (y = l) as -> by congruence end.
        eexists. split; [by rewrite <- app_assoc|done].
Qed.

(** ** The configuration that the flags give *)
Section configuration.
  Context `{RX : RegexpLib}.

(** The pattern for the managed namespaces; none stands for all. *)
Definition included_pattern (v : Vars.vars) : string :=
  let regex := Vars.v_string v Vars.includedNamespacesRegex in "^" +:+ (if decide (regex = "") then ".*" else regex) +:+ "$".

(** A pattern for managed labels or annotations that is legal: it compiles, and leaves HNC's own group alone. *)
Definition managed_pattern (p : string) (r : Regexp) : Prop := Compile ("^" +:+ p +:+ "$") = inr r ∧ MatchString r MetaGroup = false.

(** Flags that HNC can run with. *)
Record legal (v : Vars.vars) : Prop := {
  lg_exclusions label : label ∈ Vars.v_array v Vars.nopropagationLabel → ∃ l, parse_exclusion label = inr l;
  lg_included : ∃ r, Compile (included_pattern v) = inr r;
  lg_managed p : p ∈ Vars.v_array v Vars.managedNamespaceLabels ++ Vars.v_array v Vars.managedNamespaceAnnots → ∃ r, managed_pattern p r;
  lg_webhooks : Vars.v_bool v Vars.webhooksOnly = true → Vars.v_bool v Vars.noWebhooks = false
}.

(** The configuration for them. *)
Record configured (v : Vars.vars) (c : Config) : Prop := {
  cf_exclusions : Forall2 (λ label l, label = npl_Key l +:+ "=" +:+ npl_Value l ∧ npl_Key l ≠ "" ∧ (cut (npl_Key l) "=").2 = None ∧
    (cut (npl_Value l) "=").2 = None) (Vars.v_array v Vars.nopropagationLabel) (NoPropagationLabels c);
  cf_labels : UnpropagatedLabels c = Vars.v_array v Vars.unpropagatedLabels;
  cf_annotations : UnpropagatedAnnotations c = Vars.v_array v Vars.unpropagatedAnnotations;
  cf_excluded : Config.excludedNamespaces c = list_to_set (Vars.v_array v Vars.excludedNamespaces);
  cf_included : ∃ r, Compile (included_pattern v) = inr r ∧ Config.includedNamespacesRegex c = Some r;
  cf_managedLabels : Forall2 managed_pattern (Vars.v_array v Vars.managedNamespaceLabels) (managedLabels c);
  cf_managedAnnotations : Forall2 managed_pattern (Vars.v_array v Vars.managedNamespaceAnnots) (managedAnnotations c);
  cf_namespace : Config.hncNamespace c = Vars.v_string v Vars.hncNamespace
}.

Lemma setManagedMeta_run patterns opt acc : match setManagedMeta patterns opt acc with
  | (rs, None) => ∃ rs', rs = acc ++ rs' ∧ Forall2 managed_pattern patterns rs'
  | (_, Some _) => ∃ p, p ∈ patterns ∧ ¬ ∃ r, managed_pattern p r
  end.
Proof.
  revert acc. induction patterns as [|p ps IH]; intros acc; simpl; [exists []; by rewrite app_nil_r|].
  destruct (Compile ("^" +:+ p +:+ "$")) as [e|r] eqn:Hc.
  { exists p. split; [left|]. intros (r & Hr & _). congruence. }
  destruct (MatchString r MetaGroup) eqn:Hm.
  { exists p. split; [left|]. intros (r' & Hr & ?). congruence. }
  specialize (IH (acc ++ [r])). destruct (setManagedMeta ps opt (acc ++ [r])) as [rs [e|]].
  - destruct IH as (q & Hq & Hn). exists q. split; [by right|done].
  - destruct IH as (rs' & -> & HF). exists (r :: rs'). rewrite <- app_assoc. by split; [|constructor].
Qed.

Lemma parse_exclusions_all labels acc : (∃ ls, parse_exclusions labels acc = inr ls) ↔ ∀ label, label ∈ labels → ∃ l, parse_exclusion label = inr l.
Proof.
  revert acc. induction labels as [|label labels IH]; intros acc; simpl; [split; [by intros _ ? ?%elem_of_nil|eauto]|].
  setoid_rewrite elem_of_cons. destruct (parse_exclusion label) as [e|l] eqn:Hl.
  - split; [by intros [? ?]|]. intros Hall. destruct (Hall label) as [? ?]; [by left|congruence].
  - rewrite IH. naive_solver.
Qed.

(** [configure] accepts exactly the legal flags, and gives their configuration. *)
Lemma configure_spec v : ((∃ c, configure v zeroConfig = Launched c) ↔ legal v) ∧ (∀ c, configure v zeroConfig = Launched c → configured v c).
Proof.
  unfold configure. simpl.
  destruct (parse_exclusions _ []) as [why|npl] eqn:Hx.
  { split; [|done]. split; [by intros [? ?]|]. intros Hl. destruct (proj2 (parse_exclusions_all _ []) (lg_exclusions _ Hl)). congruence. }
  assert (Hxs := Hx). apply parse_exclusions_spec in Hxs as (new & Hnew & HF). simpl in Hnew. subst new.
  assert (∀ label, label ∈ Vars.v_array v Vars.nopropagationLabel → ∃ l, parse_exclusion label = inr l) as Hexcl
    by (apply (parse_exclusions_all _ []); eauto).
  unfold SetNamespaces. fold (included_pattern v). destruct (Compile (included_pattern v)) as [e|rx] eqn:Hrx.
  { split; [|done]. split; [by intros [? ?]|]. intros Hl. destruct (lg_included _ Hl). congruence. }
  unfold SetManagedMeta.
  pose proof (setManagedMeta_run (Vars.v_array v Vars.managedNamespaceLabels) "--managed-namespace-label" []) as Hls.
  destruct (setManagedMeta (Vars.v_array v Vars.managedNamespaceLabels) _ []) as [ls [e|]].
  { destruct Hls as (p & Hp & Hn). split; [|done]. split; [by intros [? ?]|]. intros Hl. destruct Hn. apply (lg_managed _ Hl). set_solver. }
  pose proof (setManagedMeta_run (Vars.v_array v Vars.managedNamespaceAnnots) "--managed-namespace-annotation" []) as Han.
  destruct (setManagedMeta (Vars.v_array v Vars.managedNamespaceAnnots) _ []) as [an [e|]].
  { destruct Han as (p & Hp & Hn). split; [|done]. split; [by intros [? ?]|]. intros Hl. destruct Hn. apply (lg_managed _ Hl). set_solver. }
  destruct Hls as (? & -> & Hls), Han as (? & -> & Han). simpl in *.
  destruct (Vars.v_bool v Vars.webhooksOnly && Vars.v_bool v Vars.noWebhooks) eqn:Hw.
  { split; [|done]. split; [by intros [? ?]|]. intros Hl. apply andb_true_iff in Hw as [H1 H2]. rewrite (lg_webhooks _ Hl H1) in H2. done. }
  split.
  - split; [intros _|eauto]. split; [done|eauto| |].
    + intros p [Hp|Hp]%elem_of_app; apply list_elem_of_lookup in Hp as [i Hi];
        [destruct (Forall2_lookup_l _ _ _ _ _ Hls Hi) as (r & _ & ?)|destruct (Forall2_lookup_l _ _ _ _ _ Han Hi) as (r & _ & ?)]; eauto.
    + intros Ho. by rewrite Ho in Hw.
  - intros c [= <-]. split; simpl; try done; [|eauto].
    eapply Forall2_impl; [exact HF|]. intros label l. apply parse_exclusion_spec.
Qed.
End configuration.

(** ** The start *)
Section startup.
  Context (env : setupEnv) (pe : processEnv) (v : Vars.vars).

(** Nothing is registered. *)
Definition unwired (m : Manager) : Prop := m_webhooks m = ∅ ∧ m_controllers m = [] ∧ f_listeners (m_forest m) = [].

(** Everything is. *)
Definition fully_wired (m : Manager) : Prop :=
  m_webhooks m = expected_webhooks (options_of v) ∧ m_controllers m = expected_controllers (options_of v) ∧
  f_listeners (m_forest m) = expected_listeners (options_of v).

(** Nothing that [main] needs fails. *)
Definition launchable : Prop :=
  pe_config pe = None ∧ pe_newManager pe = None ∧ pe_healthz pe = None ∧ pe_readyz pe = None ∧
  (rotates_certs v = true → env_rotator env "hnc-webhook-server-cert" = None ∧ env_rotator env "hnc-resourcelist" = None).

Record start_inv (p : process) : Prop := {
  si_waiting : p_starter p = WaitingForCerts → unwired (p_manager p);
  si_ready : p_starter p ≠ WaitingForCerts → p_ready p = true;
  si_wired : p_starter p = Wired → fully_wired (p_manager p) ∧ env_ok env (options_of v);
  si_failed e : p_starter p = Failed e → p_status p = Stopped SetupError;
  si_setup : p_status p = Stopped SetupError → ¬ env_ok env (options_of v);
  si_crash : p_status p ≠ Panicked InSetup;
  si_external : rotates_certs v = false → p_pending p = [] ∧ p_ready p = true ∧ p_status p ≠ Panicked SecondClose;
  si_internal : rotates_certs v = true → p_status p = Running → length (p_pending p) = if p_ready p then 1 else 2
}.

Lemma main_inv p : main env pe v = Launched p → start_inv p ∧ p_status p = Running.
Proof.
  unfold main, createManager, setupProbeEndpoints, setupCerts.
  destruct (pe_config pe); [done|]. destruct (pe_newManager pe); [done|]. destruct (rotates_certs v) eqn:Hr.
  - unfold ManageCerts, checked, AddRotator, mbind, M_bind. cbn.
    destruct (env_rotator env "hnc-webhook-server-cert") as [e|]; [done|]. cbn.
    destruct (env_rotator env "hnc-resourcelist") as [e|]; cbn; [done|]. destruct (pe_healthz pe); [done|]. destruct (pe_readyz pe); [done|].
    intros [= <-]. split; [|done]. split; simpl; try done; by rewrite Hr.
  - destruct (pe_healthz pe); [done|]. destruct (pe_readyz pe); [done|].
    intros [= <-]. split; [|done]. split; simpl; try done; by rewrite Hr.
Qed.

Lemma main_launches : (∃ p, main env pe v = Launched p) ↔ launchable.
Proof.
  unfold main, createManager, setupProbeEndpoints, setupCerts, launchable.
  destruct (pe_config pe); [naive_solver|]. destruct (pe_newManager pe); [naive_solver|]. destruct (rotates_certs v) eqn:Hr.
  - unfold ManageCerts, checked, AddRotator, mbind, M_bind. cbn.
    destruct (env_rotator env "hnc-webhook-server-cert") as [e|]; [naive_solver|]. cbn.
    destruct (env_rotator env "hnc-resourcelist") as [e|]; cbn; [naive_solver|].
    destruct (pe_healthz pe); [naive_solver|]. destruct (pe_readyz pe); naive_solver.
  - destruct (pe_healthz pe); [naive_solver|]. destruct (pe_readyz pe); naive_solver.
Qed.

Lemma after_main_cases : after_main pe v = Terminated ∨ after_main pe v = Panicked InCleanup.
Proof. unfold after_main. destruct (deferred _); auto. Qed.

Lemma start_inv_step p p' : start_inv p → start_step env pe v p p' → start_inv p'.
Proof.
  intros [H1 H2 H3 H4 Hse Hcr H5 H6] Hs.
  destruct Hs as [ready pending st m|cr before after st m|cr before after st m|pending started m m' Hc|
    pending started m m' e Hc|pending started m Hc|ready pending st m|ready pending st m]; simpl in *.
  - by split.
  - split; simpl; try done; try (intros Hx; by destruct (H5 Hx) as ([_ ?]%app_eq_nil & _)).
    intros Hx _. specialize (H6 Hx eq_refl). rewrite length_app in *. simpl in *. lia.
  - split; simpl; try done; try (intros e He; by specialize (H4 e He)). intros Hx; by destruct (H5 Hx) as ([_ ?]%app_eq_nil & _).
  - destruct (H1 eq_refl) as (Hw & Hcs & Hl).
    destruct (Create_run env (options_of v) m Hw) as ([? ?] & Hr & Hwh & _ & _ & Hok & Hn). rewrite Hc in Hr. injection Hr as <- <-. simpl in *.
    destruct (Hn eq_refl) as (Hcs' & Hl' & _). rewrite Hcs in Hcs'. rewrite Hl in Hl'.
    split; simpl; try done; intros _; split; [done|by apply Hok].
  - destruct (H1 eq_refl) as (Hw & _). destruct (Create_run env (options_of v) m Hw) as ([? ?] & Hr & _ & _ & _ & Hok & _).
    rewrite Hc in Hr. injection Hr as <- <-. simpl in *. split; simpl; try done.
    + intros _ ?%Hok. done.
    + intros Hx. destruct (H5 Hx) as (? & _). by split_and!.
  - destruct (H1 eq_refl) as (Hw & _). destruct (Create_run env (options_of v) m Hw) as (? & Hr & _). congruence.
  - split; simpl; try done; [intros e He; by specialize (H4 e He)|]. intros Hx. destruct (H5 Hx) as (? & ? & _). by split_and!.
  - destruct after_main_cases as [->| ->]; (split; simpl; try done; [intros e He; by specialize (H4 e He)|]);
      intros Hx; destruct (H5 Hx) as (? & ? & _); by split_and!.
Qed.

Lemma start_inv_reachable p0 p : main env pe v = Launched p0 → rtc (start_step env pe v) p0 p → start_inv p.
Proof. intros [H0 _]%main_inv. induction 1; eauto using start_inv_step. Qed.

Definition start_size (p : process) : nat :=
  length (p_pending p) + (if p_started p then 0 else 1) + match p_starter p with WaitingForCerts => 1 | _ => 0 end +
  match p_status p with Running => 1 | _ => 0 end.

Lemma start_step_size p p' : start_step env pe v p p' → start_size p' < start_size p.
Proof.
  destruct 1; unfold start_size; simpl; rewrite ?length_app; simpl; try lia.
  destruct after_main_cases as [->| ->]; lia.
Qed.

Lemma start_step_wf p : Acc (flip (start_step env pe v)) p.
Proof.
  remember (start_size p) as n eqn:Hn. revert p Hn. induction (lt_wf n) as [n _ IH]; intros p ->.
  constructor. intros p' Hs. eapply IH; [|done]. by eapply start_step_size.
Qed.

(** A running process whose channel is closed can go on by itself until it is wired and started. *)
Lemma start_progress p : start_inv p → p_status p = Running → p_ready p = true →
  p_starter p = Wired ∧ p_started p = true ∨
  ∃ p', start_step env pe v p p' ∧ (p_started p = false ∧ p_started p' = true ∨ p_starter p = WaitingForCerts ∧ p_starter p' ≠ WaitingForCerts).
Proof.
  intros [H1 _ _ H4 _ _ _ _] Hs Hr. destruct p as [ready pending st started m s]; simpl in *. subst.
  destruct started; [|right; eexists; (split; [apply st_start|by left])]. destruct st as [| |e].
  - right. destruct (Create_run env (options_of v) m (proj1 (H1 eq_refl))) as ([[e|] m'] & Hc & _); eexists;
      (split; [first [by eapply st_failed|by eapply st_wired]|by right]).
  - by left.
  - by specialize (H4 e eq_refl).
Qed.
End startup.
