(* ===== verification/HierarchyReconciler.v ===== *)
(** * The HierarchyConfiguration reconciler (internal/hierarchyconfig/reconciler.go)

    One reconciliation of a namespace: read it and its HierarchyConfiguration from
    the API server, synchronise the forest with them under the forest's lock, and
    write the results back.  The code threads a [World] (file World): the shared forest and the
    trace of what the reconciler does to the outside, in order (namespaces it
    enqueues, listeners it notifies, objects it writes).  The answers of the API
    server are the record [apiAnswers]; [now] is the time at which conditions are
    set.  Log calls and metrics are left out. *)

From S2P Require Import Prelude GoStrings Chains Validation Api Config Resources Forest ForestWf ForestWalks World.

Inductive Event :=
  | Affected (nm : string)             (* enqueued for a later reconciliation *)
  | ChangedNamespace (nm : string)     (* the listeners of the forest were called *)
  | CreateHC (hc : HierarchyConfiguration)
  | UpdateHC (hc : HierarchyConfiguration)
  | UpdateNS (ns : K8sNamespace).

Abbreviation HWorld := (World Event).

Record apiAnswers := {
  aa_getNamespace : string → ApiResult K8sNamespace;
  aa_getHC : string → ApiResult HierarchyConfiguration;
  aa_isDeletingCRD : string + bool;
  aa_listAnchors : string → ApiResult (list SubnamespaceAnchor);
  aa_getAnchor : string → string → ApiResult SubnamespaceAnchor;
  aa_createHC : option string;
  aa_updateHC : option string;
  aa_updateNS : option string
}.

(** ** Records of Kubernetes objects *)
Definition ns_Labels (i : K8sNamespace) : gomap string string := om_Labels (kn_Meta i).
Definition ns_Annotations (i : K8sNamespace) : gomap string string := om_Annotations (kn_Meta i).
Definition set_ns_Meta (g : ObjectMeta → ObjectMeta) (i : K8sNamespace) : K8sNamespace := {| kn_Meta := g (kn_Meta i) |}.
Definition set_ns_Labels (l : gomap string string) := set_ns_Meta (set_om_Labels l).
Definition set_ns_Annotations (l : gomap string string) := set_ns_Meta (set_om_Annotations l).

Definition set_hc_Meta (m : ObjectMeta) (i : HierarchyConfiguration) : HierarchyConfiguration :=
  {| hc_Meta := m; hc_Spec := hc_Spec i; hc_Status := hc_Status i |}.
Definition set_hc_Spec (s : HierarchyConfigurationSpec) (i : HierarchyConfiguration) : HierarchyConfiguration :=
  {| hc_Meta := hc_Meta i; hc_Spec := s; hc_Status := hc_Status i |}.
Definition set_hc_Status (s : HierarchyConfigurationStatus) (i : HierarchyConfiguration) : HierarchyConfiguration :=
  {| hc_Meta := hc_Meta i; hc_Spec := hc_Spec i; hc_Status := s |}.
Definition set_Parent (p : string) (i : HierarchyConfiguration) : HierarchyConfiguration :=
  set_hc_Spec {| hcs_Parent := p; hcs_AllowCascadingDeletion := hcs_AllowCascadingDeletion (hc_Spec i);
                 hcs_Labels := hcs_Labels (hc_Spec i); hcs_Annotations := hcs_Annotations (hc_Spec i) |} i.
Definition set_SpecMeta (ls an : list MetaKVP) (i : HierarchyConfiguration) : HierarchyConfiguration :=
  set_hc_Spec {| hcs_Parent := hcs_Parent (hc_Spec i); hcs_AllowCascadingDeletion := hcs_AllowCascadingDeletion (hc_Spec i);
                 hcs_Labels := ls; hcs_Annotations := an |} i.
Definition set_Children (c : list string) (i : HierarchyConfiguration) : HierarchyConfiguration :=
  set_hc_Status {| hct_Children := c; hct_Conditions := hct_Conditions (hc_Status i) |} i.
Definition set_Conditions (c : list Condition) (i : HierarchyConfiguration) : HierarchyConfiguration :=
  set_hc_Status {| hct_Children := hct_Children (hc_Status i); hct_Conditions := c |} i.

Section reconciler.
  Context `{RO : RangeOrder} `{RX : RegexpLib} (cfg : Config) (now : Z).

(** Names of nil namespaces are skipped, so that callers need no nil check. *)
Definition enqueueAffected (affected : list string) : M HWorld unit :=
  emit (Affected <$> filter (λ nm, nm ≠ "<none>") affected).

Definition OnChangeNamespace (ns : loc) : M HWorld unit :=
  f ← getF; emit [ChangedNamespace (ns_name (deref f ns))].

Definition setCondition (ns : loc) (tp reason msg : string) : M HWorld unit :=
  updF (SetCondition now ns tp reason msg).

Definition removeIncludedNamespaceLabel (nsInst : K8sNamespace) : K8sNamespace :=
  match items (ns_Labels nsInst) !! LabelIncludedNamespace with
  | Some _ => set_ns_Labels (Some (delete LabelIncludedNamespace (items (ns_Labels nsInst)))) nsInst
  | None => nsInst
  end.

Definition addIncludedNamespaceLabel (nsInst : K8sNamespace) : K8sNamespace :=
  if decide (items (ns_Labels nsInst) !! LabelIncludedNamespace = Some "true") then nsInst
  else set_ns_Labels (Some (<[LabelIncludedNamespace:="true"]> (items (ns_Labels nsInst)))) nsInst.

Definition updateFinalizers (inst : HierarchyConfiguration) (nsInst : K8sNamespace) (anms : list string) : HierarchyConfiguration :=
  let remove := if ContainsFinalizer (hc_Meta inst) FinalizerHasSubnamespace
                then set_hc_Meta (RemoveFinalizer (hc_Meta inst) FinalizerHasSubnamespace) inst else inst in
  if decide (length anms = 0) then remove
  else if negb (IsZero (om_DeletionTimestamp (hc_Meta inst))) && IsZero (om_DeletionTimestamp (kn_Meta nsInst)) then remove
  else if negb (ContainsFinalizer (hc_Meta inst) FinalizerHasSubnamespace)
       then set_hc_Meta (AddFinalizer (hc_Meta inst) FinalizerHasSubnamespace) inst else inst.

Definition syncExternalNamespace (nsInst : K8sNamespace) (ns : loc) : M HWorld unit :=
  f ← getF;
  let mgr := sget (items (ns_Annotations nsInst)) AnnotationManagedBy in
  if decide (mgr = "" ∨ mgr = MetaGroup) then
    (if IsExternal (deref f ns) then enqueueAffected (DescendantNames f ns) else mret tt) ≫= λ _,
    updF (upd ns (set_manager MetaGroup))
  else
    (if negb (IsExternal (deref f ns)) then enqueueAffected (DescendantNames f ns) else mret tt) ≫= λ _,
    updF (upd ns (set_manager mgr)).

Definition syncSubnamespaceParent (inst : HierarchyConfiguration) (nsInst : K8sNamespace) (ns : loc)
    (parentAnchor : option SubnamespaceAnchor) : M HWorld HierarchyConfiguration :=
  f ← getF;
  if IsExternal (deref f ns) then updF (upd ns (set_isSub false)) ≫= λ _, mret inst
  else
    let pnm := sget (items (ns_Annotations nsInst)) SubnamespaceOf in
    let pnm := if decide (pnm ≠ "" ∧ IsZero (om_DeletionTimestamp (kn_Meta nsInst)) = false) then "" else pnm in
    if decide (pnm = "") then updF (upd ns (set_isSub false)) ≫= λ _, mret inst
    else
      updF (upd ns (set_isSub true)) ≫= λ _,
      let inst := if decide (hcs_Parent (hc_Spec inst) ≠ pnm) then set_Parent pnm inst else inst in
      match parentAnchor with
      | None =>
          setCondition ns ConditionBadConfiguration ReasonAnchorMissing "The anchor is missing in the parent namespace" ≫= λ _,
          mret inst
      | Some a => mret (set_SpecMeta (sa_Labels a) (sa_Annotations a) inst)
      end.

Definition setCycleCondition (ns : loc) : M HWorld unit :=
  f ← getF;
  match CycleNames f ns with
  | [] => mret tt
  | cycle => setCondition ns ConditionActivitiesHalted ReasonInCycle
               ("Namespace is a member of the cycle: " +:+ Join cycle " <- ")
  end.

(** [syncParent] up to its deferred cycle check. *)
Definition syncParent_body (inst : HierarchyConfiguration) (ns : loc) : M HWorld unit :=
  f ← getF;
  if IsExternal (deref f ns) then
    match ns_parent (deref f ns) with
    | Some p => enqueueAffected [Name f (Some p)]
    | None => mret tt
    end ≫= λ _,
    updF (SetParent ns None)
  else
    curParent ← onF (Get (hcs_Parent (hc_Spec inst)));
    f ← getF;
    (if negb (IsManagedNamespace cfg (hcs_Parent (hc_Spec inst))) then
       setCondition ns ConditionActivitiesHalted ReasonIllegalParent
         ("Parent " +:+ quoted (hcs_Parent (hc_Spec inst)) +:+ " is an unmanaged namespace")
     else match curParent with
     | Some p =>
         if negb (Exists f p) then
           setCondition ns ConditionActivitiesHalted ReasonParentMissing
             ("Parent " +:+ quoted (hcs_Parent (hc_Spec inst)) +:+ " does not exist")
         else mret tt
     | None => mret tt
     end) ≫= λ _,
    f ← getF;
    let oldParent := Parent f (Some ns) in
    if decide (curParent = oldParent) then mret tt
    else
      let oldName := Name f oldParent in
      enqueueAffected (CycleNames f ns) ≫= λ _,
      updF (SetParent ns curParent) ≫= λ _,
      f ← getF;
      enqueueAffected [oldName] ≫= λ _,
      enqueueAffected [Name f curParent] ≫= λ _,
      enqueueAffected (DescendantNames f ns).

Definition syncParent (inst : HierarchyConfiguration) (ns : loc) : M HWorld unit :=
  syncParent_body inst ns ≫= λ _, setCycleCondition ns.

Definition markExisting (ns : loc) : M HWorld unit :=
  changed ← onF (SetExists ns);
  if (changed : bool) then
    f ← getF;
    enqueueAffected (RelativesNames f ns) ≫= λ _,
    (if ns_IsSub (deref f ns) then enqueueAffected [Name f (Parent f (Some ns))] else mret tt) ≫= λ _,
    OnChangeNamespace ns
  else mret tt.

Definition syncAnchors (ns : loc) (anms : list string) : M HWorld unit :=
  changed ← onF (SetAnchors ns anms);
  enqueueAffected changed.

(** The managed entries of the spec: illegal keys are skipped, with a condition. *)
Fixpoint spec_managed (isManaged : string → bool) (reason what : string) (ns : loc) (kvps : list MetaKVP)
    (managed : gmap string string) : M HWorld (gmap string string) :=
  match kvps with
  | [] => mret managed
  | kvp :: kvps' =>
      if isManaged (kvp_Key kvp) then
        spec_managed isManaged reason what ns kvps' (<[kvp_Key kvp := kvp_Value kvp]> managed)
      else
        setCondition ns ConditionBadConfiguration reason (what +:+ kvp_Key kvp) ≫= λ _,
        spec_managed isManaged reason what ns kvps' managed
  end.

(** The walk of [syncLabels] up the hierarchy: it stops at a root, at an external
    namespace or at a halted one. *)
Fixpoint tree_labels (fuel : nat) (f : Forest) (curNS : option loc) (depth : nat) (labels : gmap string string)
    : outcome (gmap string string) :=
  match curNS with
  | None => Done labels
  | Some c =>
      match fuel with
      | O => Diverges
      | S fuel' =>
          let labels := <[ns_name (deref f c) +:+ LabelTreeDepthSuffix := Itoa depth]> labels in
          let labels := items (ns_ManagedLabels (deref f c)) ∪ labels in
          if IsExternal (deref f c) then
            Done (((λ v, ItoaZ (wrap64 (Z.of_nat depth + v))) <$> GetTreeLabels (deref f c)) ∪ labels)
          else if IsHalted f (Some c) then Done labels
          else tree_labels fuel' f (Parent f (Some c)) (S depth) labels
      end
  end.

Definition syncLabels (inst : HierarchyConfiguration) (nsInst : K8sNamespace) (ns : loc) : M HWorld K8sNamespace :=
  managed ← spec_managed (IsManagedLabel cfg) ReasonIllegalManagedLabel
              "Not a legal managed label (set via --managed-namespace-label): " ns (hcs_Labels (hc_Spec inst)) ∅;
  f ← getF;
  let ext := IsExternal (deref f ns) in
  (* External namespaces keep the managed labels they carry; others lose them, and tree labels. *)
  let own := filter (λ '(k, _), IsManagedLabel cfg k = true) (items (ns_Labels nsInst)) in
  let managed := if ext then own ∪ managed else managed in
  let nsInst :=
    if ext then nsInst
    else set_ns_Labels (filter (λ '(k, _), IsManagedLabel cfg k = false ∧ HasSuffix k LabelTreeDepthSuffix = false)
                          <$> ns_Labels nsInst) nsInst in
  let managed : gomap string string := if decide (size managed = 0) then None else Some managed in
  (if decide (ns_ManagedLabels (deref f ns) ≠ managed) then
     updF (upd ns (set_managedLabels managed)) ≫= λ _,
     f ← getF; enqueueAffected (DescendantNames f ns)
   else mret tt) ≫= λ _,
  (if ext then
     let nsInst := set_ns_Meta (λ m, SetLabel m (om_Name m +:+ LabelTreeDepthSuffix) "0") nsInst in
     onF (SetLabels ns (ns_Labels nsInst)) ≫= λ _, mret nsInst
   else mret nsInst) ≫= λ nsInst,
  f ← getF;
  labels ← lift_outcome (tree_labels (steps f) f (Some ns) 0 (items (ns_Labels nsInst)));
  let nsInst := set_ns_Labels (Some labels) nsInst in
  changed ← onF (SetLabels ns (ns_Labels nsInst));
  (if (changed : bool) then OnChangeNamespace ns else mret tt) ≫= λ _,
  mret nsInst.

Fixpoint tree_annotations (fuel : nat) (f : Forest) (curNS : option loc) (annots : gomap string string)
    : outcome (gomap string string) :=
  match curNS with
  | None => Done annots
  | Some c =>
      match fuel with
      | O => Diverges
      | S fuel' =>
          let managed := items (ns_ManagedAnnotations (deref f c)) in
          let annots := if decide (size managed = 0) then annots else Some (managed ∪ items annots) in
          if IsHalted f (Some c) then Done annots
          else tree_annotations fuel' f (Parent f (Some c)) annots
      end
  end.

Definition syncAnnotations (inst : HierarchyConfiguration) (nsInst : K8sNamespace) (ns : loc) : M HWorld K8sNamespace :=
  managed ← spec_managed (IsManagedAnnotation cfg) ReasonIllegalManagedAnnotation
              "Not a legal managed annotation (set via --managed-namespace-annotation): " ns (hcs_Annotations (hc_Spec inst)) ∅;
  f ← getF;
  let ext := IsExternal (deref f ns) in
  let own := filter (λ '(k, _), IsManagedAnnotation cfg k = true) (items (ns_Annotations nsInst)) in
  let managed := if ext then own ∪ managed else managed in
  let nsInst := if ext then nsInst
    else set_ns_Annotations (filter (λ '(k, _), IsManagedAnnotation cfg k = false) <$> ns_Annotations nsInst) nsInst in
  (if decide (ns_ManagedAnnotations (deref f ns) ≠ Some managed) then
     updF (upd ns (set_managedAnnotations (Some managed))) ≫= λ _,
     f ← getF; enqueueAffected (DescendantNames f ns)
   else mret tt) ≫= λ _,
  if ext then mret nsInst
  else
    f ← getF;
    annots ← lift_outcome (tree_annotations (steps f) f (Some ns) (ns_Annotations nsInst));
    mret (set_ns_Annotations annots nsInst).

Definition syncConditions (inst : HierarchyConfiguration) (ns : loc) (wasHalted : bool) : M HWorld HierarchyConfiguration :=
  f ← getF;
  (if negb (eqb (IsHalted f (Some ns)) wasHalted) then enqueueAffected (DescendantNames f ns) else mret tt) ≫= λ _,
  conds ← lift_outcome (Conditions f ns);
  mret (set_Conditions conds inst).

Definition syncWithForest (nsInst : K8sNamespace) (inst : HierarchyConfiguration) (deletingCRD : bool)
    (anms : list string) (parentAnchor : option SubnamespaceAnchor) : M HWorld (HierarchyConfiguration * K8sNamespace) :=
  let origNS := nsInst in
  let origHC := inst in
  ns ← onF (Get (om_Name (kn_Meta nsInst))) ≫= nonnil;
  f ← getF;
  let wasHalted := IsHalted f (Some ns) in
  updF (ClearConditions ns) ≫= λ _,
  (if deletingCRD then setCondition ns ConditionActivitiesHalted ReasonDeletingCRD
     "The HierarchyConfiguration CRD is being deleted; all propagation is disabled." else mret tt) ≫= λ _,
  syncExternalNamespace nsInst ns ≫= λ _,
  inst ← syncSubnamespaceParent inst nsInst ns parentAnchor;
  syncParent inst ns ≫= λ _,
  markExisting ns ≫= λ _,
  nsInst ← syncLabels inst nsInst ns;
  nsInst ← syncAnnotations inst nsInst ns;
  syncAnchors ns anms ≫= λ _,
  onF (UpdateAllowCascadingDeletion ns (hcs_AllowCascadingDeletion (hc_Spec inst))) ≫= λ _,
  f ← getF;
  let inst := set_Children (ChildNames (deref f ns)) inst in
  inst ← syncConditions inst ns wasHalted;
  let changedHC := negb (bool_decide (origHC = inst)) in
  let inst := if changedHC && bool_decide (om_Name (hc_Meta inst) = "")
              then set_hc_Meta (set_om_NamespacedName (om_Name (kn_Meta nsInst)) Singleton (hc_Meta inst)) inst else inst in
  let changedNS := negb (bool_decide (origNS = nsInst)) in
  (if changedHC || changedNS then OnChangeNamespace ns else mret tt) ≫= λ _,
  mret (inst, nsInst).

(** ** The API server *)
Context (api : apiAnswers).

(** The writes return an error or nothing. *)
Definition writeHierarchy (inst : HierarchyConfiguration) (isDeletingNS : bool) : M HWorld (option string) :=
  if decide (om_Name (hc_Meta inst) = "") then mret None
  else
    let exists_ := negb (IsZero (om_CreationTimestamp (hc_Meta inst))) in
    if negb exists_ && isDeletingNS then mret None
    else if negb exists_ then emit [CreateHC inst] ≫= λ _, mret (aa_createHC api)
    else emit [UpdateHC inst] ≫= λ _, mret (aa_updateHC api).

Definition writeNamespace (inst : K8sNamespace) : M HWorld (option string) :=
  emit [UpdateNS inst] ≫= λ _, mret (aa_updateNS api).

Definition writeInstances (newHC : HierarchyConfiguration) (newNS : K8sNamespace) : M HWorld (option string) :=
  let isDeletingNS := negb (IsZero (om_DeletionTimestamp (kn_Meta newNS))) in
  err ← writeHierarchy newHC isDeletingNS;
  match err with
  | Some e => mret (Some e)
  | None => writeNamespace newNS
  end.

(** The singleton and whether its CRD is being deleted; a blank object if it is not found. *)
Definition getSingleton (nm : string) : string + (HierarchyConfiguration * bool) :=
  match aa_getHC api nm with
  | ApiError err => inl err
  | r =>
      let inst := match r with Found i => i | _ => blankHC end in
      if IsZero (om_CreationTimestamp (hc_Meta inst)) || negb (IsZero (om_DeletionTimestamp (hc_Meta inst))) then
        match aa_isDeletingCRD api with
        | inl err => inl err
        | inr deletingCRD => inr (inst, deletingCRD)
        end
      else inr (inst, false)
  end.

Definition getAnchorNames (nm : string) : string + list string :=
  match aa_listAnchors api nm with
  | ApiError err => inl err
  | NotFound => inr []
  | Found items => inr ((λ a, om_Name (sa_Meta a)) <$> items)
  end.

Definition onMissingNamespace (nm : string) : M HWorld unit :=
  ns ← onF (Get nm) ≫= nonnil;
  f ← getF;
  if Exists f ns then
    enqueueAffected (RelativesNames f ns) ≫= λ _,
    onF (UnsetExists ns) ≫= λ _, mret tt
  else mret tt.

Definition reconcile (nm : string) : M HWorld (option string) :=
  match aa_getNamespace api nm with
  | NotFound => onMissingNamespace nm ≫= λ _, mret None
  | ApiError err => mret (Some err)
  | Found nsInst =>
      let nsInst := addIncludedNamespaceLabel nsInst in
      match getSingleton nm with
      | inl err => mret (Some err)
      | inr (inst, deletingCRD) =>
          if deletingCRD && IsZero (om_CreationTimestamp (hc_Meta inst)) then mret None
          else
            match getAnchorNames nm with
            | inl err => mret (Some err)
            | inr anms =>
                match aa_getAnchor api (sget (items (ns_Annotations nsInst)) SubnamespaceOf) nm with
                | ApiError err => mret (Some err)
                | r =>
                    let parentAnchor := match r with Found a => Some a | _ => None end in
                    let inst := updateFinalizers inst nsInst anms in
                    '(inst, nsInst) ← syncWithForest nsInst inst deletingCRD anms parentAnchor;
                    writeInstances inst nsInst
                end
            end
      end
  end.

Definition handleUnmanaged (nm : string) : M HWorld (option string) :=
  match aa_getNamespace api nm with
  | NotFound => mret None
  | ApiError err => mret (Some err)
  | Found nsInst =>
      err ← writeNamespace (removeIncludedNamespaceLabel nsInst);
      match err with
      | Some e => mret (Some e)
      | None =>
          match getSingleton nm with
          | inl err => mret (Some err)
          | inr (inst, _) =>
              if ContainsFinalizer (hc_Meta inst) FinalizerHasSubnamespace || bool_decide (0 < length (hct_Children (hc_Status inst))) then
                let inst := set_Children [] (set_hc_Meta (RemoveFinalizer (hc_Meta inst) FinalizerHasSubnamespace) inst) in
                emit [UpdateHC inst] ≫= λ _, mret (aa_updateHC api)
              else mret None
          end
      end
  end.

Definition Reconcile (nm : string) : M HWorld (option string) :=
  if IsManagedNamespace cfg nm then reconcile nm else handleUnmanaged nm.
End reconciler.
