(* ===== verification/HierarchyInvariant.v ===== *)
(** * The HierarchyConfiguration reconciler keeps the forest healthy

    Two invariants of the forest hold whenever its lock is free: it is well-formed
    ([wf]) and each of its cycles has a halted member ([cycles_halted]), which is
    what makes the walks over it terminate.  A reconciliation starts by clearing
    the conditions of its namespace, so the second invariant is suspended for the
    cycles through that namespace ([cycles_but]) until the cycle check restores it.

    The statements are total: from the invariant, the code returns, and the
    invariant holds again. *)

From S2P Require Import Prelude GoStrings Chains Validation Api Config Resources Forest ForestWf ForestWalks.
From S2P Require Import ForestReads Sound World HierarchyReconciler.

Lemma triple_enqueue P names : triple P (enqueueAffected names) (λ _, P).
Proof. apply triple_emit. Qed.

Lemma triple_notify P ns : triple P (OnChangeNamespace ns) (λ _, P).
Proof. apply triple_read. intros f. apply triple_emit. Qed.

Lemma SetStatusCondition_halted now c cs :
  existsb (λ c, bool_decide (c_Type c = ConditionActivitiesHalted)) (SetStatusCondition now c cs) =
  bool_decide (c_Type c = ConditionActivitiesHalted) || existsb (λ c, bool_decide (c_Type c = ConditionActivitiesHalted)) cs.
Proof.
  induction cs as [|e cs IH]; simpl; [done|]. destruct (decide (c_Type e = c_Type c)) as [Heq|Hne]; simpl.
  - rewrite Heq. destruct (bool_decide _); done.
  - rewrite IH. destruct (bool_decide (c_Type e = _)), (bool_decide (c_Type c = _)); done.
Qed.

(** ** The invariants *)
Section invariants.
  Context (nm : string) (ns : loc).

(** Cycles have a halted member, except perhaps those through [nm]. *)
Definition cycles_but (f : Forest) : Prop :=
  ∀ x, in_cycle (parent_name f) x → ∃ y, rtc (up (parent_name f)) x y ∧ (halted_name f y ∨ y = nm).

Definition healthy (f : Forest) : Prop := wf f ∧ cycles_halted f ∧ f_namespaces f !! nm = Some ns.
Definition suspended (f : Forest) : Prop := wf f ∧ cycles_but f ∧ f_namespaces f !! nm = Some ns.
Definition half_synced (f : Forest) : Prop := wf_but (Some ns) f ∧ cycles_but f ∧ f_namespaces f !! nm = Some ns.
Definition almost_healthy (f : Forest) : Prop := wf_but (Some ns) f ∧ cycles_halted f ∧ f_namespaces f !! nm = Some ns.

Lemma rtc_ext (g h : string → option string) x y : (∀ z, g z = h z) → rtc (up g) x y → rtc (up h) x y.
Proof. intros Hgh. apply rtc_subrel. intros a b. unfold up. by rewrite Hgh. Qed.

Lemma in_cycle_ext (g h : string → option string) x : (∀ z, g z = h z) → in_cycle g x → in_cycle h x.
Proof. intros Hgh. apply tc_mono. intros a b. unfold up. by rewrite Hgh. Qed.

(** Changes to the namespace itself that keep its links. *)
Lemma cycles_but_upd f g : (∀ n, shape (g n) = shape n) → f_namespaces f !! nm = Some ns → wf f → cycles_but f → cycles_but (upd ns g f).
Proof.
  intros Hg Hl Hwf Hc x Hx. pose proof (heap_sim_upd shape ns g f Hg) as Hs.
  assert (∀ z, parent_name (upd ns g f) z = parent_name f z) as Hp.
  { intros z. symmetry. eapply parent_name_links, heap_sim_mono, Hs. apply shape_links. }
  apply (in_cycle_ext _ (parent_name f) _ Hp) in Hx. destruct (Hc x Hx) as (y & Hy & Hor). exists y.
  split; [by eapply rtc_ext; [|exact Hy]|]. destruct (decide (y = nm)) as [|Hne]; [by right|]. left.
  destruct Hor as [Hh|]; [|done]. unfold halted_name, IsHalted in *. simpl. destruct (f_namespaces f !! y) as [ly|] eqn:Hly; [|done].
  rewrite deref_upd_ne; [done|]. intros <-. by apply Hne, (live_inj f Hwf _ _ ns).
Qed.

Lemma suspended_upd f g : (∀ n, shape (g n) = shape n) → suspended f → suspended (upd ns g f).
Proof.
  intros Hg (Hwf & Hc & Hl). split_and!; [by apply wf_upd|by apply cycles_but_upd|done].
Qed.

Lemma almost_healthy_vitals f f' : heap_sim vitals f f' → almost_healthy f → almost_healthy f'.
Proof.
  intros Hs (Hwf & Hc & Hl). split_and!.
  - by rewrite <- (heap_sim_mono _ _ _ _ vitals_shape Hs).
  - intros x Hx. apply (in_cycle_ext _ (parent_name f)) in Hx; [|intros; by apply vitals_parent].
    destruct (Hc x Hx) as (y & Hy & Hh). exists y. rewrite (vitals_halted f f') by done. split; [|done].
    eapply rtc_ext; [|done]. intros z. symmetry. by apply vitals_parent.
  - by destruct Hs as [<- _].
Qed.

Lemma healthy_vitals f f' : heap_sim vitals f f' → healthy f → healthy f'.
Proof.
  intros Hs (Hwf & Hc & Hl). destruct (almost_healthy_vitals f f' Hs) as (_ & Hc' & Hl'); [split_and!; [by apply wf_but_weaken|done..]|].
  split_and!; [|done..]. by rewrite <- (heap_sim_mono _ _ _ _ vitals_shape Hs).
Qed.

Lemma healthy_upd f l g : (∀ n, vitals (g n) = vitals n) → healthy f → healthy (upd l g f).
Proof. intros Hg. apply healthy_vitals. by apply heap_sim_upd. Qed.

(** A change of parent of [nm] only adds cycles through [nm]. *)
Lemma cycles_but_reparented f f' o : f_namespaces f !! nm = Some ns →
  (∀ l, ns_conditions (deref f' l) = ns_conditions (deref f l)) → wf f →
  reparented f f' nm o → cycles_but f → cycles_but f'.
Proof.
  intros Hl Hcond Hwf Hr Hc x Hx. destruct (decide (nm ∈ AncestryNames f' (f_namespaces f' !! x))) as [Hin|Hnin].
  { exists nm. split; [|by right]. destruct (f_namespaces f' !! x) as [lx|] eqn:Hlx; [|by apply elem_of_nil in Hin].
    by apply (AncestryNames_elem f' (rp_wf _ _ _ _ Hr) x lx nm Hlx). }
  assert (∀ y, rtc (up (parent_name f')) x y → y ≠ nm) as Hav.
  { intros y Hy ->. apply Hnin. destruct (in_cycle_has_parent _ _ Hx) as [p Hp].
    apply (up_live f' (rp_wf _ _ _ _ Hr)) in Hp as [[lx Hlx] _]. rewrite Hlx.
    by apply (AncestryNames_elem f' (rp_wf _ _ _ _ Hr) x lx nm Hlx). }
  assert (∀ y, y ≠ nm → parent_name f' y = parent_name f y) as Hpar.
  { intros y Hy. rewrite (rp_parent _ _ _ _ Hr). by rewrite decide_False. }
  assert (∀ a b, rtc (up (parent_name f')) x a → tc (up (parent_name f')) a b → tc (up (parent_name f)) a b) as Htc.
  { intros a b Ha Ht. induction Ht as [a b Hab|a b c Hab Ht IH].
    - apply tc_once. unfold up in *. by rewrite <- Hpar by (by apply Hav).
    - eapply tc_l; [unfold up in *; by rewrite <- Hpar by (by apply Hav)|]. apply IH. by eapply rtc_r. }
  destruct (Hc x) as (y & Hy & Hor); [by apply Htc|].
  assert (rtc (up (parent_name f')) x y) as Hy'.
  { apply rtc_tc in Hy as [->|Hy]; [done|]. clear Hor. 
    assert (∀ a b, rtc (up (parent_name f')) x a → tc (up (parent_name f)) a b → rtc (up (parent_name f')) a b) as Hback; [|by apply Hback].
    intros a b Ha Ht. induction Ht as [a b Hab|a b c Hab Ht IH].
    - apply rtc_once. unfold up in *. by rewrite Hpar by (by apply Hav).
    - assert (up (parent_name f') a b) as Hab' by (unfold up in *; by rewrite Hpar by (by apply Hav)).
      eapply rtc_l; [done|]. apply IH. by eapply rtc_r. }
  exists y. split; [done|]. destruct Hor as [Hh|Heq]; [left|by right; subst].
  assert (is_Some (f_namespaces f' !! y)) as [ly Hly].
  { eapply (rtc_live f' (rp_wf _ _ _ _ Hr)); [|done]. destruct (in_cycle_has_parent _ _ Hx) as [p Hp].
    by apply (up_live f' (rp_wf _ _ _ _ Hr)) in Hp as [? _]. }
  unfold halted_name, IsHalted in *. rewrite Hly. destruct (rp_live _ _ _ _ Hr y) as [Heq|[? _]]; [|congruence].
  rewrite <- Heq, Hly in Hh. by rewrite Hcond.
Qed.
End invariants.

(** ** The operations of the reconciler *)
Section ops.
  Context `{RO : RangeOrder} `{RX : RegexpLib} (cfg : Config) (now : Z) (nm : string) (ns : loc).

Abbreviation Healthy := (healthy nm ns).
Abbreviation Suspended := (suspended nm ns).
Abbreviation HalfSynced := (half_synced nm ns).
Abbreviation AlmostHealthy := (almost_healthy nm ns).

(** A condition of another kind does not change whether the namespace is halted. *)
Lemma setCondition_healthy tp reason msg : tp ≠ ConditionActivitiesHalted →
  triple Healthy (setCondition now ns tp reason msg) (λ _, Healthy).
Proof.
  intros Htp. apply triple_updF. intros f Hf. unfold SetCondition. destruct (decide _); [done|].
  apply healthy_upd; [|done]. intros x. unfold vitals, halted. simpl. rewrite SetStatusCondition_halted.
  simpl. by rewrite bool_decide_eq_false_2.
Qed.

Lemma setCondition_suspended tp reason msg : triple Suspended (setCondition now ns tp reason msg) (λ _, Suspended).
Proof. apply triple_updF. intros f Hf. unfold SetCondition. destruct (decide _); [done|]. by apply suspended_upd. Qed.

Lemma updF_suspended g : (∀ n, shape (g n) = shape n) → triple (Ev:=Event) Suspended (updF (upd ns g)) (λ _, Suspended).
Proof. intros Hg. apply triple_updF. intros f. by apply suspended_upd. Qed.

Lemma syncExternalNamespace_ok nsInst : triple Suspended (syncExternalNamespace nsInst ns) (λ _, Suspended).
Proof.
  unfold syncExternalNamespace. apply triple_read. intros f.
  destruct (decide _); (apply (triple_bind _ (λ _, Suspended)); [|intros []; by apply updF_suspended]);
    (apply triple_if; [apply triple_enqueue|apply triple_ret]).
Qed.

Lemma syncSubnamespaceParent_ok inst nsInst pa : triple Suspended (syncSubnamespaceParent now inst nsInst ns pa) (λ _, Suspended).
Proof.
  unfold syncSubnamespaceParent. apply triple_read. intros f. destruct (IsExternal _).
  { eapply triple_bind; [by apply updF_suspended|]. intros []. apply triple_ret. }
  cbv zeta. destruct (decide (_ = "")); (eapply triple_bind; [by apply updF_suspended|intros []]); [apply triple_ret|].
  destruct pa as [a|]; [apply triple_ret|].
  eapply triple_bind; [apply setCondition_suspended|intros []]. apply triple_ret.
Qed.

Lemma SetParent_half_synced f p : Suspended f → can_reparent f ns p → HalfSynced (SetParent ns p f).
Proof.
  intros (Hwf & Hc & Hl) Hp. pose proof (SetParent_reparented f nm ns p Hwf Hl Hp) as Hr. split_and!.
  - pose proof (rp_wf _ _ _ _ Hr) as Hw. by rewrite Hl in Hw.
  - eapply (cycles_but_reparented nm ns); [done| |done|done|done].
    apply (SetParent_view ns_conditions f nm); done.
  - by rewrite (rp_self _ _ _ _ Hr).
Qed.

Lemma suspended_half f : Suspended f → HalfSynced f.
Proof. intros (? & ? & ?). split_and!; [by apply wf_but_weaken|done..]. Qed.

(** Looking a parent up may allocate an entry for it. *)
Lemma Get_suspended pnm : triple (Ev:=Event) Suspended (onF (Get pnm)) (λ o f, Suspended f ∧
  match o with None => pnm = "" | Some p => pnm ≠ "" ∧ f_namespaces f !! pnm = Some p end).
Proof.
  apply triple_onF. intros f (Hwf & Hc & Hl). destruct (Get pnm f) as [o f'] eqn:Hg. simpl.
  pose proof (Get_extends _ _ _ _ Hwf Hg) as Hx. split; [split_and!|].
  - by eapply ex_wf.
  - intros x Hcx. apply (extends_in_cycle f f' Hwf Hx) in Hcx. destruct (Hc x Hcx) as (y & Hy & Hor). exists y.
    by rewrite (extends_rtc f f' Hwf Hx), (extends_halted f f' Hwf Hx).
  - by apply (ex_names _ _ Hx).
  - destruct o as [p|]; unfold Get in Hg; destruct (decide (pnm = "")) as [|Hne]; try done.
    + split; [done|]. destruct (f_namespaces f !! pnm) eqn:Hn; simplify_eq; [done|]. simpl. by rewrite lookup_insert_eq.
    + by destruct (f_namespaces f !! pnm).
Qed.

Lemma syncParent_body_ok inst : triple Suspended (syncParent_body cfg now inst ns) (λ _, HalfSynced).
Proof.
  unfold syncParent_body. apply triple_read. intros f. destruct (IsExternal _).
  { eapply triple_bind; [destruct (ns_parent _); [apply triple_enqueue|apply triple_ret]|]. intros [].
    apply triple_updF. intros g Hg. by apply SetParent_half_synced. }
  eapply triple_bind; [apply Get_suspended|]. intros o. eapply triple_bind; [apply triple_getF|]. intros f1.
  eapply (triple_bind _ (λ _ g, Suspended g ∧
    match o with None => True | Some p => f_namespaces g !! hcs_Parent (hc_Spec inst) = Some p end)).
  { assert (∀ tp reason msg, triple (λ f, f1 = f ∧ Suspended f ∧ match o with None => hcs_Parent (hc_Spec inst) = ""
        | Some p => hcs_Parent (hc_Spec inst) ≠ "" ∧ f_namespaces f !! hcs_Parent (hc_Spec inst) = Some p end)
      (setCondition now ns tp reason msg) (λ _ g, Suspended g ∧
        match o with None => True | Some p => f_namespaces g !! hcs_Parent (hc_Spec inst) = Some p end)) as Hset.
    { intros tp reason msg. apply triple_updF. intros g (_ & Hg & Ho). split.
      - unfold SetCondition. destruct (decide _); [done|]. by apply suspended_upd.
      - unfold SetCondition. destruct o; [|done]. destruct Ho as [_ Ho]. by destruct (decide _). }
    assert (triple (Ev:=Event) (λ f, f1 = f ∧ Suspended f ∧ match o with None => hcs_Parent (hc_Spec inst) = ""
        | Some p => hcs_Parent (hc_Spec inst) ≠ "" ∧ f_namespaces f !! hcs_Parent (hc_Spec inst) = Some p end)
      (mret ()) (λ _ g, Suspended g ∧
        match o with None => True | Some p => f_namespaces g !! hcs_Parent (hc_Spec inst) = Some p end)) as Hret.
    { apply triple_done. intros g (_ & ? & Ho). split; [done|]. by destruct o as [p|]; [destruct Ho|]. }
    apply triple_if; [apply Hset|]. destruct o as [p|]; [apply triple_if; [apply Hset|]|]; apply Hret. }
  intros []. eapply triple_bind; [apply triple_getF|]. intros g. cbv zeta.
  destruct (decide (o = Parent g (Some ns))) as [|Hne].
  { apply triple_done. intros h (_ & Hh & _). by apply suspended_half. }
  eapply triple_bind; [apply triple_enqueue|intros []]. eapply triple_bind.
  { apply (triple_updF _ HalfSynced). intros h (-> & Hh & Ho). apply SetParent_half_synced; [done|].
    intros q ->. split; [|eauto]. simpl in Hne. congruence. }
  intros []. apply triple_read. intros h.
  do 2 (eapply triple_bind; [apply triple_enqueue|intros []]). apply triple_enqueue.
Qed.

(** The cycle check halts the namespace if it is on a cycle. *)
Lemma setCycleCondition_ok : triple HalfSynced (setCycleCondition now ns) (λ _, AlmostHealthy).
Proof.
  unfold setCycleCondition. eapply triple_bind; [apply triple_getF|]. intros f.
  destruct (CycleNames f ns) as [|c cs] eqn:Hcyc.
  - apply triple_done. intros g (<- & Hwf & Hc & Hl). split_and!; [done| |done].
    intros x Hx. destruct (Hc x Hx) as (y & Hy & [Hh|Heq]); [eauto|]. subst y. exfalso.
    apply (CycleNames_nil_iff f Hwf nm ns Hl) in Hcyc. apply Hcyc. by eapply in_cycle_reach.
  - apply triple_updF. intros g (<- & Hwf & Hc & Hl). unfold SetCondition. rewrite decide_False by done.
    match goal with |- context [upd ns ?h f] => set (hf := h) end.
    assert (∀ n, shape (hf n) = shape n) as Hsh by done.
    pose proof (heap_sim_upd shape ns hf f Hsh) as Hs.
    assert (∀ z, parent_name (upd ns hf f) z = parent_name f z) as Hp.
    { intros z. symmetry. eapply parent_name_links, heap_sim_mono, Hs. apply shape_links. }
    assert (is_Some (f_heap f !! ns)) as Hns by (by eapply wf_name).
    assert (halted_name (upd ns hf f) nm) as Hnm.
    { unfold halted_name, IsHalted. simpl. rewrite Hl, deref_upd_eq by done. unfold hf. simpl.
      by rewrite SetStatusCondition_halted. }
    split_and!; [by apply wf_upd| |done]. intros x Hx. apply (in_cycle_ext _ (parent_name f) _ Hp) in Hx.
    destruct (Hc x Hx) as (y & Hy & Hor). exists y. split; [by eapply rtc_ext; [|exact Hy]|].
    destruct (decide (y = nm)) as [->|Hne]; [done|]. destruct Hor as [Hh|]; [|done].
    unfold halted_name, IsHalted in *. simpl. destruct (f_namespaces f !! y) as [ly|] eqn:Hly; [|done].
    rewrite deref_upd_ne; [done|]. intros <-. by apply Hne, (live_inj f Hwf _ _ ns).
Qed.

Lemma markExisting_ok : triple AlmostHealthy (markExisting ns) (λ _, Healthy).
Proof.
  unfold markExisting. eapply triple_bind.
  { apply (triple_onF _ (λ _, Healthy)). intros f (Hwf & Hc & Hl). simpl.
    assert (∀ x, links (deref (upd ns (set_exists true) f) x) = links (deref f x)) as Hlk.
    { intros x. symmetry. apply heap_sim_deref, heap_sim_upd. done. }
    pose proof (heap_sim_upd links ns (set_exists true) f (λ n, eq_refl)) as Hs.
    assert (∀ z, parent_name (upd ns (set_exists true) f) z = parent_name f z) as Hp.
    { intros z. symmetry. by apply parent_name_links. }
    split_and!; [by eapply wf_set_exists| |done]. intros x Hx. apply (in_cycle_ext _ (parent_name f) _ Hp) in Hx.
    destruct (Hc x Hx) as (y & Hy & Hh). exists y. split; [by eapply rtc_ext; [|exact Hy]|].
    unfold halted_name, IsHalted in *. simpl. destruct (f_namespaces f !! y) as [ly|]; [|done].
    assert (ns_conditions (deref (upd ns (set_exists true) f) ly) = ns_conditions (deref f ly)) as ->; [|done].
    symmetry. apply heap_sim_deref, heap_sim_upd. done. }
  intros changed. apply triple_if; [|apply triple_ret]. apply triple_read. intros f. eapply triple_bind; [apply triple_enqueue|intros []].
  eapply triple_bind; [apply triple_if; [apply triple_enqueue|apply triple_ret]|intros []]. apply triple_notify.
Qed.

(** The two walks that collect labels and annotations terminate. *)
Lemma tree_labels_terminates {e} f (Hwf : wf_but e f) fuel x lx rest depth labels :
  f_namespaces f !! x = Some lx → chain (parent_name f) (x :: rest) → length (x :: rest) ≤ fuel →
  (∃ y, y ∈ x :: rest ∧ halted_name f y) ∨ ends_at_root (parent_name f) (x :: rest) →
  ∃ r, tree_labels fuel f (Some lx) depth labels = Done r.
Proof.
  revert x lx rest depth labels. induction fuel as [|fuel IH]; intros x lx rest depth labels Hl Hc Hlen Hor; [simpl in Hlen; lia|].
  cbn [tree_labels]. destruct (IsExternal _); [eauto|]. destruct (IsHalted f (Some lx)) eqn:Hh; [eauto|].
  destruct rest as [|p rest].
  - destruct Hor as [(y & ->%list_elem_of_singleton & Hy)|(r & Hr & Hp)].
    { unfold halted_name in Hy. rewrite Hl in Hy. congruence. }
    simplify_eq/=. rewrite (parent_name_live f _ _ Hl) in Hp. apply fmap_None in Hp. rewrite Hp. destruct fuel; simpl; eauto.
  - apply chain_inv in Hc as [Hu Hc]. apply (parent_name_Some f Hwf) in Hu as (l0 & lp & Hl0 & Hp0 & Hlp). simplify_eq. simpl. rewrite Hp0.
    apply (IH p lp rest); [done..|simpl in *; lia|].
    destruct Hor as [(y & Hy & Hhy)|(r & Hr & Hp)]; [left|right; by exists r].
    apply elem_of_cons in Hy as [->|Hy]; [|eauto]. unfold halted_name in Hhy. rewrite Hl in Hhy. congruence.
Qed.

Lemma tree_annotations_terminates {e} f (Hwf : wf_but e f) fuel x lx rest annots :
  f_namespaces f !! x = Some lx → chain (parent_name f) (x :: rest) → length (x :: rest) ≤ fuel →
  (∃ y, y ∈ x :: rest ∧ halted_name f y) ∨ ends_at_root (parent_name f) (x :: rest) →
  ∃ r, tree_annotations fuel f (Some lx) annots = Done r.
Proof.
  revert x lx rest annots. induction fuel as [|fuel IH]; intros x lx rest annots Hl Hc Hlen Hor; [simpl in Hlen; lia|].
  cbn [tree_annotations]. destruct (IsHalted f (Some lx)) eqn:Hh; [eauto|].
  destruct rest as [|p rest].
  - destruct Hor as [(y & ->%list_elem_of_singleton & Hy)|(r & Hr & Hp)].
    { unfold halted_name in Hy. rewrite Hl in Hy. congruence. }
    simplify_eq/=. rewrite (parent_name_live f _ _ Hl) in Hp. apply fmap_None in Hp. rewrite Hp. destruct fuel; simpl; eauto.
  - apply chain_inv in Hc as [Hu Hc]. apply (parent_name_Some f Hwf) in Hu as (l0 & lp & Hl0 & Hp0 & Hlp). simplify_eq. simpl. rewrite Hp0.
    apply (IH p lp rest); [done..|simpl in *; lia|].
    destruct Hor as [(y & Hy & Hhy)|(r & Hr & Hp)]; [left|right; by exists r].
    apply elem_of_cons in Hy as [->|Hy]; [|eauto]. unfold halted_name in Hhy. rewrite Hl in Hhy. congruence.
Qed.

Lemma spec_managed_ok isM reason what kvps m :
  triple Healthy (spec_managed now isM reason what ns kvps m) (λ _, Healthy).
Proof.
  revert m. induction kvps as [|kvp kvps IH]; intros m; simpl; [apply triple_ret|].
  destruct (isM _); [apply IH|]. eapply triple_bind; [by apply setCondition_healthy|]. intros []. apply IH.
Qed.

Lemma updF_healthy l g : (∀ n, vitals (g n) = vitals n) → triple (Ev:=Event) Healthy (updF (upd l g)) (λ _, Healthy).
Proof. intros Hg. apply triple_updF. intros f. by apply healthy_upd. Qed.

Lemma SetLabels_ok ls : triple (Ev:=Event) Healthy (onF (SetLabels ns ls)) (λ _, Healthy).
Proof. apply triple_onF. intros f Hf. by apply healthy_upd. Qed.

Lemma syncLabels_ok inst nsInst : triple Healthy (syncLabels cfg now inst nsInst ns) (λ _, Healthy).
Proof.
  unfold syncLabels. eapply triple_bind; [apply spec_managed_ok|]. intros managed. apply triple_read. intros f. cbv zeta.
  apply (triple_bind _ (λ _, Healthy)).
  { destruct (decide _); [|apply triple_ret]. eapply triple_bind; [by apply updF_healthy|]. intros [].
    apply triple_read. intros g. apply triple_enqueue. }
  intros []. apply (triple_bind _ (λ _, Healthy)).
  { apply triple_if; [|apply triple_ret]. eapply triple_bind; [apply SetLabels_ok|]. intros ch. apply triple_ret. }
  intros i. eapply triple_bind; [apply triple_getF|]. intros g. apply (triple_bind _ (λ _, Healthy)).
  { apply triple_lift. intros h (-> & Hh). pose proof Hh as (Hwf & Hc & Hl).
    destruct (upwards_stops h Hwf nm ns Hc Hl) as (rest & _ & Hch & Hlen & Hor).
    destruct (tree_labels_terminates h Hwf (steps h) nm ns rest 0 (items (ns_Labels i)) Hl Hch Hlen Hor) as [r Hr]. eauto. }
  intros labels. eapply triple_bind; [apply SetLabels_ok|]. intros changed.
  apply (triple_bind _ (λ _, Healthy)); [apply triple_if; [apply triple_notify|apply triple_ret]|]. intros []. apply triple_ret.
Qed.

Lemma syncAnnotations_ok inst nsInst : triple Healthy (syncAnnotations cfg now inst nsInst ns) (λ _, Healthy).
Proof.
  unfold syncAnnotations. eapply triple_bind; [apply spec_managed_ok|]. intros managed. apply triple_read. intros f. cbv zeta.
  apply (triple_bind _ (λ _, Healthy)).
  { destruct (decide _); [|apply triple_ret]. eapply triple_bind; [by apply updF_healthy|]. intros [].
    apply triple_read. intros g. apply triple_enqueue. }
  intros []. apply triple_if; [apply triple_ret|]. eapply triple_bind; [apply triple_getF|]. intros g.
  apply (triple_bind _ (λ _, Healthy)); [|intros; apply triple_ret].
  apply triple_lift. intros h (-> & Hh). pose proof Hh as (Hwf & Hc & Hl).
  destruct (upwards_stops h Hwf nm ns Hc Hl) as (rest & _ & Hch & Hlen & Hor).
  match goal with |- ∃ a, tree_annotations _ _ _ ?i = _ ∧ _ =>
    destruct (tree_annotations_terminates h Hwf (steps h) nm ns rest i Hl Hch Hlen Hor) as [r Hr] end. eauto.
Qed.

Lemma syncAnchors_ok anms : triple Healthy (syncAnchors ns anms) (λ _, Healthy).
Proof.
  unfold syncAnchors. apply (triple_bind _ (λ _, Healthy)); [|intros; apply triple_enqueue].
  apply triple_onF. intros f Hf. unfold SetAnchors. destruct (fold_left _ _ _). by apply healthy_upd.
Qed.

Lemma syncConditions_ok inst wasHalted : triple Healthy (syncConditions inst ns wasHalted) (λ _, Healthy).
Proof.
  unfold syncConditions. eapply triple_bind; [apply triple_getF|]. intros f.
  apply (triple_bind _ (λ _ g, f = g ∧ Healthy g)); [apply triple_if; [apply triple_enqueue|apply triple_ret]|].
  intros []. apply (triple_bind _ (λ _, Healthy)); [|intros; apply triple_ret].
  apply triple_lift. intros g (-> & Hg). pose proof Hg as (Hwf & Hc & Hl). unfold Conditions.
  destruct (GetHaltedRoot_spec g Hwf nm ns Hc Hl) as (r & -> & _). simpl. destruct (decide _); eauto.
Qed.
End ops.

(** ** Whole reconciliations *)
Section whole.
  Context `{RO : RangeOrder} `{RX : RegexpLib} (cfg : Config) (now : Z) (api : apiAnswers).

Lemma Get_healthy nm : nm ≠ "" → triple (Ev:=Event) sound (onF (Get nm) ≫= nonnil) (λ ns, healthy nm ns).
Proof.
  intros Hne. apply (triple_bind _ (λ o f, ∃ ns, o = Some ns ∧ healthy nm ns f)).
  - apply triple_onF. intros f [Hwf Hc]. destruct (Get nm f) as [o f'] eqn:Hg.
    pose proof (Get_extends _ _ _ _ Hwf Hg) as Hx. unfold Get in Hg. rewrite decide_False in Hg by done.
    destruct (f_namespaces f !! nm) as [l|] eqn:Hl; simplify_eq/=; eexists; (split; [done|]).
    + done.
    + split_and!; [by eapply ex_wf|by eapply extends_cycles_halted|]. simpl. by rewrite lookup_insert_eq.
  - intros o w (ns & -> & Hh). by exists ns, w.
Qed.

Lemma clear_suspended nm ns f : healthy nm ns f → suspended nm ns (ClearConditions ns f).
Proof.
  intros (Hwf & Hc & Hl). apply suspended_upd; [done|]. split_and!; [done| |done].
  intros x (y & Hy & Hh)%Hc. eauto.
Qed.

Lemma syncWithForest_ok nsInst inst deletingCRD anms pa : om_Name (kn_Meta nsInst) ≠ "" →
  triple sound (syncWithForest cfg now nsInst inst deletingCRD anms pa) (λ _, sound).
Proof.
  intros Hne. unfold syncWithForest. cbv zeta. eapply triple_bind; [by apply Get_healthy|]. intros ns.
  set (nm := om_Name (kn_Meta nsInst)). apply triple_read. intros f0.
  apply (triple_bind _ (λ _, suspended nm ns)); [apply triple_updF, clear_suspended|]. intros [].
  apply (triple_bind _ (λ _, suspended nm ns)); [apply triple_if; [apply setCondition_suspended|apply triple_ret]|]. intros [].
  eapply triple_bind; [apply syncExternalNamespace_ok|]. intros [].
  eapply triple_bind; [apply syncSubnamespaceParent_ok|]. intros inst1.
  apply (triple_bind _ (λ _, almost_healthy nm ns)).
  { unfold syncParent. eapply triple_bind; [apply syncParent_body_ok|]. intros []. apply setCycleCondition_ok. }
  intros []. eapply triple_bind; [apply markExisting_ok|]. intros [].
  eapply triple_bind; [apply syncLabels_ok|]. intros ns1. eapply triple_bind; [apply syncAnnotations_ok|]. intros ns2.
  eapply triple_bind; [apply syncAnchors_ok|]. intros [].
  apply (triple_bind _ (λ _, healthy nm ns)).
  { apply triple_onF. intros f Hf. unfold UpdateAllowCascadingDeletion. destruct (bool_decide _); [done|]. by apply healthy_upd. }
  intros _. apply triple_read. intros f1. eapply triple_bind; [apply syncConditions_ok|]. intros inst2.
  apply (triple_bind _ (λ _, healthy nm ns)); [apply triple_if; [apply triple_notify|apply triple_ret]|].
  intros []. apply triple_done. by intros f (? & ? & _).
Qed.

(** A namespace that has disappeared is unlinked from its parent and forgotten
    unless it still has children. *)
Lemma UnsetExists_sound nm ns f : healthy nm ns f → sound (UnsetExists ns f).2.
Proof.
  intros (Hwf & Hc & Hl). split; [by eapply wf_UnsetExists|]. unfold UnsetExists. simpl.
  set (f1 := SetParent ns None f).
  assert (half_synced nm ns f1) as (Hw1 & Hc1 & Hl1).
  { apply SetParent_half_synced; [|done]. split_and!; [done| |done]. intros x (y & ? & ?)%Hc. eauto. }
  assert (parent_name f1 nm = None) as Hroot.
  { pose proof (SetParent_reparented f nm ns None Hwf Hl ltac:(done)) as Hr. unfold f1.
    rewrite (rp_parent _ _ _ _ Hr). by rewrite decide_True. }
  set (f2 := upd ns (set_exists false) f1).
  assert (is_Some (f_heap f1 !! ns)) as Hns by (by eapply wf_name).
  assert (∀ z, parent_name (clean ns f2) z = parent_name f1 z) as Hp.
  { intros z. assert (parent_name f2 z = parent_name f1 z) as H2.
    { symmetry. apply parent_name_links, heap_sim_upd. done. }
    rewrite <- H2. unfold clean. destruct (_ || _); [done|].
    assert (ns_name (deref f2 ns) = nm) as -> by (unfold f2; rewrite deref_upd_eq by done; by apply (live_name f1 Hw1)).
    unfold parent_name, ns_at. simpl. destruct (decide (z = nm)) as [->|Hz]; [|by rewrite lookup_delete_ne].
    rewrite lookup_delete_eq. simpl. unfold parent_name, ns_at in Hroot. rewrite Hl1 in Hroot |- *.
    unfold f2. rewrite deref_upd_eq by done. simpl. destruct (ns_parent (deref f1 ns)); [done|]. done. }
  intros x Hx. apply (in_cycle_ext _ (parent_name f1) _ Hp) in Hx. destruct (Hc1 x Hx) as (y & Hy & Hor). exists y.
  split; [by eapply rtc_ext; [|exact Hy]|]. assert (y ≠ nm) as Hne.
  { intros ->. pose proof (in_cycle_reach _ _ _ Hx Hy) as Hcy. destruct (in_cycle_has_parent _ _ Hcy). congruence. }
  destruct Hor as [Hh|]; [|done]. unfold halted_name, IsHalted in *.
  assert (f_namespaces (clean ns f2) !! y = f_namespaces f1 !! y) as ->.
  { unfold clean. destruct (_ || _); [done|].
    assert (ns_name (deref f2 ns) = nm) as -> by (unfold f2; rewrite deref_upd_eq by done; by apply (live_name f1 Hw1)).
    simpl. by rewrite lookup_delete_ne. }
  destruct (f_namespaces f1 !! y) as [ly|]; [|done].
  assert (deref (clean ns f2) ly = deref f2 ly) as -> by (unfold clean; by destruct (_ || _)).
  assert (ns_conditions (deref f2 ly) = ns_conditions (deref f1 ly)) as ->; [|done].
  symmetry. by apply heap_sim_deref, heap_sim_upd.
Qed.

Lemma onMissingNamespace_ok nm : nm ≠ "" → triple sound (onMissingNamespace nm) (λ _, sound).
Proof.
  intros Hne. unfold onMissingNamespace. eapply triple_bind; [by apply Get_healthy|]. intros ns. apply triple_read. intros f.
  apply triple_if; [|apply triple_done; by intros g (? & ? & _)].
  eapply triple_bind; [apply triple_enqueue|]. intros [].
  apply (triple_bind _ (λ _, sound)); [|intros; apply triple_ret]. apply triple_onF. intros g Hg. by apply (UnsetExists_sound nm ns).
Qed.

Lemma writeInstances_ok P hc i : triple P (writeInstances api hc i) (λ _, P).
Proof.
  unfold writeInstances. apply (triple_bind _ (λ _, P)).
  - unfold writeHierarchy. destruct (decide _); [apply triple_ret|]. cbv zeta.
    apply triple_if; [apply triple_ret|]. apply triple_if; (eapply triple_bind; [apply triple_emit|intros; apply triple_ret]).
  - intros [e|]; [apply triple_ret|]. eapply triple_bind; [apply triple_emit|intros; apply triple_ret].
Qed.

(** The API server returns a namespace under the name it was asked for. *)
Definition faithful : Prop := ∀ nm i, aa_getNamespace api nm = Found i → om_Name (kn_Meta i) = nm.

Lemma addIncluded_name i : om_Name (kn_Meta (addIncludedNamespaceLabel i)) = om_Name (kn_Meta i).
Proof. unfold addIncludedNamespaceLabel. by destruct (decide _). Qed.

Lemma Reconcile_ok nm : faithful → nm ≠ "" → triple sound (Reconcile cfg now api nm) (λ _, sound).
Proof.
  intros Hf Hne. unfold Reconcile. destruct (IsManagedNamespace cfg nm).
  - unfold reconcile. destruct (aa_getNamespace api nm) as [i| |] eqn:Hi; [| |apply triple_ret].
    + apply Hf in Hi. destruct (getSingleton api nm) as [|[hc del]]; [apply triple_ret|].
      apply triple_if; [apply triple_ret|]. destruct (getAnchorNames api nm) as [|anms]; [apply triple_ret|].
      assert (∀ pa, triple sound ('(inst, nsInst) ← syncWithForest cfg now (addIncludedNamespaceLabel i)
        (updateFinalizers hc (addIncludedNamespaceLabel i) anms) del anms pa; writeInstances api inst nsInst) (λ _, sound)) as Hgo.
      { intros pa. eapply triple_bind; [apply syncWithForest_ok; rewrite addIncluded_name; by subst|].
        intros [inst nsInst]. apply writeInstances_ok. }
      destruct (aa_getAnchor api _ nm); [apply Hgo|apply Hgo|apply triple_ret].
    + eapply triple_bind; [by apply onMissingNamespace_ok|]. intros []. apply triple_ret.
  - unfold handleUnmanaged. destruct (aa_getNamespace api nm) as [i| |]; [|apply triple_ret..].
    apply (triple_bind _ (λ _, sound)); [eapply triple_bind; [apply triple_emit|intros; apply triple_ret]|].
    intros [e|]; [apply triple_ret|]. destruct (getSingleton api nm) as [|[hc del]]; [apply triple_ret|].
    apply triple_if; [eapply triple_bind; [apply triple_emit|intros; apply triple_ret]|apply triple_ret].
Qed.
End whole.
