(* ===== verification/TreeLabels.v ===== *)
(** * Tree labels (syncLabels in internal/hierarchyconfig/reconciler.go)

    The labels [<ancestor>.tree.hnc.x-k8s.io/depth] that the reconciler writes on a
    namespace: one per ancestor, with its distance, and no others. *)

From S2P Require Import Prelude GoStrings Chains Validation Api Config Resources Forest ForestWf ForestWalks.
From S2P Require Import ForestReads Sound World HierarchyReconciler HierarchyInvariant.

Section tree.
  Context `{RO : RangeOrder} `{RX : RegexpLib} (cfg : Config) (now : Z).

Definition tree_key (anc : string) : string := anc +:+ LabelTreeDepthSuffix.

(** A namespace that the walk passes: not external, not halted, and with no
    managed label that looks like a tree label. *)
Definition passes (f : Forest) (nm : string) : Prop :=
  IsExternal (ns_at f nm) = false ∧ ¬ halted_name f nm ∧
  ∀ k, HasSuffix k LabelTreeDepthSuffix = true → items (ns_ManagedLabels (ns_at f nm)) !! k = None.

Lemma tree_labels_spec {e} f (Hwf : wf_but e f) fuel x lx rest depth labels r :
  f_namespaces f !! x = Some lx → chain (parent_name f) (x :: rest) → NoDup (x :: rest) →
  ends_at_root (parent_name f) (x :: rest) → (∀ y, y ∈ x :: rest → passes f y) →
  tree_labels fuel f (Some lx) depth labels = Done r →
  ∀ k, HasSuffix k LabelTreeDepthSuffix = true →
    r !! k = match list_find (λ y, k = tree_key y) (x :: rest) with
             | Some (i, _) => Some (Itoa (depth + i))
             | None => labels !! k
             end.
Proof.
  revert x lx rest depth labels. induction fuel as [|fuel IH]; intros x lx rest depth labels Hl Hc Hnd Hend Hpass Ht k Hk; [done|].
  cbn [tree_labels] in Ht. destruct (Hpass x) as (Hext & Hhalt & Hman); [by left|].
  rewrite (ns_at_live _ _ _ Hl) in Hext, Hman. rewrite Hext in Ht.
  destruct (IsHalted f (Some lx)) eqn:Hh; [by destruct Hhalt; unfold halted_name; rewrite Hl|].
  rewrite (live_name f Hwf _ _ Hl) in Ht. set (labels1 := items _ ∪ _) in Ht.
  assert (labels1 !! k = if decide (k = tree_key x) then Some (Itoa depth) else labels !! k) as Hl1.
  { unfold labels1. rewrite lookup_union_r by (by apply Hman). fold (tree_key x).
    destruct (decide (k = tree_key x)) as [->|]; [by rewrite lookup_insert_eq|by rewrite lookup_insert_ne]. }
  apply NoDup_cons in Hnd as [Hx Hnd]. cbn [list_find]. destruct rest as [|p rest].
  - destruct Hend as (r0 & Hr0 & Hp). simpl in Hr0, Ht. injection Hr0 as <-. rewrite (parent_name_live f _ _ Hl) in Hp. apply fmap_None in Hp.
    rewrite Hp in Ht. assert (r = labels1) as -> by (destruct fuel; simpl in Ht; congruence).
    rewrite Hl1. destruct (decide (k = tree_key x)); [by rewrite Nat.add_0_r|done].
  - apply chain_inv in Hc as [Hu Hc]. apply (parent_name_Some f Hwf) in Hu as (l0 & lp & Hl0 & Hp0 & Hlp).
    simplify_eq. simpl in Ht. rewrite Hp0 in Ht.
    assert (ends_at_root (parent_name f) (p :: rest)) as Hend' by (destruct Hend as (r0 & ? & ?); by exists r0).
    specialize (IH p lp rest (S depth) labels1 Hlp Hc Hnd Hend'
      (λ y Hy, Hpass y (list_elem_of_further _ _ _ Hy)) Ht k Hk).
    rewrite IH. destruct (decide (k = tree_key x)) as [->|Hne].
    + destruct (list_find _ (p :: rest)) as [[i y]|] eqn:Hf; [exfalso|by rewrite Hl1, Nat.add_0_r].
      apply list_find_Some in Hf as (Hi & Heq & _). apply string_app_inj_r in Heq as <-. by apply list_elem_of_lookup_2 in Hi.
    + destruct (list_find _ (p :: rest)) as [[i y]|]; simpl; [do 2 f_equal; lia|done].
Qed.

(** Starting from labels without tree keys, the result has exactly the tree
    labels of the namespaces on the way up, each with its distance. *)
Lemma tree_labels_exact {e} f (Hwf : wf_but e f) fuel x lx rest labels r :
  f_namespaces f !! x = Some lx → chain (parent_name f) (x :: rest) → NoDup (x :: rest) →
  ends_at_root (parent_name f) (x :: rest) → (∀ y, y ∈ x :: rest → passes f y) →
  (∀ k, HasSuffix k LabelTreeDepthSuffix = true → labels !! k = None) →
  tree_labels fuel f (Some lx) 0 labels = Done r →
  ∀ k v, HasSuffix k LabelTreeDepthSuffix = true →
    r !! k = Some v ↔ ∃ i y, (x :: rest) !! i = Some y ∧ k = tree_key y ∧ v = Itoa i.
Proof.
  intros Hl Hc Hnd Hend Hpass Hlab Ht k v Hk.
  rewrite (tree_labels_spec f Hwf fuel x lx rest 0 labels r Hl Hc Hnd Hend Hpass Ht k Hk).
  destruct (list_find _ (x :: rest)) as [[i y]|] eqn:Hf.
  - apply list_find_Some in Hf as (Hi & -> & _). simpl. split.
    + intros [= <-]. eauto.
    + intros (j & z & Hj & Heq & ->). apply string_app_inj_r in Heq as <-. by rewrite (NoDup_lookup _ _ _ _ Hnd Hi Hj).
  - rewrite Hlab by done. split; [done|]. intros (j & z & Hj & Heq & _). exfalso.
    apply list_find_None in Hf. rewrite Forall_forall in Hf. apply (Hf z); [by eapply list_elem_of_lookup_2|done].
Qed.

(** ** The labels [syncLabels] leaves *)
Definition label_view (n : Namespace) := (vitals n, ns_ManagedLabels n, ns_Manager n).

Lemma setCondition_view ns tp reason msg w u w' : tp ≠ ConditionActivitiesHalted →
  setCondition now ns tp reason msg w = Done (u, w') → heap_sim label_view (w_forest w) (w_forest w').
Proof.
  intros Htp [= _ <-]. simpl. unfold SetCondition. destruct (decide _) as [|Hr]; [reflexivity|]. apply heap_sim_upd.
  intros n. unfold label_view, vitals, halted. simpl. rewrite SetStatusCondition_halted. simpl. by rewrite bool_decide_eq_false_2.
Qed.

Lemma spec_managed_spec isM reason what ns kvps m w m' w' :
  spec_managed now isM reason what ns kvps m w = Done (m', w') →
  (∀ k, is_Some (m' !! k) → is_Some (m !! k) ∨ isM k = true) ∧ heap_sim label_view (w_forest w) (w_forest w').
Proof.
  revert m w. induction kvps as [|kvp kvps IH]; intros m w; simpl; [intros [= <- <-]; split; [auto|reflexivity]|].
  destruct (isM (kvp_Key kvp)) eqn:HM.
  - intros (Hk & Hs)%IH. split; [|done]. intros k Hk'. destruct (Hk k Hk') as [Hin|]; [|by right].
    destruct (decide (k = kvp_Key kvp)) as [->|]; [by right|]. rewrite lookup_insert_ne in Hin by done. by left.
  - intros (u & w1 & Hc & (Hk & Hs)%IH)%M_bind_inv. split; [done|]. etrans; [|exact Hs].
    eapply (setCondition_view ns); [|exact Hc]. done.
Qed.

Lemma passes_view f f' y : heap_sim (λ n, (vitals n, ns_Manager n)) f f' →
  (∀ k, HasSuffix k LabelTreeDepthSuffix = true → items (ns_ManagedLabels (ns_at f' y)) !! k = None) →
  passes f y → passes f' y.
Proof.
  intros Hs Hm (He & Hh & _). split_and!; [|  |done].
  - unfold IsExternal, ns_at in *. pose proof Hs as (<- & _). destruct (f_namespaces f !! y) as [l|]; [|done].
    pose proof (heap_sim_deref _ _ _ l Hs) as Hd. injection Hd as _ _ _ _ _ Hd. by rewrite <- Hd.
  - rewrite (vitals_halted f f'); [done|]. eapply heap_sim_mono, Hs. congruence.
Qed.

(** The managed labels stored in the forest, and those of the namespace itself
    after the update. *)
Lemma syncLabels_forest inst nsInst ns nm w nsInst' w' : wf (w_forest w) → f_namespaces (w_forest w) !! nm = Some ns →
  IsExternal (deref (w_forest w) ns) = false → syncLabels cfg now inst nsInst ns w = Done (nsInst', w') →
  ∃ f2 labels, heap_sim (λ n, (vitals n, ns_Manager n)) (w_forest w) f2 ∧
    (∀ y k, is_Some (items (ns_ManagedLabels (ns_at f2 y)) !! k) →
       is_Some (items (ns_ManagedLabels (ns_at (w_forest w) y)) !! k) ∨ IsManagedLabel cfg k = true) ∧
    tree_labels (steps f2) f2 (Some ns) 0
      (items (filter (λ '(k, _), IsManagedLabel cfg k = false ∧ HasSuffix k LabelTreeDepthSuffix = false) <$> ns_Labels nsInst))
      = Done labels ∧ ns_Labels nsInst' = Some labels.
Proof.
  intros Hwf Hl Hext (managed & w1 & Hsm & H)%M_bind_inv. apply spec_managed_spec in Hsm as [Hkeys Hs1].
  apply M_bind_inv in H as (f & w1' & Hg & H). unfold getF in Hg. injection Hg as <- <-.
  set (f1 := w_forest w1) in *.
  assert (IsExternal (deref f1 ns) = false) as Hext1.
  { unfold IsExternal in *. pose proof (heap_sim_deref _ _ _ ns Hs1) as Hd. unfold label_view in Hd. injection Hd as _ _ _ _ _ _ Hd.
    by rewrite <- Hd. }
  rewrite Hext1 in H. cbv zeta in H. set (mg := if decide (size managed = 0) then None else Some managed) in H.
  apply M_bind_inv in H as (u & w2 & Hup & H). apply M_bind_inv in H as (i & w2' & Hi & H).
  injection Hi as <- <-. apply M_bind_inv in H as (f2 & w2'' & Hg & H). unfold getF in Hg. injection Hg as <- <-.
  apply M_bind_inv in H as (labels & w3 & Hlab & H). unfold lift_outcome in Hlab.
  destruct (tree_labels _ _ _ _ _) as [ls| |] eqn:Htl; [|done..]. injection Hlab as <- <-.
  apply M_bind_inv in H as (ch & w4 & _ & H). apply M_bind_inv in H as (u' & w5 & _ & H). injection H as <- <-.
  exists (w_forest w2), ls. assert (is_Some (f_heap f1 !! ns)) as Hns.
  { apply (heap_sim_dom label_view (w_forest w) f1); [done|]. by eapply wf_name. }
  assert (w_forest w2 = f1 ∧ ns_ManagedLabels (deref f1 ns) = mg ∨ w_forest w2 = upd ns (set_managedLabels mg) f1) as Hw2.
  { destruct (decide (ns_ManagedLabels (deref f1 ns) ≠ mg)) as [Hne|Heq].
    - apply M_bind_inv in Hup as (u1 & w1' & Hu & H). injection Hu as _ <-.
      apply M_bind_inv in H as (g & w1'' & Hg & H). unfold getF in Hg. injection Hg as <- <-.
      unfold enqueueAffected, emit in H. injection H as _ <-. by right.
    - apply dec_stable in Heq. injection Hup as _ <-. by left. }
  assert (heap_sim (λ n, (vitals n, ns_Manager n)) f1 (w_forest w2)) as Hs2.
  { destruct Hw2 as [[-> _]| ->]; [reflexivity|by apply heap_sim_upd]. }
  split_and!; [|..|done|done].
  - etrans; [|exact Hs2]. eapply heap_sim_mono, Hs1. unfold label_view. congruence.
  - intros y k Hy. assert (is_Some (items mg !! k) → IsManagedLabel cfg k = true) as Hmg.
    { unfold mg. destruct (decide _); simpl; [intros []; by rewrite lookup_empty in *|].
      intros Hm. destruct (Hkeys k Hm) as [[]|?]; [by rewrite lookup_empty in *|done]. }
    assert (ns_ManagedLabels (ns_at f1 y) = ns_ManagedLabels (ns_at (w_forest w) y)) as Hold.
    { unfold ns_at. pose proof Hs1 as (-> & _). destruct (f_namespaces f1 !! y) as [ly|]; [|done].
      pose proof (heap_sim_deref _ _ _ ly Hs1) as Hd. unfold label_view in Hd. by injection Hd. }
    destruct Hw2 as [[Heq Hm]|Heq]; rewrite Heq in Hy; [left; by rewrite <- Hold|].
    unfold ns_at in Hy, Hold. simpl in Hy. destruct (f_namespaces f1 !! y) as [ly|]; [|left; unfold ns_at; by rewrite <- Hold].
    destruct (decide (ly = ns)) as [->|Hne]; [rewrite deref_upd_eq in Hy by done; right; by apply Hmg|].
    rewrite deref_upd_ne in Hy by done. left. unfold ns_at. by rewrite <- Hold.
Qed.

Lemma syncLabels_exact inst nsInst ns nm w nsInst' w' :
  wf (w_forest w) → f_namespaces (w_forest w) !! nm = Some ns →
  (∀ k, IsManagedLabel cfg k = true → HasSuffix k LabelTreeDepthSuffix = false) →
  (∀ y, rtc (up (parent_name (w_forest w))) nm y → passes (w_forest w) y ∧ ¬ in_cycle (parent_name (w_forest w)) y) →
  syncLabels cfg now inst nsInst ns w = Done (nsInst', w') →
  ∀ k v, HasSuffix k LabelTreeDepthSuffix = true →
    items (ns_Labels nsInst') !! k = Some v ↔
    ∃ i y, reverse (AncestryNames (w_forest w) (Some ns)) !! i = Some y ∧ k = tree_key y ∧ v = Itoa i.
Proof.
  intros Hwf Hl Hcfg Hup H k v Hk. set (f := w_forest w) in *.
  assert (IsExternal (deref f ns) = false) as Hext.
  { destruct (Hup nm) as [[He _] _]; [done|]. by rewrite (ns_at_live _ _ _ Hl) in He. }
  destruct (syncLabels_forest inst nsInst ns nm w nsInst' w' Hwf Hl Hext H) as (f2 & labels & Hs & Hman & Ht & ->). fold f in Hs, Hman.
  assert (heap_sim vitals f f2) as Hsv by (eapply heap_sim_mono, Hs; congruence).
  assert (wf f2) as Hwf2 by (by rewrite <- (heap_sim_mono _ _ _ _ vitals_shape Hsv)).
  assert (f_namespaces f2 !! nm = Some ns) as Hl2 by (by destruct Hs as [<- _]).
  destruct (upwards_cons f Hwf nm ns Hl) as (rest & Hu & _ & _). rewrite Hu.
  pose proof (AncestryNames_walk f Hwf nm ns Hl) as Hw. pose proof Hw as (_ & Hc & Hend). rewrite Hu in Hc, Hend, Hw.
  assert (∀ y, y ∈ nm :: rest → rtc (up (parent_name f)) nm y) as Hin by (intros y; by apply full_walk_elem).
  assert (NoDup (nm :: rest) ∧ ends_at_root (parent_name f) (nm :: rest)) as [Hnd Hroot].
  { destruct Hend as [|(l' & z & Hl' & _ & Hz)]; [done|exfalso]. rewrite Hl' in Hc, Hin.
    destruct (Hup z) as [_ Hz']; [apply Hin; set_solver|]. apply Hz'. apply list_elem_of_split in Hz as (k1 & k2 & ->).
    rewrite <- app_assoc in Hc. simpl in Hc. apply chain_app_r in Hc; [|done]. by eapply chain_reach_last. }
  assert (∀ z, parent_name f2 z = parent_name f z) as Hp by (intros; by apply vitals_parent).
  simpl items. refine (tree_labels_exact f2 Hwf2 (steps f2) nm ns rest _ labels Hl2 _ Hnd _ _ _ Ht k v Hk).
  - clear -Hc Hp. induction Hc; constructor; [unfold up in *; congruence|done].
  - destruct Hroot as (r & ? & ?). exists r. by rewrite Hp.
  - intros y Hy. destruct (Hup y (Hin y Hy)) as [Hpy _]. eapply passes_view; [exact Hs| |exact Hpy].
    intros k' Hk'. apply eq_None_not_Some. intros [Hm|Hm]%Hman.
    + destruct Hpy as (_ & _ & Hnone). rewrite Hnone in Hm by done. by destruct Hm.
    + by rewrite Hcfg in Hk'.
  - intros k' Hk'. destruct (ns_Labels nsInst) as [m|]; simpl; [|by rewrite lookup_empty].
    apply map_lookup_filter_None. right. intros x _ [_ Hf]. congruence.
Qed.
End tree.
