(* ===== verification/ParentSync.v ===== *)
(** * The reconciler brings the forest in line with the configured parents

    The forest is a cache of the parents that the HierarchyConfiguration objects and
    the subnamespace annotations ask for.  One reconciliation of a namespace gives it
    exactly the parent that is asked for, and changes no other. *)

From S2P Require Import Prelude GoStrings Chains Validation Api Config Selectors Resources Forest ForestWf ForestWalks ForestReads.
From S2P Require Import HierarchyValidator Sound World HierarchyReconciler HierarchyInvariant.

(** ** Code that leaves a view of the namespaces alone *)
Definition same {Ev A B} (π : Namespace → B) (m : M (World Ev) A) : Prop :=
  ∀ w a w', m w = Done (a, w') → heap_sim π (w_forest w) (w_forest w').

Section same.
  Context {Ev A A' B : Type} (π : Namespace → B).
Lemma same_ret (a : A) : same (Ev:=Ev) π (mret a).
Proof. intros w b w' [= <- <-]. done. Qed.
Lemma same_bind (m : M (World Ev) A) (k : A → M (World Ev) A') : same π m → (∀ a, same π (k a)) → same π (m ≫= k).
Proof. intros Hm Hk w b w' (a & w1 & H1 & H2)%M_bind_inv. etrans; [by eapply Hm|by eapply Hk]. Qed.
Lemma same_getF : same (Ev:=Ev) π getF.
Proof. intros w b w' [= <- <-]. done. Qed.
Lemma same_emit (evs : list Ev) : same π (emit evs).
Proof. intros w b w' [= <- <-]. done. Qed.
Lemma same_updF l g : (∀ n, π (g n) = π n) → same (Ev:=Ev) π (updF (upd l g)).
Proof. intros Hg w b w' [= <- <-]. by apply heap_sim_upd. Qed.
Lemma same_onF (g : Forest → A * Forest) : (∀ f, heap_sim π f (g f).2) → same (Ev:=Ev) π (onF g).
Proof. intros Hg w b w'. unfold onF. specialize (Hg (w_forest w)). destruct (g (w_forest w)). by intros [= <- <-]. Qed.
Lemma same_lift (o : outcome A) : same (Ev:=Ev) π (lift_outcome o).
Proof. intros w b w'. unfold lift_outcome. destruct o; [|done..]. by intros [= <- <-]. Qed.
End same.

Lemma same_enqueue {B} (π : Namespace → B) names : same π (enqueueAffected names).
Proof. apply same_emit. Qed.

Lemma enqueue_forest names w u w' : enqueueAffected names w = Done (u, w') → w_forest w' = w_forest w.
Proof. by intros [= _ <-]. Qed.

Lemma same_condition {B} (π : Namespace → B) now ns tp reason msg : (∀ c n, π (set_conditions c n) = π n) →
  same π (setCondition now ns tp reason msg).
Proof.
  intros Hc w b w' [= <- <-]. cbn [w_forest]. unfold SetCondition. destruct (decide _); [done|]. by apply heap_sim_upd.
Qed.

#[export] Hint Resolve same_ret same_getF same_emit same_lift same_enqueue : hnc.

Ltac same_view :=
  repeat match goal with
  | |- same _ (_ ≫= _) => apply same_bind; [|intros]
  | |- same _ (match ?x with _ => _ end) => destruct x
  | |- same _ (updF (upd _ _)) => apply same_updF; done
  | |- same _ (setCondition _ _ _ _ _) => apply same_condition; done
  | |- same _ _ => solve [auto with hnc]
  end.

Section sync.
  Context `{RO : RangeOrder} `{RX : RegexpLib} (cfg : Config) (now : Z).

(** ** What is asked for *)
Definition external_ns (nsInst : K8sNamespace) : bool :=
  let mgr := sget (items (ns_Annotations nsInst)) AnnotationManagedBy in
  negb (bool_decide (mgr = "" ∨ mgr = MetaGroup)).

(** The subnamespace annotation, which does not count while the namespace is being deleted. *)
Definition subnamespace_of (nsInst : K8sNamespace) : string :=
  let pnm := sget (items (ns_Annotations nsInst)) SubnamespaceOf in
  if decide (pnm ≠ "" ∧ IsZero (om_DeletionTimestamp (kn_Meta nsInst)) = false) then "" else pnm.

Definition wanted_parent (nsInst : K8sNamespace) (inst : HierarchyConfiguration) : option string :=
  if external_ns nsInst then None
  else as_parent (if decide (subnamespace_of nsInst = "") then hcs_Parent (hc_Spec inst) else subnamespace_of nsInst).

(** The parents of [f'] are those of [f], but for [nm], whose parent is [p]. *)
Definition reparents (f f' : Forest) (nm : string) (p : option string) : Prop :=
  ∀ x, parent_name f' x = if decide (x = nm) then p else parent_name f x.

(** ** The steps before the parent is set *)
Definition managed_view (n : Namespace) := (shape n, ns_Manager n).

Lemma syncExternalNamespace_view nsInst ns w u w' : is_Some (f_heap (w_forest w) !! ns) →
  syncExternalNamespace nsInst ns w = Done (u, w') →
  heap_sim shape (w_forest w) (w_forest w') ∧ IsExternal (deref (w_forest w') ns) = external_ns nsInst.
Proof.
  intros Hns H. assert (same shape (syncExternalNamespace nsInst ns)) as Hs by (unfold syncExternalNamespace; same_view).
  split; [by eapply Hs|]. unfold syncExternalNamespace in H. apply M_bind_inv in H as (f & w1 & Hf & H). injection Hf as <- <-.
  unfold external_ns. set (mgr := sget _ _) in *. destruct (decide (mgr = "" ∨ mgr = MetaGroup)) as [Hd|Hd].
  - rewrite bool_decide_eq_true_2 by done. apply M_bind_inv in H as (u1 & w2 & H1 & H2).
    assert (w_forest w2 = w_forest w) as Hw.
    { destruct (IsExternal _); [by injection H1 as _ <-|by injection H1 as _ <-]. }
    injection H2 as _ <-. cbn [w_forest]. rewrite Hw, deref_upd_eq by done. by vm_compute.
  - rewrite bool_decide_eq_false_2 by done. apply M_bind_inv in H as (u1 & w2 & H1 & H2).
    assert (w_forest w2 = w_forest w) as Hw.
    { destruct (negb _); [by injection H1 as _ <-|by injection H1 as _ <-]. }
    injection H2 as _ <-. cbn [w_forest]. rewrite Hw, deref_upd_eq by done. unfold IsExternal. simpl.
    rewrite !bool_decide_eq_false_2; [done|tauto..].
Qed.

Lemma syncSubnamespaceParent_view inst nsInst ns pa w inst' w' :
  syncSubnamespaceParent now inst nsInst ns pa w = Done (inst', w') →
  heap_sim managed_view (w_forest w) (w_forest w') ∧
  (IsExternal (deref (w_forest w) ns) = false →
     hcs_Parent (hc_Spec inst') = if decide (subnamespace_of nsInst = "") then hcs_Parent (hc_Spec inst) else subnamespace_of nsInst).
Proof.
  intros H. assert (same managed_view (syncSubnamespaceParent now inst nsInst ns pa)) as Hs by (unfold syncSubnamespaceParent; same_view).
  split; [by eapply Hs|]. intros Hext. unfold syncSubnamespaceParent in H. apply M_bind_inv in H as (f & w1 & Hf & H). injection Hf as <- <-.
  rewrite Hext in H. cbv zeta in H. fold (subnamespace_of nsInst) in H. destruct (decide (subnamespace_of nsInst = "")) as [He|He].
  - apply M_bind_inv in H as (u & w2 & _ & H). by injection H as <- _.
  - apply M_bind_inv in H as (u & w2 & _ & H). set (i := if decide _ then _ else inst) in H.
    assert (hcs_Parent (hc_Spec i) = subnamespace_of nsInst) as Hi.
    { unfold i. destruct (decide _) as [Hd|Hd]; [done|]. by apply dec_stable in Hd. }
    destruct pa as [a|]; [by injection H as <- _|]. apply M_bind_inv in H as (u' & w3 & _ & H). by injection H as <- _.
Qed.

(** ** Setting the parent *)
Lemma shape_parents f f' x : heap_sim shape f f' → parent_name f' x = parent_name f x.
Proof. intros Hs. symmetry. eapply parent_name_links, heap_sim_mono, Hs. apply shape_links. Qed.

Lemma SetParent_sets g ns nm p : wf g → f_namespaces g !! nm = Some ns → can_reparent g ns p →
  reparents g (SetParent ns p g) nm ((λ q, ns_name (deref g q)) <$> p) ∧ f_namespaces (SetParent ns p g) !! nm = Some ns.
Proof.
  intros Hg Hgl Hp. pose proof (SetParent_reparented g nm ns p Hg Hgl Hp) as Hr.
  split; [intros y; apply (rp_parent _ _ _ _ Hr)|]. by rewrite (rp_self _ _ _ _ Hr).
Qed.

(** A lookup inside a world. *)
Lemma onF_Get_inv {Ev} nm (w : World Ev) o w' : wf (w_forest w) → onF (Get nm) w = Done (o, w') →
  extends (w_forest w) (w_forest w') ∧ match o with Some q => nm ≠ "" ∧ f_namespaces (w_forest w') !! nm = Some q | None => nm = "" end.
Proof.
  intros Hwf H. assert (GetM nm (w_forest w) = Done (o, w_forest w')) as Hg.
  { unfold onF in H. unfold GetM. destruct (Get nm (w_forest w)). by injection H as <- <-. }
  by apply (GetM_inv _ _ _ _ Hwf) in Hg.
Qed.

Lemma syncParent_sets inst ns nm w u w' : wf (w_forest w) → f_namespaces (w_forest w) !! nm = Some ns →
  syncParent cfg now inst ns w = Done (u, w') →
  reparents (w_forest w) (w_forest w') nm
    (if IsExternal (deref (w_forest w) ns) then None else as_parent (hcs_Parent (hc_Spec inst))) ∧
  f_namespaces (w_forest w') !! nm = Some ns.
Proof.
  intros Hwf Hl H. unfold syncParent in H. apply M_bind_inv in H as ([] & w1 & Hb & Hc).
  assert (heap_sim shape (w_forest w1) (w_forest w')) as Hcyc.
  { assert (same shape (setCycleCondition now ns)) as Hs; [|by eapply Hs]. unfold setCycleCondition. same_view. }
  assert (reparents (w_forest w) (w_forest w1) nm (if IsExternal (deref (w_forest w) ns) then None else as_parent (hcs_Parent (hc_Spec inst))) ∧
    f_namespaces (w_forest w1) !! nm = Some ns) as [H1 H2].
  2:{ split; [intros x; by rewrite (shape_parents _ _ x Hcyc)|]. by destruct Hcyc as [<- _]. }
  clear Hc Hcyc u w'. unfold syncParent_body in Hb.
  apply M_bind_inv in Hb as (f & wf' & Hf & H). injection Hf as <- <-. set (f := w_forest w) in *.
  destruct (IsExternal (deref f ns)).
  { apply M_bind_inv in H as ([] & w2 & H1 & H2). injection H2 as <-. cbn [w_forest].
    assert (w_forest w2 = f) as -> by (destruct (ns_parent _); by injection H1 as <-). by apply SetParent_sets. }
  set (p := hcs_Parent (hc_Spec inst)) in *. apply M_bind_inv in H as (cur & w2 & Hget & H).
  apply (onF_Get_inv _ _ _ _ Hwf) in Hget as [Hx Hcur]. fold f in Hx. apply M_bind_inv in H as (f2 & w2' & Hf & H). injection Hf as <- <-.
  apply M_bind_inv in H as ([] & w3 & Hcond & H).
  assert (heap_sim shape (w_forest w2) (w_forest w3)) as Hs23.
  { revert Hcond. destruct (negb _); [apply same_condition; done|]. destruct cur as [q|]; [|by intros [= <-]].
    destruct (negb _); [apply same_condition; done|by intros [= <-]]. }
  apply M_bind_inv in H as (f3 & w3' & Hf & H). injection Hf as <- <-. set (g := w_forest w3) in *.
  assert (wf g) as Hwg by (rewrite <- Hs23; by eapply ex_wf).
  assert (f_namespaces g !! nm = Some ns) as Hgl by (destruct Hs23 as [<- _]; by apply (ex_names _ _ Hx)).
  assert (∀ y, parent_name g y = parent_name f y) as Hpar.
  { intros y. rewrite (shape_parents _ _ y Hs23). by apply extends_parent. }
  assert ((λ q, ns_name (deref g q)) <$> cur = as_parent p) as Hp.
  { unfold as_parent. destruct cur as [q|]; [|by rewrite decide_True]. destruct Hcur as [Hne Hq]. rewrite decide_False by done.
    simpl. f_equal. apply (live_name g Hwg). by destruct Hs23 as [<- _]. }
  destruct (decide (cur = Parent g (Some ns))) as [Heq|Hne].
  - injection H as <-. split; [|done]. intros x. rewrite Hpar. destruct (decide (x = nm)) as [->|]; [|done].
    rewrite <- Hpar, <- Hp, (parent_name_live g _ _ Hgl). simpl in Heq. by rewrite Heq.
  - apply M_bind_inv in H as ([] & w4 & H4 & H). injection H4 as <-. apply M_bind_inv in H as ([] & w5 & H5 & H). injection H5 as <-.
    cbn [w_forest] in H. fold g in H. set (f5 := SetParent ns cur g) in H.
    assert (w_forest w1 = f5) as ->.
    { apply M_bind_inv in H as (f6 & w6 & Hf & H). injection Hf as <- <-. apply M_bind_inv in H as ([] & w7 & H7%enqueue_forest & H).
      apply M_bind_inv in H as ([] & w8 & H8%enqueue_forest & H%enqueue_forest). by rewrite H, H8, H7. }
    destruct (SetParent_sets g ns nm cur Hwg Hgl) as [Hr Hself].
    2:{ split; [|done]. intros x. unfold f5. rewrite Hr, Hp. by destruct (decide (x = nm)). }
    intros q ->. split; [simpl in Hne; congruence|]. destruct Hcur as [_ Hq]. exists p. by destruct Hs23 as [<- _].
Qed.

(** ** The rest of the reconciliation leaves the links alone *)
Lemma same_syncLabels inst nsInst ns : same links (syncLabels cfg now inst nsInst ns).
Proof.
  assert (∀ isM reason what kvps m, same links (spec_managed now isM reason what ns kvps m)) as Hm.
  { intros isM reason what kvps. induction kvps as [|kvp kvps IH]; intros m; simpl; same_view. }
  assert (∀ ls, same (Ev:=Event) links (onF (SetLabels ns ls))) as Hl by (intros ls; apply same_onF; intros f; by apply heap_sim_upd).
  unfold syncLabels, HierarchyReconciler.OnChangeNamespace. same_view.
Qed.

Lemma same_syncAnnotations inst nsInst ns : same links (syncAnnotations cfg now inst nsInst ns).
Proof.
  assert (∀ isM reason what kvps m, same links (spec_managed now isM reason what ns kvps m)) as Hm.
  { intros isM reason what kvps. induction kvps as [|kvp kvps IH]; intros m; simpl; same_view. }
  unfold syncAnnotations. same_view.
Qed.

Lemma same_acd ns b : same (Ev:=Event) links (onF (UpdateAllowCascadingDeletion ns b)).
Proof. apply same_onF. intros f. unfold UpdateAllowCascadingDeletion. destruct (bool_decide _); [reflexivity|by apply heap_sim_upd]. Qed.

Lemma heap_sim_links f f' x : heap_sim links f f' → parent_name f' x = parent_name f x.
Proof. intros Hs. symmetry. by apply parent_name_links. Qed.

Lemma same_markExisting ns : same links (markExisting ns).
Proof.
  unfold markExisting, HierarchyReconciler.OnChangeNamespace.
  apply same_bind; [apply same_onF; intros f; by apply heap_sim_upd|]. intros ch. same_view.
Qed.

Lemma same_syncAnchors ns anms : same links (syncAnchors ns anms).
Proof.
  unfold syncAnchors. apply same_bind; [|intros; auto with hnc]. apply same_onF. intros f. unfold SetAnchors.
  destruct (fold_left _ _ _). by apply heap_sim_upd.
Qed.

Lemma syncConditions_forest inst ns b w inst' w' : syncConditions inst ns b w = Done (inst', w') →
  w_forest w' = w_forest w ∧ hct_Children (hc_Status inst') = hct_Children (hc_Status inst).
Proof.
  intros H. unfold syncConditions in H. apply M_bind_inv in H as (f & wa & Hf & H). injection Hf as <- <-.
  apply M_bind_inv in H as (ua & wb & Ha & H).
  assert (w_forest wb = w_forest w) as Hwb by (destruct (negb _); [by apply enqueue_forest in Ha|by injection Ha as _ <-]).
  apply M_bind_inv in H as (conds & wc & Hc & H). unfold lift_outcome in Hc. destruct (Conditions _ _); [|done..].
  injection Hc as _ <-. injection H as <- <-. by split.
Qed.

(** ** The whole synchronisation *)
Lemma syncWithForest_parent nsInst inst del anms pa nm w r w' : sound (w_forest w) → om_Name (kn_Meta nsInst) = nm → nm ≠ "" →
  syncWithForest cfg now nsInst inst del anms pa w = Done (r, w') →
  reparents (w_forest w) (w_forest w') nm (wanted_parent nsInst inst) ∧
  hct_Children (hc_Status r.1) = ChildNames (ns_at (w_forest w') nm).
Proof.
  intros Hs Hname Hne H. unfold syncWithForest in H. rewrite Hname in H.
  apply M_bind_inv in H as (ns & w1 & Hget & H).
  assert (extends (w_forest w) (w_forest w1) ∧ f_namespaces (w_forest w1) !! nm = Some ns) as [Hx Hl1].
  { apply M_bind_inv in Hget as (o & wg & Hg & Hn). destruct o as [l|]; [|done]. injection Hn as -> ->.
    by apply (onF_Get_inv _ _ _ _ (proj1 Hs)) in Hg as [? [_ ?]]. }
  clear Hget. apply M_bind_inv in H as (f1 & w1' & Hf & H). injection Hf as <- <-.
  apply M_bind_inv in H as (u1 & w2 & H2 & H).
  assert (heap_sim shape (w_forest w1) (w_forest w2)) as Hs2 by (injection H2 as _ <-; by apply heap_sim_upd). clear H2 u1.
  apply M_bind_inv in H as (u2 & w3 & H3 & H).
  assert (heap_sim shape (w_forest w2) (w_forest w3)) as Hs3.
  { destruct del; [by eapply (same_condition shape); [|exact H3]|by injection H3 as _ <-]. }
  clear H3 u2. assert (heap_sim shape (w_forest w1) (w_forest w3)) as Hs13 by (by etrans). clear Hs2 Hs3.
  assert (wf (w_forest w3)) as Hwf3 by (rewrite <- Hs13; by eapply ex_wf).
  assert (f_namespaces (w_forest w3) !! nm = Some ns) as Hl3 by (by destruct Hs13 as [<- _]).
  apply M_bind_inv in H as (u3 & w4 & H4 & H).
  apply syncExternalNamespace_view in H4 as [Hs34 Hext]; [|by eapply wf_name].
  apply M_bind_inv in H as (inst5 & w5 & H5 & H). apply syncSubnamespaceParent_view in H5 as [Hs45 Hpar].
  assert (heap_sim shape (w_forest w1) (w_forest w5)) as Hs15.
  { etrans; [exact Hs13|]. etrans; [exact Hs34|]. eapply heap_sim_mono, Hs45. unfold managed_view. congruence. }
  assert (wf (w_forest w5)) as Hwf5 by (rewrite <- Hs15; by eapply ex_wf).
  assert (f_namespaces (w_forest w5) !! nm = Some ns) as Hl5 by (by destruct Hs15 as [<- _]).
  assert (IsExternal (deref (w_forest w5) ns) = external_ns nsInst) as Hext5.
  { rewrite <- Hext. unfold IsExternal. pose proof (heap_sim_deref _ _ _ ns Hs45) as Hd. unfold managed_view in Hd. by injection Hd as _ _ _ _ ->. }
  apply M_bind_inv in H as (u6 & w6 & H6 & H). apply (syncParent_sets _ _ nm) in H6 as [H6 Hl6]; [|done..]. rewrite Hext5 in H6.
  apply M_bind_inv in H as (u7 & w7 & H7%same_markExisting & H). apply M_bind_inv in H as (ns8 & w8 & H8%same_syncLabels & H).
  apply M_bind_inv in H as (ns9 & w9 & H9%same_syncAnnotations & H). apply M_bind_inv in H as (u10 & w10 & H10%same_syncAnchors & H).
  apply M_bind_inv in H as (u11 & w11 & H11%same_acd & H). apply M_bind_inv in H as (f12 & w12 & Hf & H). injection Hf as <- <-.
  apply M_bind_inv in H as (inst13 & w13 & H13 & H).
  assert (w_forest w13 = w_forest w11 ∧ hct_Children (hc_Status inst13) = ChildNames (deref (w_forest w11) ns)) as [Hw13 Hch]
    by (by apply syncConditions_forest in H13 as [-> ->]).
  apply M_bind_inv in H as (u14 & w14 & H14 & H). injection H as <- <-.
  assert (w_forest w14 = w_forest w13) as Hw14 by (destruct (_ || _); [by injection H14 as _ <-|by injection H14 as _ <-]).
  assert (heap_sim links (w_forest w6) (w_forest w14)) as Hs614.
  { rewrite Hw14, Hw13. etrans; [exact H7|]. etrans; [exact H8|]. etrans; [exact H9|]. etrans; [exact H10|exact H11]. }
  split.
  - intros x. rewrite (heap_sim_links _ _ x Hs614), (H6 x), (shape_parents _ _ x Hs15), (extends_parent _ _ (proj1 Hs) Hx).
    destruct (decide (x = nm)); [|done]. unfold wanted_parent. destruct (external_ns nsInst); [done|]. by rewrite Hpar.
  - assert (f_namespaces (w_forest w14) !! nm = Some ns) as Hl14 by (by destruct Hs614 as [<- _]).
    rewrite (ns_at_live _ _ _ Hl14), Hw14, Hw13, <- Hch. by destruct (_ && _).
Qed.

(** ** One reconciliation *)
Lemma Reconcile_parent (api : apiAnswers) nm i hc del anms w : faithful api → nm ≠ "" → sound (w_forest w) →
  IsManagedNamespace cfg nm = true → aa_getNamespace api nm = Found i →
  getSingleton api nm = inr (hc, del) → (del = true → IsZero (om_CreationTimestamp (hc_Meta hc)) = false) →
  getAnchorNames api nm = inr anms →
  (∀ err, aa_getAnchor api (sget (items (ns_Annotations i)) SubnamespaceOf) nm ≠ ApiError err) →
  ∃ r w', Reconcile cfg now api nm w = Done (r, w') ∧ sound (w_forest w') ∧
    reparents (w_forest w) (w_forest w') nm (wanted_parent i hc).
Proof.
  intros Hfa Hne Hs Hm Hi Hsg Hdel Han Hpa. destruct (Reconcile_ok cfg now api nm Hfa Hne w Hs) as (r & w' & Hr & Hs').
  exists r, w'. split_and!; [done..|]. unfold Reconcile in Hr. rewrite Hm in Hr. unfold reconcile in Hr. rewrite Hi, Hsg in Hr.
  set (j := addIncludedNamespaceLabel i) in Hr.
  assert (ns_Annotations j = ns_Annotations i ∧ om_DeletionTimestamp (kn_Meta j) = om_DeletionTimestamp (kn_Meta i)) as [Hja Hjd].
  { unfold j, addIncludedNamespaceLabel. by destruct (decide _). }
  assert (deletingless : del && IsZero (om_CreationTimestamp (hc_Meta hc)) = false) by (destruct del; [by apply Hdel|done]).
  rewrite deletingless, Han, Hja in Hr. set (h := updateFinalizers hc j anms) in Hr.
  assert (hc_Spec h = hc_Spec hc) as Hh.
  { unfold h, updateFinalizers. repeat case_match; done. }
  assert (wanted_parent j h = wanted_parent i hc) as <-.
  { unfold wanted_parent, external_ns, subnamespace_of. by rewrite Hja, Hjd, Hh. }
  assert (∃ pa, ('(inst, nsInst) ← syncWithForest cfg now j h del anms pa; writeInstances api inst nsInst) w = Done (r, w')) as [pa Hsync].
  { destruct (aa_getAnchor api _ nm) as [a| |err] eqn:Ha; [by exists (Some a)|by exists None|by destruct (Hpa err)]. }
  apply M_bind_inv in Hsync as ([inst' ns'] & w1 & Hw1 & Hwr).
  apply (syncWithForest_parent j h del anms pa nm) in Hw1 as [Hrep _]; [|done|by unfold j; rewrite addIncluded_name; apply Hfa|done].
  assert (w_forest w' = w_forest w1) as ->; [|done]. clear -Hwr. unfold writeInstances in Hwr. apply M_bind_inv in Hwr as (e & w2 & H1 & H2).
  assert (w_forest w2 = w_forest w1) as <-.
  { revert H1. unfold writeHierarchy. repeat case_match; intros Hw; by inversion Hw. }
  destruct e; by injection H2 as _ <-.
Qed.
End sync.
