(* ===== verification/TestForests.v ===== *)
(** * The forests of the unit tests (internal/foresttest/foresttest.go)

    The tests of the webhooks and reconcilers describe a forest by a string with one
    character per namespace.  [Create] builds it with the operations of the package.
    Every forest it builds satisfies the invariant that the controllers keep, and is
    the one that the string describes. *)

From Stdlib Require Import Ascii String.
From S2P Require Import Prelude GoStrings Chains Validation Api Resources Forest ForestWf ForestWalks ForestReads Sound.
From S2P Require Import World HierarchyReconciler HierarchyInvariant Objects Propagation.

(** ** Runes

    Descriptions are ASCII strings, so that ranging over one gives its characters with
    their positions.  [runeString] is Go's conversion of a rune below 2048 to a string
    (UTF-8). *)
Definition runeString (r : Z) : string :=
  if decide (r < 128)%Z then String (ascii_of_nat (Z.to_nat r)) EmptyString
  else String (ascii_of_nat (Z.to_nat (192 + Z.shiftr r 6))) (String (ascii_of_nat (Z.to_nat (128 + Z.land r 63))) EmptyString).

Definition upper : Z := 65.
Definition lower : Z := 97.
Definition toLower : Z := lower - upper.
Definition rune (c : ascii) : Z := Z.of_nat (nat_of_ascii c).

(** [string(lower + byte(i))]: the sum wraps around at 256. *)
Definition letter (i : nat) : string := runeString ((lower + Z.of_nat i) mod 256).

Section create.
  Context `{RO : RangeOrder} (now : Z).

Definition getNS (nm : string) : M Forest loc := GetM nm ≫= nonnil.

Fixpoint create_all (desc : list ascii) (i : nat) : M Forest unit :=
  match desc with
  | [] => mret tt
  | _ :: desc' => ns ← getNS (letter i); modify (λ f, (SetExists ns f).2) ≫= λ _, create_all desc' (S i)
  end.

Fixpoint halt_all (cnms : list string) : M Forest unit :=
  match cnms with
  | [] => mret tt
  | cnm :: cnms' =>
      c ← getNS cnm;
      modify (SetCondition now c ConditionActivitiesHalted ReasonInCycle "in cycle") ≫= λ _, halt_all cnms'
  end.

Definition set_parent_of (i : nat) (pnm : ascii) : M Forest unit :=
  if decide (pnm = "-"%char) then mret tt
  else
    ns ← getNS (letter i);
    (if decide (rune pnm < lower)%Z then modify (upd ns (set_isSub true)) ≫= λ _, mret (rune pnm + toLower)%Z
     else mret (rune pnm)) ≫= λ pnm,
    pns ← getNS (runeString pnm);
    modify (SetParent ns (Some pns)) ≫= λ _,
    f ← get;
    (if negb (Exists f pns) then modify (SetCondition now ns ConditionActivitiesHalted ReasonParentMissing "no parent") else mret tt) ≫= λ _,
    f ← get;
    halt_all (CycleNames f ns).

Fixpoint set_parents (desc : list ascii) (i : nat) : M Forest unit :=
  match desc with
  | [] => mret tt
  | pnm :: desc' => set_parent_of i pnm ≫= λ _, set_parents desc' (S i)
  end.

Definition Create (desc : string) : outcome Forest :=
  '(_, f) ← (create_all (list_ascii_of_string desc) 0 ≫= λ _, set_parents (list_ascii_of_string desc) 0) NewForest;
  mret f.
End create.

Definition CreateSecret (nm nsn : string) : M Forest unit :=
  if decide (nm = "" ∨ nsn = "") then mret tt
  else
    ns ← getNS nsn;
    modify (SetSourceObject ns (mkObj (mkGVK "" "v1" "Secret") (mkMeta nm nsn None None [] None None "") None ∅)).

(** ** What a description says *)
Definition parent_letter (c : ascii) : option string :=
  if decide (c = "-"%char) then None
  else Some (runeString (if decide (rune c < lower)%Z then rune c + toLower else rune c)%Z).
Definition is_subns (c : ascii) : bool := negb (bool_decide (c = "-"%char)) && bool_decide (rune c < lower)%Z.

(** The parent of a namespace, whether it is a subnamespace, and whether it exists. *)
Definition view (f : Forest) (x : string) : option string * bool * bool :=
  (parent_name f x, ns_IsSub (ns_at f x), ns_exists (ns_at f x)).

(** ** Names *)
Lemma runeString_nonempty r : runeString r ≠ "".
Proof. unfold runeString. by destruct (decide _). Qed.

Lemma letters_distinct : NoDup (letter <$> seq 0 256).
Proof. apply (bool_decide_eq_true_1 _). vm_compute. reflexivity. Qed.

Lemma letter_inj i j : i < 256 → j < 256 → letter i = letter j → i = j.
Proof.
  intros Hi Hj Heq. eapply (NoDup_lookup _ i j (letter i)); [apply letters_distinct|..]; rewrite list_lookup_fmap, lookup_seq_lt by done; simpl; congruence.
Qed.

Section facts.
  Context `{RO : RangeOrder} (now : Z).

Lemma getNS_spec nm f : wf f → nm ≠ "" → ∃ l f', getNS nm f = Done (l, f') ∧ extends f f' ∧ f_namespaces f' !! nm = Some l.
Proof.
  intros Hwf Hnm. destruct (Get nm f) as [o f'] eqn:Hg. pose proof (Get_extends nm f o f' Hwf Hg) as Hx.
  assert (∃ l, o = Some l ∧ f_namespaces f' !! nm = Some l) as (l & -> & Hl).
  { unfold Get in Hg. rewrite decide_False in Hg by done. destruct (f_namespaces f !! nm) eqn:Hn; simplify_eq; [eauto|].
    eexists. split; [done|]. simpl. by rewrite lookup_insert_eq. }
  exists l, f'. split; [|done]. unfold getNS, GetM. by rewrite (M_bind_Done _ _ f (Some l) f') by (by rewrite Hg).
Qed.

Lemma extends_view f f' x : wf f → extends f f' → view f' x = view f x.
Proof.
  intros Hwf Hx. unfold view. rewrite (extends_parent f f' Hwf Hx x), (extends_isSub f f' Hwf Hx x).
  by rewrite (extends_ns_at f f' Hwf Hx ns_exists false x).
Qed.

Lemma view_live f x p s : view f x = (p, s, true) → ∃ l, f_namespaces f !! x = Some l ∧ ns_exists (deref f l) = true.
Proof. unfold view, ns_at. destruct (f_namespaces f !! x) as [l|]; [|done]. intros [= _ _ He]. eauto. Qed.

(** ** Changes to one namespace that keep its links *)
Lemma upd_view f nm l g x : wf f → f_namespaces f !! nm = Some l → (∀ n, links (g n) = links n) →
  view (upd l g f) x = if decide (x = nm) then (parent_name f nm, ns_IsSub (g (deref f l)), ns_exists (g (deref f l))) else view f x.
Proof.
  intros Hwf Hl Hg. unfold view. rewrite <- (parent_name_links f (upd l g f) x) by (by apply heap_sim_upd).
  assert (is_Some (f_heap f !! l)) as Hh by (by eapply wf_name). unfold ns_at at 1 2. simpl. destruct (decide (x = nm)) as [->|Hne].
  - by rewrite Hl, deref_upd_eq.
  - unfold ns_at. destruct (f_namespaces f !! x) as [lx|] eqn:Hlx; [|done]. rewrite deref_upd_ne; [done|].
    intros <-. by apply Hne, (live_inj f Hwf x nm l).
Qed.

Lemma set_exists_sound f nm l : sound f → f_namespaces f !! nm = Some l → sound (upd l (set_exists true) f).
Proof.
  intros [Hwf Hc] Hl. split; [eapply wf_set_exists; [by apply wf_but_weaken|done|done]|].
  pose proof (heap_sim_upd links l (set_exists true) f (λ n, eq_refl)) as Hs.
  assert (∀ z, parent_name (upd l (set_exists true) f) z = parent_name f z) as Hp by (intros z; symmetry; by apply parent_name_links).
  intros x Hx. apply (in_cycle_ext _ (parent_name f) _ Hp) in Hx. destruct (Hc x Hx) as (y & Hy & Hh). exists y.
  split; [by eapply rtc_ext; [|exact Hy]|]. unfold halted_name, IsHalted in *. simpl. destruct (f_namespaces f !! y) as [ly|]; [|done].
  pose proof (heap_sim_deref ns_conditions _ _ ly (heap_sim_upd ns_conditions l (set_exists true) f (λ n, eq_refl))) as <-. done.
Qed.

(** ** The first loop *)
Lemma create_all_spec desc : ∀ i f, sound f → (∀ x, ∃ b, view f x = (None, false, b)) →
  ∃ f', create_all desc i f = Done (tt, f') ∧ sound f' ∧ (∀ x, ∃ b, view f' x = (None, false, b)) ∧
    (∀ x, view f x = (None, false, true) → view f' x = (None, false, true)) ∧
    ∀ j, i ≤ j < i + length desc → view f' (letter j) = (None, false, true).
Proof.
  induction desc as [|c desc IH]; intros i f Hf Hv.
  { exists f. split_and!; [done..|]. simpl. lia. }
  destruct (getNS_spec (letter i) f) as (l & f1 & Hg & Hx & Hl); [apply Hf|apply runeString_nonempty|].
  pose proof (sound_extends f f1 Hx Hf) as Hf1. pose proof (set_exists_sound f1 _ l Hf1 Hl) as Hf2. set (f2 := upd l (set_exists true) f1) in *.
  assert (∀ x, view f2 x = if decide (x = letter i) then (None, false, true) else view f x) as Hv2.
  { intros x. unfold f2. rewrite (upd_view f1 _ l _ x (proj1 Hf1) Hl) by done. rewrite (extends_view f f1 x (proj1 Hf) Hx).
    destruct (decide (x = letter i)); [|done]. destruct (Hv (letter i)) as [b Hb]. rewrite <- (extends_view f f1 _ (proj1 Hf) Hx) in Hb.
    unfold view, ns_at in Hb. rewrite Hl in Hb. injection Hb as -> Hs _. simpl. by rewrite Hs. }
  destruct (IH (S i) f2 Hf2) as (f' & He & Hf' & Hv' & Hk & Hj).
  { intros x. rewrite Hv2. destruct (decide _); eauto. }
  exists f'. split_and!; [|done|done| |].
  - simpl. rewrite (M_bind_Done _ _ _ _ _ Hg). exact He.
  - intros x H. apply Hk. rewrite Hv2. by destruct (decide _).
  - intros j Hlt. simpl in Hlt. destruct (decide (j = i)) as [->|Hne]; [|apply Hj; lia]. apply Hk. rewrite Hv2. by rewrite decide_True.
Qed.

(** ** Conditions *)

(** The same forest, with more namespaces halted. *)
Record more_halted (f f' : Forest) : Prop := {
  mh_shape : heap_sim shape f f';
  mh_halted x : halted_name f x → halted_name f' x;
  mh_view x : view f' x = view f x
}.

#[local] Instance more_halted_preorder : PreOrder more_halted.
Proof.
  split; [by split|]. intros f g h [H1 H2 H3] [K1 K2 K3]. split; [by rewrite H1|auto|intros x; by rewrite K3].
Qed.

Lemma halt_one f nm l reason msg : wf f → f_namespaces f !! nm = Some l → reason ≠ ReasonAncestor →
  let f' := SetCondition now l ConditionActivitiesHalted reason msg f in more_halted f f' ∧ halted_name f' nm.
Proof.
  intros Hwf Hl Hr. unfold SetCondition. rewrite decide_False by done. cbv zeta.
  match goal with |- context [upd l ?g f] => set (hf := g) end.
  assert (is_Some (f_heap f !! l)) as Hh by (by eapply wf_name).
  assert (∀ n, halted (hf n) = true) as Hset by (intros n; unfold hf, halted; simpl; by rewrite SetStatusCondition_halted).
  split; [split|].
  - by apply heap_sim_upd.
  - intros x. unfold halted_name, IsHalted. simpl. destruct (f_namespaces f !! x) as [lx|]; [|done]. intros Hx.
    destruct (decide (lx = l)) as [->|Hne]; [rewrite deref_upd_eq by done; apply Hset|by rewrite deref_upd_ne].
  - intros x. rewrite (upd_view f nm l hf x Hwf Hl) by done. destruct (decide (x = nm)) as [->|]; [|done]. unfold view, ns_at. by rewrite Hl.
  - unfold halted_name, IsHalted. simpl. rewrite Hl, deref_upd_eq by done. apply Hset.
Qed.

Lemma more_halted_wf f f' : more_halted f f' → wf f → wf f'.
Proof. intros Hm Hwf. by rewrite <- (mh_shape _ _ Hm). Qed.

Lemma more_halted_names f f' x : more_halted f f' → f_namespaces f' !! x = f_namespaces f !! x.
Proof. intros Hm. destruct (mh_shape _ _ Hm) as (-> & _). done. Qed.

Lemma halt_all_spec cnms : ∀ f, wf f → (∀ x, x ∈ cnms → is_Some (f_namespaces f !! x)) →
  ∃ f', halt_all now cnms f = Done (tt, f') ∧ more_halted f f' ∧ ∀ x, x ∈ cnms → halted_name f' x.
Proof.
  induction cnms as [|c cnms IH]; intros f Hwf Hlive.
  { exists f. split_and!; [done..|]. by intros x ?%elem_of_nil. }
  destruct (Hlive c) as [l Hl]; [by left|].
  destruct (halt_one f c l ReasonInCycle "in cycle" Hwf Hl) as [Hm Hc]; [done|]. set (f1 := SetCondition _ _ _ _ _ f) in *.
  destruct (IH f1 (more_halted_wf _ _ Hm Hwf)) as (f' & He & Hm' & Hh).
  { intros x Hx. rewrite (more_halted_names f f1 x Hm). apply Hlive. by right. }
  exists f'. split_and!; [|by transitivity f1|].
  - simpl. unfold getNS, GetM. rewrite (M_bind_Done _ _ f l f); [exact He|].
    rewrite (M_bind_Done _ _ f (Some l) f); [done|]. by rewrite (Get_present c l f Hwf Hl).
  - intros x [->|Hx]%elem_of_cons; [by apply (mh_halted _ _ Hm')|by apply Hh].
Qed.

(** ** The second loop *)

(** Linking a root below another namespace; only cycles through it are new. *)
Lemma SetParent_root f nm l pnm p : sound f → f_namespaces f !! nm = Some l → ns_exists (deref f l) = true → parent_name f nm = None →
  f_namespaces f !! pnm = Some p →
  let f' := SetParent l (Some p) f in
  wf f' ∧ cycles_but nm f' ∧ (∀ x, f_namespaces f' !! x = f_namespaces f !! x) ∧
  ∀ x, view f' x = if decide (x = nm) then (Some pnm, ns_IsSub (ns_at f nm), true) else view f x.
Proof.
  intros [Hwf Hc] Hl He Hroot Hp f'. rewrite (parent_name_live f nm l Hl) in Hroot. apply fmap_None in Hroot.
  assert (can_reparent f l (Some p)) as Hcan by (intros q Hq; simplify_eq; split; [congruence|eauto]).
  pose proof (SetParent_reparented f nm l (Some p) Hwf Hl Hcan) as Hr. fold f' in Hr. simpl in Hr. rewrite (live_name f Hwf pnm p Hp) in Hr.
  assert (∀ x, f_namespaces f' !! x = f_namespaces f !! x) as Hns.
  { intros x. destruct (rp_live _ _ _ _ Hr x) as [?|(_ & Hpn & _)]; [done|]. by rewrite (parent_name_live f nm l Hl), Hroot in Hpn. }
  split_and!; [eapply reparented_wf; [done..|by right]| |done|].
  - eapply (cycles_but_reparented nm l); [done| |done|done|]; [by apply (SetParent_view ns_conditions f nm)|].
    intros x (y & Hy & Hh)%Hc. eauto.
  - intros x. unfold view. rewrite (rp_parent _ _ _ _ Hr x). unfold ns_at. rewrite Hns.
    assert (∀ y, ns_IsSub (deref f' y) = ns_IsSub (deref f y)) as Hsub by (by apply (SetParent_view ns_IsSub f nm)).
    destruct (decide (x = nm)) as [->|Hx].
    + by rewrite Hl, Hsub, (rp_exists _ _ _ _ Hr), He.
    + destruct (f_namespaces f !! x) as [lx|]; [|done]. by rewrite Hsub, (rp_exists _ _ _ _ Hr).
Qed.

(** Halting the whole cycle makes the forest sound again. *)
Lemma halted_again f f' nm l : wf f → cycles_but nm f → f_namespaces f !! nm = Some l → more_halted f f' →
  (∀ x, x ∈ CycleNames f l → halted_name f' x) → sound f'.
Proof.
  intros Hwf Hc Hl Hm Hh. split; [by eapply more_halted_wf|]. pose proof (mh_shape _ _ Hm) as Hs.
  assert (∀ z, parent_name f' z = parent_name f z) as Hp.
  { intros z. symmetry. eapply parent_name_links, heap_sim_mono, Hs. apply shape_links. }
  intros x Hx. apply (in_cycle_ext _ (parent_name f) _ Hp) in Hx. destruct (Hc x Hx) as (y & Hy & Hor). exists y.
  split; [by eapply rtc_ext; [|exact Hy]|]. destruct Hor as [Hhy|Heq]; [by apply (mh_halted _ _ Hm)|subst y]. apply Hh.
  pose proof (in_cycle_reach _ _ _ Hx Hy) as Hcy. destruct (CycleNames_smallest f Hwf nm l Hl Hcy) as (s & ls & Hls & Hr & _ & ->).
  apply (AncestryNames_elem f Hwf s ls nm Hls). by eapply in_cycle_back.
Qed.

(** The members of a cycle are in the forest. *)
Lemma in_cycle_dec f nm : wf f → in_cycle (parent_name f) nm ∨ ¬ in_cycle (parent_name f) nm.
Proof.
  intros Hwf. destruct (parent_name f nm) as [p|] eqn:Hp.
  - pose proof (up_live f Hwf nm p Hp) as [_ [lp Hlp]]. destruct (decide (nm ∈ AncestryNames f (Some lp))) as [Hin|Hin];
      rewrite (AncestryNames_elem f Hwf p lp nm Hlp) in Hin; [left; by eapply tc_rtc_r; [apply tc_once|]|right].
    intros (q & Hq & Hr)%tc_up_inv. unfold up in Hq. simplify_eq. congruence.
  - right. intros [q Hq]%in_cycle_has_parent. congruence.
Qed.

Lemma CycleNames_live f nm l x : wf f → f_namespaces f !! nm = Some l → x ∈ CycleNames f l → is_Some (f_namespaces f !! x).
Proof.
  intros Hwf Hl Hx. destruct (in_cycle_dec f nm Hwf) as [Hc|Hc].
  - destruct (CycleNames_smallest f Hwf nm l Hl Hc) as (s & ls & Hls & _ & _ & Heq). rewrite Heq in Hx. by eapply AncestryNames_live.
  - apply (CycleNames_nil_iff f Hwf nm l Hl) in Hc. rewrite Hc in Hx. by apply elem_of_nil in Hx.
Qed.

(** The flag of subnamespaces. *)
Lemma flag_step i c f l : sound f → view f (letter i) = (None, false, true) → f_namespaces f !! letter i = Some l → ns_exists (deref f l) = true →
  ∃ f1, (if decide (rune c < lower)%Z then modify (upd l (set_isSub true)) ≫= λ _, mret (rune c + toLower)%Z else mret (rune c)) f =
      Done (if decide (rune c < lower) then rune c + toLower else rune c, f1)%Z ∧
    sound f1 ∧ f_namespaces f1 !! letter i = Some l ∧ ns_exists (deref f1 l) = true ∧
    ∀ x, view f1 x = if decide (x = letter i) then (None, bool_decide (rune c < lower)%Z, true) else view f x.
Proof.
  intros Hf Hv Hl He. pose proof Hf as [Hwf _]. destruct (decide (rune c < lower)%Z) as [Hlt|Hlt].
  - rewrite bool_decide_eq_true_2 by done. eexists. split; [done|]. split_and!; [by apply sound_upd|done| |].
    + rewrite deref_upd_eq; [done|]. by eapply wf_name.
    + intros x. rewrite (upd_view f _ l _ x Hwf Hl) by done. destruct (decide _); [|done]. simpl. unfold view in Hv. congruence.
  - rewrite bool_decide_eq_false_2 by done. exists f. split_and!; try done. intros x. by destruct (decide (x = letter i)) as [->|].
Qed.

(** The conditions after a change of parent. *)
Lemma conditions_step f nm l p : wf f → cycles_but nm f → f_namespaces f !! nm = Some l →
  ∃ f', ((if negb (Exists f p) then modify (SetCondition now l ConditionActivitiesHalted ReasonParentMissing "no parent") else mret tt) ≫= λ _,
      f ← get; halt_all now (CycleNames f l)) f = Done (tt, f') ∧ sound f' ∧ ∀ x, view f' x = view f x.
Proof.
  intros Hwf Hc Hl.
  assert (∃ f1, more_halted f f1 ∧ (if negb (Exists f p) then modify (SetCondition now l ConditionActivitiesHalted ReasonParentMissing "no parent")
     else mret tt) f = Done (tt, f1)) as (f1 & Hm1 & E1).
  { destruct (negb (Exists f p)); [|by exists f]. eexists. split; [|done]. by apply (halt_one f nm l). }
  pose proof (more_halted_wf f f1 Hm1 Hwf) as Hwf1.
  assert (f_namespaces f1 !! nm = Some l) as Hl1 by (by rewrite (more_halted_names f f1 _ Hm1)).
  destruct (halt_all_spec (CycleNames f1 l) f1 Hwf1) as (f2 & E2 & Hm2 & Hh2); [intros x; by apply (CycleNames_live f1 nm)|].
  exists f2. split_and!.
  - rewrite (M_bind_Done _ _ _ _ _ E1). by rewrite (M_bind_Done _ _ f1 f1 f1).
  - eapply (halted_again f1 f2 nm l); [done| |done..].
    assert (∀ z, parent_name f1 z = parent_name f z) as Hpn.
    { intros z. symmetry. eapply parent_name_links, heap_sim_mono, (mh_shape _ _ Hm1). apply shape_links. }
    intros x Hx. apply (in_cycle_ext _ (parent_name f) _ Hpn) in Hx. destruct (Hc x Hx) as (y & Hy & Hor). exists y.
    split; [by eapply rtc_ext; [|exact Hy]|]. destruct Hor; [left; by apply (mh_halted _ _ Hm1)|by right].
  - intros x. by rewrite (mh_view _ _ Hm2), (mh_view _ _ Hm1).
Qed.

Lemma set_parent_of_spec i c f : sound f → view f (letter i) = (None, false, true) →
  ∃ f', set_parent_of now i c f = Done (tt, f') ∧ sound f' ∧
    ∀ x, view f' x = if decide (x = letter i) then (parent_letter c, is_subns c, true) else view f x.
Proof.
  intros Hf Hv. unfold set_parent_of, parent_letter, is_subns. destruct (decide (c = "-"%char)) as [->|Hc].
  { exists f. split_and!; [done..|]. intros x. by destruct (decide (x = letter i)) as [->|]. }
  rewrite (bool_decide_eq_false_2 (c = _)) by done. simpl negb. simpl andb.
  destruct (view_live f _ _ _ Hv) as (l & Hl & He). pose proof Hf as [Hwf _].
  assert (getNS (letter i) f = Done (l, f)) as Hget.
  { unfold getNS, GetM. rewrite (M_bind_Done _ _ f (Some l) f); [done|]. by rewrite (Get_present _ l f Hwf Hl). }
  destruct (flag_step i c f l Hf Hv Hl He) as (f1 & E1 & Hf1 & Hl1 & He1 & Hv1).
  set (r := (if decide (rune c < lower)%Z then rune c + toLower else rune c)%Z) in *. set (sub := bool_decide (rune c < lower)%Z) in *.
  destruct (getNS_spec (runeString r) f1) as (p & f2 & E2 & Hx & Hp); [apply Hf1|apply runeString_nonempty|].
  pose proof (sound_extends f1 f2 Hx Hf1) as Hf2. pose proof (ex_names _ _ Hx _ _ Hl1) as Hl2.
  assert (∀ x, view f2 x = view f1 x) as Hv2 by (intros x; apply extends_view; [apply Hf1|done]).
  assert (ns_exists (deref f2 l) = true) as He2.
  { rewrite (ex_deref _ _ Hx l); [done|]. eapply wf_name; [apply Hf1|done]. }
  assert (view f2 (letter i) = (None, sub, true)) as Hvi by (by rewrite Hv2, Hv1, decide_True).
  destruct (SetParent_root f2 (letter i) l (runeString r) p Hf2 Hl2 He2) as (Hwf3 & Hc3 & Hns3 & Hv3); [unfold view in Hvi; congruence|done|].
  destruct (conditions_step (SetParent l (Some p) f2) (letter i) l p Hwf3 Hc3) as (f' & E & Hf' & Hv'); [by rewrite Hns3|].
  exists f'. split_and!; [|done|].
  - rewrite (M_bind_Done _ _ _ _ _ Hget), (M_bind_Done _ _ _ _ _ E1), (M_bind_Done _ _ _ _ _ E2).
    rewrite (M_bind_Done _ _ f2 tt (SetParent l (Some p) f2)) by done. by rewrite (M_bind_Done _ _ (SetParent l (Some p) f2) _ _ eq_refl).
  - intros x. rewrite Hv', Hv3, Hv2, Hv1. destruct (decide (x = letter i)) as [->|]; [|done]. unfold view in Hvi. congruence.
Qed.

Lemma set_parents_spec desc : ∀ i f, sound f → i + length desc ≤ 256 → (∀ j, i ≤ j < i + length desc → view f (letter j) = (None, false, true)) →
  ∃ f', set_parents now desc i f = Done (tt, f') ∧ sound f' ∧
    (∀ j c, desc !! j = Some c → view f' (letter (i + j)) = (parent_letter c, is_subns c, true)) ∧
    ∀ x, (∀ j, i ≤ j < i + length desc → x ≠ letter j) → view f' x = view f x.
Proof.
  induction desc as [|c desc IH]; intros i f Hf Hlen Hv; [by exists f|]. simpl in Hlen, Hv.
  destruct (set_parent_of_spec i c f Hf) as (f1 & E1 & Hf1 & Hv1); [apply Hv; lia|].
  destruct (IH (S i) f1 Hf1) as (f' & E & Hf' & Hd & Ho); [lia| |].
  { intros j Hj. rewrite Hv1, decide_False; [apply Hv; lia|]. intros Heq%letter_inj; lia. }
  exists f'. split_and!; [|done| |].
  - simpl. by rewrite (M_bind_Done _ _ _ _ _ E1).
  - intros [|j] c' Hc'; simpl in Hc'; simplify_eq.
    + rewrite Nat.add_0_r, Ho; [by rewrite Hv1, decide_True|]. intros j Hj Heq%letter_inj; lia.
    + rewrite <- Nat.add_succ_comm. by apply Hd.
  - intros x Hx. simpl in Hx. rewrite Ho by (intros j Hj; apply Hx; lia). rewrite Hv1, decide_False; [done|]. apply Hx. lia.
Qed.

Lemma Create_spec desc : String.length desc ≤ 256 →
  ∃ f, Create now desc = Done f ∧ sound f ∧
    ∀ i c, list_ascii_of_string desc !! i = Some c → view f (letter i) = (parent_letter c, is_subns c, true).
Proof.
  intros Hlen. assert (length (list_ascii_of_string desc) ≤ 256) as Hlen'.
  { etrans; [|exact Hlen]. clear. induction desc as [|c desc IH]; simpl; lia. }
  destruct (create_all_spec (list_ascii_of_string desc) 0 NewForest sound_NewForest) as (f1 & E1 & Hf1 & _ & _ & Hv1); [by exists false|].
  destruct (set_parents_spec (list_ascii_of_string desc) 0 f1 Hf1 Hlen' Hv1) as (f & E & Hf & Hd & _).
  exists f. split_and!; [|done|done]. unfold Create. by rewrite (M_bind_Done _ _ _ _ _ E1), E.
Qed.
End facts.
