(* ===== verification/System.v ===== *)
(** * The whole system: all the controllers and webhooks on one forest

    The reconcilers and the webhooks of HNC run concurrently and share the forest
    under its lock.  [step] is the relation of what one run of any of them does to the
    forest, for any answers of the API server and any request; a run of the system is
    any sequence of such steps.  The invariant of file Sound holds throughout. *)

From S2P Require Import Prelude GoStrings Chains Validation Api Config Selectors Resources Forest ForestWf ForestWalks Quotas.
From S2P Require Import ForestReads HierarchyValidator NamespaceWebhooks Sound World Anchor Objects Propagation ObjectsValidator.
From S2P Require Import HncConfig HncConfigFacts HncConfigValidator HrqControllers HierarchyReconciler HierarchyInvariant.

(** ** Code that keeps the invariant when it returns *)
Definition keeps {Ev A} (m : M (World Ev) A) : Prop :=
  ∀ w a w', sound (w_forest w) → m w = Done (a, w') → sound (w_forest w').

Section keeps.
  Context {Ev A B : Type}.

Lemma keeps_ret (a : A) : keeps (Ev:=Ev) (mret a).
Proof. intros w b w' Hs [= <- <-]. done. Qed.
Lemma keeps_bind (m : M (World Ev) A) (k : A → M (World Ev) B) : keeps m → (∀ a, keeps (k a)) → keeps (m ≫= k).
Proof. intros Hm Hk w b w' Hs (a & w1 & H1 & H2)%M_bind_inv. eapply Hk; [|exact H2]. by eapply Hm. Qed.
Lemma keeps_getF : keeps (Ev:=Ev) getF.
Proof. intros w b w' Hs [= <- <-]. done. Qed.
Lemma keeps_emit (evs : list Ev) : keeps (emit evs).
Proof. intros w b w' Hs [= <- <-]. done. Qed.
Lemma keeps_updF g : (∀ f, sound f → sound (g f)) → keeps (Ev:=Ev) (updF g).
Proof. intros Hg w b w' Hs [= <- <-]. by apply Hg. Qed.
Lemma keeps_onF (g : Forest → A * Forest) : (∀ f, sound f → sound (g f).2) → keeps (Ev:=Ev) (onF g).
Proof. intros Hg w b w' Hs. unfold onF. specialize (Hg _ Hs). destruct (g (w_forest w)) as [x f]. by intros [= <- <-]. Qed.
Lemma keeps_lift (o : outcome A) : keeps (Ev:=Ev) (lift_outcome o).
Proof. intros w b w' Hs. unfold lift_outcome. destruct o; [|done..]. by intros [= <- <-]. Qed.
Lemma keeps_nonnil (o : option A) : keeps (Ev:=Ev) (nonnil o).
Proof. destruct o; [apply keeps_ret|]. by intros w b w' Hs. Qed.
Lemma keeps_runF (m : M Forest A) : reads m → keeps (Ev:=Ev) (runF m).
Proof.
  intros Hr w b w' Hs. unfold runF. destruct (m (w_forest w)) as [[x f]| |] eqn:Hm; [|done..]. intros [= <- <-]. simpl.
  eapply sound_extends; [|done]. eapply Hr; [apply Hs|exact Hm].
Qed.
Lemma keeps_embed {Ev'} (g : Ev → Ev') (m : M (World Ev) A) : keeps m → keeps (embed g m).
Proof.
  intros Hm w b w' Hs. unfold embed. destruct (m (mkWorld (w_forest w) [])) as [[x w1]| |] eqn:H1; [|done..].
  intros [= <- <-]. exact (Hm (mkWorld (w_forest w) []) x w1 Hs H1).
Qed.
End keeps.

Lemma sound_Get nm f : sound f → sound (Get nm f).2.
Proof.
  intros Hs. destruct (Get nm f) as [o g] eqn:Hg. eapply sound_extends; [|done]. eapply Get_extends; [apply Hs|exact Hg].
Qed.

Lemma keeps_Get {Ev} nm : keeps (Ev:=Ev) (onF (Get nm)).
Proof. apply keeps_onF. intros f. apply sound_Get. Qed.

(** Runs of total code keep the invariant. *)
Lemma keeps_triple {Ev A} (m : M (World Ev) A) : triple sound m (λ _, sound) → keeps m.
Proof. intros Ht w a w' Hs Hm. destruct (Ht w Hs) as (b & w1 & H1 & H2). rewrite Hm in H1. by simplify_eq. Qed.

#[export] Hint Resolve keeps_ret keeps_getF keeps_emit keeps_lift keeps_nonnil keeps_Get : hnc.

(** Decompose a program into its parts. *)
Ltac keep :=
  repeat match goal with
  | |- keeps (_ ≫= _) => apply keeps_bind; [|intros]
  | |- keeps (match ?x with _ => _ end) => destruct x
  | |- keeps _ => solve [auto with hnc]
  end.

(** ** The object reconcilers *)
Section objects.
  Context `{RO : RangeOrder} `{RX : RegexpLib} `{SL : SelectorLib} (cfg : Config).
  Context (gvk : GroupVersionKind) (mode : SynchronizationMode).

Lemma sound_types ts f : sound f → sound (set_types ts f).
Proof. apply sound_vitals, heap_sim_types. Qed.

Lemma keeps_syncer g : keeps (Ev:=ObjEvent) (updF (upd_syncer gvk g)).
Proof. apply keeps_updF. intros f. apply sound_types. Qed.

Lemma keeps_fget nm : keeps (fget nm).
Proof. unfold fget. keep. Qed.
Hint Resolve keeps_fget keeps_syncer : hnc.

Lemma keeps_source l o : keeps (Ev:=ObjEvent) (updF (SetSourceObject l o)).
Proof. apply keeps_updF. intros f. by apply sound_upd. Qed.
Lemma keeps_unsource l g n : keeps (Ev:=ObjEvent) (updF (DeleteSourceObject l g n)).
Proof. apply keeps_updF. intros f. by apply sound_upd. Qed.
Hint Resolve keeps_source keeps_unsource : hnc.

Lemma keeps_top_source nnms d : keeps (top_source cfg gvk mode nnms d).
Proof. induction nnms; simpl; unfold shouldPropagateSource; keep. Qed.
Hint Resolve keeps_top_source : hnc.

Lemma keeps_enqueueDescendants o : keeps (enqueueDescendants o).
Proof. unfold enqueueDescendants. keep. Qed.
Hint Resolve keeps_enqueueDescendants : hnc.

Lemma keeps_syncObject o : keeps (syncObject cfg gvk mode o).
Proof.
  unfold syncObject, shouldSyncAsPropagated, getTopSourceToPropagate, syncPropagated, syncSource, recordPropagatedObject. keep.
Qed.
Hint Resolve keeps_syncObject : hnc.

Lemma keeps_objects_Reconcile api nnm : keeps (Objects.Reconcile cfg gvk mode api nnm).
Proof.
  unfold Objects.Reconcile, Objects.syncWithForest, skipNamespace, syncMissingObject, operate, generateEvents, deleteObject, writeObject,
    recordRemovedObject, recordPropagatedObject. keep.
Qed.

Lemma keeps_existing listed : keeps (enqueueExistingObjects listed).
Proof. unfold enqueueExistingObjects. keep. Qed.
Hint Resolve keeps_existing : hnc.

Lemma keeps_retry n k lst : keeps (retry n k lst).
Proof. revert k. induction n; intros k; simpl; keep. Qed.
Hint Resolve keeps_retry : hnc.

Lemma keeps_objects_OnChange l lst : keeps (Objects.OnChangeNamespace gvk l lst).
Proof. unfold Objects.OnChangeNamespace. keep. Qed.

Lemma keeps_SetMode m lst : keeps (SetMode gvk m lst).
Proof.
  assert (∀ keys, keeps (enqueue_namespaces lst keys)) as Hn by (intros keys; induction keys; simpl; keep).
  unfold SetMode, enqueueAllObjects. keep.
Qed.
End objects.

(** ** The configuration reconciler *)
Section config.
  Context `{RO : RangeOrder} (mapper : GroupResource → mapError + GroupVersionKind) (now : Z) (api : configApi).

Lemma keeps_setMode gvk m : keeps (setMode api gvk m).
Proof. apply keeps_embed, keeps_SetMode. Qed.
Hint Resolve keeps_setMode : hnc.

Lemma keeps_create gvk m inst : keeps (createObjectReconciler now api gvk m inst).
Proof.
  unfold createObjectReconciler. keep; apply keeps_updF; intros f; [|apply sound_types].
  intros Hf. by apply (sound_vitals f).
Qed.
Hint Resolve keeps_create : hnc.

Lemma keeps_config_Reconcile : keeps (HncConfig.Reconcile mapper now api).
Proof.
  assert (∀ gms inst, keeps (syncActiveReconcilers now api gms inst)) as Ha by (intros gms; induction gms; intros inst; simpl; keep).
  assert (∀ act ts, keeps (syncRemovedReconcilers api act ts)) as Hr by (intros act ts; induction ts; simpl; keep).
  unfold HncConfig.Reconcile, syncObjectWebhookConfigs, syncObjectReconcilers, HncConfig.writeSingleton. keep.
Qed.
End config.

(** ** The quota controllers *)
Section quotas.
  Context `{RO : RangeOrder} (qstring : Quantity → string).

Lemma no_usage_vitals n n' : no_usage n = no_usage n' → vitals n = vitals n'.
Proof.
  intros Hn. unfold vitals. rewrite (no_usage_shape _ _ Hn). unfold halted.
  assert (ns_conditions n = ns_conditions n') as ->; [|done]. exact (f_equal ns_conditions Hn).
Qed.

Lemma sound_no_usage f f' : heap_sim no_usage f f' → sound f → sound f'.
Proof. intros Hs. apply sound_vitals. eapply heap_sim_mono, Hs. apply no_usage_vitals. Qed.

Lemma keeps_getNS nm : keeps (getNS nm).
Proof. unfold getNS. keep. Qed.
Lemma keeps_UpdateLimits l nm lm : keeps (Ev:=HrqEvent) (onF (UpdateLimits l nm lm)).
Proof. apply keeps_onF. intros f. apply sound_vitals, UpdateLimits_vitals. Qed.
Lemma keeps_RemoveLimits l nm : keeps (Ev:=HrqEvent) (updF (RemoveLimits l nm)).
Proof. apply keeps_updF. intros f. by apply sound_upd. Qed.
Hint Resolve keeps_getNS keeps_UpdateLimits keeps_RemoveLimits : hnc.

Lemma keeps_hrq_Reconcile api nnm : keeps (ReconcileHRQ qstring api nnm).
Proof. unfold ReconcileHRQ, syncHRQ, syncLimits, syncUsages, EnqueueSubtree. keep. Qed.

(** The location that a lookup returns is live, so its usage may be updated. *)
Lemma getNS_inv nm w l w' : sound (w_forest w) → getNS nm w = Done (l, w') →
  sound (w_forest w') ∧ f_namespaces (w_forest w') !! nm = Some l.
Proof.
  intros Hs H. pose proof (keeps_getNS nm w l w' Hs H) as Hs'. split; [done|].
  unfold getNS in H. apply M_bind_inv in H as (o & w1 & H1 & H2). unfold onF in H1.
  destruct (Get nm (w_forest w)) as [o' g] eqn:Hg. injection H1 as <- <-. destruct o' as [l'|]; [|done]. injection H2 as <- <-. cbn [w_forest].
  destruct (wf_Get nm _ l' g (proj1 Hs) Hg) as (_ & -> & _). apply lookup_insert_eq.
Qed.

Lemma keeps_syncRQ inst : keeps (syncRQ inst).
Proof.
  intros w r w' Hs H. unfold syncRQ in H. apply M_bind_inv in H as (l & w1 & H1 & H). destruct (getNS_inv _ _ _ _ Hs H1) as [Hs1 Hl].
  apply M_bind_inv in H as (f & w1' & Hf & H). injection Hf as <- <-.
  destruct (syncResourceLimits (w_forest w1) l inst) as [upd1 inst1].
  apply M_bind_inv in H as ([] & w2 & H2 & H). injection H2 as <-.
  assert (sound (UseResources l (rq_Used inst1) (w_forest w1))) as Hs2.
  { eapply sound_no_usage, Hs1. eapply UseResources_sim; [apply Hs1|exact Hl]. }
  revert H. apply (keeps_bind getF _ keeps_getF); [|exact Hs2]. intros g. keep.
Qed.
Hint Resolve keeps_syncRQ : hnc.

Lemma keeps_rq_Reconcile api nnm : keeps (ReconcileRQ api nnm).
Proof. unfold ReconcileRQ, deleteSingleton, HrqControllers.writeSingleton, reportHRQEvent, getAncestorHRQs. keep. Qed.

Lemma keeps_drift : keeps checkHRQDrift.
Proof.
  unfold checkHRQDrift. keep. apply keeps_onF. intros f Hf. destruct (RectifySubtreeUsages_spec f (proj1 Hf)) as (Hs & _).
  by eapply sound_no_usage.
Qed.

Lemma keeps_status ui nm inst f resp f' : sound f → HandleStatus qstring ui nm inst f = Done (resp, f') → sound f'.
Proof.
  intros Hf. unfold HandleStatus. destruct (decide _); [by intros [= <- <-]|]. destruct (negb _); [by intros [= <- <-]|].
  unfold handleStatus. intros H. apply M_bind_inv in H as (l & g & Hg & H).
  apply M_bind_inv in Hg as (o & g' & Hget & Hn). apply (GetM_inv _ _ _ _ (proj1 Hf)) in Hget as [Hx Hl].
  destruct o as [l'|]; [|done]. simpl in Hn. injection Hn as <- <-. destruct Hl as [_ Hl]. pose proof (sound_extends _ _ Hx Hf) as Hg.
  apply M_bind_inv in H as (e & g2 & Ht & H). unfold tryUseM, TryUseResources in Ht.
  destruct (canUseResources g' l' (rq_Used inst)); injection Ht as <- <-; injection H as _ <-; [done|].
  eapply sound_no_usage, Hg. eapply UseResources_sim; [apply Hg|exact Hl].
Qed.
End quotas.

(** ** Anchors and the webhooks that only read *)
Section readers.
  Context `{RO : RangeOrder} `{RX : RegexpLib} `{SL : SelectorLib} (cfg : Config).

Lemma shouldDeleteSubns_reads inst ns crd : reads (shouldDeleteSubns inst ns crd).
Proof.
  unfold shouldDeleteSubns. destruct crd; [auto with hnc|]. destruct (decide _); [|auto with hnc].
  destruct (negb _); [auto with hnc|]. destruct (negb _); [auto with hnc|]. apply reads_bind; [auto with hnc|]. intros l.
  apply reads_bind; [auto with hnc|]. intros f. destruct (decide _); auto with hnc.
Qed.

Lemma keeps_shouldDelete {Ev} inst ns crd : keeps (Ev:=Ev) (runF (shouldDeleteSubns inst ns crd)).
Proof. apply keeps_runF, shouldDeleteSubns_reads. Qed.
Hint Resolve keeps_shouldDelete : hnc.

Lemma keeps_anchor_Reconcile api pnm nm : keeps (Anchor.Reconcile cfg api pnm nm).
Proof. unfold Anchor.Reconcile, onDeleting, Anchor.writeNamespace, writeInstance, deleteNamespace. keep. Qed.

Lemma anchor_Handle_reads ui req : reads (Anchor.Handle cfg ui req).
Proof.
  unfold Anchor.Handle, Anchor.handle. destruct (IsHNCServiceAccount _ _); [auto with hnc|]. apply reads_bind; [auto with hnc|]. intros c.
  repeat first [apply reads_ret | apply reads_lift | apply reads_get | apply reads_nonnil | apply reads_bind; [|intros ?] | case_match].
Qed.

Lemma namespace_Handle_reads ui req : reads (NamespaceWebhooks.Handle cfg ui req).
Proof.
  unfold NamespaceWebhooks.Handle, NamespaceWebhooks.handle, guard, nameExistsInExternalHierarchy, conflictBetweenParentAndExternalManager,
    cannotDeleteSubnamespace, illegalCascadingDeletion. destruct (IsHNCServiceAccount _ _); [auto with hnc|].
  repeat first [apply reads_ret | apply reads_lift | apply reads_get | apply reads_nonnil | apply reads_GetM | apply reads_bind; [|intros ?] | case_match].
Qed.

Lemma objects_Handle_reads getNS ui ns kind req : reads (ObjectsValidator.Handle cfg getNS ui ns kind req).
Proof.
  unfold ObjectsValidator.Handle. destruct (negb _); [auto with hnc|]. apply reads_bind; [auto with hnc|]. intros f.
  destruct (negb _); [auto with hnc|]. destruct (IsHNCServiceAccount _ _); [auto with hnc|]. apply objects_handle_reads.
Qed.
End readers.

(** ** Runs of the system *)
Section system.
  Context `{RO : RangeOrder} `{RX : RegexpLib} `{SL : SelectorLib} (cfg : Config) (qstring : Quantity → string)
    (mapper : GroupResource → mapError + GroupVersionKind).

(** One run of a reconciler or of a webhook, from the forest it finds to the one it
    leaves.  Namespaces have names, and the API server returns a namespace under the
    name it was asked for. *)
Inductive step (f : Forest) : Forest → Prop :=
  | step_hierarchy now api nm r w : faithful api → nm ≠ "" →
      HierarchyReconciler.Reconcile cfg now api nm (mkWorld f []) = Done (r, w) → step f (w_forest w)
  | step_anchor api pnm nm r w :
      Anchor.Reconcile cfg api pnm nm (mkWorld f []) = Done (r, w) → step f (w_forest w)
  | step_object gvk mode api nnm r w :
      Objects.Reconcile cfg gvk mode api nnm (mkWorld f []) = Done (r, w) → step f (w_forest w)
  | step_config now api r w :
      HncConfig.Reconcile mapper now api (mkWorld f []) = Done (r, w) → step f (w_forest w)
  | step_hrq api nnm r w :
      ReconcileHRQ qstring api nnm (mkWorld f []) = Done (r, w) → step f (w_forest w)
  | step_rq api nnm r w :
      ReconcileRQ api nnm (mkWorld f []) = Done (r, w) → step f (w_forest w)
  | step_drift r w :
      checkHRQDrift (mkWorld f []) = Done (r, w) → step f (w_forest w)
  | step_hierarchy_webhook server req r f' :
      HierarchyValidator.handle cfg server req f = Done (r, f') → step f f'
  | step_namespace_webhook ui req r f' :
      NamespaceWebhooks.Handle cfg ui req f = Done (r, f') → step f f'
  | step_anchor_webhook ui req r f' :
      Anchor.Handle cfg ui req f = Done (r, f') → step f f'
  | step_object_webhook getNS ui ns kind req r f' :
      ObjectsValidator.Handle cfg getNS ui ns kind req f = Done (r, f') → step f f'
  | step_status_webhook ui nm inst r f' :
      HandleStatus qstring ui nm inst f = Done (r, f') → step f f'.

(** The forests of the runs of the system. *)
Definition reachable (f : Forest) : Prop := rtc step NewForest f.

Lemma step_sound f f' : step f f' → sound f → sound f'.
Proof.
  assert (∀ A (m : M Forest A) r g, reads m → m f = Done (r, g) → sound f → sound g) as Hreads.
  { intros A m r g Hr Hm Hf. eapply sound_extends; [|done]. eapply Hr; [apply Hf|exact Hm]. }
  intros Hst Hf. destruct Hst as [now api nm r w Hfa Hnm H|api pnm nm r w H|gvk mode api nnm r w H|now api r w H|api nnm r w H|api nnm r w H
    |r w H|server req r f' H|ui req r f' H|ui req r f' H|getNS ui ns kind req r f' H|ui nm inst r f' H].
  - by eapply (keeps_triple _ (Reconcile_ok cfg now api nm Hfa Hnm)) in H.
  - by eapply keeps_anchor_Reconcile in H.
  - by eapply keeps_objects_Reconcile in H.
  - by eapply keeps_config_Reconcile in H.
  - by eapply keeps_hrq_Reconcile in H.
  - by eapply keeps_rq_Reconcile in H.
  - by eapply keeps_drift in H.
  - eapply Hreads; [apply handle_reads|exact H|done].
  - eapply Hreads; [apply namespace_Handle_reads|exact H|done].
  - eapply Hreads; [apply anchor_Handle_reads|exact H|done].
  - eapply Hreads; [apply objects_Handle_reads|exact H|done].
  - by eapply keeps_status in H.
Qed.

Lemma reachable_sound f : reachable f → sound f.
Proof.
  intros Hr. cut (∀ g h, rtc step g h → sound g → sound h).
  { intros Hall. exact (Hall _ _ Hr sound_NewForest). }
  clear. intros g h Hr. induction Hr as [|x y z Hs _ IH]; [done|]. intros Hx. by eapply IH, step_sound.
Qed.
End system.
