(* ===== verification/Discovery.v ===== *)
(** * The resource types of the aggregated API (internal/apiextension/apiresources)

    The aggregated API server serves every namespaced resource of the cluster under a
    group of its own.  The watcher keeps a table of these resources: an event on a
    custom resource definition or an API service schedules a refresh, which asks the
    discovery API and replaces the table; a refresh that fails is scheduled again.
    The operations are functions on the state of the watcher; [wstep] is the relation
    of what its goroutines do, one atomic step at a time. *)

From Stdlib Require Import Ascii.
From S2P Require Import Prelude GoStrings.

(** [metav1.APIResource]: the fields the watcher sets. *)
Record APIResource := mkAPIResource {
  ar_Name : string; ar_Group : string; ar_Version : string; ar_Kind : string;
  ar_Verbs : list string; ar_Namespaced : bool; ar_ShortNames : list string; ar_StorageVersionHash : string
}.

#[export] Instance APIResource_eq_dec : EqDecision APIResource.
Proof. solve_decision. Defined.

(** A resource as the discovery API reports it, and the list for one group and version. *)
Record DiscoveredResource := mkDiscovered { dr_Name : string; dr_Kind : string; dr_ShortNames : list string }.
Record APIResourceList := mkResourceList { rl_GroupVersion : string; rl_APIResources : list DiscoveredResource }.

(** [api.ResourcesGroupVersion.String()] *)
Definition ResourcesGroupVersion : string := "resources.hnc.x-k8s.io/v1alpha2".

(** The retry queue holds a single key, so it is empty or not. *)
Record apiResourceWatcher := mkWatcher {
  toSync : Z; apiResources : list APIResource; resourceMap : gmap string APIResource; retryQueue : bool
}.

Section watcher.
  (** [apidiscovery.StorageVersionHash], of the API server library. *)
  Context (StorageVersionHash : string → string → string → string).

Definition set_toSync (z : Z) (a : apiResourceWatcher) := mkWatcher z (apiResources a) (resourceMap a) (retryQueue a).
Definition set_retryQueue (b : bool) (a : apiResourceWatcher) := mkWatcher (toSync a) (apiResources a) (resourceMap a) b.

Definition WatchAPIResources : apiResourceWatcher := mkWatcher 0 [] ∅ false.

(** Group and version of [resource.GroupVersion]. *)
Definition groupVersion (s : string) : string * string :=
  match Split s "/"%char with
  | g :: v :: _ => (g, v)
  | [v] => ("", v)
  | [] => ("", "")
  end.

(** The entry for one discovered resource, under its qualified name. *)
Definition apiResource (group version : string) (r : DiscoveredResource) : APIResource :=
  {| ar_Name := if decide (group ≠ "") then group +:+ "." +:+ dr_Name r else dr_Name r;
     ar_Group := group; ar_Version := version; ar_Kind := dr_Kind r; ar_Verbs := ["list"; "watch"];
     ar_Namespaced := true; ar_ShortNames := dr_ShortNames r;
     ar_StorageVersionHash := StorageVersionHash group version (dr_Kind r) |}.

(** The inner loop over the resources of one group and version. *)
Definition add_resources (group version : string) (rs : list DiscoveredResource)
    (acc : list APIResource * gmap string APIResource) : list APIResource * gmap string APIResource :=
  fold_left (λ '(result, m) r, let a := apiResource group version r in (result ++ [a], <[ar_Name a := a]> m)) rs acc.

Definition setAPIResources (discovered : string + list APIResourceList) (a : apiResourceWatcher) :
    option string * apiResourceWatcher :=
  match discovered with
  | inl err => (Some err, a)
  | inr resourceList =>
      let '(result, m) := fold_left (λ acc resource,
          if decide (rl_GroupVersion resource = ResourcesGroupVersion) then acc
          else let '(group, version) := groupVersion (rl_GroupVersion resource) in
               add_resources group version (rl_APIResources resource) acc)
        resourceList ([], resourceMap a) in
      (None, mkWatcher (toSync a) result m (retryQueue a))
  end.

Definition needToSync (a : apiResourceWatcher) : bool * apiResourceWatcher :=
  (bool_decide (toSync a = 1%Z), set_toSync 0 a).

Definition refreshAll (discovered : string + list APIResourceList) (a : apiResourceWatcher) :
    option string * apiResourceWatcher :=
  let '(need, a) := needToSync a in
  if negb need then (None, a) else setAPIResources discovered a.

(** What the goroutine of [queueRefresh] does with the answer of the discovery API. *)
Definition finish_refresh (discovered : string + list APIResourceList) (a : apiResourceWatcher) : apiResourceWatcher :=
  let '(err, a) := setAPIResources discovered a in
  match err with Some _ => set_retryQueue true (set_toSync 1 a) | None => a end.

(** [queueRefresh] up to the start of that goroutine. *)
Definition queueRefresh (a : apiResourceWatcher) : apiResourceWatcher := set_toSync 1 a.

Definition List (a : apiResourceWatcher) : list APIResource := apiResources a.

Definition Get (a : apiResourceWatcher) (resource group : string) : option APIResource :=
  if decide (group = "") then resourceMap a !! resource else resourceMap a !! (group +:+ "." +:+ resource).

(** [mapper.KindFor] is answered by the REST mapper. *)
Definition GetKindForResource (KindFor : string * string * string → string + string) (gvr : string * string * string) : string + string :=
  match KindFor gvr with
  | inl err => inl ("failed to look up kind for resource " +:+ gvr.2 +:+ ", " +:+ err)
  | inr kind => inr kind
  end.
End watcher.

(** ** The goroutines

    The state of the watcher together with what is outside of it: the resources that
    the cluster has, the events that the informers have not delivered yet, the
    goroutines that sleep before a refresh, and those that have the answer of the
    discovery API but have not stored it yet. *)
Record watch_state := mkWatch {
  w_watcher : apiResourceWatcher; w_cluster : list APIResourceList; w_undelivered : nat;
  w_sleeping : nat; w_inflight : list (string + list APIResourceList)
}.

Section goroutines.
  Context (StorageVersionHash : string → string → string → string).
  Notation table := (λ d, (setAPIResources StorageVersionHash d WatchAPIResources).2).

(** One atomic step: the cluster changes, an event is delivered ([onAdd], [onUpdate],
    [onDelete]), a goroutine wakes up and finds nothing to do or asks the discovery
    API (which may fail), a goroutine stores its answer, or the retry queue wakes up. *)
Inductive wstep : watch_state → watch_state → Prop :=
  | ws_change a d d' e n q : wstep (mkWatch a d e n q) (mkWatch a d' (S e) n q)
  | ws_event a d e n q : wstep (mkWatch a d (S e) n q) (mkWatch (queueRefresh a) d e (S n) q)
  | ws_idle a d e n q : (needToSync a).1 = false → wstep (mkWatch a d e (S n) q) (mkWatch (needToSync a).2 d e n q)
  | ws_start a d e n q ans : (needToSync a).1 = true → (∀ d', ans = inr d' → d' = d) →
      wstep (mkWatch a d e (S n) q) (mkWatch (needToSync a).2 d e n (q ++ [ans]))
  | ws_finish a d e n q1 ans q2 :
      wstep (mkWatch a d e n (q1 ++ ans :: q2)) (mkWatch (finish_refresh StorageVersionHash ans a) d e n (q1 ++ q2))
  | ws_retry a d e n q : retryQueue a = true →
      wstep (mkWatch a d e n q) (mkWatch (queueRefresh (set_retryQueue false a)) d e (S n) q).

(** At the start the informers deliver an event for each object there is. *)
Definition starting (d : list APIResourceList) (n : nat) : watch_state := mkWatch WatchAPIResources d (S n) 0 [].

(** Nothing is left to do. *)
Definition settled (s : watch_state) : Prop :=
  w_undelivered s = 0 ∧ w_sleeping s = 0 ∧ w_inflight s = [] ∧ retryQueue (w_watcher s) = false.

(** The list is the one for what the cluster has now, and each of its types is found
    under its name.  (Types that the cluster had before may also be found.) *)
Definition up_to_date (s : watch_state) : Prop :=
  List (w_watcher s) = List (table (inr (w_cluster s))) ∧
  resourceMap (table (inr (w_cluster s))) ⊆ resourceMap (w_watcher s).

(** At most one refresh runs at a time. *)
Definition exclusive (s s' : watch_state) : Prop := wstep s s' ∧ length (w_inflight s') ≤ 1.

Lemma add_resources_list group version rs acc m m' :
  (add_resources StorageVersionHash group version rs (acc, m)).1 = (add_resources StorageVersionHash group version rs (acc, m')).1.
Proof. revert acc m m'. induction rs as [|r rs IH]; intros acc m m'; [done|]. apply IH. Qed.

(** The list does not depend on the table that was there. *)
Lemma setAPIResources_list d a : List (setAPIResources StorageVersionHash (inr d) a).2 = List (table (inr d)).
Proof.
  simpl.
  match goal with |- context [fold_left ?g d] => set (G := g) end.
  assert (∀ acc m m', (fold_left G d (acc, m)).1 = (fold_left G d (acc, m')).1) as Hind.
  { induction d as [|r d IH]; intros acc m m'; [done|]. simpl. unfold G at 2 4. case_decide; [apply IH|].
    destruct (groupVersion _) as [g v].
    destruct (add_resources _ g v _ (acc, m)) as [l1 m1] eqn:E1, (add_resources _ g v _ (acc, m')) as [l2 m2] eqn:E2.
    pose proof (add_resources_list g v (rl_APIResources r) acc m m') as Hl. rewrite E1, E2 in Hl. simpl in Hl. subst. apply IH. }
  specialize (Hind [] (resourceMap a) ∅).
  destruct (fold_left G d ([], resourceMap a)), (fold_left G d ([], ∅)). simpl in *. by subst.
Qed.

(** What is found in the table for the cluster alone is found, with the same entry, in the
    one that is kept. *)
Lemma add_resources_sub group version rs acc acc' m m' : m ⊆ m' →
  (add_resources StorageVersionHash group version rs (acc, m)).2 ⊆ (add_resources StorageVersionHash group version rs (acc', m')).2.
Proof. revert acc acc' m m'. induction rs as [|r rs IH]; intros acc acc' m m' Hm; [done|]. apply IH. by apply insert_mono. Qed.

Lemma setAPIResources_map d a : resourceMap (table (inr d)) ⊆ resourceMap (setAPIResources StorageVersionHash (inr d) a).2.
Proof.
  simpl.
  match goal with |- context [fold_left ?g d] => set (G := g) end.
  assert (∀ acc acc' m m', m ⊆ m' → (fold_left G d (acc, m)).2 ⊆ (fold_left G d (acc', m')).2) as Hind.
  { induction d as [|r d IH]; intros acc acc' m m' Hm; [done|]. simpl. unfold G at 2 4. case_decide; [by apply IH|].
    destruct (groupVersion _) as [g v]. pose proof (add_resources_sub g v (rl_APIResources r) acc acc' m m' Hm) as Hsub.
    destruct (add_resources _ g v _ (acc, m)), (add_resources _ g v _ (acc', m')). by apply IH. }
  specialize (Hind [] [] ∅ (resourceMap a) (map_empty_subseteq _)).
  by destruct (fold_left G d ([], resourceMap a)), (fold_left G d ([], ∅)).
Qed.

Lemma setAPIResources_flags d a :
  toSync (setAPIResources StorageVersionHash d a).2 = toSync a ∧ retryQueue (setAPIResources StorageVersionHash d a).2 = retryQueue a.
Proof. destruct d as [|d]; [done|]. simpl. by destruct (fold_left _ d _). Qed.

Lemma finish_inr d a : finish_refresh StorageVersionHash (inr d) a = (setAPIResources StorageVersionHash (inr d) a).2.
Proof. unfold finish_refresh. simpl. by destruct (fold_left _ d _). Qed.

(** ** No refresh is lost *)
Definition scheduled (s : watch_state) : Prop :=
  toSync (w_watcher s) = 1%Z → 0 < w_sleeping s ∨ retryQueue (w_watcher s) = true.

Lemma scheduled_step s s' : wstep s s' → scheduled s → scheduled s'.
Proof.
  unfold scheduled. destruct 1 as [| | | |a d e n q1 [err|d'] q2|]; simpl; intros Hs.
  - done.
  - intros _; left; lia.
  - done.
  - done.
  - intros _. by right.
  - rewrite finish_inr. destruct (setAPIResources_flags (inr d') a) as [-> ->]. done.
  - intros _; left; lia.
Qed.

(** ** The table is fresh unless something is left to do *)
Definition fresh (s : watch_state) : Prop :=
  0 < w_undelivered s ∨ toSync (w_watcher s) = 1%Z ∨ (∃ err, w_inflight s = [inl err]) ∨
  w_inflight s = [inr (w_cluster s)] ∨ (w_inflight s = [] ∧ up_to_date s).

Lemma fresh_step s s' : exclusive s s' → fresh s → fresh s'.
Proof.
  intros [Hst Hlen]. unfold fresh, up_to_date. destruct Hst as [| |a d e n q Hneed|a d e n q ans Hneed Hans|a d e n q1 ans q2|]; simpl in *.
  - intros _. left; lia.
  - intros _. by right; left.
  - apply bool_decide_eq_false in Hneed. intros [?|[?|[?|[?|?]]]]; [by left|done|..]; right; right; auto.
  - intros _. right; right. rewrite length_app in Hlen. simpl in Hlen. assert (q = []) as -> by (apply length_zero_iff_nil; lia).
    destruct ans as [err|d']; [left; eauto|right; left]. simpl. by rewrite (Hans d').
  - destruct ans as [err|d']; [intros _; by right; left|]. rewrite finish_inr.
    destruct (setAPIResources_flags (inr d') a) as [-> _].
    intros [?|[?|[[err Hq]|[Hq|[Hq _]]]]]; [by left|by right; left|exfalso|right; right; right; right|exfalso].
    + by destruct q1 as [|? [|]]; simplify_eq/=.
    + destruct q1 as [|? [|]]; simplify_eq/=. split_and!; [done|apply setAPIResources_list|apply setAPIResources_map].
    + by destruct q1; simplify_eq/=.
  - intros _. by right; left.
Qed.

Lemma watch_invariant s0 s : scheduled s0 → fresh s0 → rtc exclusive s0 s → scheduled s ∧ fresh s.
Proof.
  intros H1 H2 Hr. induction Hr as [|s1 s2 s3 Hst _ IH]; [done|].
  apply IH; [by eapply scheduled_step; [apply Hst|]|by eapply fresh_step].
Qed.

Lemma settled_fresh s : scheduled s → fresh s → settled s → up_to_date s.
Proof.
  intros Hsc Hfr (He & Hn & Hq & Hr). destruct Hfr as [?|[Ht|[[err Hi]|[Hi|[_ ?]]]]]; [lia| |congruence|congruence|done].
  destruct (Hsc Ht); [lia|congruence].
Qed.

(** ** Every listed resource can be looked up *)
Definition covered (a : apiResourceWatcher) : Prop :=
  ∀ r, r ∈ List a → ∃ r', r' ∈ List a ∧ ar_Name r' = ar_Name r ∧ resourceMap a !! ar_Name r = Some r'.

Lemma covered_insert t rs m r q : covered (mkWatcher t rs m q) → covered (mkWatcher t (rs ++ [r]) (<[ar_Name r := r]> m) q).
Proof.
  unfold covered. simpl. intros Hc x Hx. destruct (decide (ar_Name x = ar_Name r)) as [->|Hne].
  - exists r. rewrite lookup_insert_eq, elem_of_app, list_elem_of_singleton. auto.
  - apply elem_of_app in Hx as [Hx|Hx%list_elem_of_singleton]; [|congruence]. destruct (Hc x Hx) as (r' & ? & ? & ?).
    exists r'. rewrite lookup_insert_ne by done. rewrite elem_of_app. auto.
Qed.

Lemma setAPIResources_covered d a : covered a → covered (setAPIResources StorageVersionHash d a).2.
Proof.
  destruct d as [err|d]; [done|]. intros _. simpl.
  match goal with |- context [fold_left ?g d] => set (G := g) end.
  assert (∀ t q acc, covered (mkWatcher t acc.1 acc.2 q) → covered (mkWatcher t (fold_left G d acc).1 (fold_left G d acc).2 q)) as Hind.
  { intros t q. induction d as [|r d IH]; intros acc Hc; [done|]. simpl. apply IH. unfold G. case_decide; [done|].
    destruct (groupVersion _) as [g v]. unfold add_resources. revert acc Hc.
    induction (rl_APIResources r) as [|x xs IHx]; intros [l m] Hc; [done|]. apply IHx. by apply covered_insert. }
  specialize (Hind (toSync a) (retryQueue a) ([], resourceMap a)). destruct (fold_left G d _) as [l m]. apply Hind.
  by intros r ?%elem_of_nil.
Qed.

Lemma finish_covered ans a : covered a → covered (finish_refresh StorageVersionHash ans a).
Proof. intros Hc. destruct ans as [err|d]; [done|]. rewrite finish_inr. by apply setAPIResources_covered. Qed.

Lemma covered_step s s' : wstep s s' → covered (w_watcher s) → covered (w_watcher s').
Proof. destruct 1; try done. apply finish_covered. Qed.

Lemma covered_reachable s s' : rtc wstep s s' → covered (w_watcher s) → covered (w_watcher s').
Proof. induction 1; eauto using covered_step. Qed.

(** Entries are never removed from the table that [Get] consults. *)
Lemma add_resources_mono group version rs acc k : is_Some (acc.2 !! k) →
  is_Some ((add_resources StorageVersionHash group version rs acc).2 !! k).
Proof.
  unfold add_resources. revert acc. induction rs as [|r rs IH]; intros [l m] Hk; [done|]. apply IH. cbn -[apiResource] in *.
  destruct (decide (ar_Name (apiResource StorageVersionHash group version r) = k)) as [->|?];
    [rewrite lookup_insert_eq; eauto|by rewrite lookup_insert_ne].
Qed.

Lemma setAPIResources_mono d a k : is_Some (resourceMap a !! k) →
  is_Some (resourceMap (setAPIResources StorageVersionHash d a).2 !! k).
Proof.
  destruct d as [err|d]; [done|]. simpl.
  match goal with |- context [fold_left ?g d] => set (G := g) end. intros Hk.
  assert (∀ acc, is_Some (acc.2 !! k) → is_Some ((fold_left G d acc).2 !! k)) as Hind.
  { induction d as [|r d IH]; intros acc Hacc; [done|]. simpl. apply IH. unfold G. case_decide; [done|].
    destruct (groupVersion _) as [g v]. by apply add_resources_mono. }
  specialize (Hind ([], resourceMap a) Hk). by destruct (fold_left G d _).
Qed.

(** ** Progress: while something is left to do, a step brings the end nearer *)
Definition waiting (ans : string + list APIResourceList) : nat := match ans with inl _ => 4 | inr _ => 1 end.

Definition remaining (s : watch_state) : nat :=
  3 * w_undelivered s + 2 * w_sleeping s + (if retryQueue (w_watcher s) then 3 else 0) + sum_list (waiting <$> w_inflight s).

Lemma progress s : length (w_inflight s) ≤ 1 → settled s ∨ ∃ s', exclusive s s' ∧ remaining s' < remaining s ∧ w_cluster s' = w_cluster s.
Proof.
  destruct s as [a d e n q]. simpl. intros Hlen. destruct q as [|ans [|]]; [|right|simpl in Hlen; lia].
  - destruct e as [|e]; [|right; eexists; split; [by split; [apply ws_event|]|unfold remaining; simpl; split; [lia|done]]].
    destruct n as [|n].
    + destruct (retryQueue a) eqn:Hr; [right|by left].
      eexists; split; [split; [by apply ws_retry|done]|]. unfold remaining. simpl. rewrite Hr. split; [lia|done].
    + right. destruct (needToSync a).1 eqn:Hneed.
      * eexists; split; [split; [apply (ws_start a d 0 n [] (inr d)); [done|by intros ? [= ->]]|simpl; lia]|].
        unfold remaining. simpl. split; [lia|done].
      * eexists; split; [split; [by apply ws_idle|done]|]. unfold remaining. simpl. split; [lia|done].
  - eexists; split; [split; [apply (ws_finish a d e n [] ans [])|simpl; lia]|]. unfold remaining. simpl.
    destruct ans as [err|d']; simpl.
    + destruct (retryQueue a); split; (lia || done).
    + rewrite finish_inr. destruct (setAPIResources_flags (inr d') a) as [_ ->]. simpl. split; [lia|done].
Qed.

Lemma settles s : length (w_inflight s) ≤ 1 → ∃ s', rtc exclusive s s' ∧ settled s' ∧ w_cluster s' = w_cluster s.
Proof.
  induction s as [s IH] using (induction_ltof1 _ remaining). intros Hlen.
  destruct (progress s Hlen) as [?|(s1 & Hst & Hlt & Hd)]; [by exists s|].
  destruct (IH s1 Hlt) as (s' & Hr & Hs & Hd'); [by destruct Hst|].
  exists s'. split; [by eapply rtc_l|]. split; congruence.
Qed.
End goroutines.
