(* ===== verification/TreeApi.v ===== *)
(** * The aggregated API server: lists of subtrees (internal/apiextension/handlers)

    A request for a resource in a namespace is answered with the objects of that
    namespace and of all its descendants, which are found by their tree labels.  What a
    handler does to the HTTP response is a list of [httpOp]s.  The lists of the
    namespaces are fetched concurrently: [gathered] is the relation of what the
    collecting goroutines may end up with.  The options in the query (limits and selectors
    among them) are passed on to every request.  The clients of the Kubernetes API, the
    parser of label selectors, the decoder of queries and the JSON decoder are parameters. *)

From Stdlib Require Import Ascii String.
From S2P Require Import Prelude GoStrings Api Discovery.

Definition allowedCNKey : string := "requestheader-allowed-names".
Definition workers : nat := 3.
Definition hnsLabelSuffix : string := ".tree.hnc.x-k8s.io/depth".

Definition StatusUnauthorized : Z := 401.
Definition StatusNotFound : Z := 404.
Definition StatusInternalServerError : Z := 500.

(** [strconv.Atoi] with its error. *)
Definition Atoi_checked (s : string) : option Z :=
  let unsigned t := match t with EmptyString => None | _ => digits 0 t end in
  let value := match s with
    | String "-" t => Z.opp <$> unsigned t
    | String "+" t => unsigned t
    | _ => unsigned s
    end in
  match value with
  | Some z => if decide (int64_min ≤ z ≤ int64_max)%Z then Some z else None
  | None => None
  end.

(** An error of the API server; [apierrors.IsNotFound] also sees through wrapping. *)
Record serverError := mkServerError { se_msg : string; se_notFound : bool }.

(** A row of a table answer; the objects of the rows are included. *)
Record tableRow := mkRow { row_object : Unstructured; row_cells : string }.

(** The answer to a list request: [Items], [Object["rows"]], [Object["columnDefinitions"]],
    the resource version, and the token with which the client can ask for the rest if the
    answer is only a part. *)
Record unstructuredList := mkUList {
  ul_Items : list Unstructured; ul_rows : list tableRow; ul_columns : option string; ul_ResourceVersion : string;
  ul_Continue : string
}.

(** [metav1.ListOptions] *)
Record ListOptions := mkListOptions {
  lo_LabelSelector : string; lo_FieldSelector : string; lo_Watch : bool; lo_AllowWatchBookmarks : bool;
  lo_ResourceVersion : string; lo_ResourceVersionMatch : string; lo_TimeoutSeconds : option Z;
  lo_Limit : Z; lo_Continue : string
}.
Definition noOptions : ListOptions := mkListOptions "" "" false false "" "" None 0 "".
Definition limit_to (n : Z) : ListOptions := mkListOptions "" "" false false "" "" None n "".

(** What the handler writes: its answers have a resource version and no token to continue. *)
Inductive responseBody :=
  | ListBody (gvr : string * string * string) (kind resourceVersion : string) (items : list Unstructured)
  | TableBody (resourceVersion : string) (columns : option string) (rows : list tableRow).

(** What a handler does: answer with an error, with JSON, with the list of the API server as it is, start to forward the events of
    watches (each on one namespace or on all), or call the next handler. *)
Inductive httpOp :=
  | HttpError (msg : string) (code : Z)
  | WriteJson (body : responseBody)
  | ForwardJson (answer : unstructuredList)
  | Watching (opts : ListOptions) (scopes : list (option string))
  | ServeNext.

(** The dynamic client for one resource; [None] stands for all namespaces. *)
Record resourceClient := mkClient {
  rc_List : ListOptions → option string → serverError + option unstructuredList;
  rc_Watch : ListOptions → option string → option serverError
}.

Definition isErrorAndHandleError (e : serverError) : list httpOp :=
  [HttpError (se_msg e) (if se_notFound e then StatusNotFound else StatusInternalServerError)].

(** ** Media types (clients/tableclient.go) *)

(** [AllowsMediaTypeTransform]: the target of the conversion, if one is asked for. *)
Definition AllowsMediaTypeTransform (mimeType mimeSubType : string) (gvk : option GroupVersionKind) : bool :=
  if decide (mimeType ≠ "application") then false
  else if decide (mimeSubType ≠ "json") then false
  else match gvk with
       | None => true
       | Some g => bool_decide (Kind g = "" ∨ Kind g = "Table")
       end.

(** The Accept header and the query of the requests to the API server. *)
Definition roundTripper (mediaType : string) (convert : option GroupVersionKind) : string * gmap string string :=
  match convert with
  | None => (mediaType, ∅)
  | Some g =>
      (mediaType +:+ (if decide (Kind g ≠ "") then ";as=" +:+ Kind g else "") +:+
         (if decide (Version g ≠ "") then ";v=" +:+ Version g else "") +:+ (if decide (Group g ≠ "") then ";g=" +:+ Group g else ""),
       if decide (Kind g = "Table") then {["includeObject" := "Object"]} else ∅)
  end.

(** ** Authentication *)
Section authentication.
  (** [json.Unmarshal] into a list of strings. *)
  Context (Unmarshal : string → string + list string).

(** The common names of the client certificates and the extension's config map. *)
Definition AuthenticateMiddleware (peers : list string) (config : string + gmap string string) : list httpOp :=
  match peers with
  | [] => [HttpError "user is not authenticated" StatusUnauthorized]
  | requestCN :: _ =>
      match config with
      | inl err => [HttpError ("could not authenticate API server, error: " +:+ err) StatusInternalServerError]
      | inr data =>
          let invalid := match data !! allowedCNKey with
            | Some _ => []
            | None => [HttpError "could not authenticate API server, invalid extension config" StatusInternalServerError]
            end in
          invalid ++
          match Unmarshal (sget data allowedCNKey) with
          | inl err => [HttpError ("could not authenticate API server, error: " +:+ err) StatusInternalServerError]
          | inr allowedCN =>
              if bool_decide (requestCN ∈ allowedCN) then [ServeNext]
              else [HttpError ("user " +:+ requestCN +:+ " not allowed") StatusUnauthorized]
          end
      end
  end.
End authentication.

(** ** Requests *)

(** [groupResource[:len-1]] and [groupResource[len-1]] *)
Definition gvrFromVars (apis : apiResourceWatcher) (resource : string) : string + (string * string * string) :=
  let groupResource := Split resource "."%char in
  let group := if decide (1 < List.length groupResource) then Join (removelast groupResource) "." else "" in
  let resourceName := default "" (last groupResource) in
  match Get apis resourceName group with
  | None => inl ("could not find resource " +:+ resource)
  | Some r => inr (group, ar_Version r, resourceName)
  end.

(** [None] stands for no namespace: the watch covers all of them. *)
Definition getWatchers (client : resourceClient) (namespaces : list string) (opts : ListOptions) : serverError + list (option string) :=
  match namespaces with
  | [] => match rc_Watch client opts None with Some err => inl err | None => inr [None] end
  | _ =>
      foldr (λ ns rest,
        match rc_Watch client opts (Some ns) with
        | Some err => inl err
        | None => match rest with inl err => inl err | inr ws => inr (Some ns :: ws) end
        end) (inr []) namespaces
  end.

(** ** Sorting *)
Definition object_key (o : Unstructured) : string * string := (om_Namespace (u_Meta o), om_Name (u_Meta o)).

(** The functions that [sort.Slice] gets: the namespace first, then the name. *)
Definition key_less (a b : string * string) : bool :=
  if decide (a.1 ≠ b.1) then String.ltb a.1 b.1 else String.ltb a.2 b.2.

Definition item_le (x y : Unstructured) : Prop := key_less (object_key y) (object_key x) = false.
Definition row_le (x y : tableRow) : Prop := item_le (row_object x) (row_object y).

(** [sort.Slice] puts the elements in some order in which none is less than one before
    it; the order of elements with equal keys is not specified. *)
Definition sortItems (items sorted : list Unstructured) : Prop := sorted ≡ₚ items ∧ StronglySorted item_le sorted.
Definition sortRows (rows sorted : list tableRow) : Prop := sorted ≡ₚ rows ∧ StronglySorted row_le sorted.

(** ** Lists *)

(** What a collecting goroutine receives from several senders: the elements of each
    sender in its order. *)
Inductive interleaving {A} : list (list A) → list A → Prop :=
  | int_done ls : Forall (.= []) ls → interleaving ls []
  | int_next ls1 x l ls2 out : interleaving (ls1 ++ l :: ls2) out → interleaving (ls1 ++ (x :: l) :: ls2) (x :: out).

(** The resource version that the goroutine of one namespace sends, if any. *)
Definition sent_version (a : unstructuredList) : list Z :=
  if decide (0 < List.length (ul_Items a) ∨ 0 < List.length (ul_rows a)) then [default 0%Z (Atoi_checked (ul_ResourceVersion a))] else [].

Definition latest_version (rvs : list Z) : Z :=
  fold_left (λ latest r, if decide (latest < r)%Z then r else latest) rvs 0%Z.

(** What is collected from the answers: items, rows, the latest resource version, and the
    columns that some namespace wrote last. *)
Definition gathered (answers : list unstructuredList) (items : list Unstructured) (rows : list tableRow)
    (latest : Z) (columns : option string) : Prop :=
  interleaving (ul_Items <$> answers) items ∧ interleaving (ul_rows <$> answers) rows ∧
  (∃ rvs, interleaving (sent_version <$> answers) rvs ∧ latest = latest_version rvs) ∧
  (answers = [] ∧ columns = None ∨ ∃ a, a ∈ answers ∧ columns = ul_columns a).

Section handlers.
  (** [apis.GetKindForResource] *)
  Context (kindFor : string * string * string → serverError + string).

(** A list of at most one object, for its resource version; a nil list panics. *)
Definition emptyResourceVersion (client : resourceClient) (gvr : string * string * string) : outcome (serverError + string) :=
  match rc_List client (limit_to 1) None with
  | inl e => Done (inl (mkServerError ("failed to get resource version for resource " +:+ gvr.2 +:+ ": " +:+ se_msg e) (se_notFound e)))
  | inr None => Panics
  | inr (Some l) => Done (inr (ul_ResourceVersion l))
  end.

(** The end of [listHandler], on the sorted items and rows. *)
Definition respond (gvr : string * string * string) (client : resourceClient) (items : list Unstructured)
    (rows : list tableRow) (latest : Z) (columns : option string) : outcome (list httpOp) :=
  let rv := ItoaZ latest in
  match (if decide (rv = "0") then emptyResourceVersion client gvr else Done (inr rv)) with
  | Done (inl err) => Done (isErrorAndHandleError err)
  | Done (inr rv) =>
      match rows with
      | _ :: _ => Done [WriteJson (TableBody rv columns rows)]
      | [] =>
          match kindFor gvr with
          | inl err => Done (isErrorAndHandleError err)
          | inr kind => Done [WriteJson (ListBody gvr (kind +:+ "List") rv items)]
          end
      end
  | Panics => Panics
  | Diverges => Diverges
  end.

(** All the lists succeed; or one fails, and its error is reported; or one fails while
    the loop waits for a free worker, and the cancellation is reported. *)
Inductive listHandler (gvr : string * string * string) (client : resourceClient) (namespaces : list string) (opts : ListOptions) :
    outcome (list httpOp) → Prop :=
  | lh_respond answers items rows latest columns sortedItems sortedRows :
      Forall2 (λ ns a, rc_List client opts (Some ns) = inr a) namespaces answers →
      gathered (omap id answers) items rows latest columns →
      sortItems items sortedItems → sortRows rows sortedRows →
      listHandler gvr client namespaces opts (respond gvr client sortedItems sortedRows latest columns)
  | lh_error ns err : ns ∈ namespaces → rc_List client opts (Some ns) = inl err →
      listHandler gvr client namespaces opts (Done (isErrorAndHandleError err))
  | lh_cancelled ns err : ns ∈ namespaces → rc_List client opts (Some ns) = inl err → workers < List.length namespaces →
      listHandler gvr client namespaces opts (Done [HttpError "context canceled" StatusInternalServerError]).

(** [labels.Parse] and the match of a selector, of the label library; [DecodeParameters] of
    the parameter codec on the query (the handlers drop its error); the cached namespaces
    with their labels. *)
Context (Parse : string → string + (gmap string string → bool)) (DecodeParameters : list (string * string) → ListOptions).

Definition tree_namespaces (sel : gmap string string → bool) (namespaceCache : list (string * gmap string string)) : list string :=
  (filter (λ n, sel n.2 = true) namespaceCache).*1.

Definition NamespaceHandler (apis : apiResourceWatcher) (clientGetter : string * string * string → string + resourceClient)
    (namespaceCache : string + list (string * gmap string string)) (namespace resource : string) (query : list (string * string))
    (ops : outcome (list httpOp)) : Prop :=
  match gvrFromVars apis resource with
  | inl err => ops = Done [HttpError err StatusNotFound]
  | inr gvr =>
      match clientGetter gvr with
      | inl err => ops = Done [HttpError err StatusInternalServerError]
      | inr client =>
          let opts := DecodeParameters query in
          match Parse (namespace +:+ hnsLabelSuffix) with
          | inl err => ops = Done [HttpError err StatusInternalServerError]
          | inr selector =>
              match namespaceCache with
              | inl err => ops = Done [HttpError err StatusInternalServerError]
              | inr cache =>
                  let namespaces := tree_namespaces selector cache in
                  if lo_Watch opts then
                    match getWatchers client namespaces opts with
                    | inl err => ops = Done [HttpError (se_msg err) StatusNotFound]
                    | inr watchers => ops = Done [Watching opts watchers]
                    end
                  else listHandler gvr client namespaces opts ops
              end
          end
      end
  end.

(** Requests that name no namespace; the content of a nil list panics. *)
Definition Forwarder (apis : apiResourceWatcher) (clientGetter : string * string * string → string + resourceClient)
    (resource : string) (query : list (string * string)) : outcome (list httpOp) :=
  match gvrFromVars apis resource with
  | inl err => Done [HttpError err StatusNotFound]
  | inr gvr =>
      match clientGetter gvr with
      | inl err => Done [HttpError err StatusInternalServerError]
      | inr client =>
          let opts := DecodeParameters query in
          if lo_Watch opts then
            match getWatchers client [] opts with
            | inl err => Done (isErrorAndHandleError err)
            | inr watchers => Done [Watching opts watchers]
            end
          else
            match rc_List client opts None with
            | inl err => Done (isErrorAndHandleError err)
            | inr None => Panics
            | inr (Some l) => Done [ForwardJson l]
            end
      end
  end.
End handlers.

(** ** Names of resources *)
(** A resource under its group, as the watcher names it. *)
Definition qualified (group name : string) : string := if decide (group = "") then name else group +:+ "." +:+ name.

Lemma gvrFromVars_lookup apis nm r : HasPrefix nm "." = false → resourceMap apis !! nm = Some r →
  ∃ group name, gvrFromVars apis nm = inr (group, ar_Version r, name) ∧ qualified group name = nm.
Proof.
  intros Hp Hr. unfold gvrFromVars, Get, qualified.
  pose proof (Join_Split nm "."%char) as Hj. destruct (Split_cons nm "."%char) as (w & ws & Hs). rewrite Hs in *.
  destruct (decide (1 < List.length (w :: ws))) as [Hlen|Hlen].
  - rewrite (Join_removelast (w :: ws)) in Hj by done.
    assert (Join (removelast (w :: ws)) "." ≠ "") as Hne.
    { destruct ws as [|x ws]; [simpl in Hlen; lia|]. intros He. rewrite He in Hj.
      apply not_true_iff_false in Hp. apply Hp, string_prefix_spec. rewrite <- Hj. by eexists. }
    rewrite decide_False by done. eexists _, _. rewrite decide_False by done. rewrite Hj, Hr. done.
  - destruct ws as [|x ws]; [|simpl in Hlen; lia]. simpl in *. subst. rewrite Hr. eexists _, _. by rewrite decide_True.
Qed.

(** ** What the collecting goroutines receive *)
Lemma interleaving_perm {A} (ls : list (list A)) out : interleaving ls out → out ≡ₚ concat ls.
Proof.
  induction 1 as [ls Hnil|ls1 x l ls2 out _ IH].
  - induction Hnil as [|? ls -> _ IH]; [done|]. by rewrite <- IH.
  - rewrite IH, !concat_app, !concat_cons. by rewrite <- app_comm_cons, Permutation_middle.
Qed.

Lemma interleaving_elem {A} (ls : list (list A)) out x : interleaving ls out → x ∈ out ↔ ∃ l, l ∈ ls ∧ x ∈ l.
Proof.
  intros ->%interleaving_perm. induction ls as [|l ls IH]; simpl.
  - split; [by intros ?%elem_of_nil|by intros (? & ?%elem_of_nil & _)].
  - rewrite elem_of_app, IH. setoid_rewrite elem_of_cons. naive_solver.
Qed.

(** One schedule: the senders run one after the other. *)
Lemma interleaving_concat {A} (ls : list (list A)) : interleaving ls (concat ls).
Proof.
  assert (∀ done rest, Forall (.= []) done → interleaving (done ++ rest) (concat (A:=A) rest)) as Hgen; [|by apply (Hgen [])].
  intros dn rest. revert dn. induction rest as [|l rest IH]; intros dn Hd.
  - constructor. by rewrite app_nil_r.
  - simpl. induction l as [|x l IHl]; [|by apply int_next].
    simpl. rewrite cons_middle, app_assoc. apply IH. by apply Forall_app; split; [|constructor].
Qed.

Lemma concat_elem {A} (ls : list (list A)) x : x ∈ concat ls ↔ ∃ l, l ∈ ls ∧ x ∈ l.
Proof. apply interleaving_elem, interleaving_concat. Qed.

(** ** Sorting *)
Lemma key_less_antisym a b : key_less a b = false → key_less b a = false → a = b.
Proof.
  unfold key_less. destruct a as [a1 a2], b as [b1 b2]. simpl.
  destruct (decide (a1 = b1)) as [->|Hne].
  - rewrite !(decide_False (P:=_ ≠ _)) by auto. intros H1%ltb_ge H2%ltb_ge. f_equal. by apply (anti_symm String.le).
  - rewrite !(decide_True (P:=_ ≠ _)) by auto. intros H1%ltb_ge H2%ltb_ge. destruct Hne. by apply (anti_symm String.le).
Qed.

(** Items with distinct names have only one sorted order. *)
Lemma sorted_unique l1 l2 out1 out2 : l1 ≡ₚ l2 → NoDup (object_key <$> l1) →
  sortItems l1 out1 → sortItems l2 out2 → out1 = out2.
Proof.
  intros Hl Hnd [Hp1 Hs1] [Hp2 Hs2]. apply (StronglySorted_unique_strong item_le); [|done|done|by rewrite Hp1, Hp2].
  intros x y Hx Hy Hxy Hyx. assert (object_key x = object_key y) as Hk by (by apply key_less_antisym).
  rewrite Hp1 in Hx. rewrite Hp2, <- Hl in Hy.
  apply list_elem_of_lookup in Hx as [i Hi], Hy as [j Hj].
  assert (i = j) as ->; [|congruence].
  eapply NoDup_lookup; [exact Hnd|by rewrite list_lookup_fmap, Hi|by rewrite list_lookup_fmap, Hj, Hk].
Qed.

Lemma latest_version_max rvs : (0 ≤ latest_version rvs)%Z ∧ (∀ r, r ∈ rvs → r ≤ latest_version rvs)%Z ∧
  (latest_version rvs = 0%Z ∨ latest_version rvs ∈ rvs).
Proof.
  unfold latest_version.
  assert (∀ acc, (acc ≤ fold_left (λ latest r, if decide (latest < r)%Z then r else latest) rvs acc)%Z ∧
    (∀ r, r ∈ rvs → r ≤ fold_left (λ latest r, if decide (latest < r)%Z then r else latest) rvs acc)%Z ∧
    (fold_left (λ latest r, if decide (latest < r)%Z then r else latest) rvs acc = acc ∨
     fold_left (λ latest r, if decide (latest < r)%Z then r else latest) rvs acc ∈ rvs)) as Hgen; [|apply Hgen].
  induction rvs as [|r rvs IH]; intros acc; simpl; [split; [lia|split; [by intros ? ?%elem_of_nil|by left]]|].
  destruct (IH (if decide (acc < r)%Z then r else acc)) as (H1 & H2 & H3).
  setoid_rewrite elem_of_cons. case_decide; split_and!; try lia; try (intros ? [->|?]; [lia|auto]); naive_solver.
Qed.
