(* ===== verification/TreeWatch.v ===== *)
(** * The aggregated API server: watches of subtrees (internal/apiextension/handlers)

    [watchHandler] merges the watches of several namespaces into one response.  It runs one goroutine per watch (in an
    error group, whose context ends with the request or with the first error), one goroutine that writes to the response,
    and the handler itself, which waits for the group, closes the channel of events and waits for the writer.  Here each
    of them is a small state machine and [wh_step] interleaves them; the channels have no buffer, so that a send and its
    receive are one step.  The conversion of events to the wire format and the JSON encoder are parameters. *)

From S2P Require Import Prelude GoStrings Api Discovery TreeApi.

Section watch_handler.
  (** [watch.Event], which [metav1.InternalEvent] renames, and [metav1.WatchEvent]. *)
  Context {Event WatchEvent : Type}.
  Context (Convert : Event → string + WatchEvent).

Definition convertEvent (event : Event) : string + WatchEvent :=
  match Convert event with
  | inl err => inl err
  | inr outEvent => inr outEvent
  end.

(** What is done to the [http.ResponseWriter]. *)
Inductive responseOp :=
  | SetHeader (k v : string)
  | WriteBytes (b : string)
  | WriteError (msg : string) (code : Z)
  | FlushOp.

(** The calls on the response, in their order: the header and the events of the writing goroutine, the error of the
    handler. *)
Inductive call := Header | Forwarded (e : WatchEvent) | Failed (msg : string).

Section responses.
  (** [json.Marshal] *)
  Context (Marshal : WatchEvent → string + string).

Definition returnResp (resp : WatchEvent) : list responseOp :=
  match Marshal resp with
  | inl err => [WriteError err StatusInternalServerError]
  | inr resourceJSON => [WriteBytes resourceJSON; WriteBytes nl]
  end.

Definition ops_of (c : call) : list responseOp :=
  match c with
  | Header => [SetHeader "Content-Type" "application/json"]
  | Forwarded e => returnResp e ++ [FlushOp]
  | Failed msg => [WriteError msg StatusInternalServerError]
  end.
End responses.

(** A goroutine of the group, with the events that its watch has still to deliver: in [select], blocked in the send of an
    event, or returned. *)
Inductive watcher :=
  | Listening (rest : list Event)
  | Sending (e : WatchEvent) (rest : list Event)
  | Stopped.

(** The goroutine that writes: before it sets the header, in [range events], with an event that it has received, at the
    send on [doneEvents], and after it. *)
Inductive writer := Starting | Receiving | Writing (e : WatchEvent) | Signalling | Finished.

(** The handler: in [eg.Wait], before [close(events)], at the receive from [doneEvents], and returned. *)
Inductive handler := Waiting | Closing | Awaiting | Returned.

(** A watch delivers some events; then its channel is closed, or it stays open. *)
Record source := mkSource { src_events : list Event; src_closes : bool }.

Record whState := mkWh {
  wh_watchers : list watcher;
  wh_writer : writer;
  wh_handler : handler;
  wh_left : bool;             (* the client has disconnected *)
  wh_err : option string;     (* the first error of the group *)
  wh_calls : list call;
  wh_log : list string
}.

Definition wh_start (sources : list source) : whState :=
  mkWh ((λ s, Listening (src_events s)) <$> sources) Starting Waiting false None [] [].

(** [ctx.Done()] while the group runs. *)
Definition ctx_done (left : bool) (err : option string) : Prop := left = true ∨ is_Some err.

Definition first_error (old : option string) (new : string) : option string := Some (default new old).

Inductive wh_step (sources : list source) : whState → whState → Prop :=
  | wh_receive i ws event outEvent rest wr left err cs lg :
      ws !! i = Some (Listening (event :: rest)) → convertEvent event = inr outEvent →
      wh_step sources (mkWh ws wr Waiting left err cs lg)
        (mkWh (<[i := Sending outEvent rest]> ws) wr Waiting left err cs lg)
  | wh_fail i ws event msg rest wr left err cs lg :
      ws !! i = Some (Listening (event :: rest)) → convertEvent event = inl msg →
      wh_step sources (mkWh ws wr Waiting left err cs lg)
        (mkWh (<[i := Stopped]> ws) wr Waiting left (first_error err msg) cs lg)
  | wh_closed i ws s wr left err cs lg :
      ws !! i = Some (Listening []) → sources !! i = Some s → src_closes s = true →
      wh_step sources (mkWh ws wr Waiting left err cs lg) (mkWh (<[i := Stopped]> ws) wr Waiting left err cs lg)
  | wh_cancelled i ws rest wr left err cs lg :
      ws !! i = Some (Listening rest) → ctx_done left err →
      wh_step sources (mkWh ws wr Waiting left err cs lg) (mkWh (<[i := Stopped]> ws) wr Waiting left err cs lg)
  | wh_send i ws e rest left err cs lg :
      ws !! i = Some (Sending e rest) →
      wh_step sources (mkWh ws Receiving Waiting left err cs lg)
        (mkWh (<[i := Listening rest]> ws) (Writing e) Waiting left err cs lg)
  | wh_header ws h left err cs lg :
      wh_step sources (mkWh ws Starting h left err cs lg) (mkWh ws Receiving h left err (cs ++ [Header]) lg)
  | wh_write ws e h left err cs lg :
      wh_step sources (mkWh ws (Writing e) h left err cs lg) (mkWh ws Receiving h left err (cs ++ [Forwarded e]) lg)
  | wh_waited ws wr left err cs lg :
      (* [Wait] cancels the context of the group, so that the test of [ctx.Err()] always holds *)
      Forall (.= Stopped) ws →
      wh_step sources (mkWh ws wr Waiting left err cs lg)
        (mkWh ws wr Closing left err (cs ++ match err with Some msg => [Failed msg] | None => [] end)
          (lg ++ ["client disconnected"]))
  | wh_close ws wr left err cs lg :
      wh_step sources (mkWh ws wr Closing left err cs lg) (mkWh ws wr Awaiting left err cs lg)
  | wh_drained ws left err cs lg :
      wh_step sources (mkWh ws Receiving Awaiting left err cs lg) (mkWh ws Signalling Awaiting left err cs lg)
  | wh_done ws left err cs lg :
      wh_step sources (mkWh ws Signalling Awaiting left err cs lg) (mkWh ws Finished Returned left err cs lg)
  | wh_leave ws wr err cs lg :
      (* the client goes away; after [eg.Wait] nothing looks at it *)
      wh_step sources (mkWh ws wr Waiting false err cs lg) (mkWh ws wr Waiting true err cs lg).

(** ** What is written *)
Definition forwarded (cs : list call) : list WatchEvent := omap (λ c, match c with Forwarded e => Some e | _ => None end) cs.
Definition failures (cs : list call) : list string := omap (λ c, match c with Failed m => Some m | _ => None end) cs.
Definition in_hand (w : writer) : list WatchEvent := match w with Writing e => [e] | _ => [] end.

Lemma forwarded_app c1 c2 : forwarded (c1 ++ c2) = forwarded c1 ++ forwarded c2.
Proof. apply omap_app. Qed.
Lemma failures_app c1 c2 : failures (c1 ++ c2) = failures c1 ++ failures c2.
Proof. apply omap_app. Qed.

(** The events of a list, converted. *)
Definition converted (events : list Event) (out : list WatchEvent) : Prop :=
  Forall2 (λ event e, convertEvent event = inr e) events out.

(** What a goroutine has sent of the events of its watch, and where it stands. *)
Definition delivered (left : bool) (err : option string) (s : source) (w : watcher) (sent : list WatchEvent) : Prop :=
  ∃ before rest, src_events s = before ++ rest ∧ converted before sent ∧
    match w with
    | Listening rest' => rest = rest'
    | Sending e rest' => ∃ event, rest = event :: rest' ∧ convertEvent event = inr e
    | Stopped => rest = [] ∧ src_closes s = true ∨ ctx_done left err
    end.

(** The invariant of the handler. *)
Record wh_inv (sources : list source) (s : whState) (sent : list (list WatchEvent)) : Prop := {
  wi_sent : Forall3 (delivered (wh_left s) (wh_err s)) sources (wh_watchers s) sent;
  wi_order : interleaving sent (forwarded (wh_calls s) ++ in_hand (wh_writer s));
  wi_err : ∀ msg, wh_err s = Some msg → ∃ src event, src ∈ sources ∧ event ∈ src_events src ∧ convertEvent event = inl msg;
  wi_failures : failures (wh_calls s) = match wh_handler s with Waiting => [] | _ => option_list (wh_err s) end;
  wi_stopped : wh_handler s ≠ Waiting → Forall (.= Stopped) (wh_watchers s);
  wi_returned : (wh_handler s = Returned ↔ wh_writer s = Finished) ∧ (wh_writer s = Signalling → wh_handler s = Awaiting)
}.

(** ** Helpers *)
Lemma interleaving_next {A} (ls : list (list A)) i x l out : ls !! i = Some (x :: l) → interleaving (<[i:=l]> ls) out →
  interleaving ls (x :: out).
Proof.
  intros Hi Hout. rewrite <- (take_drop_middle _ _ _ Hi). apply int_next. by rewrite insert_take_drop in Hout by eauto using lookup_lt_Some.
Qed.

(** A sender sends one more element. *)
Lemma interleaving_snoc {A} (ls : list (list A)) out i l x : interleaving ls out → ls !! i = Some l →
  interleaving (<[i := l ++ [x]]> ls) (out ++ [x]).
Proof.
  intros Hint. revert i l. induction Hint as [ls Hnil|ls1 y k ls2 out Hint IH]; intros i l Hi.
  - assert (l = []) as -> by (by eapply (Forall_lookup_1 (.= [])) in Hnil). eapply interleaving_next.
    + apply list_lookup_insert_eq; eauto using lookup_lt_Some.
    + rewrite list_insert_insert_eq, list_insert_id by done. by constructor.
  - simpl. set (j := List.length ls1). destruct (decide (i = j)) as [->|Hne].
    + rewrite list_lookup_middle in Hi by done. simplify_eq. specialize (IH j k (list_lookup_middle _ _ _ _ eq_refl)).
      subst j. rewrite insert_app_r_alt, Nat.sub_diag in * by lia. simpl in *. by apply int_next.
    + assert ((ls1 ++ k :: ls2) !! i = Some l) as Hi'.
      { rewrite !lookup_app in *. destruct (ls1 !! i) eqn:Hl1; [done|]. apply lookup_ge_None_1 in Hl1. destruct (i - List.length ls1) eqn:?; [lia|done]. }
      specialize (IH i l Hi'). destruct (decide (i < j)).
      * rewrite insert_app_l in * by done. by apply int_next.
      * rewrite insert_app_r_alt in * by (subst j; lia). destruct (i - List.length ls1) eqn:?; [subst j; lia|]. simpl in *. by apply int_next.
Qed.

Lemma Forall3_insert {A B C} (P : A → B → C → Prop) l k k' i x y z : Forall3 P l k k' → l !! i = Some x → P x y z →
  Forall3 P l (<[i:=y]> k) (<[i:=z]> k').
Proof. intros H. revert i. induction H; intros [|i] ? ?; simplify_eq/=; constructor; eauto. Qed.

(** ** The invariant *)
Lemma delivered_mono left err left' err' s w sent : (ctx_done left err → ctx_done left' err') →
  delivered left err s w sent → delivered left' err' s w sent.
Proof. intros Hd (before & rest & ? & ? & Hw). exists before, rest. split_and!; [done..|]. destruct w; naive_solver. Qed.

Lemma wh_inv_start sources : wh_inv sources (wh_start sources) ((λ _, []) <$> sources).
Proof.
  split; simpl; try done.
  - induction sources as [|s sources IH]; constructor; [|done]. exists [], (src_events s). by repeat constructor.
  - constructor. apply Forall_fmap, Forall_true. done.
Qed.

(** A goroutine moves on without sending. *)
Lemma move_watcher sources ws sent left err left' err' i w w' : ws !! i = Some w →
  Forall3 (delivered left err) sources ws sent → (ctx_done left err → ctx_done left' err') →
  (∀ s l, sources !! i = Some s → delivered left err s w l → delivered left' err' s w' l) →
  Forall3 (delivered left' err') sources (<[i := w']> ws) sent.
Proof.
  intros Hi Hall Hctx Hw. destruct (Forall3_lookup_m _ _ _ _ _ _ Hall Hi) as (s & l & Hs & Hl & Hd).
  rewrite <- (list_insert_id _ _ _ Hl). eapply Forall3_insert; [|done|by eapply Hw].
  eapply Forall3_impl; [done|]. intros ???. by apply delivered_mono.
Qed.

Lemma delivered_receive left err event outEvent rest s l : convertEvent event = inr outEvent →
  delivered left err s (Listening (event :: rest)) l → delivered left err s (Sending outEvent rest) l.
Proof. intros Hc (before & rest' & ? & ? & ->). exists before, (event :: rest). eauto. Qed.

Lemma delivered_sent left err e rest s l : delivered left err s (Sending e rest) l → delivered left err s (Listening rest) (l ++ [e]).
Proof.
  intros (before & ? & Hs & ? & event & -> & ?). exists (before ++ [event]), rest. split_and!; [|by apply Forall2_app; [|repeat constructor]|done].
  by rewrite <- app_assoc.
Qed.

Lemma first_error_done left err msg : ctx_done left (first_error err msg).
Proof. right. eauto. Qed.

Lemma wh_inv_step sources s s' sent : wh_inv sources s sent → wh_step sources s s' → ∃ sent', wh_inv sources s' sent'.
Proof.
  intros [H1 H2 H3 H4 H5 [H6 H7]] Hstep. destruct Hstep; simpl in *.
  - exists sent. split; simpl; try done. eapply move_watcher; eauto using delivered_receive.
  - exists sent. split; simpl; try done.
    + eapply move_watcher; eauto using first_error_done. intros src l _ (before & rest' & ? & ? & _). exists before, rest'. eauto using first_error_done.
    + intros m [= <-]. destruct err as [m|]; simpl; [eauto|].
      destruct (Forall3_lookup_m _ _ _ _ _ _ H1 H) as (src & l & Hs & _ & before & rest' & He & _ & ->).
      exists src, event. split_and!; [by eapply list_elem_of_lookup_2| |done]. rewrite He. set_solver.
  - exists sent. split; simpl; try done. eapply move_watcher; eauto. intros src l Hs (before & rest' & ? & ? & ->). simplify_eq.
    exists before, []. eauto.
  - exists sent. split; simpl; try done. eapply move_watcher; eauto. intros src l _ (before & rest' & ? & ? & _). exists before, rest'. eauto.
  - destruct (Forall3_lookup_m _ _ _ _ _ _ H1 H) as (src & l & Hs & Hl & Hd). exists (<[i := l ++ [e]]> sent). split; simpl; try done.
    + eapply Forall3_insert; eauto using delivered_sent.
    + rewrite app_nil_r in H2. by apply interleaving_snoc.
  - exists sent. rewrite app_nil_r in H2. split; simpl; try done; rewrite ?forwarded_app, ?failures_app; simpl; rewrite ?app_nil_r; try done. naive_solver.
  - exists sent. split; simpl; try done; rewrite ?forwarded_app, ?failures_app; simpl; rewrite ?app_nil_r; try done. naive_solver.
  - exists sent. split; simpl; try done.
    + rewrite forwarded_app. by destruct err; simpl; rewrite app_nil_r.
    + rewrite failures_app, H4. by destruct err.
    + naive_solver.
  - exists sent. split; simpl; try done; naive_solver.
  - exists sent. split; simpl; try done; naive_solver.
  - exists sent. split; simpl; try done; naive_solver.
  - exists sent. split; simpl; try done. eapply Forall3_impl; [done|]. intros ???. apply delivered_mono. intros _. by left.
Qed.

Lemma wh_inv_reachable sources s : rtc (wh_step sources) (wh_start sources) s → ∃ sent, wh_inv sources s sent.
Proof.
  intros Hr. assert (∃ sent, wh_inv sources (wh_start sources) sent) as Hi by eauto using wh_inv_start.
  induction Hr as [|s1 s2 s3 Hst _ IH]; [done|]. apply IH. destruct Hi as [sent Hi]. eauto using wh_inv_step.
Qed.
Lemma sent_prefix sources ws sent left err : Forall3 (delivered left err) sources ws sent →
  Forall2 (λ src l, ∃ before, before `prefix_of` src_events src ∧ converted before l) sources sent.
Proof.
  induction 1 as [|src w l ??? (before & rest & Hs & Hc & _) _ IH]; constructor; [|done].
  exists before. split; [by exists rest|done].
Qed.

Lemma sent_all sources ws sent : Forall3 (delivered false None) sources ws sent → Forall (.= Stopped) ws →
  Forall2 (λ src l, src_closes src = true ∧ converted (src_events src) l) sources sent.
Proof.
  induction 1 as [|src w l ??? (before & rest & Hs & Hc & Hw) _ IH]; [constructor|]. intros [-> Hst]%Forall_cons.
  destruct Hw as [[-> ?]|[?|[? ?]]]; [|done..]. rewrite app_nil_r in Hs. constructor; [by rewrite Hs|by apply IH].
Qed.

(** ** Termination *)
Definition watcher_size (w : watcher) : nat :=
  match w with Listening rest => 1 + 3 * length rest | Sending _ rest => 3 + 3 * length rest | Stopped => 0 end.
Definition writer_size (w : writer) : nat :=
  match w with Starting | Writing _ => 3 | Receiving => 2 | Signalling => 1 | Finished => 0 end.
Definition handler_size (h : handler) : nat := match h with Waiting => 3 | Closing => 2 | Awaiting => 1 | Returned => 0 end.
Definition wh_size (s : whState) : nat :=
  sum_list_with watcher_size (wh_watchers s) + writer_size (wh_writer s) + handler_size (wh_handler s) + (if wh_left s then 0 else 1).

Lemma sum_insert (ws : list watcher) i w w' : ws !! i = Some w →
  sum_list_with watcher_size (<[i := w']> ws) + watcher_size w = sum_list_with watcher_size ws + watcher_size w'.
Proof. revert i. induction ws as [|x ws IH]; intros [|i] Hi; simplify_eq/=; [lia|]. apply IH in Hi. lia. Qed.

Lemma wh_step_size sources s s' : wh_step sources s s' → wh_size s' < wh_size s.
Proof.
  destruct 1; unfold wh_size; simpl; try lia; try (destruct left; lia);
    match goal with H : ?ws !! _ = Some _ |- context [<[_ := ?w]> _] => pose proof (sum_insert _ _ _ w H) as Hs end; simpl in Hs; lia.
Qed.

(** No schedule goes on forever. *)
Lemma wh_step_wf sources s : Acc (flip (wh_step sources)) s.
Proof.
  remember (wh_size s) as n eqn:Hn. revert s Hn. induction (lt_wf n) as [n _ IH]; intros s ->.
  constructor. intros s' Hs. eapply IH; [|done]. by eapply wh_step_size.
Qed.

(** ** Progress *)

(** Nothing to do: what the watches had is written, and some watch is open. *)
Definition idle (sources : list source) (s : whState) : Prop :=
  wh_handler s = Waiting ∧ wh_left s = false ∧ wh_err s = None ∧ wh_writer s = Receiving ∧
  (∃ src, src ∈ sources ∧ src_closes src = false) ∧
  Forall2 (λ src w, w = Stopped ∨ w = Listening [] ∧ src_closes src = false) sources (wh_watchers s).

(** Returned, or in a watch that is open and silent. *)
Definition quiet (over : bool) (src : source) (w : watcher) : bool :=
  match w with
  | Stopped => true
  | Listening [] => negb (src_closes src) && negb over
  | _ => false
  end.

(** Any other goroutine of the group can move. *)
Lemma watcher_moves sources ws left err cs lg i w src :
  ws !! i = Some w → sources !! i = Some src → quiet (bool_decide (left = true ∨ is_Some err)) src w = false →
  ∃ s', wh_step sources (mkWh ws Receiving Waiting left err cs lg) s' ∧ wh_left s' = left.
Proof.
  intros Hi Hs Hq. destruct w as [[|event rest]|e rest|]; simpl in Hq; [| | |done].
  - destruct (src_closes src) eqn:Hc; [by eexists; split; [eapply wh_closed|]|].
    case_bool_decide; [by eexists; split; [eapply wh_cancelled|]|done].
  - destruct (convertEvent event) eqn:?; [by eexists; split; [eapply wh_fail|]|by eexists; split; [eapply wh_receive|]].
  - by eexists; split; [eapply wh_send|].
Qed.

(** The writer waits for an event: some goroutine sends one, all have returned, or the handler is idle. *)
Lemma group_moves sources ws sent left err cs lg : Forall3 (delivered left err) sources ws sent →
  idle sources (mkWh ws Receiving Waiting left err cs lg) ∨
  ∃ s', wh_step sources (mkWh ws Receiving Waiting left err cs lg) s' ∧ wh_left s' = left.
Proof.
  intros Hall. set (over := bool_decide (left = true ∨ is_Some err)).
  destruct (decide (Forall (.= true) (zip_with (quiet over) sources ws))) as [Hq|Hq]; last first.
  - right. apply not_Forall_Exists, Exists_exists in Hq; [|apply _]. destruct Hq as (b & [i Hi]%list_elem_of_lookup & Hb).
    apply lookup_zip_with_Some in Hi as (src & w & -> & Hs & Hw). eapply watcher_moves; [done..|]. by apply not_true_is_false.
  - assert (Forall2 (λ src w, quiet over src w = true) sources ws) as Hq'.
    { apply Forall2_same_length_lookup_2; [by eapply Forall3_length_lm|]. intros i src w Hs Hw.
      eapply (Forall_lookup_1 _ _ i) in Hq; [done|]. apply lookup_zip_with_Some. eauto. }
    clear Hq. rename Hq' into Hq. destruct (decide (Forall (λ w, watcher_size w = 0) ws)) as [Hst|Hst].
    + right. eexists; split; [eapply wh_waited|done]. eapply Forall_impl; [done|]. by intros [[]| |].
    + left. apply not_Forall_Exists, Exists_exists in Hst; [|apply _]. destruct Hst as (w & [i Hi]%list_elem_of_lookup & Hw).
      destruct (Forall2_lookup_r _ _ _ _ _ Hq Hi) as (src & Hs & Hqw).
      destruct w as [[|]| |]; simpl in *; try done. apply andb_true_iff in Hqw as [Hc Hov].
      apply negb_true_iff in Hc, Hov. subst over. apply bool_decide_eq_false in Hov.
      split_and!; simpl; [done|by destruct left; [destruct Hov; left|]|by destruct err; [destruct Hov; right; eauto|]|done| |].
      * exists src. split; [by eapply list_elem_of_lookup_2|done].
      * eapply Forall2_impl; [done|]. intros x [[|]| |]; simpl; try done; [|by left]. rewrite andb_true_iff, !negb_true_iff. naive_solver.
Qed.

Lemma wh_progress sources s sent : wh_inv sources s sent →
  wh_handler s = Returned ∨ idle sources s ∨ ∃ s', wh_step sources s s' ∧ wh_left s' = wh_left s.
Proof.
  intros [H1 _ _ _ H5 [H6 H7]]. destruct s as [ws wr h left err cs lg]; simpl in *.
  destruct wr as [| |e| |].
  - right; right. eexists; split; [apply wh_header|done].
  - destruct h; [right; by eapply group_moves| | |by left]; right; right; eexists; (split; [constructor|done]).
  - right; right. eexists; split; [apply wh_write|done].
  - specialize (H7 eq_refl). subst. right; right. eexists; split; [apply wh_done|done].
  - left. by apply H6.
Qed.
End watch_handler.

Arguments watcher : clear implicits.
Arguments whState : clear implicits.
Arguments source : clear implicits.
