(* ===== verification/ApiExtServer.v ===== *)
(** * The aggregated API server: requests from the wire to the handlers (cmd/apiextension, clients/tableclient.go)

    The process reads its flags and its configuration, sets up informers, and serves three routes behind the authentication
    middleware.  The router (gorilla/mux) tries the templates in their order, a variable stands for one non-empty segment of
    the path (paths are clean: the router redirects others), and the middleware runs for requests that match.  The negotiation of media types, the clients and the
    informers are answered by parameters. *)

From Stdlib Require Import Ascii String.
From S2P Require Import Prelude GoStrings Flags Api Discovery TreeApi.

(** ** Flags and configuration *)
Record serverVars := mkServerVars { listenAddress : string; certPath : string; keyPath : string; debug : bool }.

Definition server_defaults : serverVars := mkServerVars ":7443" "" "" false.

Definition server_flags : list (Flag serverVars) := [
  StringVar "address" (λ x s, mkServerVars x (certPath s) (keyPath s) (debug s));
  StringVar "cert" (λ x s, mkServerVars (listenAddress s) x (keyPath s) (debug s));
  StringVar "key" (λ x s, mkServerVars (listenAddress s) (certPath s) x (debug s));
  BoolVar "debug" (λ x s, mkServerVars (listenAddress s) (certPath s) (keyPath s) x)
].

(** The configuration of the cluster: the one in the pod, or else the file that the environment names or the one in the
    home directory. *)
Definition getConfig {Cfg} (inCluster : string + Cfg) (KUBECONFIG : string) (home : string + string)
    (fromFile : string → string + Cfg) : string + Cfg :=
  match inCluster with
  | inr cfg => inr cfg
  | inl _ =>
      if decide (KUBECONFIG = "") then
        match home with
        | inl err => inl ("could not get kubeconfig: " +:+ err)
        | inr h => fromFile (h +:+ "/.kube/config")
        end
      else fromFile KUBECONFIG
  end.

Definition clientCAKey : string := "requestheader-client-ca-file".

Definition getClientCA (config : string + gmap string string) : string + string :=
  match config with
  | inl err => inl err
  | inr data => match data !! clientCAKey with Some ca => inr ca | None => inl "invalid extension config" end
  end.

(** ** Media types (clients/tableclient.go) *)
Record serializerInfo := mkSerializer { si_MediaType : string; si_MediaTypeType : string; si_MediaTypeSubType : string }.

Definition acceptedTypes : list serializerInfo := [mkSerializer "application/json" "application" "json"].

(** A request to the API server of the cluster. *)
Record apiRequest := mkApiRequest { req_accept : string; req_query : gmap string string }.

Definition RoundTrip (opts : string * gmap string string) (r : apiRequest) : apiRequest :=
  mkApiRequest opts.1 (opts.2 ∪ req_query r).

(** The negotiation library: what the client accepts, the types on offer and what the endpoint allows give a type and
    maybe a conversion. *)
Class Negotiation := {
  NegotiateMediaTypeOptions : string → list serializerInfo → (string → string → option GroupVersionKind → bool) →
    option (serializerInfo * option GroupVersionKind)
}.

(** Its documented behaviour: the type is one on offer, and the endpoint allows the conversion. *)
Class NegotiationLaws `{Negotiation} := {
  negotiated accept types allows t conv : NegotiateMediaTypeOptions accept types allows = Some (t, conv) →
    t ∈ types ∧ allows (si_MediaTypeType t) (si_MediaTypeSubType t) conv = true
}.

Section media_types.
  Context `{NG : Negotiation}.

(** What is added to the requests of a client. *)
Definition SetMediaType (accept : string) : string + (string * gmap string string) :=
  match NegotiateMediaTypeOptions accept acceptedTypes AllowsMediaTypeTransform with
  | None => inl "could not negotiate content type"
  | Some (t, conv) => inr (roundTripper (si_MediaType t) conv)
  end.

Definition MediaTypeClientGetter (newClient : string * gmap string string → string + resourceClient) (accept : string) : string + resourceClient :=
  match SetMediaType accept with
  | inl err => inl err
  | inr opts => newClient opts
  end.
End media_types.

(** ** Routes *)
Inductive segment := Literal (s : string) | Hole (name : string).
#[export] Instance segment_eq_dec : EqDecision segment.
Proof. solve_decision. Defined.

(** [{name}] is a variable. *)
Definition read_segment (s : string) : segment :=
  match s with
  | String "{" t => if HasSuffix t "}" then Hole (String.substring 0 (String.length t - 1) t) else Literal s
  | _ => Literal s
  end.

Definition template (s : string) : list segment := read_segment <$> Split s "/".

Fixpoint match_template (t : list segment) (path : list string) : option (gmap string string) :=
  match t, path with
  | [], [] => Some ∅
  | Literal s :: t, x :: path => if decide (s = x) then match_template t path else None
  | Hole n :: t, x :: path => if decide (x = "") then None else <[n := x]> <$> match_template t path
  | _, _ => None
  end.

Inductive route := DiscoveryRoute | ForwarderRoute | NamespaceRoute.
#[export] Instance route_eq_dec : EqDecision route.
Proof. solve_decision. Defined.

Definition pathPrefix : string := "/apis/" +:+ ResourcesGroupVersion.

Definition routes : list (list segment * route) := [
  (template pathPrefix, DiscoveryRoute);
  (template (pathPrefix +:+ "/{resource}"), ForwarderRoute);
  (template (pathPrefix +:+ "/namespaces/{namespace}/{resource}"), NamespaceRoute)
].

Fixpoint find_route (rs : list (list segment * route)) (path : list string) : option (route * gmap string string) :=
  match rs with
  | [] => None
  | (t, r) :: rs => match match_template t path with Some vars => Some (r, vars) | None => find_route rs path end
  end.

(** The router on a clean path. *)
Definition Match (path : string) : option (route * gmap string string) := find_route routes (Split path "/").

(** ** Requests *)

(** The list of types, or what the other handlers do. *)
Inductive reply := ListTypes (groupVersion : string) (resources : list APIResource) | Reply (op : httpOp) | JsonError (msg : string).

Record request := mkRequest { rq_path : string; rq_accept : string; rq_query : list (string * string); rq_peers : list string }.

Section serve.
  Context (kindFor : string * string * string → serverError + string).
  Context (Parse : string → string + (gmap string string → bool)) (DecodeParameters : list (string * string) → ListOptions).
  Context (Unmarshal : string → string + list string) (MarshalTypes : list APIResource → option string).

Definition DiscoveryHandler (apis : apiResourceWatcher) : list reply :=
  match MarshalTypes (List apis) with
  | Some err => [JsonError err]
  | None => [ListTypes ResourcesGroupVersion (List apis)]
  end.

(** What the server answers from: the types, the clients, and the caches of namespaces and of the extension's
    configuration. *)
Record backend := mkBackend {
  be_apis : apiResourceWatcher;
  be_clients : string → string * string * string → string + resourceClient;
  be_namespaces : string + list (string * gmap string string);
  be_config : string + gmap string string
}.

(** The handler of a route; one that panics has no replies (the connection is closed). *)
Definition handler_replies (b : backend) (r : request) (rt : route) (vars : gmap string string) (out : list reply) : Prop :=
  match rt with
  | DiscoveryRoute => out = DiscoveryHandler (be_apis b)
  | ForwarderRoute =>
      ∃ ops, Forwarder DecodeParameters (be_apis b) (be_clients b (rq_accept r)) (sget vars "resource") (rq_query r) = Done ops ∧ out = Reply <$> ops
  | NamespaceRoute =>
      ∃ ops, NamespaceHandler kindFor Parse DecodeParameters (be_apis b) (be_clients b (rq_accept r)) (be_namespaces b) (sget vars "namespace")
        (sget vars "resource") (rq_query r) (Done ops) ∧ out = Reply <$> ops
  end.

(** The router with the middleware, which calls the handler or answers by itself. *)
Inductive serves (b : backend) (r : request) : list reply → Prop :=
  | sv_not_found : Match (rq_path r) = None → serves b r [Reply (HttpError "404 page not found" StatusNotFound)]
  | sv_route rt vars out : Match (rq_path r) = Some (rt, vars) → handler_replies b r rt vars out →
      serves b r (AuthenticateMiddleware Unmarshal (rq_peers r) (be_config b) ≫=
        λ op, match op with ServeNext => out | _ => [Reply op] end).
End serve.

(** ** The process *)
Record startup := mkStartup {
  su_discovery : option string;       (* the errors of the clients and informers, in their order *)
  su_dynamicFactory : option string;
  su_mapper : option string;
  su_informerFactory : option string;
  su_synced : bool;
  su_config : string + gmap string string
}.

(** It listens, for clients with certificates of an authority, or exits. *)
Inductive served := Listen (address cert key : string) (clientCA : string) | ExitWith (why : string).

Definition server (v : serverVars) (s : startup) : served :=
  match su_discovery s with
  | Some _ => ExitWith "could not start watcher"
  | None =>
      match su_dynamicFactory s with
      | Some _ => ExitWith "could not get dynammic client for config"
      | None =>
          match su_mapper s with
          | Some _ => ExitWith "could not get REST mapper for config"
          | None =>
              match su_informerFactory s with
              | Some _ => ExitWith "could not get informer factory"
              | None =>
                  if su_synced s then
                    match getClientCA (su_config s) with
                    | inl _ => ExitWith "could not get client CA from configmap"
                    | inr ca => Listen (listenAddress v) (certPath v) (keyPath v) ca
                    end
                  else ExitWith "failed to set up informers"
              end
          end
      end
  end.

(** ** Facts *)
Example routes_read : routes = [
  ([Literal ""; Literal "apis"; Literal "resources.hnc.x-k8s.io"; Literal "v1alpha2"], DiscoveryRoute);
  ([Literal ""; Literal "apis"; Literal "resources.hnc.x-k8s.io"; Literal "v1alpha2"; Hole "resource"], ForwarderRoute);
  ([Literal ""; Literal "apis"; Literal "resources.hnc.x-k8s.io"; Literal "v1alpha2"; Literal "namespaces"; Hole "namespace"; Hole "resource"],
   NamespaceRoute)].
Proof. by vm_compute. Qed.

(** A text that is one segment of a path. *)
Definition one_segment (s : string) : Prop := s ≠ "" ∧ (cut s "/").2 = None.

Definition namespace_path (ns resource : string) : string := pathPrefix +:+ "/namespaces/" +:+ ns +:+ "/" +:+ resource.
Definition resource_path (resource : string) : string := pathPrefix +:+ "/" +:+ resource.

Lemma Split_prefix s : Split (pathPrefix +:+ String "/" s) "/" = ["" ; "apis"; "resources.hnc.x-k8s.io"; "v1alpha2"] ++ Split s "/".
Proof. done. Qed.

Lemma Match_namespace ns resource : one_segment ns → one_segment resource →
  Match (namespace_path ns resource) = Some (NamespaceRoute, <["namespace" := ns]> {["resource" := resource]}).
Proof.
  intros [Hn1 Hn2] [Hr1 Hr2]. unfold Match, namespace_path.
  assert (Split (pathPrefix +:+ "/namespaces/" +:+ ns +:+ "/" +:+ resource) "/" =
    ["" ; "apis"; "resources.hnc.x-k8s.io"; "v1alpha2"; "namespaces"; ns; resource]) as ->.
  { change ("/namespaces/" +:+ ns +:+ "/" +:+ resource) with (String "/" ("namespaces" +:+ String "/" (ns +:+ String "/" resource))).
    rewrite Split_prefix, (Split_cut "namespaces"), (Split_cut ns), Split_id by done. done. }
  rewrite routes_read. cbn. by repeat (case_decide; try done).
Qed.

Lemma Match_resource resource : one_segment resource → Match (resource_path resource) = Some (ForwarderRoute, {["resource" := resource]}).
Proof.
  intros [Hr1 Hr2]. unfold Match, resource_path.
  change ("/" +:+ resource) with (String "/" resource). rewrite Split_prefix, Split_id by done. rewrite routes_read. cbn.
  by repeat (case_decide; try done).
Qed.

(** Replies that carry data of the cluster. *)
Definition carries_data (rp : reply) : Prop :=
  match rp with
  | ListTypes _ _ => True
  | Reply (WriteJson _) | Reply (ForwardJson _) | Reply (Watching _ _) => True
  | _ => False
  end.

Lemma served_only_next Unmarshal peers config out rp :
  rp ∈ (AuthenticateMiddleware Unmarshal peers config ≫= λ op, match op with ServeNext => out | _ => [Reply op] end) → carries_data rp →
  ∃ cn rest data allowed, peers = cn :: rest ∧ config = inr data ∧ Unmarshal (sget data allowedCNKey) = inr allowed ∧ cn ∈ allowed ∧ rp ∈ out.
Proof.
  unfold AuthenticateMiddleware. destruct peers as [|cn rest]; [by intros ->%list_elem_of_singleton|].
  destruct config as [err|data]; [by intros ->%list_elem_of_singleton|]. rewrite bind_app. intros [Hin|Hin]%elem_of_app Hd.
  { destruct (data !! allowedCNKey); [by apply elem_of_nil in Hin|]. by apply list_elem_of_singleton in Hin as ->. }
  destruct (Unmarshal _) as [err|allowed] eqn:Hu; [by apply list_elem_of_singleton in Hin as ->|].
  case_bool_decide; [|by apply list_elem_of_singleton in Hin as ->]. simpl in Hin. rewrite app_nil_r in Hin. by exists cn, rest, data, allowed.
Qed.

(** Requests to the cluster's API server ask for JSON, as it is or as a table, and for the objects of the rows exactly when
    they ask for a table. *)
Lemma upstream_requests `{NL : NegotiationLaws} accept opts r : SetMediaType accept = inr opts → req_query r !! "includeObject" = None →
  ∃ conv, (∀ g, conv = Some g → Kind g = "" ∨ Kind g = "Table") ∧
    req_accept (RoundTrip opts r) = (roundTripper "application/json" conv).1 ∧
    (req_query (RoundTrip opts r) !! "includeObject" = Some "Object" ↔ ∃ g, conv = Some g ∧ Kind g = "Table").
Proof.
  unfold SetMediaType. destruct (NegotiateMediaTypeOptions _ _ _) as [[t conv]|] eqn:Hn; [|done]. intros [= <-] Hq.
  apply negotiated in Hn as [->%list_elem_of_singleton Ha]. simpl in Ha. exists conv. split_and!; [|done|].
  - intros g ->. unfold AllowsMediaTypeTransform in Ha. rewrite !decide_False in Ha by (intros []; done). by apply bool_decide_eq_true in Ha.
  - destruct conv as [g|]; simpl; [|rewrite lookup_union, lookup_empty, Hq; naive_solver].
    case_decide as Hk; rewrite lookup_union, Hq.
    + rewrite lookup_singleton_eq. simpl. naive_solver.
    + rewrite lookup_empty. simpl. naive_solver.
Qed.
