(* ===== verification/Endpoints.v ===== *)
(** * The admission endpoints and the clients of the API server

    What surrounds the webhooks: the decoding of admission requests in the validators
    (internal/anchor, hierarchyconfig, namespace, objects), the client that asks the API
    server about users and namespaces (internal/hierarchyconfig), the mapping of resources
    to kinds (internal/apimeta), the probe for deleted CRDs (internal/crd), the dry run of
    quotas (internal/hrq) and the client that drops writes (internal/config).  The decoder
    of the admission library and the answers of the API server are parameters. *)

From S2P Require Import Prelude GoStrings Chains Validation Api Config Selectors Resources Forest ForestWf ForestWalks ForestReads.
From S2P Require Import HierarchyValidator NamespaceWebhooks World Anchor Objects ObjectsValidator HncConfig HrqControllers.

(** ** Admission requests *)
Record admissionRequest := {
  ad_Name : string; ad_Namespace : string; ad_Operation : Operation; ad_UserInfo : UserInfo;
  ad_Object : string; ad_OldObject : string; ad_Kind : GroupVersionKind; ad_Resource : string
}.

(** [admission.Decoder]: from the raw document of a request to an object. *)
Record decoder := {
  dec_HC : string → string + HierarchyConfiguration;
  dec_Anchor : string → string + SubnamespaceAnchor;
  dec_Namespace : string → string + K8sNamespace;
  dec_Object : string → string + Unstructured
}.

Section endpoints.
  Context `{RO : RangeOrder} `{RX : RegexpLib} `{SL : SelectorLib} (cfg : Config) (dec : decoder).

(** hierarchyconfig/validator.go *)
Definition decode_hierarchy (ad : admissionRequest) : string + HierarchyValidator.request :=
  match dec_HC dec (ad_Object ad) with
  | inl err => inl err
  | inr hc => inr {| r_hc := hc; r_ui := ad_UserInfo ad |}
  end.

Definition Handle_hierarchy (server : HierarchyValidator.serverClient) (ad : admissionRequest) : M Forest Response :=
  match decode_hierarchy ad with
  | inl err => mret (DenyBadRequest err)
  | inr req => HierarchyValidator.handle cfg server req
  end.

(** anchor/validator.go: the object of a deletion is the old one. *)
Definition decode_anchor (ad : admissionRequest) : string + anchorRequest :=
  match dec_Anchor dec (if decide (ad_Operation ad = Delete) then ad_OldObject ad else ad_Object ad) with
  | inl err => inl err
  | inr a => inr {| ar_anchor := a; ar_op := ad_Operation ad |}
  end.

Definition Handle_anchor (ad : admissionRequest) : M Forest Response :=
  if IsHNCServiceAccount cfg (Some (ad_UserInfo ad)) then mret (Allow "HNC SA")
  else match decode_anchor ad with
       | inl err => mret (DenyBadRequest err)
       | inr req => Anchor.handle cfg req
       end.

(** namespace/validator.go: the old namespace is only there in an update. *)
Definition decode_namespace (ad : admissionRequest) : string + nsRequest :=
  match dec_Namespace dec (if decide (ad_Operation ad = Delete) then ad_OldObject ad else ad_Object ad) with
  | inl err => inl err
  | inr ns =>
      if decide (ad_Operation ad = Update) then
        match dec_Namespace dec (ad_OldObject ad) with
        | inl err => inl err
        | inr oldns => inr {| nr_ns := ns; nr_oldns := Some oldns; nr_op := ad_Operation ad |}
        end
      else inr {| nr_ns := ns; nr_oldns := None; nr_op := ad_Operation ad |}
  end.

Definition Handle_namespace (ad : admissionRequest) : M Forest Response :=
  if IsHNCServiceAccount cfg (Some (ad_UserInfo ad)) then mret (Allow "HNC SA")
  else match decode_namespace ad with
       | inl err => mret (DenyBadRequest err)
       | inr req => NamespaceWebhooks.handle cfg req
       end.

(** namespace/mutator.go: the answer is the patch from the object of the request to the changed namespace. *)
Inductive mutation := Patch (raw : string) (ns : K8sNamespace) | NoPatch (r : Response).
Definition Handle_mutator (ad : admissionRequest) : mutation :=
  match dec_Namespace dec (ad_Object ad) with
  | inl err => NoPatch (DenyBadRequest err)
  | inr ns => Patch (ad_Object ad) (mutate cfg ns)
  end.

(** objects/validator.go: creations have no old object, deletions no new one. *)
Definition decode_object (ad : admissionRequest) : string + ObjectsValidator.request :=
  match (if decide (ad_Operation ad ≠ Delete) then dec_Object dec (ad_Object ad) else inr emptyObject) with
  | inl err => inl ("while decoding object: " +:+ err)
  | inr inst =>
      match (if decide (ad_Operation ad ≠ Create) then dec_Object dec (ad_OldObject ad) else inr emptyObject) with
      | inl err => inl ("while decoding old object: " +:+ err)
      | inr oldInst => inr {| rq_obj := inst; rq_oldObj := oldInst; rq_op := ad_Operation ad; rq_gr := ad_Resource ad |}
      end
  end.

Definition Handle_object (getNS : string → ApiResult K8sNamespace) (ad : admissionRequest) : M Forest Response :=
  if negb (IsManagedNamespace cfg (ad_Namespace ad)) then mret (Allow ("unmanaged namespace " +:+ ad_Namespace ad))
  else
    f ← get;
    if negb (canPropagateType (ad_Kind ad) f) then mret (Allow "Non-propagate-mode types")
    else if IsHNCServiceAccount cfg (Some (ad_UserInfo ad)) then mret (Allow "HNC SA")
    else match decode_object ad with
         | inl err => mret (DenyBadRequest err)
         | inr req => ObjectsValidator.handle cfg getNS req
         end.

(** hrq/hrqvalidator.go *)
Definition Handle_hrq (dec_HRQ : string → string + HierarchicalResourceQuota) (validate : ResourceQuota → option string)
    (rqName : string) (ad : admissionRequest) : hrqResponse :=
  match dec_HRQ (ad_Object ad) with
  | inl err => deny ReasonBadRequest err
  | inr inst => handleHRQ validate rqName inst
  end.
End endpoints.

(** ** The client of the hierarchy webhook (hierarchyconfig/validator.go) *)
Record SubjectAccessReview := {
  sar_Namespace : string; sar_Verb : string; sar_Group : string; sar_Version : string; sar_Resource : string;
  sar_User : string; sar_Groups : list string; sar_UID : string; sar_Extra : gmap string (list string)
}.

Section clients.
  (** A namespace read, and the creation of an access review: whether it is allowed, and the error. *)
  Context (getNamespace : string → ApiResult K8sNamespace) (createReview : SubjectAccessReview → bool * option string).

Definition client_Exists (nnm : string) : string + bool :=
  match getNamespace nnm with
  | Found _ => inr true
  | NotFound => inr false
  | ApiError err => inl err
  end.

Definition review (ui : UserInfo) (nnm : string) : SubjectAccessReview :=
  {| sar_Namespace := nnm; sar_Verb := "update"; sar_Group := "hnc.x-k8s.io"; sar_Version := "*"; sar_Resource := "hierarchyconfigurations";
     sar_User := ui_Username ui; sar_Groups := ui_Groups ui; sar_UID := ui_UID ui; sar_Extra := ui_Extra ui |}.

(** The verdict is returned next to the error; an error counts first. *)
Definition client_IsAdmin (ui : UserInfo) (nnm : string) : string + bool :=
  match createReview (review ui nnm) with
  | (_, Some err) => inl err
  | (allowed, None) => inr allowed
  end.

Definition realClient : HierarchyValidator.serverClient := {| sc_Exists := client_Exists; sc_IsAdmin := client_IsAdmin |}.
End clients.

(** ** Mapping resources to kinds (apimeta/mapper.go) *)
Section mapper.
  (** The REST mapper: the kinds of a resource in order of priority, and whether a kind is namespaced. *)
  Context (KindsFor : GroupResource → mapError + list GroupVersionKind) (RESTMapping : string * string → mapError + bool).

(** A wrapped error keeps its class: [meta.IsNoMatchError] unwraps. *)
Definition wrap_error (prefix : string) (e : mapError) : mapError :=
  match e with
  | NoMatch m => NoMatch (prefix +:+ m)
  | NotNamespaced m => MapOther (prefix +:+ m)
  | MapOther m => MapOther (prefix +:+ m)
  end.

Definition NamespacedKindFor (gr : GroupResource) : mapError + GroupVersionKind :=
  match KindsFor gr with
  | inl err => inl err
  | inr [] => inl (NoMatch ("no matches for " +:+ gr_Group gr +:+ "/, Resource=" +:+ gr_Resource gr))
  | inr (gvk :: _) =>
      match RESTMapping (Group gvk, Kind gvk) with
      | inl err => inl (wrap_error "while attempting to determine if kind is namespaced: " err)
      | inr false => inl (NotNamespaced ("resource " +:+ quoted (gr_String gr) +:+ " is not namespaced"))
      | inr true => inr gvk
      end
  end.
End mapper.

(** ** The probe for deleted CRDs (crd/crd.go) *)
Definition IsDeletingCRD (getCRD : string → ApiResult ObjectMeta) (nm : string) : string + bool :=
  match getCRD (nm +:+ "." +:+ MetaGroup) with
  | NotFound => inr true
  | ApiError err => inl err
  | Found crd => inr (negb (IsZero (om_DeletionTimestamp crd)))
  end.

(** ** The dry run of quotas (hrq/hrqvalidator.go) *)
Definition validate (createRQ updateRQ : ResourceQuota → option string) (inst : ResourceQuota) : option string :=
  if IsZero (om_CreationTimestamp (rq_Meta inst)) then createRQ inst else updateRQ inst.

(** ** The read-only client (config/client.go) *)
Inductive writeRequest :=
  | WCreate (kind : string) (doc : string)
  | WDelete (doc : string)
  | WUpdate (doc : string)
  | WPatch (doc : string)
  | WDeleteAllOf (doc : string)
  | WStatus (doc : string)
  | WSubResource (doc : string).

(** The writes of a client: the error it returns and the requests that reach the API server. *)
Definition writer : Type := writeRequest → option string * list writeRequest.

(** Access reviews do not change the state of the cluster. *)
Definition readOnlyClient (client : writer) : writer := λ req,
  match req with
  | WCreate kind _ => if decide (kind = "SubjectAccessReview") then client req else (None, [])
  | _ => (None, [])
  end.

Definition NewClient (readOnly : bool) (client : writer) : writer := if readOnly then readOnlyClient client else client.

(** ** Facts *)
Lemma client_IsAdmin_true getNamespace createReview ui nnm :
  sc_IsAdmin (realClient getNamespace createReview) ui nnm = inr true ↔ createReview (review ui nnm) = (true, None).
Proof. simpl. unfold client_IsAdmin. destruct (createReview _) as [allowed [err|]]; naive_solver. Qed.

Lemma client_Exists_false getNamespace createReview nm :
  sc_Exists (realClient getNamespace createReview) nm = inr false ↔ getNamespace nm = NotFound.
Proof. simpl. unfold client_Exists. destruct (getNamespace nm); naive_solver. Qed.

(** The reason that the configuration reconciler reports for a resource without a kind. *)
Lemma NamespacedKindFor_reason KindsFor RESTMapping gr e :
  (∀ gr e', KindsFor gr = inl e' → reasonForGVKError e' ≠ ReasonResourceNotNamespaced) →
  NamespacedKindFor KindsFor RESTMapping gr = inl e →
  reasonForGVKError e = ReasonResourceNotNamespaced ↔
  ∃ gvk rest, KindsFor gr = inr (gvk :: rest) ∧ RESTMapping (Group gvk, Kind gvk) = inr false.
Proof.
  intros Hk. unfold NamespacedKindFor. destruct (KindsFor gr) as [e'|[|gvk rest]] eqn:Hgr.
  - intros [= ->]. split; [by intros ?%(Hk gr)|by intros (? & ? & ? & _)].
  - intros [= <-]. simpl. split; [done|by intros (? & ? & ? & _)].
  - destruct (RESTMapping (Group gvk, Kind gvk)) as [e'|[]] eqn:Hm; [| done |].
    + intros [= <-]. split; [by destruct e'|]. intros (g & r & [= <- <-] & ?). congruence.
    + intros [= <-]. split; [|done]. intros _. by exists gvk, rest.
Qed.

(** No write of a read-only client reaches the API server, except access reviews. *)
Lemma readOnlyClient_writes client req r : (∀ q r', r' ∈ (client q).2 → r' = q) →
  r ∈ (NewClient true client req).2 → ∃ doc, r = WCreate "SubjectAccessReview" doc.
Proof.
  intros Hc. destruct req as [kind doc| | | | | |]; simpl; try by intros ?%elem_of_nil.
  case_decide as Hk; [|by intros ?%elem_of_nil]. subst. intros ?%Hc. by exists doc.
Qed.
