(* ===== verification/Stats.v ===== *)
(** * Statistics (internal/stats: counter.go, stats.go, metrics.go)

    The counters that the reconcilers report to the metrics exporter and to the activity
    log.  Counters are 32-bit integers that wrap around.  The recorded measurements are
    a trace.  A reconciler increments and decrements the counters of its kind through a
    pointer in a map, which is nil before the first reconciliation of that kind starts. *)

From S2P Require Import Prelude GoStrings Api.

Definition wrap32 (z : Z) : Z := ((z + 2 ^ 31) mod 2 ^ 32 - 2 ^ 31)%Z.

Definition incr (c : Z) : Z := wrap32 (c + 1).
Definition decr (c : Z) : Z := wrap32 (c - 1).

(** The accesses of [incr] and [decr] to the shared counter: the atomic addition is on a
    local copy, which is then stored.  A schedule is a list of accesses by threads. *)
Inductive access := Load (thread : nat) | Store (thread : nat) (delta : Z).

Definition schedule (accs : list access) (c : Z) : Z :=
  (foldl (λ '(c, copies) acc,
    match acc with
    | Load t => (c, <[t := c]> copies)
    | Store t d => (wrap32 (default 0%Z (copies !! t) + d), copies)
    end) (c, ∅ : gmap nat Z) accs).1.

(** [math.Max] on the counters: every 32-bit integer is a float64. *)
Definition max (a b : Z) : Z := Z.max a b.

Record object := mkObject { totalReconciles : Z; curReconciles : Z; apiWrites : Z; totalOverwrites : Z }.

Definition group_kind : Type := string * string.
Definition GroupKind (gvk : GroupVersionKind) : group_kind := (Group gvk, Kind gvk).

Record stat := mkStat {
  actionID : Z; totalHierConfigReconciles : Z; curHierConfigReconciles : Z; hierConfigWrites : Z; namespaceWrites : Z;
  objects : gmap group_kind object
}.

Record periodicPeak := mkPeak { concurrentHierConfigReconcile : Z; concurrentObjectReconcile : gmap group_kind Z }.

Inductive measure :=
  | hierConfigReconcileTotal | hierConfigReconcileConcurrent | hierConfigWritesTotal | namespaceWritesTotal
  | objectReconcileTotal | objectReconcileConcurrent | objectWritesTotal | objectOverwritesTotal.

(** The statistics of the process: counters, peaks and what has been recorded, with the
    kind as a tag if tags are not suppressed. *)
Record statistics := mkStats { st_stats : stat; st_peak : periodicPeak; st_recorded : list (measure * Z * option group_kind) }.

Definition init : statistics := mkStats (mkStat 1 0 0 0 0 ∅) (mkPeak 0 ∅) [].

Definition set_objects (o : gmap group_kind object) (s : stat) : stat :=
  mkStat (actionID s) (totalHierConfigReconciles s) (curHierConfigReconciles s) (hierConfigWrites s) (namespaceWrites s) o.
Definition set_cur (z : Z) (o : object) : object := mkObject (totalReconciles o) z (apiWrites o) (totalOverwrites o).
Definition set_writes (z : Z) (o : object) : object := mkObject (totalReconciles o) (curReconciles o) z (totalOverwrites o).
Definition set_overwrites (z : Z) (o : object) : object := mkObject (totalReconciles o) (curReconciles o) (apiWrites o) z.

Section stats.
  Context `{RO : RangeOrder} (SuppressObjectTags : bool).

Definition recordMetric (v : Z) (ms : measure) (s : statistics) : statistics :=
  mkStats (st_stats s) (st_peak s) (st_recorded s ++ [(ms, v, None)]).

Definition recordObjectMetric (v : Z) (ms : measure) (gk : group_kind) (s : statistics) : statistics :=
  mkStats (st_stats s) (st_peak s) (st_recorded s ++ [(ms, v, if SuppressObjectTags then None else Some gk)]).

Definition StartHierConfigReconcile (s : statistics) : statistics :=
  let st := st_stats s in
  let total := incr (totalHierConfigReconciles st) in
  let cur := incr (curHierConfigReconciles st) in
  let st := mkStat (actionID st) total cur (hierConfigWrites st) (namespaceWrites st) (objects st) in
  let s := recordMetric total hierConfigReconcileTotal (mkStats st (st_peak s) (st_recorded s)) in
  mkStats (st_stats s) (mkPeak (max (concurrentHierConfigReconcile (st_peak s)) cur) (concurrentObjectReconcile (st_peak s))) (st_recorded s).

Definition StopHierConfigReconcile (s : statistics) : statistics :=
  let st := st_stats s in
  mkStats (mkStat (actionID st) (totalHierConfigReconciles st) (decr (curHierConfigReconciles st)) (hierConfigWrites st)
    (namespaceWrites st) (objects st)) (st_peak s) (st_recorded s).

(** A counter of a kind through its pointer, which may be nil. *)
Definition with_object (gk : group_kind) (g : object → object) (s : statistics) : outcome (object * statistics) :=
  match objects (st_stats s) !! gk with
  | None => Panics
  | Some o => Done (g o, mkStats (set_objects (<[gk := g o]> (objects (st_stats s))) (st_stats s)) (st_peak s) (st_recorded s))
  end.

Definition StartObjReconcile (gvk : GroupVersionKind) (s : statistics) : statistics :=
  let gk := GroupKind gvk in
  let o := default (mkObject 0 0 0 0) (objects (st_stats s) !! gk) in
  let o := mkObject (incr (totalReconciles o)) (incr (curReconciles o)) (apiWrites o) (totalOverwrites o) in
  let s := mkStats (set_objects (<[gk := o]> (objects (st_stats s))) (st_stats s)) (st_peak s) (st_recorded s) in
  let s := recordObjectMetric (totalReconciles o) objectReconcileTotal gk s in
  let p := st_peak s in
  let old := default 0%Z (concurrentObjectReconcile p !! gk) in
  mkStats (st_stats s) (mkPeak (concurrentHierConfigReconcile p) (<[gk := max old (curReconciles o)]> (concurrentObjectReconcile p))) (st_recorded s).

Definition StopObjReconcile (gvk : GroupVersionKind) (s : statistics) : outcome statistics :=
  '(_, s) ← with_object (GroupKind gvk) (λ o, set_cur (decr (curReconciles o)) o) s; Done s.

Definition WriteNamespace (s : statistics) : statistics :=
  let st := st_stats s in
  let n := incr (namespaceWrites st) in
  recordMetric n namespaceWritesTotal
    (mkStats (mkStat (actionID st) (totalHierConfigReconciles st) (curHierConfigReconciles st) (hierConfigWrites st) n (objects st))
      (st_peak s) (st_recorded s)).

Definition WriteHierConfig (s : statistics) : statistics :=
  let st := st_stats s in
  let n := incr (hierConfigWrites st) in
  recordMetric n hierConfigWritesTotal
    (mkStats (mkStat (actionID st) (totalHierConfigReconciles st) (curHierConfigReconciles st) n (namespaceWrites st) (objects st))
      (st_peak s) (st_recorded s)).

Definition WriteObject (gvk : GroupVersionKind) (s : statistics) : outcome statistics :=
  '(o, s) ← with_object (GroupKind gvk) (λ o, set_writes (incr (apiWrites o)) o) s;
  Done (recordObjectMetric (apiWrites o) objectWritesTotal (GroupKind gvk) s).

Definition OverwriteObject (gvk : GroupVersionKind) (s : statistics) : outcome statistics :=
  '(o, s) ← with_object (GroupKind gvk) (λ o, set_overwrites (incr (totalOverwrites o)) o) s;
  Done (recordObjectMetric (totalOverwrites o) objectOverwritesTotal (GroupKind gvk) s).

(** One round of [recordPeakConcurrentReconciles]. *)
Definition recordPeaks (s : statistics) : statistics :=
  let s := recordMetric (concurrentHierConfigReconcile (st_peak s)) hierConfigReconcileConcurrent s in
  let s := foldl (λ s '(gk, v), recordObjectMetric v objectReconcileConcurrent gk s) s (range (concurrentObjectReconcile (st_peak s))) in
  mkStats (st_stats s) (mkPeak 0 ((λ _, 0%Z) <$> concurrentObjectReconcile (st_peak s))) (st_recorded s).

(** Sums over the kinds wrap around like the counters. *)
Definition sum_objects (g : object → Z) (s : statistics) : Z :=
  foldl (λ acc '(_, o), wrap32 (acc + g o)) 0%Z (range (objects (st_stats s))).
Definition getTotalObjReconciles := sum_objects totalReconciles.
Definition getCurObjReconciles := sum_objects curReconciles.
Definition getObjWrites := sum_objects apiWrites.
Definition getObjOverwrites := sum_objects totalOverwrites.

(** One round of [logging]: the state of the loop and the status it logs, if any. *)
Record activity := mkActivity { lastTotal : Z; lastCur : Z; working : bool }.

Definition logging (a : activity) (s : statistics) : option string * activity * statistics :=
  let total := wrap32 (totalHierConfigReconciles (st_stats s) + getTotalObjReconciles s) in
  let active := bool_decide (total ≠ lastTotal a ∨ lastCur a ≠ 0%Z) in
  let status := if active then Some (if working a then "continue" else "start") else if working a then Some "finish" else None in
  let s := if negb active && working a
           then mkStats (let st := st_stats s in mkStat (incr (actionID st)) (totalHierConfigReconciles st) (curHierConfigReconciles st)
                  (hierConfigWrites st) (namespaceWrites st) (objects st)) (st_peak s) (st_recorded s)
           else s in
  (status, mkActivity total (wrap32 (curHierConfigReconciles (st_stats s) + getCurObjReconciles s)) active, s).

(** ** Sequences of operations *)
Inductive statOp :=
  | StartHC | StopHC | WriteNS | WriteHC | ReportPeaks
  | StartObj (gvk : GroupVersionKind) | StopObj (gvk : GroupVersionKind)
  | WriteObj (gvk : GroupVersionKind) | OverwriteObj (gvk : GroupVersionKind).

Definition perform (op : statOp) (s : statistics) : outcome statistics :=
  match op with
  | StartHC => Done (StartHierConfigReconcile s)
  | StopHC => Done (StopHierConfigReconcile s)
  | WriteNS => Done (WriteNamespace s)
  | WriteHC => Done (WriteHierConfig s)
  | ReportPeaks => Done (recordPeaks s)
  | StartObj gvk => Done (StartObjReconcile gvk s)
  | StopObj gvk => StopObjReconcile gvk s
  | WriteObj gvk => WriteObject gvk s
  | OverwriteObj gvk => OverwriteObject gvk s
  end.

Definition run (ops : list statOp) (s : statistics) : outcome statistics :=
  fold_left (λ acc op, s ← acc; perform op s) ops (Done s).

(** The kind whose counters an operation uses without creating them. *)
Definition uses (op : statOp) : option group_kind :=
  match op with StopObj gvk | WriteObj gvk | OverwriteObj gvk => Some (GroupKind gvk) | _ => None end.
Definition starts (op : statOp) : option group_kind := match op with StartObj gvk => Some (GroupKind gvk) | _ => None end.

(** Every operation on the counters of a kind comes after a start for that kind. *)
Definition well_started (ops : list statOp) : Prop :=
  ∀ before op after gk, ops = before ++ op :: after → uses op = Some gk → Some gk ∈ (starts <$> before).

(** The sum of what each operation adds to a counter. *)
Definition tally (g : statOp → Z) (ops : list statOp) : Z := foldr (λ op acc, (g op + acc)%Z) 0%Z ops.
Definition one_if (P : Prop) `{Decision P} : Z := if decide P then 1%Z else 0%Z.

Definition started (gk : group_kind) (op : statOp) : Z := one_if (starts op = Some gk).
Definition running (gk : group_kind) (op : statOp) : Z :=
  match op with StopObj gvk => (- one_if (GroupKind gvk = gk))%Z | _ => started gk op end.
Definition written (gk : group_kind) (op : statOp) : Z :=
  match op with WriteObj gvk => one_if (GroupKind gvk = gk) | _ => 0%Z end.
Definition overwritten (gk : group_kind) (op : statOp) : Z :=
  match op with OverwriteObj gvk => one_if (GroupKind gvk = gk) | _ => 0%Z end.
Definition hc_started (op : statOp) : Z := match op with StartHC => 1%Z | _ => 0%Z end.
Definition hc_running (op : statOp) : Z := match op with StartHC => 1%Z | StopHC => (-1)%Z | _ => 0%Z end.
Definition hc_written (op : statOp) : Z := match op with WriteHC => 1%Z | _ => 0%Z end.
Definition ns_written (op : statOp) : Z := match op with WriteNS => 1%Z | _ => 0%Z end.

(** The counters of a state in which these operations have been performed. *)
Definition object_of (ops : list statOp) (gk : group_kind) : option object :=
  if decide (Some gk ∈ (starts <$> ops)) then
    Some (mkObject (wrap32 (tally (started gk) ops)) (wrap32 (tally (running gk) ops))
      (wrap32 (tally (written gk) ops)) (wrap32 (tally (overwritten gk) ops)))
  else None.

Definition counted (ops : list statOp) (s : statistics) : Prop :=
  let st := st_stats s in
  totalHierConfigReconciles st = wrap32 (tally hc_started ops) ∧ curHierConfigReconciles st = wrap32 (tally hc_running ops) ∧
  hierConfigWrites st = wrap32 (tally hc_written ops) ∧ namespaceWrites st = wrap32 (tally ns_written ops) ∧
  ∀ gk, objects st !! gk = object_of ops gk.

Lemma tally_snoc g ops op : tally g (ops ++ [op]) = (tally g ops + g op)%Z.
Proof. induction ops as [|o ops IH]; simpl; lia. Qed.

Lemma wrap32_add a b : wrap32 (wrap32 a + b) = wrap32 (a + b).
Proof.
  unfold wrap32. f_equal. replace ((a + 2 ^ 31) mod 2 ^ 32 - 2 ^ 31 + b + 2 ^ 31)%Z with ((a + 2 ^ 31) mod 2 ^ 32 + b)%Z by lia.
  rewrite Zplus_mod_idemp_l. f_equal. lia.
Qed.

Lemma incr_wrap z : incr (wrap32 z) = wrap32 (z + 1).
Proof. apply wrap32_add. Qed.

Lemma decr_wrap z : decr (wrap32 z) = wrap32 (z + -1).
Proof. unfold decr. rewrite <- wrap32_add. f_equal. Qed.

Lemma recordPeaks_stats s : st_stats (recordPeaks s) = st_stats s.
Proof.
  unfold recordPeaks. simpl. generalize (range (concurrentObjectReconcile (st_peak s))) as l.
  set (s' := recordMetric _ _ s). change (st_stats s) with (st_stats s'). generalize s' as t. clear.
  intros t l. revert t. induction l as [|[gk v] l IH]; intros t; [done|]. simpl. by rewrite IH.
Qed.

Lemma starts_snoc ops op gk : Some gk ∈ (starts <$> ops ++ [op]) ↔ Some gk ∈ (starts <$> ops) ∨ starts op = Some gk.
Proof. rewrite fmap_app, elem_of_app. simpl. rewrite list_elem_of_singleton. naive_solver. Qed.

Lemma object_of_other ops op gk : starts op ≠ Some gk → uses op ≠ Some gk → object_of (ops ++ [op]) gk = object_of ops gk.
Proof.
  intros Hs Hu. unfold object_of.
  assert (∀ g : statOp → Z, g op = 0%Z → tally g (ops ++ [op]) = tally g ops) as Ht by (intros g Hg; rewrite tally_snoc, Hg; lia).
  rewrite !Ht by (unfold overwritten, written, running, started, one_if; destruct op; simpl in *;
    rewrite ?decide_False by congruence; done).
  destruct (decide (Some gk ∈ (starts <$> ops))).
  - rewrite decide_True by (apply starts_snoc; auto). done.
  - rewrite decide_False by (rewrite starts_snoc; naive_solver). done.
Qed.

(** The operations on the counters of one kind, on counters that agree. *)
Lemma object_of_snoc ops op gk : Some gk ∈ (starts <$> ops) ∨ starts op = Some gk →
  object_of (ops ++ [op]) gk = Some (mkObject (wrap32 (tally (started gk) ops + started gk op)) (wrap32 (tally (running gk) ops + running gk op))
    (wrap32 (tally (written gk) ops + written gk op)) (wrap32 (tally (overwritten gk) ops + overwritten gk op))).
Proof. intros H. unfold object_of. rewrite decide_True by (by apply starts_snoc). by rewrite !tally_snoc. Qed.

Lemma unstarted ops gk : object_of ops gk = None →
  tally (started gk) ops = 0%Z ∧ ∀ op, op ∈ ops → starts op ≠ Some gk.
Proof.
  unfold object_of. case_decide as Hd; [done|]. intros _.
  assert (∀ op, op ∈ ops → starts op ≠ Some gk) as Hall.
  { intros op Hop Hs. apply Hd. apply list_elem_of_fmap. eauto. }
  split; [|done]. clear Hd. induction ops as [|op ops IH]; [done|]. simpl. rewrite IH by (intros; apply Hall; by right).
  unfold started, one_if. rewrite decide_False by (apply Hall; by left). done.
Qed.

Lemma tally_zero g ops : (∀ op, op ∈ ops → g op = 0%Z) → tally g ops = 0%Z.
Proof.
  induction ops as [|op ops IH]; [done|]. intros Hall. simpl. rewrite IH by (intros; apply Hall; by right).
  by rewrite (Hall op) by left.
Qed.

Lemma well_started_snoc ops op : well_started (ops ++ [op]) ↔ well_started ops ∧ ∀ gk, uses op = Some gk → Some gk ∈ (starts <$> ops).
Proof.
  split.
  - intros Hw. split.
    + intros before o after gk -> Hu. apply (Hw before o (after ++ [op]) gk); [by rewrite <- app_assoc|done].
    + intros gk Hu. by apply (Hw ops op [] gk).
  - intros [Hw Ho] before o after gk Heq Hu. destruct after as [|a after _] using rev_ind.
    + apply app_inj_tail in Heq as [-> ->]. by apply Ho.
    + rewrite app_comm_cons, app_assoc in Heq. apply app_inj_tail in Heq as [-> ->]. by apply (Hw before o after gk).
Qed.

Lemma well_started_unused ops gk op : well_started ops → object_of ops gk = None → op ∈ ops → uses op ≠ Some gk.
Proof.
  intros Hw Hn Hop Hu. apply list_elem_of_split in Hop as (l1 & l2 & ->).
  destruct (unstarted _ _ Hn) as [_ Hall]. specialize (Hw l1 op l2 gk eq_refl Hu).
  apply list_elem_of_fmap in Hw as (o & Ho & Hin). apply (Hall o); [apply elem_of_app; by left|done].
Qed.

(** The counters of a kind that has not started yet are zero. *)
Lemma object_of_default ops gk : well_started ops →
  default (mkObject 0 0 0 0) (object_of ops gk) =
  mkObject (wrap32 (tally (started gk) ops)) (wrap32 (tally (running gk) ops)) (wrap32 (tally (written gk) ops)) (wrap32 (tally (overwritten gk) ops)).
Proof.
  intros Hw. destruct (object_of ops gk) eqn:Ho.
  - unfold object_of in Ho. case_decide; [|done]. by injection Ho as <-.
  - destruct (unstarted _ _ Ho) as [_ Hs]. pose proof (λ op, well_started_unused ops gk op Hw Ho) as Hu.
    rewrite !tally_zero; [done|..]; intros op Hop; specialize (Hs op Hop); specialize (Hu op Hop);
      destruct op; simpl in *; unfold started, one_if; simpl; repeat case_decide; (done || congruence).
Qed.

Ltac tallies := unfold counted; simpl; rewrite !tally_snoc; simpl; rewrite ?Z.add_0_r, ?incr_wrap, ?decr_wrap.

Lemma with_object_counted ops s gk g : counted ops s → Some gk ∈ (starts <$> ops) →
  with_object gk g s =
    let o := g (mkObject (wrap32 (tally (started gk) ops)) (wrap32 (tally (running gk) ops))
      (wrap32 (tally (written gk) ops)) (wrap32 (tally (overwritten gk) ops))) in
    Done (o, mkStats (set_objects (<[gk := o]> (objects (st_stats s))) (st_stats s)) (st_peak s) (st_recorded s)).
Proof.
  intros (_ & _ & _ & _ & Hobj) Hs. unfold with_object. rewrite Hobj. unfold object_of. by rewrite decide_True.
Qed.

Lemma counted_object ops s op gk o : counted ops s → starts op = Some gk ∨ uses op = Some gk →
  hc_started op = 0%Z → hc_running op = 0%Z → hc_written op = 0%Z → ns_written op = 0%Z → object_of (ops ++ [op]) gk = Some o →
  ∀ p r, counted (ops ++ [op]) (mkStats (set_objects (<[gk := o]> (objects (st_stats s))) (st_stats s)) p r).
Proof.
  intros (H1 & H2 & H3 & H4 & Hobj) Hop Ha Hb Hc Hd Ho p r. tallies. rewrite Ha, Hb, Hc, Hd, !Z.add_0_r. split_and!; [done..|].
  intros gk'. destruct (decide (gk' = gk)) as [->|Hne]; [by rewrite lookup_insert_eq|].
  rewrite lookup_insert_ne by done. rewrite Hobj, object_of_other; [done|..]; destruct op; simpl in *; naive_solver.
Qed.

Lemma one_if_true P `{Decision P} : P → one_if P = 1%Z.
Proof. intros. unfold one_if. by rewrite decide_True. Qed.

Lemma one_if_false P `{Decision P} : ¬ P → one_if P = 0%Z.
Proof. intros. unfold one_if. by rewrite decide_False. Qed.

Lemma counted_other ops s op s' : counted ops s → starts op = None → uses op = None → objects (st_stats s') = objects (st_stats s) →
  totalHierConfigReconciles (st_stats s') = wrap32 (tally hc_started ops + hc_started op) →
  curHierConfigReconciles (st_stats s') = wrap32 (tally hc_running ops + hc_running op) →
  hierConfigWrites (st_stats s') = wrap32 (tally hc_written ops + hc_written op) →
  namespaceWrites (st_stats s') = wrap32 (tally ns_written ops + ns_written op) → counted (ops ++ [op]) s'.
Proof.
  intros (_ & _ & _ & _ & Hobj) Hs Hu Ho H1 H2 H3 H4. unfold counted. rewrite !tally_snoc. split_and!; [done..|].
  intros gk. rewrite Ho, Hobj, object_of_other by congruence. done.
Qed.

Lemma perform_counted ops op s : well_started (ops ++ [op]) → counted ops s → ∃ s', perform op s = Done s' ∧ counted (ops ++ [op]) s'.
Proof.
  intros [Hw Huse]%well_started_snoc Hc. pose proof Hc as (H1 & H2 & H3 & H4 & Hobj).
  destruct op as [| | | | |gvk|gvk|gvk|gvk]; simpl; eexists.
  1-4: split; [reflexivity|]; apply (counted_other ops s); simpl; rewrite ?Z.add_0_r, ?H1, ?H2, ?H3, ?H4, ?incr_wrap, ?decr_wrap; done.
  - split; [reflexivity|]. apply (counted_other ops s); rewrite ?recordPeaks_stats; simpl; rewrite ?Z.add_0_r; done.
  - split; [reflexivity|]. unfold StartObjReconcile. rewrite Hobj, object_of_default by done.
    eapply (counted_object ops s _ (GroupKind gvk)); [done|by left|done..|]. rewrite object_of_snoc by (by right). simpl.
    unfold started. simpl. rewrite one_if_true by done. by rewrite !incr_wrap, !Z.add_0_r.
  - unfold StopObjReconcile. rewrite (with_object_counted ops) by auto. simpl. split; [reflexivity|].
    eapply (counted_object ops s _ (GroupKind gvk)); [done|by right|done..|]. rewrite object_of_snoc by (left; by apply Huse). simpl.
    unfold started. rewrite one_if_false, one_if_true by done. by rewrite decr_wrap, !Z.add_0_r.
  - unfold WriteObject. rewrite (with_object_counted ops) by auto. simpl. split; [reflexivity|].
    eapply (counted_object ops s _ (GroupKind gvk)); [done|by right|done..|]. rewrite object_of_snoc by (left; by apply Huse). simpl.
    unfold started. rewrite one_if_false, one_if_true by done. by rewrite incr_wrap, !Z.add_0_r.
  - unfold OverwriteObject. rewrite (with_object_counted ops) by auto. simpl. split; [reflexivity|].
    eapply (counted_object ops s _ (GroupKind gvk)); [done|by right|done..|]. rewrite object_of_snoc by (left; by apply Huse). simpl.
    unfold started. rewrite one_if_false, one_if_true by done. by rewrite incr_wrap, !Z.add_0_r.
Qed.

Lemma perform_unstarted ops op s gk : counted ops s → uses op = Some gk → Some gk ∉ (starts <$> ops) → perform op s = Panics.
Proof.
  intros (_ & _ & _ & _ & Hobj) Hu Hn. assert (objects (st_stats s) !! gk = None) as Hl.
  { rewrite Hobj. unfold object_of. by rewrite decide_False. }
  destruct op; simplify_eq/=; unfold StopObjReconcile, WriteObject, OverwriteObject, with_object; by rewrite Hl.
Qed.

Lemma run_snoc ops op s : run (ops ++ [op]) s = (run ops s ≫= perform op).
Proof. unfold run. by rewrite fold_left_app. Qed.

Lemma counted_init : counted [] init.
Proof. unfold counted. simpl. split_and!; try done. Qed.

Lemma run_counted ops :
  (well_started ops ∧ ∃ s, run ops init = Done s ∧ counted ops s) ∨ (¬ well_started ops ∧ run ops init = Panics).
Proof.
  induction ops as [|op ops IH] using rev_ind.
  { left. split; [intros before op after gk Heq; by destruct before|]. exists init. split; [done|apply counted_init]. }
  rewrite well_started_snoc, run_snoc. destruct IH as [(Hw & s & -> & Hc)|[Hw ->]]; [|right; naive_solver].
  simpl. destruct (uses op) as [gk|] eqn:Hu; [destruct (decide (Some gk ∈ (starts <$> ops))) as [Hs|Hs]|].
  - left. split; [split; [done|by intros ? [= <-]]|]. apply (perform_counted ops); [|done].
    apply well_started_snoc. split; [done|]. rewrite Hu. by intros ? [= <-].
  - right. split; [intros [_ Hall]; by apply Hs, Hall|]. by apply (perform_unstarted ops op s gk).
  - left. split; [done|]. apply (perform_counted ops); [|done]. apply well_started_snoc. by rewrite Hu.
Qed.
End stats.
