(* ===== verification/Kubectl.v ===== *)
(** * The kubectl plugin (internal/kubectl)

    The commands of [kubectl hns], as programs that print, send requests and may end the
    process with an error status.  The answers of the API server are the record
    [cluster]; what a command does is a trace of [kEvent]s.  The footnotes of the tree
    command are global variables of the plugin. *)

From S2P Require Import Prelude GoStrings Chains Validation Api Config Selectors Resources Forest ForestWf ForestWalks.
From S2P Require Import World Objects HncConfig HrqControllers.

Inductive kEvent :=
  | Println (line : string)
  | CreateHierarchy (hc : HierarchyConfiguration)
  | UpdateHierarchy (hc : HierarchyConfiguration)
  | CreateAnchor (parent name : string)
  | DeleteAnchor (parent name : string)
  | CreateConfig (c : HNCConfiguration)
  | UpdateConfig (c : HNCConfiguration).

(** The global variables of the plugin and the trace. *)
Record kState := mkK { footnotesByMsg : gmap string nat; footnotes : list string; hasSubnamespace : bool; k_events : list kEvent }.

(** What the API server answers. *)
Record cluster := {
  cl_namespace : string → string + K8sNamespace;
  cl_namespaces : string + list string;
  cl_hierarchy : string → ApiResult HierarchyConfiguration;
  cl_anchors : string → ApiResult (list SubnamespaceAnchor);
  cl_config : ApiResult HNCConfiguration;
  cl_writeHierarchy : option string;
  cl_createAnchor : option string;
  cl_deleteAnchor : option string;
  cl_writeConfig : option string
}.

(** A command: [None] is [os.Exit(1)]. *)
Definition Cmd (A : Type) : Type := kState → outcome (option A * kState).
#[export] Instance Cmd_ret : MRet Cmd := λ A a s, Done (Some a, s).
#[export] Instance Cmd_bind : MBind Cmd := λ A B k m s,
  match m s with
  | Done (Some a, s') => k a s'
  | Done (None, s') => Done (None, s')
  | Panics => Panics
  | Diverges => Diverges
  end.

Definition act (evs : list kEvent) : Cmd unit := λ s,
  Done (Some tt, mkK (footnotesByMsg s) (footnotes s) (hasSubnamespace s) (k_events s ++ evs)).
Definition say (line : string) : Cmd unit := act [Println line].
Definition exit {A} : Cmd A := λ s, Done (None, s).
Definition get_state : Cmd kState := λ s, Done (Some s, s).
Definition stuck {A} : Cmd A := λ _, Diverges.

Section plugin.
  Context (cl : cluster).

(** ** root.go: the client *)
Definition getHierarchy (nnm : string) : Cmd HierarchyConfiguration :=
  match cl_namespace cl nnm with
  | inl err => say ("Error reading namespace " +:+ nnm +:+ ": " +:+ err) ≫= λ _, exit
  | inr _ =>
      match cl_hierarchy cl nnm with
      | Found hier => mret hier
      | NotFound => mret {| hc_Meta := set_om_NamespacedName nnm Singleton blankMeta; hc_Spec := hc_Spec blankHC; hc_Status := hc_Status blankHC |}
      | ApiError err => say ("Error reading hierarchy for " +:+ nnm +:+ ": " +:+ err) ≫= λ _, exit
      end
  end.

Definition getAnchorStatus (nnm : string) : Cmd (gmap string string) :=
  match cl_anchors cl nnm with
  | Found al => mret (foldl (λ m inst, <[om_Name (sa_Meta inst) := sa_State inst]> m) ∅ al)
  | NotFound => mret ∅
  | ApiError err => say ("Error listing subnamespace anchors for " +:+ nnm +:+ ": " +:+ err) ≫= λ _, exit
  end.

Definition updateHierarchy (hier : HierarchyConfiguration) (reason : string) : Cmd unit :=
  act [if IsZero (om_CreationTimestamp (hc_Meta hier)) then CreateHierarchy hier else UpdateHierarchy hier] ≫= λ _,
  match cl_writeHierarchy cl with
  | Some err => say (nl +:+ "Could not " +:+ reason +:+ "." +:+ nl +:+ "Reason: " +:+ err) ≫= λ _, exit
  | None => mret tt
  end.

Definition createAnchor (nnm hnnm : string) : Cmd unit :=
  act [CreateAnchor nnm hnnm] ≫= λ _,
  match cl_createAnchor cl with
  | Some err => say (nl +:+ "Could not create subnamespace anchor." +:+ nl +:+ "Reason: " +:+ err) ≫= λ _, exit
  | None => say ("Successfully created " +:+ quoted hnnm +:+ " subnamespace anchor in " +:+ quoted nnm +:+ " namespace")
  end.

Definition deleteAnchor (nnm hnnm : string) : Cmd unit :=
  act [DeleteAnchor nnm hnnm] ≫= λ _,
  match cl_deleteAnchor cl with
  | Some err => say (nl +:+ "Could not delete subnamespace anchor." +:+ nl +:+ "Reason: " +:+ err) ≫= λ _, exit
  | None => say ("Successfully deleted " +:+ quoted hnnm +:+ " subnamespace anchor in " +:+ quoted nnm +:+ " namespace")
  end.

Definition getHNCConfig : Cmd HNCConfiguration :=
  match cl_config cl with
  | Found c => mret c
  | NotFound => mret (mkHNCConfig (meta_named HNCConfigSingleton) [] [] [])
  | ApiError err => say ("Error reading the HNC Configuration: " +:+ err) ≫= λ _, exit
  end.

Definition updateHNCConfig (c : HNCConfiguration) : Cmd unit :=
  act [if IsZero (om_CreationTimestamp (hn_Meta c)) then CreateConfig c else UpdateConfig c] ≫= λ _,
  match cl_writeConfig cl with
  | Some err => say (nl +:+ "Could not update the HNC Configuration: " +:+ err) ≫= λ _, exit
  | None => mret tt
  end.

(** ** set.go *)
Record hcUpdates := { up_root : bool; up_parent : string; up_allowCD : bool; up_forbidCD : bool }.

Definition set_hc_Spec (p : string) (a : bool) (hc : HierarchyConfiguration) : HierarchyConfiguration :=
  {| hc_Meta := hc_Meta hc;
     hc_Spec := {| hcs_Parent := p; hcs_AllowCascadingDeletion := a; hcs_Labels := hcs_Labels (hc_Spec hc); hcs_Annotations := hcs_Annotations (hc_Spec hc) |};
     hc_Status := hc_Status hc |}.
Definition with_parent (p : string) (hc : HierarchyConfiguration) := set_hc_Spec p (hcs_AllowCascadingDeletion (hc_Spec hc)) hc.
Definition with_allowCD (a : bool) (hc : HierarchyConfiguration) := set_hc_Spec (hcs_Parent (hc_Spec hc)) a hc.

(** The configuration and the number of changes so far. *)
Definition setRoot (oldpnm nnm : string) (hcn : HierarchyConfiguration * nat) : Cmd (HierarchyConfiguration * nat) :=
  let '(hc, numChanges) := hcn in
  if decide (oldpnm = "") then say (nnm +:+ " is already a root namespace; unchanged ") ≫= λ _, mret (hc, numChanges)
  else say ("Unsetting the parent of " +:+ nnm +:+ " (was previously " +:+ oldpnm +:+ ")") ≫= λ _,
       mret (with_parent "" hc, S numChanges).

Definition setParent (oldpnm pnm nnm : string) (hcn : HierarchyConfiguration * nat) : Cmd (HierarchyConfiguration * nat) :=
  let '(hc, numChanges) := hcn in
  if decide (oldpnm = pnm) then say ("Parent of " +:+ nnm +:+ " is already " +:+ pnm +:+ "; unchanged") ≫= λ _, mret (hc, numChanges)
  else
    (if decide (oldpnm = "") then say ("Setting the parent of " +:+ nnm +:+ " to " +:+ pnm)
     else say ("Changing the parent of " +:+ nnm +:+ " from " +:+ oldpnm +:+ " to " +:+ pnm)) ≫= λ _,
    mret (with_parent pnm hc, S numChanges).

Definition show_bool (b : bool) : string := if b then "true" else "false".

Definition setAllowCascadingDeletion (nnm : string) (allow forbid : bool) (hcn : HierarchyConfiguration * nat) :
    Cmd (HierarchyConfiguration * nat) :=
  let '(hc, numChanges) := hcn in
  if allow && forbid then say "Cannot set both --allowCascadingDeletion and --forbidCascadingDeletion" ≫= λ _, exit
  else if negb allow && negb forbid then mret (hc, numChanges)
  else if bool_decide (hcs_AllowCascadingDeletion (hc_Spec hc) = allow) then
    say ("Cascading deletion for '" +:+ nnm +:+ "' is already set to " +:+ show_bool allow +:+ "; unchanged") ≫= λ _, mret (hc, numChanges)
  else
    say ((if allow then "Allowing" else "Forbidding") +:+ " cascading deletion on '" +:+ nnm +:+ "'") ≫= λ _,
    mret (with_allowCD allow hc, S numChanges).

Definition updateHC (updates : hcUpdates) (nnm : string) : Cmd unit :=
  hc ← getHierarchy nnm;
  let oldpnm := hcs_Parent (hc_Spec hc) in
  if up_root updates && bool_decide (up_parent updates ≠ "") then
    say "Cannot give the namespace a parent and make it a root at the same time" ≫= λ _, exit
  else
    hcn ← (if up_root updates then setRoot oldpnm nnm (hc, 0) else mret (hc, 0));
    hcn ← (if decide (up_parent updates ≠ "") then setParent oldpnm (up_parent updates) nnm hcn else mret hcn);
    '(hc, numChanges) ← setAllowCascadingDeletion nnm (up_allowCD updates) (up_forbidCD updates) hcn;
    if decide (0 < numChanges) then
      updateHierarchy hc ("update the hierarchical configuration of " +:+ nnm) ≫= λ _,
      say ("Succesfully updated " +:+ Itoa numChanges +:+ " " +:+ (if decide (1 < numChanges) then "properties" else "property") +:+
           " of the hierarchical configuration of " +:+ nnm)
    else say "No changes made".

(** ** create.go and delete.go *)
Definition createCmd (parent nnm : string) : Cmd unit :=
  if decide (parent = "") then say "Error: parent must be set via --namespace or -n" ≫= λ _, exit
  else createAnchor parent nnm.

Definition deleteCmd (parent nnm : string) (allowCD : bool) : Cmd unit :=
  if decide (parent = "") then say "Error: parent must be set via --namespace or -n" ≫= λ _, exit
  else
    (if allowCD then
       hc ← getHierarchy nnm;
       if hcs_AllowCascadingDeletion (hc_Spec hc) then
         say ("Cascading deletion for '" +:+ nnm +:+ "' is already set to 'true'; unchanged")
       else
         say ("Allowing cascading deletion on '" +:+ nnm +:+ "'") ≫= λ _,
         updateHierarchy (with_allowCD true hc) ("update the hierarchical configuration of " +:+ nnm)
     else mret tt) ≫= λ _,
    deleteAnchor parent nnm.

(** ** configset.go, configdelete.go and configdescribe.go *)

(** The English title case of a word, of the text library. *)
Context (Title : string → string).

Definition normalizeMode (modeStr : string) : SynchronizationMode :=
  let mode := Title modeStr in
  if decide (mode = "Allowpropagate") then AllowPropagate else mode.

(** The loop over the configured resources: [None] if the switch needs [--force]. *)
Fixpoint set_mode (gr : GroupResource) (mode : SynchronizationMode) (force : bool) (rs : list ResourceSpec) : option (list ResourceSpec * bool) :=
  match rs with
  | [] => Some ([], false)
  | r :: rs' =>
      if decide (rsp_GR r = gr) then
        if bool_decide (rsp_Mode r = Ignore) && (bool_decide (mode = Propagate) || bool_decide (mode = AllowPropagate)) && negb force
        then None
        else Some ({| rsp_GR := gr; rsp_Mode := mode |} :: rs', true)
      else match set_mode gr mode force rs' with
           | None => None
           | Some (rs'', found) => Some (r :: rs'', found)
           end
  end.

Definition set_hn_Resources (rs : list ResourceSpec) (c : HNCConfiguration) : HNCConfiguration :=
  mkHNCConfig (hn_Meta c) rs (hn_Statuses c) (hn_Conditions c).

Definition setResourceCmd (resource group modeStr : string) (force : bool) : Cmd unit :=
  let mode := normalizeMode modeStr in
  let gr := mkGR group resource in
  config ← getHNCConfig;
  match set_mode gr mode force (hn_Resources config) with
  | None =>
      say ("Switching directly from 'Ignore' to 'Propagate' mode or 'AllowPropagate' mode could cause existing " +:+ quoted resource +:+
           " objects in child namespaces to be overwritten by objects from ancestor namespaces.") ≫= λ _,
      say "If you are sure you want to proceed with this operation, use the '--force' flag." ≫= λ _,
      say ("If you are not sure and would like to see what source objects would be overwritten," +:+
           "please switch to 'Remove' first. To see how to enable propagation safely, refer to " +:+
           "https://github.com/kubernetes-sigs/hierarchical-namespaces/blob/master/docs/user-guide/how-to.md#admin-types") ≫= λ _,
      exit
  | Some (rs, found) =>
      let rs := if (found : bool) then rs else rs ++ [{| rsp_GR := gr; rsp_Mode := mode |}] in
      updateHNCConfig (set_hn_Resources rs config)
  end.

Definition configDeleteCmd (group resource : string) : Cmd unit :=
  config ← getHNCConfig;
  let gr := mkGR group resource in
  let newRscs := filter (λ r, rsp_GR r ≠ gr) (hn_Resources config) in
  if decide (List.Exists (λ r, rsp_GR r = gr) (hn_Resources config)) then
    updateHNCConfig (set_hn_Resources newRscs config) ≫= λ _,
    say ("Configuration for type with group: " +:+ group +:+ ", resource: " +:+ resource +:+ " is deleted")
  else say ("Nothing to delete; No configuration for type with group: " +:+ group +:+ ", resource: " +:+ resource).

Definition say_all (lines : list string) : Cmd unit := act (Println <$> lines).

Definition action_of (m : SynchronizationMode) : string :=
  if decide (m = Propagate) then "Propagating" else if decide (m = Remove) then "Removing"
  else if decide (m = AllowPropagate) then "AllowPropagate" else "Ignoring".

Definition configDescribeCmd : Cmd unit :=
  config ← getHNCConfig;
  say "Synchronized resources:" ≫= λ _,
  say_all ((λ r, "* " +:+ action_of (rst_Mode r) +:+ ": " +:+ gr_Resource (rst_GR r) +:+ " (" +:+ gr_Group (rst_GR r) +:+ "/" +:+ rst_Version r +:+ ")")
    <$> hn_Statuses config) ≫= λ _,
  say (nl +:+ "Conditions:") ≫= λ _,
  say_all ((λ c, c_Type c +:+ " (" +:+ c_Reason c +:+ "): " +:+ c_Message c) <$> hn_Conditions config).

(** ** tree.go *)
Definition condition_text (c : Condition) : string := c_Type c +:+ " (" +:+ c_Reason c +:+ "): " +:+ c_Message c.

(** The number of a footnote, a new one if the text has none yet. *)
Definition footnote (txt : string) : Cmd nat := λ s,
  match footnotesByMsg s !! txt with
  | Some idx => Done (Some idx, s)
  | None =>
      let notes := footnotes s ++ [txt] in
      Done (Some (length notes), mkK (<[txt := length notes]> (footnotesByMsg s)) notes (hasSubnamespace s) (k_events s))
  end.

(** The loop over the conditions. *)
Fixpoint footnotes_for (conds : list Condition) (cycle : bool) (notes : list nat) : Cmd (bool * list nat) :=
  match conds with
  | [] => mret (cycle, notes)
  | cond :: conds' =>
      let cycle := if decide (c_Reason cond = ReasonInCycle) then true else cycle in
      idx ← footnote (condition_text cond);
      footnotes_for conds' cycle (notes ++ [idx])
  end.

Definition nameAndFootnotes (hier : HierarchyConfiguration) : Cmd (string * bool) :=
  '(cycle, notes) ← footnotes_for (hct_Conditions (hc_Status hier)) false [];
  match notes with
  | [] => mret (om_Namespace (hc_Meta hier), false)
  | _ => mret (om_Namespace (hc_Meta hier) +:+ " (" +:+ Join (Itoa <$> merge_sort le notes) "," +:+ ")", cycle)
  end.

Definition note_subnamespace : Cmd unit := λ s, Done (Some tt, mkK (footnotesByMsg s) (footnotes s) true (k_events s)).

(** The loop over the children, with the recursive call as an argument. *)
Fixpoint print_children (recurse : string → HierarchyConfiguration → bool → Cmd unit) (prefix : string) (inCycle : bool)
    (children : list string) : Cmd unit :=
  match children with
  | [] => mret tt
  | cn :: rest =>
      ch ← getHierarchy cn;
      '(txt, cycle) ← nameAndFootnotes ch;
      (if cycle && inCycle then mret tt
       else
         match cl_namespace cl cn with
         | inl err => say ("Could not get namespaces: " +:+ err) ≫= λ _, exit
         | inr ns =>
             txt ← (match items (om_Annotations (kn_Meta ns)) !! SubnamespaceOf with
                    | Some _ => note_subnamespace ≫= λ _, mret ("[s] " +:+ txt)
                    | None => mret txt
                    end);
             match rest with
             | _ :: _ => say (prefix +:+ "├── " +:+ txt) ≫= λ _, recurse (prefix +:+ "│   ") ch cycle
             | [] => say (prefix +:+ "└── " +:+ txt) ≫= λ _, recurse (prefix +:+ "    ") ch cycle
             end
         end) ≫= λ _,
      print_children recurse prefix inCycle rest
  end.

Fixpoint printSubtree (fuel : nat) (prefix : string) (hier : HierarchyConfiguration) (inCycle : bool) : Cmd unit :=
  match fuel with
  | O => stuck
  | S fuel' => print_children (printSubtree fuel') prefix inCycle (hct_Children (hc_Status hier))
  end.

Definition getAllNamespaces : Cmd (list string) :=
  match cl_namespaces cl with
  | inl err => say ("Could not list namespaces: " +:+ err) ≫= λ _, exit
  | inr nms => mret (sort_Strings nms)
  end.

Fixpoint print_trees (fuel : nat) (defaultList : bool) (nsList : list string) : Cmd unit :=
  match nsList with
  | [] => mret tt
  | nnm :: rest =>
      hier ← getHierarchy nnm;
      '(txt, cycle) ← nameAndFootnotes hier;
      (if defaultList && (negb cycle && bool_decide (hcs_Parent (hc_Spec hier) ≠ "")) then mret tt
       else say txt ≫= λ _, printSubtree fuel "" hier cycle) ≫= λ _,
      print_trees fuel defaultList rest
  end.

Definition reset_footnotes : Cmd unit := λ s, Done (Some tt, mkK ∅ [] (hasSubnamespace s) (k_events s)).

Definition treeCmd (fuel : nat) (args : list string) (allNamespaces : bool) : Cmd unit :=
  reset_footnotes ≫= λ _,
  let defaultList := bool_decide (args = []) in
  nsList ← (if allNamespaces then getAllNamespaces else mret args);
  if defaultList && negb allNamespaces then
    say "Error: Must specify the root of the tree(s) to display or else specify --all-namespaces" ≫= λ _, exit
  else
    print_trees fuel defaultList nsList ≫= λ _,
    s ← get_state;
    (if hasSubnamespace s then say (nl +:+ "[s] indicates subnamespaces") else mret tt) ≫= λ _,
    match footnotes s with
    | [] => mret tt
    | notes => say (nl +:+ "Conditions:") ≫= λ _, say_all (imap (λ i n, Itoa (i + 1) +:+ ") " +:+ n) notes)
    end.

(** ** describe.go, without the events of the namespace *)
Definition describeConditions (cond : list Condition) : Cmd unit :=
  match cond with
  | [] => say "  No conditions"
  | _ => say "  Conditions:" ≫= λ _,
         say_all ((λ c, "  - " +:+ c_Type c +:+ " (" +:+ c_Reason c +:+ "): " +:+ c_Message c) <$> cond)
  end.

(** The children with the state of their anchors. *)
Definition childrenAndStatus `{RangeOrder} (children : list string) (anchors : gmap string string) : gmap string string :=
  foldl (λ m '(cn, st), <[cn := match m !! cn with Some _ => "subnamespace" | None => st +:+ " subnamespace" end]> m)
    (list_to_map ((λ cn, (cn, "")) <$> children)) (range anchors).

Definition describe_hierarchy `{RangeOrder} (nnm : string) : Cmd unit :=
  say ("Hierarchy configuration for namespace " +:+ nnm) ≫= λ _,
  hier ← getHierarchy nnm;
  anchors ← getAnchorStatus nnm;
  (if decide (hcs_Parent (hc_Spec hier) ≠ "") then say ("  Parent: " +:+ hcs_Parent (hc_Spec hier)) else say "  No parent") ≫= λ _,
  (match (λ '(cn, status), if decide (status = "") then cn else cn +:+ " (" +:+ status +:+ ")")
           <$> range (childrenAndStatus (hct_Children (hc_Status hier)) anchors) with
   | [] => say "  No children"
   | children => say ("  Children:" +:+ nl +:+ "  - " +:+ Join (sort_Strings children) (nl +:+ "  - "))
   end) ≫= λ _,
  say ("  Allows Cascading Deletion: " +:+ show_bool (hcs_AllowCascadingDeletion (hc_Spec hier))) ≫= λ _,
  describeConditions (hct_Conditions (hc_Status hier)).

(** ** hrq.go: the cells of a row *)
Definition printHierarchicalResourceQuota `{RangeOrder} (qstring : Z → string) (age : option Z → string) (hrq : HierarchicalResourceQuota) : list string :=
  [om_Name (hq_Meta hrq); if IsZero (om_CreationTimestamp (hq_Meta hrq)) then "<unknown>" else age (om_CreationTimestamp (hq_Meta hrq));
   summary qstring (λ r, negb (is_limit r)) (hq_Used hrq) (hq_StatusHard hrq);
   summary qstring is_limit (hq_Used hrq) (hq_StatusHard hrq)].

Definition printHierarchicalResourceQuotaList `{RangeOrder} (qstring : Z → string) (age : option Z → string) (l : list HierarchicalResourceQuota) :=
  printHierarchicalResourceQuota qstring age <$> l.
End plugin.
