(* ===== verification/KubectlFacts.v ===== *)
(** * Properties of the kubectl plugin

    What the tree command prints for a forest that the API server shows, and which
    requests the set command sends. *)

From S2P Require Import Prelude GoStrings Chains Validation Api Config Selectors Resources Forest ForestWf ForestWalks.
From S2P Require Import World Objects HncConfig HrqControllers Kubectl.

Lemma rtc_linear par (y a b : string) : rtc (up par) y a → rtc (up par) y b → rtc (up par) a b ∨ rtc (up par) b a.
Proof.
  intros Ha. revert b. induction Ha as [y|y z a Hyz Hza IH]; intros b Hb; [by left|].
  apply rtc_inv in Hb as [->|(z' & Hz' & Hb)]; [right; by eapply rtc_l|].
  rewrite (up_det par y z' z) in Hb by done. by apply IH.
Qed.

Lemma tc_last {A} (R : relation A) y x : tc R y x → ∃ c, rtc R y c ∧ R c x.
Proof.
  induction 1 as [y x Hyx|y z x Hyz _ (c & Hc & Hcx)]; [by exists y|]. exists c. split; [by eapply rtc_l|done].
Qed.

(** ** Running commands *)
Lemma Cmd_bind_Some {A B} (m : Cmd A) (k : A → Cmd B) s a s' : m s = Done (Some a, s') → (m ≫= k) s = k a s'.
Proof. intros H. unfold mbind, Cmd_bind. by rewrite H. Qed.

Lemma Cmd_bind_None {A B} (m : Cmd A) (k : A → Cmd B) s s' : m s = Done (None, s') → (m ≫= k) s = Done (None, s').
Proof. intros H. unfold mbind, Cmd_bind. by rewrite H. Qed.

Lemma Cmd_bind_assoc {A B C} (m : Cmd A) (k1 : A → Cmd B) (k2 : B → Cmd C) s : ((m ≫= k1) ≫= k2) s = (m ≫= λ a, k1 a ≫= k2) s.
Proof. unfold mbind, Cmd_bind. by destruct (m s) as [[[a|] s']| |]. Qed.

(** A command ends normally and appends these events. *)
Definition does {A} (m : Cmd A) (s : kState) (a : A) (s' : kState) (evs : list kEvent) : Prop :=
  m s = Done (Some a, s') ∧ k_events s' = k_events s ++ evs.

Lemma does_ret {A} (a : A) s : does (mret a) s a s [].
Proof. split; [done|]. by rewrite app_nil_r. Qed.

Lemma does_bind {A B} (m : Cmd A) (k : A → Cmd B) s a s1 e1 b s2 e2 :
  does m s a s1 e1 → does (k a) s1 b s2 e2 → does (m ≫= k) s b s2 (e1 ++ e2).
Proof.
  intros [Hm He1] [Hk He2]. split; [by rewrite (Cmd_bind_Some _ _ _ _ _ Hm)|]. by rewrite He2, He1, app_assoc.
Qed.

Lemma does_step {A B} (m : Cmd A) (k : A → Cmd B) s a s1 b s2 e :
  does m s a s1 [] → does (k a) s1 b s2 e → does (m ≫= k) s b s2 e.
Proof. intros Hm Hk. exact (does_bind m k s a s1 [] b s2 e Hm Hk). Qed.

Lemma does_say line s : ∃ s', does (say line) s tt s' [Println line].
Proof. eexists. split; [reflexivity|done]. Qed.

(** ** Names with footnotes *)
Definition has_cycle_condition (hier : HierarchyConfiguration) : Prop :=
  List.Exists (λ c, c_Reason c = ReasonInCycle) (hct_Conditions (hc_Status hier)).

Lemma footnote_does txt s : ∃ n s', does (footnote txt) s n s' [].
Proof.
  unfold does, footnote. destruct (footnotesByMsg s !! txt); eexists _, _; (split; [reflexivity|]); simpl; by rewrite app_nil_r.
Qed.

Lemma footnotes_for_does conds cycle notes s : ∃ notes' s',
  does (footnotes_for conds cycle notes) s (cycle || bool_decide (List.Exists (λ c, c_Reason c = ReasonInCycle) conds), notes ++ notes') s' [] ∧
  length notes' = length conds.
Proof.
  revert cycle notes s. induction conds as [|c conds IH]; intros cycle notes s; cbn [footnotes_for].
  { exists [], s. rewrite bool_decide_eq_false_2 by (by intros ?%Exists_nil). rewrite orb_false_r, app_nil_r. split; [apply does_ret|done]. }
  destruct (footnote_does (condition_text c) s) as (n & s1 & H1).
  destruct (IH (if decide (c_Reason c = ReasonInCycle) then true else cycle) (notes ++ [n]) s1) as (notes' & s2 & H2 & Hlen).
  exists (n :: notes'), s2. split; [|simpl; lia]. eapply does_step; [exact H1|].
  replace (notes ++ n :: notes') with ((notes ++ [n]) ++ notes') by (by rewrite <- app_assoc).
  replace (cycle || _) with ((if decide (c_Reason c = ReasonInCycle) then true else cycle) || bool_decide (List.Exists (λ c, c_Reason c = ReasonInCycle) conds)); [exact H2|].
  assert (bool_decide (List.Exists (λ c, c_Reason c = ReasonInCycle) (c :: conds)) =
    bool_decide (c_Reason c = ReasonInCycle) || bool_decide (List.Exists (λ c, c_Reason c = ReasonInCycle) conds)) as ->
    by (rewrite <- bool_decide_or; apply bool_decide_ext, Exists_cons).
  destruct (decide (c_Reason c = ReasonInCycle)) as [Hc|Hc].
  - rewrite (bool_decide_eq_true_2 _ Hc). by destruct cycle.
  - rewrite (bool_decide_eq_false_2 _ Hc). done.
Qed.

Lemma nameAndFootnotes_does hier s : ∃ notes s',
  does (nameAndFootnotes hier) s (om_Namespace (hc_Meta hier) +:+ notes, bool_decide (has_cycle_condition hier)) s' [].
Proof.
  destruct (footnotes_for_does (hct_Conditions (hc_Status hier)) false [] s) as (notes & s' & H & Hlen).
  unfold nameAndFootnotes, has_cycle_condition. destruct notes as [|n notes].
  - exists "", s'. eapply does_step; [exact H|]. rewrite string_app_nil_r.
    destruct (hct_Conditions (hc_Status hier)); [|done]. rewrite bool_decide_eq_false_2 by (by intros ?%Exists_nil). apply does_ret.
  - eexists _, s'. eapply does_step; [exact H|]. simpl. apply does_ret.
Qed.

(** ** The tree command *)
Section tree.
  Context `{RO : RangeOrder} (cl : cluster) (f : Forest) (Hwf : wf f).

(** The API server shows the forest: every namespace can be read, and the status of its
    hierarchy has its children and tells whether it is on a cycle. *)
Definition shows (x : string) (hier : HierarchyConfiguration) : Prop :=
  (∃ ns, cl_namespace cl x = inr ns) ∧ cl_hierarchy cl x = Found hier ∧ om_Namespace (hc_Meta hier) = x ∧
  (∀ l, f_namespaces f !! x = Some l → hct_Children (hc_Status hier) = ChildNames (deref f l)) ∧
  (has_cycle_condition hier ↔ in_cycle (parent_name f) x).
Definition shows_forest : Prop := ∀ x, is_Some (f_namespaces f !! x) → ∃ hier, shows x hier.
Context (Hshow : shows_forest).

(** The line mentions the namespace. *)
Definition line_for (nm line : string) : Prop := ∃ pre notes, line = pre +:+ nm +:+ notes.
Definition prints (m : Cmd unit) (s : kState) (names : list string) : Prop :=
  ∃ s' lines, does m s tt s' (Println <$> lines) ∧ Forall2 line_for names lines.

Lemma prints_bind m (k : unit → Cmd unit) s names1 names2 : prints m s names1 → (∀ s', prints (k tt) s' names2) → prints (m ≫= k) s (names1 ++ names2).
Proof.
  intros (s1 & lines1 & H1 & Hf1) Hk. destruct (Hk s1) as (s2 & lines2 & H2 & Hf2).
  exists s2, (lines1 ++ lines2). rewrite fmap_app. split; [by eapply does_bind|by apply Forall2_app].
Qed.

Lemma prints_step {A} (m : Cmd A) (k : A → Cmd unit) s a s1 names : does m s a s1 [] → prints (k a) s1 names → prints (m ≫= k) s names.
Proof. intros Hm (s2 & lines & Hk & Hf). exists s2, lines. split; [by eapply does_step|done]. Qed.

Lemma prints_line txt (k : unit → Cmd unit) s nm names : line_for nm txt →
  (∀ s', prints (k tt) s' names) → prints (say txt ≫= k) s (nm :: names).
Proof.
  intros Hl Hk. destruct (does_say txt s) as [s1 H1]. destruct (Hk s1) as (s2 & lines & H2 & Hf).
  exists s2, (txt :: lines). split; [|by constructor]. exact (does_bind _ _ _ _ _ _ _ _ _ H1 H2).
Qed.

Lemma getHierarchy_shows x hier s : shows x hier → does (getHierarchy cl x) s hier s [].
Proof. intros ([ns Hns] & Hh & _). unfold getHierarchy. rewrite Hns, Hh. apply does_ret. Qed.

(** One child that is not skipped: its line, then its subtree. *)
Lemma print_child_prints (recurse : string → HierarchyConfiguration → bool → Cmd unit) prefix cn ch txt notes s (rest : list string) names :
  shows cn ch → txt = cn +:+ notes → (∀ p s', prints (recurse p ch false) s' names) →
  prints (match cl_namespace cl cn with
          | inl err => say ("Could not get namespaces: " +:+ err) ≫= λ _, exit
          | inr ns =>
              txt ← (match items (om_Annotations (kn_Meta ns)) !! SubnamespaceOf with
                     | Some _ => note_subnamespace ≫= λ _, mret ("[s] " +:+ txt)
                     | None => mret txt
                     end);
              match rest with
              | _ :: _ => say (prefix +:+ "├── " +:+ txt) ≫= λ _, recurse (prefix +:+ "│   ") ch false
              | [] => say (prefix +:+ "└── " +:+ txt) ≫= λ _, recurse (prefix +:+ "    ") ch false
              end
          end) s (cn :: names).
Proof.
  intros ([ns ->] & _) -> Hrec.
  assert (∃ pre s1, does (match items (om_Annotations (kn_Meta ns)) !! SubnamespaceOf with
                          | Some _ => note_subnamespace ≫= λ _, mret ("[s] " +:+ (cn +:+ notes))
                          | None => mret (cn +:+ notes)
                          end) s (pre +:+ cn +:+ notes) s1 []) as (pre & s1 & H1).
  { destruct (items _ !! SubnamespaceOf).
    - exists "[s] ". eexists. split; [reflexivity|]. simpl. by rewrite app_nil_r.
    - exists "", s. apply does_ret. }
  eapply prints_step; [exact H1|]. cbv beta.
  destruct rest; (apply prints_line; [eexists _, notes; rewrite <- !string_app_assoc; reflexivity|done]).
Qed.

Notation U := (up (parent_name f)).

(** The names that are printed for a list of children. *)
Definition below (children : list string) (y : string) : Prop :=
  ∃ c, c ∈ children ∧ ¬ in_cycle (parent_name f) c ∧ rtc U y c.

(** The subtrees of two children of a namespace are disjoint off the cycles. *)
Lemma siblings_disjoint x c children y : U c x → (∀ d, d ∈ children → U d x) → c ∉ children → ¬ in_cycle (parent_name f) c →
  rtc U y c → below children y → False.
Proof.
  intros Hc Hup Hni Hnc Hy (d & Hd & Hnd & Hyd).
  assert (∀ a b, a ≠ b → U a x → U b x → ¬ in_cycle (parent_name f) b → ¬ rtc U a b) as Hone.
  { intros a b Hab Ha Hb Hnb Hr. apply rtc_inv in Hr as [|(z & Hz & Hr)]; [done|]. rewrite (up_det _ _ _ _ Hz Ha) in Hr.
    apply Hnb. unfold in_cycle. eapply tc_rtc_r; [by apply tc_once|done]. }
  assert (c ≠ d) as Hne by (by intros ->). destruct (rtc_linear _ _ _ _ Hy Hyd) as [Hr|Hr].
  - by apply (Hone c d Hne Hc (Hup d Hd) Hnd).
  - by apply (Hone d c (not_eq_sym Hne) (Hup d Hd) Hc Hnc).
Qed.

(** Every child is on a cycle and skipped, or its subtree is printed. *)
Lemma print_children_prints (recurse : string → HierarchyConfiguration → bool → Cmd unit) x (inCycle : bool) children :
  (∀ c, c ∈ children → U c x) → NoDup children → (in_cycle (parent_name f) x → inCycle = true) →
  (∀ c, c ∈ children → ¬ in_cycle (parent_name f) c → ∀ hier, shows c hier →
     ∃ names, (∀ p s, prints (recurse p hier false) s names) ∧ NoDup names ∧ ∀ y, y ∈ names ↔ tc U y c) →
  ∃ names, (∀ prefix s, prints (print_children cl recurse prefix inCycle children) s names) ∧ NoDup names ∧ ∀ y, y ∈ names ↔ below children y.
Proof.
  induction children as [|c children IH]; intros Hup Hnd Hcyc Hrec; cbn [print_children].
  { exists []. split; [intros _ s; exists s, []; split; [apply does_ret|constructor]|]. split; [constructor|].
    intros y. split; [by intros ?%elem_of_nil|by intros (c & ?%elem_of_nil & _)]. }
  apply NoDup_cons in Hnd as [Hc Hnd]. assert (U c x) as Hcx by (apply Hup; by left).
  destruct (Hshow c) as [ch Hch]; [by destruct (up_live f Hwf c x Hcx)|]. pose proof Hch as (_ & _ & Hnm & _ & Hcc).
  destruct IH as (names & Hp & Hn & Hiff); [intros; apply Hup; by right|done|done|intros; eapply Hrec; [by right|done|done]|].
  destruct (bool_decide (has_cycle_condition ch) && inCycle) eqn:Hskip.
  - exists names. split; [|split; [done|]].
    + intros prefix s. destruct (nameAndFootnotes_does ch s) as (notes & s1 & Hnf). rewrite Hnm in Hnf.
      eapply prints_step; [by apply getHierarchy_shows|]. eapply prints_step; [exact Hnf|]. cbv beta iota. rewrite Hskip. apply Hp.
    + apply andb_true_iff in Hskip as [Hin%bool_decide_eq_true _]. intros y. rewrite Hiff. unfold below. setoid_rewrite elem_of_cons. naive_solver.
  - assert (¬ in_cycle (parent_name f) c) as Hnc.
    { intros Hin. assert (in_cycle (parent_name f) x) as Hx by (eapply in_cycle_reach; [exact Hin|by apply rtc_once]).
      rewrite bool_decide_eq_true_2, (Hcyc Hx) in Hskip by (by apply Hcc). done. }
    assert (bool_decide (has_cycle_condition ch) = false) as Hbd by (apply bool_decide_eq_false; by rewrite Hcc).
    destruct (Hrec c) with (hier := ch) as (sub & Hsub & Hsubnd & Hsubiff); [by left|done|done|].
    assert (∀ y, y ∈ c :: sub ↔ rtc U y c) as Hself.
    { intros y. rewrite elem_of_cons, Hsubiff. split; [intros [->|?]; [done|by apply tc_rtc]|].
      intros [->|?]%rtc_tc; auto. }
    exists ((c :: sub) ++ names). split; [|split].
    + intros prefix s. destruct (nameAndFootnotes_does ch s) as (notes & s1 & Hnf). rewrite Hnm, Hbd in Hnf.
      eapply prints_step; [by apply getHierarchy_shows|]. eapply prints_step; [exact Hnf|]. cbv beta iota.
      apply prints_bind; [|intros; apply Hp]. by eapply print_child_prints.
    + apply NoDup_app. split; [|split].
      * constructor; [|done]. intros Hin%Hsubiff. by apply Hnc.
      * intros y Hy%Hself Hy'%Hiff. apply (siblings_disjoint x c children y); [done|intros; apply Hup; by right|done..].
      * done.
    + intros y. rewrite elem_of_app, Hself, Hiff. unfold below. setoid_rewrite elem_of_cons. naive_solver.
Qed.

Lemma children_of x l : f_namespaces f !! x = Some l → NoDup (ChildNames (deref f l)) ∧ ∀ c, c ∈ ChildNames (deref f l) ↔ U c x.
Proof.
  intros Hl. split; [|intros c; by apply (ChildNames_elem f Hwf)]. unfold ChildNames. case_decide; [constructor|].
  apply NoDup_sort_Strings, NoDup_keys.
Qed.

(** Off the cycles, the namespaces below the children are all the descendants. *)
Lemma below_tc x l y : f_namespaces f !! x = Some l → ¬ in_cycle (parent_name f) x → below (ChildNames (deref f l)) y ↔ tc U y x.
Proof.
  intros Hl Hx. destruct (children_of x l Hl) as [_ Hch]. unfold below. split.
  - intros (c & Hc%Hch & _ & Hy). eapply tc_rtc_l; [exact Hy|]. by apply tc_once.
  - intros (c & Hy & Hc)%tc_last. exists c. split; [by apply Hch|]. split; [|done].
    intros Hcyc. apply Hx. eapply in_cycle_reach; [exact Hcyc|by apply rtc_once].
Qed.

(** The subtree of a namespace that is not on a cycle, with enough fuel for its height. *)
Lemma printSubtree_prints fuel x hier path : shows x hier → is_Some (f_namespaces f !! x) → ¬ in_cycle (parent_name f) x →
  chain (parent_name f) (x :: path) → NoDup (x :: path) → size (f_namespaces f) < length path + fuel →
  ∃ names, (∀ prefix s, prints (printSubtree cl fuel prefix hier false) s names) ∧ NoDup names ∧ ∀ y, y ∈ names ↔ tc U y x.
Proof.
  revert x hier path. induction fuel as [|fuel IH]; intros x hier path Hs [l Hl] Hx Hch Hnd Hfuel.
  { assert (length (x :: path) ≤ size (f_namespaces f)) as Hlen; [|simpl in Hlen; lia].
    rewrite <- size_dom. apply NoDup_length_bound; [done|]. intros y Hy. apply elem_of_dom.
    eapply (rtc_live f Hwf x y); [by eexists|]. by eapply chain_reach. }
  destruct (children_of x l Hl) as [Hcnd Hcs]. pose proof Hs as (_ & _ & _ & Hkids & _). specialize (Hkids l Hl).
  cbn [printSubtree]. rewrite Hkids.
  destruct (print_children_prints (printSubtree cl fuel) x false (ChildNames (deref f l))) as (names & Hp & Hn & Hiff).
  - intros c. apply Hcs.
  - done.
  - done.
  - intros c Hc Hnc hc Hshc. apply Hcs in Hc. apply (IH c hc (x :: path)); [done|by destruct (up_live f Hwf c x Hc)|done|..].
    + by apply (chain_join _ [] c x path); [constructor|..].
    + constructor; [|done]. intros Hin. apply Hnc. unfold in_cycle. eapply tc_rtc_r; [by apply tc_once|]. by eapply chain_reach.
    + simpl. lia.
  - exists names. split; [done|]. split; [done|]. intros y. rewrite Hiff. by apply below_tc.
Qed.

(** Any namespace, on a cycle or not: the walk returns. *)
Lemma printSubtree_any x l hier : f_namespaces f !! x = Some l → shows x hier →
  ∃ names, (∀ prefix s, prints (printSubtree cl (S (S (size (f_namespaces f)))) prefix hier (bool_decide (has_cycle_condition hier))) s names) ∧
    NoDup names ∧ ∀ y, y ∈ names ↔ ∃ c, U c x ∧ ¬ in_cycle (parent_name f) c ∧ rtc U y c.
Proof.
  intros Hl Hs. destruct (children_of x l Hl) as [Hcnd Hcs]. pose proof Hs as (_ & _ & _ & Hkids & Hcc). specialize (Hkids l Hl).
  destruct (print_children_prints (printSubtree cl (S (size (f_namespaces f)))) x (bool_decide (has_cycle_condition hier))
    (ChildNames (deref f l))) as (names & Hp & Hn & Hiff).
  - intros c. apply Hcs.
  - done.
  - intros Hx. apply bool_decide_eq_true. by apply Hcc.
  - intros c Hc Hnc hc Hshc. apply Hcs in Hc. apply (printSubtree_prints _ c hc []); [done|by destruct (up_live f Hwf c x Hc)|done|constructor|apply NoDup_singleton|].
    simpl. lia.
  - exists names. split; [|split; [done|]].
    + intros prefix s. change (printSubtree cl (S (S (size (f_namespaces f)))) prefix hier (bool_decide (has_cycle_condition hier)))
        with (print_children cl (printSubtree cl (S (size (f_namespaces f)))) prefix (bool_decide (has_cycle_condition hier)) (hct_Children (hc_Status hier))).
      rewrite Hkids. apply Hp.
    + intros y. rewrite Hiff. unfold below. by setoid_rewrite Hcs.
Qed.
End tree.

(** ** The set command *)
Definition is_request (e : kEvent) : Prop := match e with Println _ => False | _ => True end.
#[export] Instance is_request_dec e : Decision (is_request e).
Proof. destruct e; apply _. Defined.
Definition requests (s : kState) : list kEvent := filter is_request (k_events s).

Section set.
  Context (cl : cluster).

(** The flags contradict each other. *)
Definition contradictory (u : hcUpdates) : bool :=
  up_root u && bool_decide (up_parent u ≠ "") || up_allowCD u && up_forbidCD u.

(** The configuration that the flags ask for. *)
Definition requested (u : hcUpdates) (hc : HierarchyConfiguration) : HierarchyConfiguration :=
  set_hc_Spec (if up_root u then "" else if decide (up_parent u ≠ "") then up_parent u else hcs_Parent (hc_Spec hc))
    (if up_allowCD u then true else if up_forbidCD u then false else hcs_AllowCascadingDeletion (hc_Spec hc)) hc.

Definition write_of (hc : HierarchyConfiguration) : kEvent :=
  if IsZero (om_CreationTimestamp (hc_Meta hc)) then CreateHierarchy hc else UpdateHierarchy hc.

(** A step of the command that changes the parent or the flag and prints a line. *)
Lemma requests_say line s : ∃ s', say line s = Done (Some tt, s') ∧ requests s' = requests s.
Proof. eexists. split; [reflexivity|]. unfold requests. simpl. rewrite filter_app. by rewrite app_nil_r. Qed.

Lemma set_hc_Spec_same hc : set_hc_Spec (hcs_Parent (hc_Spec hc)) (hcs_AllowCascadingDeletion (hc_Spec hc)) hc = hc.
Proof. by destruct hc as [? [] ?]. Qed.

(** The part of the command that decides the parent. *)
Definition set_parent_part (u : hcUpdates) (nnm : string) (hc : HierarchyConfiguration) : Cmd (HierarchyConfiguration * nat) :=
  hcn ← (if up_root u then setRoot (hcs_Parent (hc_Spec hc)) nnm (hc, 0) else mret (hc, 0));
  if decide (up_parent u ≠ "") then setParent (hcs_Parent (hc_Spec hc)) (up_parent u) nnm hcn else mret hcn.

Lemma set_parent_part_spec u nnm hc s : up_root u && bool_decide (up_parent u ≠ "") = false →
  let p := if up_root u then "" else if decide (up_parent u ≠ "") then up_parent u else hcs_Parent (hc_Spec hc) in
  ∃ s', set_parent_part u nnm hc s = Done (Some (with_parent p hc, if decide (p = hcs_Parent (hc_Spec hc)) then 0 else 1), s') ∧ requests s' = requests s.
Proof.
  intros Hu p. unfold set_parent_part. assert (with_parent (hcs_Parent (hc_Spec hc)) hc = hc) as Hid by apply set_hc_Spec_same.
  destruct (up_root u) eqn:Hr; simpl in Hu.
  - apply bool_decide_eq_false, dec_stable in Hu. unfold setRoot, p. destruct (decide (up_parent u ≠ "")) as [?|_]; [done|].
    destruct (decide (hcs_Parent (hc_Spec hc) = "")) as [He|He].
    + rewrite decide_True by done. assert (with_parent "" hc = hc) as -> by (by rewrite <- He).
      destruct (requests_say (nnm +:+ " is already a root namespace; unchanged ") s) as (s' & Hs & Hreq).
      exists s'. split; [|done]. by rewrite (Cmd_bind_Some _ _ s (hc, 0) s') by (by rewrite (Cmd_bind_Some _ _ _ _ _ Hs)).
    + rewrite decide_False by done.
      destruct (requests_say ("Unsetting the parent of " +:+ nnm +:+ " (was previously " +:+ hcs_Parent (hc_Spec hc) +:+ ")") s) as (s' & Hs & Hreq).
      exists s'. split; [|done]. by rewrite (Cmd_bind_Some _ _ s (with_parent "" hc, 1) s') by (by rewrite (Cmd_bind_Some _ _ _ _ _ Hs)).
  - rewrite (Cmd_bind_Some _ _ s (hc, 0) s) by done. unfold p. destruct (decide (up_parent u ≠ "")) as [Hp|Hp].
    + unfold setParent. destruct (decide (hcs_Parent (hc_Spec hc) = up_parent u)) as [He|He].
      * rewrite decide_True by done. rewrite <- He, Hid.
        destruct (requests_say ("Parent of " +:+ nnm +:+ " is already " +:+ hcs_Parent (hc_Spec hc) +:+ "; unchanged") s) as (s' & Hs & Hreq).
        exists s'. split; [|done]. by rewrite (Cmd_bind_Some _ _ _ _ _ Hs).
      * destruct (decide (up_parent u = hcs_Parent (hc_Spec hc))) as [?|_]; [congruence|]. destruct (decide (hcs_Parent (hc_Spec hc) = "")).
        all: match goal with |- context [say ?line ≫= _] => destruct (requests_say line s) as (s' & Hs & Hreq) end;
          exists s'; split; [|done]; by rewrite (Cmd_bind_Some _ _ _ _ _ Hs).
    + exists s. rewrite decide_True, Hid by done. done.
Qed.

Lemma setAllowCascadingDeletion_spec nnm allow forbid hc n s : allow && forbid = false →
  let a := if allow then true else if forbid then false else hcs_AllowCascadingDeletion (hc_Spec hc) in
  ∃ s', setAllowCascadingDeletion nnm allow forbid (hc, n) s =
    Done (Some (with_allowCD a hc, if decide (a = hcs_AllowCascadingDeletion (hc_Spec hc)) then n else S n), s') ∧ requests s' = requests s.
Proof.
  intros Hc a. unfold setAllowCascadingDeletion. rewrite Hc.
  assert (with_allowCD (hcs_AllowCascadingDeletion (hc_Spec hc)) hc = hc) as Hid by apply set_hc_Spec_same.
  destruct (negb allow && negb forbid) eqn:Hn.
  { apply andb_true_iff in Hn as [Ha%negb_true_iff Hf%negb_true_iff]. subst allow forbid. exists s. unfold a. rewrite decide_True, Hid by done. done. }
  assert (a = allow) as -> by (unfold a; destruct allow, forbid; done). case_bool_decide as He.
  - rewrite decide_True by done. assert (with_allowCD allow hc = hc) as -> by (by rewrite <- He).
    match goal with |- context [say ?line ≫= _] => destruct (requests_say line s) as (s' & Hs & Hreq) end.
    exists s'. split; [|done]. by rewrite (Cmd_bind_Some _ _ _ _ _ Hs).
  - rewrite decide_False by congruence.
    match goal with |- context [say ?line ≫= _] => destruct (requests_say line s) as (s' & Hs & Hreq) end.
    exists s'. split; [|done]. by rewrite (Cmd_bind_Some _ _ _ _ _ Hs).
Qed.

Lemma requested_parts u hc :
  with_allowCD (if up_allowCD u then true else if up_forbidCD u then false else hcs_AllowCascadingDeletion (hc_Spec hc))
    (with_parent (if up_root u then "" else if decide (up_parent u ≠ "") then up_parent u else hcs_Parent (hc_Spec hc)) hc) = requested u hc.
Proof. done. Qed.

Lemma requested_changes u hc : requested u hc ≠ hc ↔
  (if up_root u then "" else if decide (up_parent u ≠ "") then up_parent u else hcs_Parent (hc_Spec hc)) ≠ hcs_Parent (hc_Spec hc) ∨
  (if up_allowCD u then true else if up_forbidCD u then false else hcs_AllowCascadingDeletion (hc_Spec hc)) ≠ hcs_AllowCascadingDeletion (hc_Spec hc).
Proof.
  set (p := if up_root u then _ else _). set (a := if up_allowCD u then _ else _). change (requested u hc) with (set_hc_Spec p a hc). split.
  - intros Hne. destruct (decide (p = hcs_Parent (hc_Spec hc))) as [Hp|]; [|by left].
    destruct (decide (a = hcs_AllowCascadingDeletion (hc_Spec hc))) as [Ha|]; [|by right]. rewrite Hp, Ha, set_hc_Spec_same in Hne. done.
  - intros Hne Heq. rewrite <- Heq in Hne. simpl in Hne. naive_solver.
Qed.

Lemma set_parent_bind u nnm hc s r s1 (k : HierarchyConfiguration * nat → Cmd unit) : set_parent_part u nnm hc s = Done (Some r, s1) →
  ((if up_root u then setRoot (hcs_Parent (hc_Spec hc)) nnm (hc, 0) else mret (hc, 0)) ≫= λ hcn,
    (if decide (up_parent u ≠ "") then setParent (hcs_Parent (hc_Spec hc)) (up_parent u) nnm hcn else mret hcn) ≫= k) s = k r s1.
Proof. intros H. rewrite <- (Cmd_bind_Some _ k _ _ _ H). symmetry. apply Cmd_bind_assoc. Qed.

Lemma updateHC_spec u nnm hc s : getHierarchy cl nnm s = Done (Some hc, s) → contradictory u = false →
  ∃ s', updateHC cl u nnm s = Done (match cl_writeHierarchy cl with Some _ => if decide (requested u hc = hc) then Some tt else None | None => Some tt end, s') ∧
    requests s' = requests s ++ (if decide (requested u hc = hc) then [] else [write_of (requested u hc)]).
Proof.
  intros Hget [Hroot Hcd]%orb_false_iff. unfold updateHC. rewrite (Cmd_bind_Some _ _ _ _ _ Hget). cbv zeta. rewrite Hroot.
  destruct (set_parent_part_spec u nnm hc s Hroot) as (s1 & H1 & Hr1). pose proof (requested_parts u hc) as Hparts. pose proof (requested_changes u hc) as Hch.
  set (p := if up_root u then _ else _) in *.
  set (n1 := if decide (p = _) then 0 else 1) in *.
  destruct (setAllowCascadingDeletion_spec nnm (up_allowCD u) (up_forbidCD u) (with_parent p hc) n1 s1 Hcd) as (s2 & H2 & Hr2). simpl in H2.
  set (a := if up_allowCD u then _ else _) in *. rewrite Hparts in H2.
  set (n2 := if decide (a = _) then n1 else S n1) in *.
  assert (0 < n2 ↔ requested u hc ≠ hc) as Hn.
  { rewrite Hch. unfold n2, n1. destruct (decide (a = _)), (decide (p = _)); split; (lia || naive_solver). }
  rewrite (set_parent_bind _ _ _ _ _ _ _ H1), (Cmd_bind_Some _ _ _ _ _ H2). destruct (decide (requested u hc = hc)) as [He|He].
  - destruct (decide (0 < n2)) as [Hlt|_]; [by apply Hn in Hlt|].
    destruct (requests_say "No changes made" s2) as (s3 & -> & Hr3). exists s3. split; [by destruct (cl_writeHierarchy cl)|].
    by rewrite app_nil_r, Hr3, Hr2.
  - destruct (decide (0 < n2)) as [_|Hlt]; [|by destruct Hlt; apply Hn]. unfold updateHierarchy.
    fold (write_of (requested u hc)). set (ev := write_of (requested u hc)).
    assert (is_request ev) as Hev by (unfold ev, write_of; by destruct (IsZero _)).
    assert (∃ s3, act [ev] s2 = Done (Some tt, s3) ∧ requests s3 = requests s ++ [ev]) as (s3 & H3 & Hr3).
    { eexists. split; [reflexivity|]. unfold requests. simpl. rewrite filter_app, filter_cons_True by done.
      change (filter is_request (k_events s2)) with (requests s2). by rewrite Hr2, Hr1. }
    destruct (cl_writeHierarchy cl) as [err|].
    + destruct (requests_say (nl +:+ "Could not " +:+ ("update the hierarchical configuration of " +:+ nnm) +:+ "." +:+ nl +:+ "Reason: " +:+ err) s3) as (s4 & H4 & Hr4).
      exists s4. split; [|by rewrite Hr4]. apply Cmd_bind_None. rewrite (Cmd_bind_Some _ _ _ _ _ H3). by rewrite (Cmd_bind_Some _ _ _ _ _ H4).
    + match goal with |- context [say ?line] => destruct (requests_say line s3) as (s4 & H4 & Hr4) end.
      exists s4. split; [|by rewrite Hr4]. rewrite (Cmd_bind_Some _ _ s2 tt s3); [done|]. by rewrite (Cmd_bind_Some _ _ _ _ _ H3).
Qed.

Lemma updateHC_contradictory u nnm hc s : getHierarchy cl nnm s = Done (Some hc, s) → contradictory u = true →
  ∃ s', updateHC cl u nnm s = Done (None, s') ∧ requests s' = requests s.
Proof.
  intros Hget Hc. unfold updateHC. rewrite (Cmd_bind_Some _ _ _ _ _ Hget). cbv zeta.
  unfold contradictory in Hc. destruct (up_root u && bool_decide (up_parent u ≠ "")) eqn:Hroot.
  { match goal with |- context [say ?line] => destruct (requests_say line s) as (s1 & H1 & Hr1) end.
    exists s1. split; [|done]. by rewrite (Cmd_bind_Some _ _ _ _ _ H1). }
  simpl in Hc. destruct (set_parent_part_spec u nnm hc s Hroot) as (s1 & H1 & Hr1).
  set (p := if up_root u then _ else _) in *. set (n1 := if decide (p = _) then 0 else 1) in *.
  rewrite (set_parent_bind _ _ _ _ _ _ _ H1). unfold setAllowCascadingDeletion. rewrite Hc.
  destruct (requests_say "Cannot set both --allowCascadingDeletion and --forbidCascadingDeletion" s1) as (s2 & H2 & Hr2).
  exists s2. split; [|by rewrite Hr2]. apply Cmd_bind_None. by rewrite (Cmd_bind_Some _ _ _ _ _ H2).
Qed.
End set.
