(* ===== verification/KubectlViews.v ===== *)
(** * The kubectl plugin: events, quotas and lists of trees (describe.go, hrq.go, get.go, root.go)

    The commands that show tables.  The table writer and printer are libraries: what they are given is the result.  The
    order of [sort.Slice] among equal times is open, so the events that describe shows are a relation. *)

From S2P Require Import Prelude GoStrings Api Resources Forest HrqControllers TreeApi World Kubectl.

(** ** describe.go: recent events *)
Record Event := mkEvent {
  ev_Component : string; ev_Reason : string; ev_Kind : string; ev_Namespace : string; ev_Name : string; ev_Message : string;
  ev_LastTimestamp : Z
}.

Definition from_hnc (e : Event) : bool := bool_decide (ev_Component e = "hnc.x-k8s.io").
Definition event_object (e : Event) : string := ev_Kind e +:+ ":" +:+ ev_Namespace e +:+ "/" +:+ ev_Name e.
Definition event_key (e : Event) : string := ev_Reason e +:+ event_object e.

(** [Less]: the later one first. *)
Definition event_le (x y : Event) : Prop := ¬ (ev_LastTimestamp x < ev_LastTimestamp y)%Z.

(** The loop over the sorted events with its set of seen keys. *)
Fixpoint show_events (set : gset string) (events : list Event) : list Event :=
  match events with
  | [] => []
  | e :: rest => if decide (event_key e ∈ set) then show_events set rest else e :: show_events ({[event_key e]} ∪ set) rest
  end.

(** A row of the table, given the rendering of ages. *)
Definition event_row (age : Z → string) (e : Event) : list string :=
  [age (ev_LastTimestamp e); ev_Reason e; event_object e; TrimSpace (ev_Message e)].

Inductive eventView := NoEvents | EventTable (shown : list Event).

Inductive describeEvents (events : list Event) : eventView → Prop :=
  | de_none : filter (λ e, from_hnc e = true) events = [] → describeEvents events NoEvents
  | de_table sorted : filter (λ e, from_hnc e = true) events ≠ [] → sorted ≡ₚ filter (λ e, from_hnc e = true) events →
      StronglySorted event_le sorted → describeEvents events (EventTable (show_events ∅ sorted)).

(** ** hrq.go *)
Section quotas.
  (** The quota of a name in a namespace, and the list of a namespace (of all of them for the empty name). *)
  Context (getOne : string → string → string + HierarchicalResourceQuota) (listIn : string → string + list HierarchicalResourceQuota).

(** The list, or the message before the exit; the namespace is a variable of the plugin. *)
Fixpoint get_named (namespace : string) (names : list string) : string + list HierarchicalResourceQuota :=
  match names with
  | [] => inr []
  | name :: rest =>
      match getOne namespace name with
      | inl err => inl ("Error reading hierarchicalresourcequota " +:+ name +:+ ": " +:+ err)
      | inr hrq => match get_named namespace rest with inl err => inl err | inr l => inr (hrq :: l) end
      end
  end.

Definition getHRQ (namespace : string) (names : list string) (nnm : string) : string + list HierarchicalResourceQuota :=
  if decide (names ≠ [] ∧ nnm ≠ "") then get_named namespace names
  else match listIn namespace with
       | inl err => inl ("Error reading hierarchicalresourcequotas: " +:+ err)
       | inr l => inr l
       end.

(** What is printed: a message before the exit with status 1, or a table, with a column for namespaces and maybe labels. *)
Inductive quotaView := QuotaExit (msg : string) | QuotaTable (withNamespace showLabels : bool) (rows : list (list string)).

(** [Changed] is whether a flag was given, with whatever value. *)
Record hrqFlags := mkHrqFlags { fl_namespace : string; fl_allNamespaces : option bool; fl_showLabels : option bool }.

Definition Run `{RangeOrder} (qstring : Z → string) (age : option Z → string) (fl : hrqFlags) (args : list string) : quotaView :=
  let showLabels := bool_decide (is_Some (fl_showLabels fl)) in
  let allResourcesNamespaced := negb (bool_decide (is_Some (fl_allNamespaces fl))) in
  let namespace := if allResourcesNamespaced then fl_namespace fl else "" in
  match getHRQ namespace args namespace with
  | inl msg => QuotaExit msg
  | inr [] =>
      QuotaExit (if allResourcesNamespaced then "No resources found in " +:+ namespace +:+ " namespace." else "No resources found")
  | inr items => QuotaTable (negb allResourcesNamespaced) showLabels (printHierarchicalResourceQuotaList qstring age items)
  end.
End quotas.

(** ** get.go *)
Section get.
  (** The table printer, which can fail. *)
  Context (PrintObj : unstructuredList → option string) (PrintEvent : Unstructured → option string).

(** The client of the resource in a namespace or in all, and its answers: a list, and for a resource version the events of
    a watch until it ends. *)
Record getClient := mkGetClient {
  gc_List : string + unstructuredList;
  gc_Watch : string → string + list Unstructured
}.

Inductive shown := ShownList (l : unstructuredList) | ShownEvent (o : Unstructured).

(** [doer.get]: the resource version, with what was printed. *)
Definition doer_get (c : getClient) : list shown * (string + string) :=
  match gc_List c with
  | inl err => ([], inl err)
  | inr l => match PrintObj l with Some err => ([], inl err) | None => ([ShownList l], inr (ul_ResourceVersion l)) end
  end.

Fixpoint print_events (events : list Unstructured) : list shown * option string :=
  match events with
  | [] => ([], None)
  | o :: rest =>
      match PrintEvent o with
      | Some err => ([], Some err)
      | None => let '(out, err) := print_events rest in (ShownEvent o :: out, err)
      end
  end.

Definition doer_watch (c : getClient) (rv : string) : list shown * option string :=
  let rv := if decide (rv = "") then "0" else rv in
  match gc_Watch c rv with
  | inl err => ([], Some err)
  | inr events => print_events events
  end.

Definition getCmd (newDoer : string → getClient) (watch : bool) (args : list string) : list shown * option string :=
  match args with
  | [] => ([], Some "not enough arguments to 'get'")
  | _ :: _ :: _ => ([], Some "too many arguments to 'get'")
  | [resource] =>
      let d := newDoer resource in
      match doer_get d with
      | (out, inl err) => (out, Some err)
      | (out, inr rv) => if watch then let '(more, err) := doer_watch d rv in (out ++ more, err) else (out, None)
      end
  end.
End get.

(** ** Events that are shown *)
Lemma show_events_incl set events e : e ∈ show_events set events → e ∈ events ∧ event_key e ∉ set.
Proof.
  revert set. induction events as [|x events IH]; intros set; simpl; [by intros ?%elem_of_nil|].
  case_decide; [intros [? ?]%IH; split; [by right|done]|].
  intros [->|Hin]%elem_of_cons; [split; [left|done]|]. apply IH in Hin as [? ?]. split; [by right|set_solver].
Qed.

Lemma show_events_keys set events : NoDup (event_key <$> show_events set events).
Proof.
  revert set. induction events as [|x events IH]; intros set; simpl; [constructor|]. case_decide; [done|].
  rewrite fmap_cons. constructor; [|done]. intros (y & Hk & Hy)%list_elem_of_fmap. apply show_events_incl in Hy as [_ Hn]. set_solver.
Qed.

(** Every event is represented by one that is at least as recent. *)
Lemma show_events_latest set events e : StronglySorted event_le events → e ∈ events → event_key e ∉ set →
  ∃ e', e' ∈ show_events set events ∧ event_key e' = event_key e ∧ (ev_LastTimestamp e ≤ ev_LastTimestamp e')%Z.
Proof.
  revert set. induction events as [|x events IH]; intros set Hs; simpl; [by intros ?%elem_of_nil|].
  apply StronglySorted_cons in Hs as [Hall Hs]. intros Hin Hn.
  destruct (decide (event_key x = event_key e)) as [Hk|Hk].
  - rewrite decide_False by (by rewrite Hk). exists x. split_and!; [left|done|].
    apply elem_of_cons in Hin as [->|Hin]; [done|]. rewrite Forall_forall in Hall. specialize (Hall e Hin). unfold event_le in Hall. lia.
  - apply elem_of_cons in Hin as [->|Hin]; [done|]. case_decide; [by apply IH|].
    destruct (IH ({[event_key x]} ∪ set) Hs Hin) as (e' & ? & ? & ?); [set_solver|]. exists e'. split_and!; [by right|done|done].
Qed.

Lemma show_events_sorted set events : StronglySorted event_le events → StronglySorted event_le (show_events set events).
Proof.
  revert set. induction events as [|x events IH]; intros set; [constructor|]. intros [Hall Hs]%StronglySorted_cons. simpl.
  case_decide; [by apply IH|]. constructor; [by apply IH|]. rewrite Forall_forall in *. intros e [He _]%show_events_incl. by apply Hall.
Qed.
