(* ===== verification/Migration.v ===== *)
(** * The migration tool (tools/ans2hns/main.go)

    The tool reads a repository of Kubernetes objects, infers a hierarchy of namespaces
    from the directories the objects are in, and corrects or adds the
    HierarchyConfiguration of each namespace.  The inferred forest is a map from names to
    the parent and whether a configuration was found.  YAML documents are an interface
    (sigs.k8s.io/kustomize/kyaml). *)

From Stdlib Require Import Ascii String.
From S2P Require Import Prelude GoStrings Chains Validation Selectors.

Record ResourceMeta := {
  rm_APIVersion : string;
  rm_Kind : string;
  rm_Name : string;
  rm_Namespace : string;
  rm_Annotations : gmap string string
}.

(** Documents.  [specError] is the failure of getting the field spec, [specParent] gets
    its field parent as text (nothing if a field is missing), and [setSpecParent] sets it
    to parsed text, where parsing may panic. *)
Class YamlLib := {
  RNode : Type;
  GetMeta : RNode → string + ResourceMeta;
  SetK8sNamespace : string → RNode → string + RNode;
  specError : RNode → option string;
  specParent : RNode → string + string;
  setSpecParent : string → RNode → outcome (string + RNode);
  Parse : string → string + RNode
}.

Record nsInfo := mkInfo { ni_parent : string; ni_hasConfig : bool }.
#[export] Instance nsInfo_eq_dec : EqDecision nsInfo.
Proof. solve_decision. Defined.
Abbreviation forestType := (gmap string nsInfo).

Definition pathAnnotation : string := "config.kubernetes.io/path".

(** ** The directories *)
Definition getNamespaces (path : string) : string + option (list string) :=
  let segs := Split path "/" in
  if decide (head segs ≠ Some "namespaces") then inr None
  else if decide (length segs < 3) then
    inl ("file " +:+ quoted path +:+ " is directly under 'namespaces/' but should be in a namespace directory")
  else inr (Some (take (length segs - 2) (drop 1 segs))).

Fixpoint update_from (pnm : string) (nnms : list string) (forest : forestType) : string + forestType :=
  match nnms with
  | [] => inr forest
  | nnm :: nnms' =>
      match forest !! nnm with
      | Some ns =>
          if decide (ni_parent ns ≠ pnm) then
            inl ("namespace " +:+ quoted nnm +:+ " has conflicting parents: " +:+ quoted (ni_parent ns) +:+ " and " +:+ quoted pnm +:+ nl)
          else update_from nnm nnms' forest
      | None => update_from nnm nnms' (<[nnm := mkInfo pnm false]> forest)
      end
  end.
Definition updateForest (nnms : list string) (forest : forestType) : string + forestType := update_from "" nnms forest.

Section tool.
  Context `{YL : YamlLib} `{RO : RangeOrder}.

(** ** The objects *)
Definition setNamespace (nnms : list string) (item : RNode) (meta : ResourceMeta) : string + RNode :=
  let nnm := default "" (last nnms) in
  if decide (rm_APIVersion meta = "v1" ∧ rm_Kind meta = "Namespace") then
    if decide (rm_Name meta ≠ nnm) then
      inl ("namespace directory " +:+ quoted nnm +:+ " contains namespace config for " +:+ quoted (rm_Name meta))
    else inr item
  else SetK8sNamespace nnm item.

Definition isConfig (meta : ResourceMeta) : bool :=
  bool_decide (rm_APIVersion meta = "hnc.x-k8s.io/v1alpha2") && bool_decide (rm_Kind meta = "HierarchyConfiguration").

(** A missing entry of the forest is a nil pointer. *)
Definition processConfig (item : RNode) (meta : ResourceMeta) (forest : forestType) : outcome (string + (RNode * forestType)) :=
  if negb (isConfig meta) then Done (inr (item, forest))
  else match forest !! rm_Namespace meta with
  | None => Panics
  | Some ns =>
      let forest := <[rm_Namespace meta := mkInfo (ni_parent ns) true]> forest in
      match specError item with
      | Some err => Done (inl ("couldn't get spec: " +:+ err))
      | None =>
          match specParent item with
          | inl err => Done (inl ("couldn't get spec.parent: " +:+ err))
          | inr parent =>
              if decide (TrimSpace parent ≠ ni_parent ns) then
                r ← setSpecParent (ni_parent ns) item;
                Done (match r with
                      | inl err => inl ("couldn't update HC config: " +:+ err +:+ nl)
                      | inr item' => inr (item', forest)
                      end)
              else Done (inr (item, forest))
          end
      end
  end.

(** The body of the loop: objects outside of the directory are left alone. *)
Definition process_item (i : nat) (item : RNode) (forest : forestType) : outcome (string + (RNode * forestType)) :=
  match GetMeta item with
  | inl err => Done (inl ("cannot get meta for item " +:+ Itoa i +:+ ": " +:+ err))
  | inr meta =>
      let path := sget (rm_Annotations meta) pathAnnotation in
      match getNamespaces path with
      | inl err => Done (inl err)
      | inr None => Done (inr (item, forest))
      | inr (Some nnms) =>
          match updateForest nnms forest with
          | inl err => Done (inl ("while inferring hierarchy from " +:+ quoted path +:+ ": " +:+ err))
          | inr forest =>
              match setNamespace nnms item meta with
              | inl err => Done (inl ("cannot set namespace for " +:+ path +:+ ": " +:+ err))
              | inr item =>
                  r ← processConfig item meta forest;
                  Done (match r with
                        | inl err => inl ("cannot update hierarchy config " +:+ path +:+ ": " +:+ err)
                        | inr res => inr res
                        end)
              end
          end
      end
  end.

Fixpoint process_from (i : nat) (items : list RNode) (forest : forestType) : outcome (string + (list RNode * forestType)) :=
  match items with
  | [] => Done (inr ([], forest))
  | item :: items' =>
      r ← process_item i item forest;
      match r with
      | inl err => Done (inl err)
      | inr (item, forest) =>
          r ← process_from (S i) items' forest;
          Done (match r with inl err => inl err | inr (items', forest) => inr (item :: items', forest) end)
      end
  end.
Definition processItems (items : list RNode) : outcome (string + (list RNode * forestType)) := process_from 0 items ∅.

(** ** The missing configurations *)

(** The loop that prepends the ancestors to the path of the new object. *)
Fixpoint path_loop (fuel : nat) (forest : forestType) (pnm path : string) : outcome string :=
  if decide (pnm = "") then Done path
  else match fuel with
  | O => Diverges
  | S fuel' =>
      match forest !! pnm with
      | None => Panics
      | Some ns => path_loop fuel' forest (ni_parent ns) (pnm +:+ "/" +:+ path)
      end
  end.

Definition template (nm path parent : string) : string :=
  "apiVersion: hnc.x-k8s.io/v1alpha2" +:+ nl +:+ "kind: HierarchyConfiguration" +:+ nl +:+ "metadata:" +:+ nl +:+
  "  name: hierarchy" +:+ nl +:+ "  namespace: " +:+ nm +:+ nl +:+ "  annotations:" +:+ nl +:+
  "    config.kubernetes.io/path: " +:+ path +:+ nl +:+ "spec:" +:+ nl +:+ "  parent: " +:+ parent.

Fixpoint add_configs (forest : forestType) (nss : list (string * nsInfo)) : outcome (string + list RNode) :=
  match nss with
  | [] => Done (inr [])
  | (nm, ns) :: nss' =>
      if ni_hasConfig ns || bool_decide (ni_parent ns = "") then add_configs forest nss'
      else
        path ← path_loop (S (size forest)) forest (ni_parent ns) (nm +:+ "/hierarchyconfiguration.yaml");
        match Parse (template nm ("namespaces/" +:+ path) (ni_parent ns)) with
        | inl err => Done (inl ("couldn't generate hierarchy config for " +:+ quoted nm +:+ ": " +:+ err +:+ nl))
        | inr n =>
            r ← add_configs forest nss';
            Done (match r with inl err => inl err | inr more => inr (n :: more) end)
        end
  end.
Definition addConfigs (items : list RNode) (forest : forestType) : outcome (string + list RNode) :=
  r ← add_configs forest (range forest);
  Done (match r with inl err => inl err | inr more => inr (items ++ more) end).

Definition process (items : list RNode) : outcome (string + list RNode) :=
  r ← processItems items;
  match r with
  | inl err => Done (inl err)
  | inr (items, forest) => addConfigs items forest
  end.
End tool.

(** ** Directory paths

    The names from a root down to a namespace, as the forest has them. *)
Inductive dir_path (f : forestType) : string → list string → Prop :=
  | dir_root n i : f !! n = Some i → ni_parent i = "" → dir_path f n [n]
  | dir_below n i w : f !! n = Some i → ni_parent i ≠ "" → dir_path f (ni_parent i) w → dir_path f n (w ++ [n]).

Definition slash_free (s : string) : Prop := "/"%char ∉ list_ascii_of_string s.

Lemma slash_free_check s : forallb (λ c, negb (Ascii.eqb c "/")) (list_ascii_of_string s) = true → slash_free s.
Proof. rewrite forallb_forall. intros Hall Hin%list_elem_of_In%Hall. by rewrite Ascii.eqb_refl in Hin. Qed.

Lemma dir_path_det f n w w' : dir_path f n w → dir_path f n w' → w = w'.
Proof.
  intros Hw. revert w'. induction Hw as [n i Hn Hp|n i w Hn Hp Hw IH]; intros w' Hw';
    destruct Hw' as [n i' Hn' Hp'|n i' w' Hn' Hp' Hw']; simplify_eq; try done. by rewrite (IH w').
Qed.

Lemma dir_path_last f n w : dir_path f n w → last w = Some n.
Proof. intros []; [done|by rewrite last_snoc]. Qed.

Lemma dir_path_dom f n w x : dir_path f n w → x ∈ w → is_Some (f !! x).
Proof. induction 1; intros Hx; [apply list_elem_of_singleton in Hx; subst; eauto|]. apply elem_of_app in Hx as [|Hx%list_elem_of_singleton]; subst; eauto. Qed.

Lemma dir_path_prefix f n w x : dir_path f n w → x ∈ w → ∃ w', dir_path f x w' ∧ w' `prefix_of` w.
Proof.
  induction 1 as [n i Hn Hp|n i w Hn Hp Hw IH]; intros Hx.
  - apply list_elem_of_singleton in Hx as ->. exists [n]. split; [by econstructor|done].
  - apply elem_of_app in Hx as [Hx|Hx%list_elem_of_singleton].
    + destruct (IH Hx) as (w' & ? & ?). exists w'. split; [done|]. by apply prefix_app_r.
    + subst x. exists (w ++ [n]). split; [by eapply dir_below|done].
Qed.

Lemma dir_path_NoDup f n w : dir_path f n w → NoDup w.
Proof.
  induction 1 as [n i Hn Hp|n i w Hn Hp Hw IH]; [apply NoDup_singleton|].
  apply NoDup_app. split_and!; [done| |apply NoDup_singleton]. intros x Hx ->%list_elem_of_singleton.
  destruct (dir_path_prefix f _ w n Hw Hx) as (w' & Hw' & Hpre).
  assert (w' = w ++ [n]) as -> by (eapply dir_path_det; [exact Hw'|by eapply dir_below]).
  apply prefix_length in Hpre. rewrite length_app in Hpre. simpl in Hpre. lia.
Qed.

Lemma dir_path_bound f n w : dir_path f n w → length w ≤ size f.
Proof.
  intros Hw. rewrite <- (size_dom (D := gset string)). eapply NoDup_length_bound; [by eapply dir_path_NoDup|].
  intros x Hx. apply elem_of_dom. by eapply dir_path_dom.
Qed.

(** The parents agree. *)
Definition extends_dirs (f f' : forestType) : Prop := ∀ n i, f !! n = Some i → ∃ i', f' !! n = Some i' ∧ ni_parent i' = ni_parent i.

Lemma dir_path_extends f f' n w : extends_dirs f f' → dir_path f n w → dir_path f' n w.
Proof.
  intros Hx. induction 1 as [n i Hn Hp|n i w Hn Hp Hw IH]; destruct (Hx _ _ Hn) as (i' & Hn' & Hpi).
  - eapply dir_root; [done|congruence].
  - eapply dir_below; [done|congruence|]. by rewrite Hpi.
Qed.

(** ** The loop over the path *)
Definition in_dir (x path : string) : string := x +:+ "/" +:+ path.

Lemma path_loop_spec f n w path fuel : dir_path f n w → n ≠ "" → length w ≤ fuel →
  path_loop fuel f n path = Done (foldr in_dir path w).
Proof.
  intros Hw. revert path fuel. induction Hw as [n i Hn Hp|n i w Hn Hp Hw IH]; intros path fuel Hne Hf.
  - destruct fuel as [|fuel]; [simpl in Hf; lia|]. simpl. rewrite decide_False, Hn, Hp by done. by destruct fuel; simpl.
  - rewrite length_app in Hf. simpl in Hf. destruct fuel as [|fuel]; [lia|]. simpl. rewrite decide_False, Hn by done.
    rewrite IH by (done || lia). by rewrite foldr_app.
Qed.

(** ** Splitting a path that was put together *)
Lemma Split_in_dir x path : slash_free x → Split (in_dir x path) "/" = x :: Split path "/".
Proof.
  intros Hx. destruct (Split_app x ("/" +:+ path) "/" Hx) as (y & ys & Hy & Hs). unfold in_dir. rewrite Hs.
  rewrite string_app_cons, string_app_nil_l in Hy. cbn [Split] in Hy. rewrite decide_True in Hy by done. injection Hy as <- <-.
  by rewrite string_app_nil_r.
Qed.

Lemma Split_slash_free x : slash_free x → Split x "/" = [x].
Proof.
  intros Hx. destruct (Split_app x "" "/" Hx) as (y & ys & Hy & Hs). injection Hy as <- <-. by rewrite string_app_nil_r in Hs.
Qed.

Lemma Split_dirs ws file : Forall slash_free ws → slash_free file → Split (foldr in_dir file ws) "/" = ws ++ [file].
Proof.
  intros Hws Hf. induction Hws as [|x ws Hx Hws IH]; simpl; [by apply Split_slash_free|]. by rewrite Split_in_dir, IH.
Qed.

Lemma Split_pieces s w : w ∈ Split s "/" → slash_free w.
Proof.
  revert w. induction s as [|c s IH]; intros w Hw.
  { apply list_elem_of_singleton in Hw as ->. unfold slash_free. by intros ?%elem_of_nil. }
  simpl in Hw. destruct (decide (c = "/"%char)) as [->|Hc].
  - apply elem_of_cons in Hw as [->|Hw]; [by intros ?%elem_of_nil|by apply IH].
  - destruct (Split s "/") as [|v vs].
    + apply list_elem_of_singleton in Hw as ->. unfold slash_free. simpl. intros [?|?%elem_of_nil]%elem_of_cons; congruence.
    + apply elem_of_cons in Hw as [->|Hw]; [|apply IH; by right]. unfold slash_free. simpl.
      intros [?|Hin]%elem_of_cons; [congruence|]. by apply (IH v (list_elem_of_here _ _)).
Qed.

Lemma getNamespaces_pieces path nnms : getNamespaces path = inr (Some nnms) → Forall slash_free nnms ∧ nnms ≠ [].
Proof.
  unfold getNamespaces. destruct (decide _); [done|]. destruct (decide _) as [|Hlen]; [done|]. intros [= <-]. split.
  - apply Forall_take, Forall_drop, Forall_forall. intros w. apply Split_pieces.
  - destruct (Split path "/") as [|a [|b [|c k]]]; simpl in *; try lia. done.
Qed.

(** The path of a namespace is read back as the namespaces on it. *)
Lemma getNamespaces_dirs ws file : Forall slash_free ws → slash_free file → ws ≠ [] →
  getNamespaces ("namespaces/" +:+ foldr in_dir file ws) = inr (Some ws).
Proof.
  intros Hws Hf Hne. change ("namespaces/" +:+ foldr in_dir file ws) with (foldr in_dir file ("namespaces" :: ws)).
  unfold getNamespaces. rewrite Split_dirs; [|constructor; [|done]|done].
  - rewrite decide_False by (simpl; congruence). rewrite decide_False.
    + simpl. rewrite drop_0, length_app. simpl. do 2 f_equal. rewrite Nat.add_comm. simpl. rewrite Nat.sub_0_r. apply take_app_length.
    + rewrite length_app. destruct ws; [done|]. simpl. lia.
  - by apply slash_free_check.
Qed.

(** ** The inferred forest *)
Definition placed (f : forestType) : Prop := ∀ n, is_Some (f !! n) → slash_free n ∧ ∃ w, dir_path f n w.

(** The parent of each name along a path. *)
Definition edges (pnm : string) (nnms : list string) : list (string * string) := zip (pnm :: nnms) nnms.

Lemma extends_insert f n i : f !! n = None → extends_dirs f (<[n:=i]> f).
Proof. intros Hn m j Hm. exists j. split; [|done]. rewrite lookup_insert_ne; [done|congruence]. Qed.

Lemma extends_trans_dirs f g h : extends_dirs f g → extends_dirs g h → extends_dirs f h.
Proof. intros H1 H2 n i Hn. destruct (H1 n i Hn) as (j & Hj & <-). by apply H2. Qed.

Lemma update_from_spec nnms : ∀ pnm f f', update_from pnm nnms f = inr f' → placed f → Forall slash_free nnms →
  pnm = "" ∨ (∃ w, dir_path f pnm w) →
  placed f' ∧ f ⊆ f' ∧ (∀ p n, (p, n) ∈ edges pnm nnms → ∃ i, f' !! n = Some i ∧ ni_parent i = p) ∧
  (∀ n i, f' !! n = Some i → f !! n = Some i ∨ (f !! n = None ∧ ni_hasConfig i = false ∧ (ni_parent i, n) ∈ edges pnm nnms)).
Proof.
  induction nnms as [|nnm nnms IH]; intros pnm f f' Hu Hf Hs Hp.
  { injection Hu as <-. split_and!; [done..| |]; [|by left]. intros p n Hin. by apply elem_of_nil in Hin. }
  apply Forall_cons in Hs as [Hsn Hs]. simpl in Hu. change (edges pnm (nnm :: nnms)) with ((pnm, nnm) :: edges nnm nnms).
  destruct (f !! nnm) as [ns|] eqn:Hns.
  - destruct (decide (ni_parent ns ≠ pnm)) as [|Heq%dec_stable]; [done|].
    destruct (IH nnm f f' Hu Hf Hs) as (Hpl & Hsub & He & Ho); [right; by apply Hf|].
    split_and!; [done|done| |].
    + intros p n [Hin|Hin]%elem_of_cons; [|by apply He]. simplify_eq. exists ns. split; [|done]. by eapply lookup_weaken.
    + intros n i Hi. destruct (Ho n i Hi) as [|(? & ? & ?)]; [by left|right]. split_and!; [done..|by right].
  - set (f1 := <[nnm := mkInfo pnm false]> f) in *. pose proof (extends_insert f nnm (mkInfo pnm false) Hns) as Hx. fold f1 in Hx.
    assert (∃ w, dir_path f1 nnm w) as Hw.
    { destruct (decide (pnm = "")) as [->|Hne].
      - exists [nnm]. eapply dir_root; [by apply lookup_insert_eq|done].
      - destruct Hp as [?|[w Hw]]; [done|]. exists (w ++ [nnm]). eapply dir_below; [by apply lookup_insert_eq|done|].
        simpl. by eapply dir_path_extends. }
    destruct (IH nnm f1 f' Hu) as (Hpl & Hsub & He & Ho); [|done|by right|].
    { intros n Hn. destruct (decide (n = nnm)) as [->|Hne]; [done|]. unfold f1 in Hn. rewrite lookup_insert_ne in Hn by done.
      destruct (Hf n Hn) as [? [w Hw']]. split; [done|]. exists w. by eapply dir_path_extends. }
    split_and!; [done|etrans; [by apply insert_subseteq|done]| |].
    + intros p n [Hin|Hin]%elem_of_cons; [|by apply He]. simplify_eq. exists (mkInfo pnm false). split; [|done].
      eapply lookup_weaken; [|done]. by apply lookup_insert_eq.
    + intros n i Hi. destruct (Ho n i Hi) as [Hi1|(Hn & Hc & Hin)].
      * unfold f1 in Hi1. apply lookup_insert_Some in Hi1 as [[<- <-]|[_ Hi1]]; [right|by left]. split_and!; [done..|by left].
      * right. unfold f1 in Hn. apply lookup_insert_None in Hn as [Hn _]. split_and!; [done..|by right].
Qed.

(** ** The whole run *)

(** The file of the configuration of the namespace at the end of [ws]. *)
Definition config_path (ws : list string) : string := "namespaces/" +:+ foldr in_dir "hierarchyconfiguration.yaml" ws.

(** What the tool relies on: setting the parent in a document with a spec to plain text
    (that is, not to text which YAML reads as something else, like null) is seen when it is
    read back, setting the namespace keeps the spec, and the template with legal names of
    namespaces is a document. *)
Class YamlLaws `{YL : YamlLib} := {
  hasSpec : RNode → Prop;
  plainText : string → Prop;
  set_parent_get p n n' : hasSpec n → plainText p → setSpecParent p n = Done (inr n') → ∃ t, specParent n' = inr t ∧ TrimSpace t = TrimSpace p;
  set_namespace_spec x n n' : SetK8sNamespace x n = inr n' → hasSpec n → hasSpec n';
  parse_template ws p n : Forall (λ x, IsDNS1123Label x = []) (ws ++ [p; n]) →
    ∃ node, Parse (template n (config_path (ws ++ [p; n])) p) = inr node
}.

Section run.
  Context `{YL : YamlLib} `{RO : RangeOrder}.

(** The namespaces on the path of an object, and the one whose configuration it is. *)
Definition dirs_of (item : RNode) : list string :=
  match GetMeta item with
  | inr meta => match getNamespaces (sget (rm_Annotations meta) pathAnnotation) with inr (Some nnms) => nnms | _ => [] end
  | inl _ => []
  end.
Definition config_for (item : RNode) : option string :=
  match GetMeta item with
  | inr meta => if isConfig meta && negb (bool_decide (dirs_of item = [])) then Some (rm_Namespace meta) else None
  | inl _ => None
  end.

(** The parent that a document asks for. *)
Definition asks_for (item : RNode) (p : string) : Prop := ∃ t, specParent item = inr t ∧ TrimSpace t = TrimSpace p.

Record item_step (item item' : RNode) (f f' : forestType) : Prop := {
  is_placed : placed f';
  is_extends : extends_dirs f f';
  is_edges p n : (p, n) ∈ edges "" (dirs_of item) → ∃ i, f' !! n = Some i ∧ ni_parent i = p;
  is_only n i' : f' !! n = Some i' → (∃ i, f !! n = Some i ∧ ni_parent i = ni_parent i') ∨ (ni_parent i', n) ∈ edges "" (dirs_of item);
  is_config n i' : f' !! n = Some i' → ni_hasConfig i' = true ↔ config_for item = Some n ∨ ∃ i, f !! n = Some i ∧ ni_hasConfig i = true;
  is_known n : config_for item = Some n → is_Some (f' !! n)
}.

Lemma processConfig_spec item meta f item' f' : processConfig item meta f = Done (inr (item', f')) →
  if isConfig meta
  then ∃ ns, f !! rm_Namespace meta = Some ns ∧ f' = <[rm_Namespace meta := mkInfo (ni_parent ns) true]> f ∧
    (item' = item ∧ asks_for item (ni_parent ns) ∨ setSpecParent (ni_parent ns) item = Done (inr item'))
  else item' = item ∧ f' = f.
Proof.
  unfold processConfig. destruct (isConfig meta); simpl; [|by intros [= <- <-]].
  destruct (f !! rm_Namespace meta) as [ns|]; [|done]. destruct (specError item); [done|].
  destruct (specParent item) as [|t] eqn:Ht; [done|]. intros H. exists ns. split; [done|].
  destruct (decide (TrimSpace t ≠ ni_parent ns)) as [Hne|Heq%dec_stable].
  - destruct (setSpecParent (ni_parent ns) item) as [[|item1]| |]; simpl in H; try done. injection H as <- <-. auto.
  - injection H as <- <-. split; [done|]. left. split; [done|]. exists t. by rewrite <- Heq, TrimSpace_idemp.
Qed.

Lemma mark_config f n ns : f !! n = Some ns → extends_dirs f (<[n := mkInfo (ni_parent ns) true]> f).
Proof.
  intros Hn m i Hm. destruct (decide (m = n)) as [->|Hne]; [|exists i; by rewrite lookup_insert_ne].
  eexists. rewrite lookup_insert_eq. split; [done|]. simplify_eq. done.
Qed.

Lemma placed_extends f f' : extends_dirs f f' → (∀ n, is_Some (f' !! n) → is_Some (f !! n)) → placed f → placed f'.
Proof. intros Hx Hd Hf n Hn. destruct (Hf n (Hd n Hn)) as [? [w Hw]]. split; [done|]. exists w. by eapply dir_path_extends. Qed.

Lemma subseteq_extends (f f' : forestType) : f ⊆ f' → extends_dirs f f'.
Proof. intros Hs n i Hn. exists i. split; [by eapply lookup_weaken|done]. Qed.

(** A flag that a new entry does not have. *)
Lemma had_config (f : forestType) n i : f !! n = Some i ∨ f !! n = None ∧ ni_hasConfig i = false →
  ni_hasConfig i = true ↔ ∃ j, f !! n = Some j ∧ ni_hasConfig j = true.
Proof. intros [Hi|[Hn Hi]]; (split; [|intros (j & Hj & ?)]); try congruence. eauto. Qed.

Lemma process_item_step k item f item' f' : process_item k item f = Done (inr (item', f')) → placed f → item_step item item' f f'.
Proof.
  intros H Hf. unfold process_item in H. destruct (GetMeta item) as [|meta] eqn:Hm; [done|].
  assert (dirs_of item = match getNamespaces (sget (rm_Annotations meta) pathAnnotation) with inr (Some nnms) => nnms | _ => [] end) as Hdirs
    by (unfold dirs_of; by rewrite Hm).
  destruct (getNamespaces _) as [|[nnms|]] eqn:Hg; [done| |].
  2:{ injection H as <- <-.
      assert (config_for item = None) as Hcf by (unfold config_for; by rewrite Hm, Hdirs, andb_false_r).
      split; rewrite ?Hdirs; [done|by intros n i ?; eauto|by intros p n ?%elem_of_nil|by eauto| |by rewrite Hcf].
      intros n i' Hn. rewrite Hcf, (had_config f n i') by (by left). split; [by right|by intros [?|]]. }
  destruct (getNamespaces_pieces _ _ Hg) as [Hpieces Hne].
  destruct (updateForest nnms f) as [|f1] eqn:Hu; [done|]. destruct (setNamespace nnms item meta) as [|item1]; [done|].
  destruct (processConfig item1 meta f1) as [[|[item2 f2]]| |] eqn:Hc; simpl in H; try done. injection H as <- <-.
  destruct (update_from_spec nnms "" f f1 Hu Hf Hpieces) as (Hpl & Hsub & He & Ho); [by left|].
  pose proof (subseteq_extends f f1 Hsub) as Hx. apply processConfig_spec in Hc.
  assert (config_for item = if isConfig meta then Some (rm_Namespace meta) else None) as Hcf.
  { unfold config_for. rewrite Hm, Hdirs, bool_decide_eq_false_2 by done. by destruct (isConfig meta). }
  destruct (isConfig meta).
  - destruct Hc as (ns & Hns & -> & _). pose proof (mark_config f1 _ ns Hns) as Hx1.
    set (f2 := <[rm_Namespace meta := mkInfo (ni_parent ns) true]> f1) in *.
    assert (∀ n i2, f2 !! n = Some i2 → ∃ i1, f1 !! n = Some i1 ∧ ni_parent i1 = ni_parent i2 ∧
      (ni_hasConfig i2 = true ↔ rm_Namespace meta = n ∨ ni_hasConfig i1 = true)) as Hback.
    { intros n i2 Hi2. unfold f2 in Hi2. apply lookup_insert_Some in Hi2 as [[<- <-]|[Hne' Hi2]].
      - exists ns. split_and!; [done..|]. simpl. split; [by left|done].
      - exists i2. split_and!; [done..|]. split; [by right|by intros [?|?]]. }
    split; rewrite ?Hdirs.
    + apply (placed_extends f1); [done| |done]. intros n [i2 Hi2]. destruct (Hback n i2 Hi2) as (i1 & ? & _). eauto.
    + by eapply extends_trans_dirs.
    + intros p n Hin. destruct (He p n Hin) as (i & Hi & <-). by apply Hx1.
    + intros n i2 Hi2. destruct (Hback n i2 Hi2) as (i1 & Hi1 & Hp & _). rewrite <- Hp. destruct (Ho n i1 Hi1) as [|(_ & _ & ?)]; [left; eauto|by right].
    + intros n i2 Hi2. destruct (Hback n i2 Hi2) as (i1 & Hi1 & _ & ->). rewrite Hcf, (had_config f n i1) by (destruct (Ho n i1 Hi1) as [|(? & ? & _)]; auto).
      split; (intros [?|?]; [left; congruence|by right]).
    + intros n Hn. rewrite Hcf in Hn. injection Hn as <-. unfold f2. by rewrite lookup_insert_eq.
  - destruct Hc as [-> ->]. split; rewrite ?Hdirs; [done|done|done|..].
    + intros n i Hi. destruct (Ho n i Hi) as [|(_ & _ & ?)]; [left; eauto|by right].
    + intros n i Hi. rewrite Hcf, (had_config f n i) by (destruct (Ho n i Hi) as [|(? & ? & _)]; auto). split; [by right|by intros [?|]].
    + intros n Hn. by rewrite Hcf in Hn.
Qed.

Lemma process_from_step items : ∀ k f items' f', process_from k items f = Done (inr (items', f')) → placed f →
  placed f' ∧ extends_dirs f f' ∧
  (∀ item p n, item ∈ items → (p, n) ∈ edges "" (dirs_of item) → ∃ i, f' !! n = Some i ∧ ni_parent i = p) ∧
  (∀ n i', f' !! n = Some i' → (∃ i, f !! n = Some i ∧ ni_parent i = ni_parent i') ∨ ∃ item, item ∈ items ∧ (ni_parent i', n) ∈ edges "" (dirs_of item)) ∧
  (∀ n i', f' !! n = Some i' → ni_hasConfig i' = true ↔ (∃ item, item ∈ items ∧ config_for item = Some n) ∨ ∃ i, f !! n = Some i ∧ ni_hasConfig i = true).
Proof.
  induction items as [|item items IH]; intros k f items' f' H Hf.
  { injection H as <- <-. split_and!; [done|by intros n i ?; eauto|by intros item p n ?%elem_of_nil|by eauto|].
    intros n i Hi. split; [by eauto|]. intros [(item & Hin & _)|(j & Hj & ?)]; [by apply elem_of_nil in Hin|congruence]. }
  simpl in H. destruct (process_item k item f) as [[|[item1 f1]]| |] eqn:Hi; simpl in H; try done.
  destruct (process_from (S k) items f1) as [[|[items2 f2]]| |] eqn:Hr; simpl in H; try done. injection H as <- <-.
  destruct (process_item_step k item f item1 f1 Hi Hf) as [Hpl Hx He Ho Hc Hk].
  destruct (IH (S k) f1 items2 f2 Hr Hpl) as (Hpl2 & Hx2 & He2 & Ho2 & Hc2).
  split_and!; [done|by eapply extends_trans_dirs| | |].
  - intros it p n [->|Hin]%elem_of_cons Hed; [|by eapply He2]. destruct (He p n Hed) as (i & Hi1 & <-). by apply Hx2.
  - intros n i2 Hi2. destruct (Ho2 n i2 Hi2) as [(i1 & Hi1 & Hp)|(it & Hin & Hed)].
    + rewrite <- Hp. destruct (Ho n i1 Hi1) as [|Hed]; [by left|right]. exists item. split; [by left|done].
    + right. exists it. split; [by right|done].
  - intros n i2 Hi2. rewrite (Hc2 n i2 Hi2). split.
    + intros [(it & Hin & Hcf)|(i1 & Hi1 & Hb)]; [left; exists it; split; [by right|done]|].
      apply (Hc n i1 Hi1) in Hb as [Hcf|]; [left; exists item; split; [by left|done]|by right].
    + intros [(it & [->|Hin]%elem_of_cons & Hcf)|(i & Hi0 & Hb)].
      * destruct (Hk n Hcf) as [i1 Hi1]. right. exists i1. split; [done|]. apply (Hc n i1 Hi1). by left.
      * left. eauto.
      * destruct (Hx n i Hi0) as (i1 & Hi1 & _). right. exists i1. split; [done|]. apply (Hc n i1 Hi1). right. eauto.
Qed.

(** ** The corrected configurations *)
Lemma setNamespace_config `{YW : !YamlLaws} nnms item meta item' : setNamespace nnms item meta = inr item' → isConfig meta = true → hasSpec item → hasSpec item'.
Proof.
  unfold setNamespace, isConfig. rewrite andb_true_iff, !bool_decide_eq_true. intros H [Ha _]. rewrite decide_False in H by (intros [? _]; congruence).
  intros Hs. by eapply set_namespace_spec.
Qed.

Lemma process_item_corrects `{YW : !YamlLaws} k item f item' f' n : process_item k item f = Done (inr (item', f')) → config_for item = Some n → hasSpec item →
  ∃ i, f' !! n = Some i ∧ (plainText (ni_parent i) → asks_for item' (ni_parent i)).
Proof.
  intros H Hcf Hspec. unfold config_for in Hcf. unfold process_item in H. destruct (GetMeta item) as [|meta] eqn:Hm; [done|].
  destruct (isConfig meta) eqn:Hic; [|done]. simpl in Hcf. unfold dirs_of in Hcf. rewrite Hm in Hcf.
  destruct (getNamespaces _) as [|[nnms|]]; [done| |done]. destruct (updateForest nnms f) as [|f1]; [done|].
  destruct (setNamespace nnms item meta) as [|item1] eqn:Hs; [done|].
  destruct (processConfig item1 meta f1) as [[|[item2 f2]]| |] eqn:Hc; simpl in H; try done. injection H as <- <-.
  apply processConfig_spec in Hc. rewrite Hic in Hc. destruct Hc as (ns & Hns & -> & Hask).
  destruct (negb (bool_decide (nnms = []))); [|done]. injection Hcf as <-. eexists. rewrite lookup_insert_eq. split; [done|]. simpl.
  intros Hplain. destruct Hask as [[-> ?]|Hset]; [done|]. eapply set_parent_get; [|exact Hplain|exact Hset]. by eapply setNamespace_config.
Qed.

Lemma process_from_corrects `{YW : !YamlLaws} items : ∀ k f items' f', process_from k items f = Done (inr (items', f')) → placed f →
  (∀ item, item ∈ items → is_Some (config_for item) → hasSpec item) →
  ∀ j item item' n, items !! j = Some item → items' !! j = Some item' → config_for item = Some n →
    ∃ i, f' !! n = Some i ∧ (plainText (ni_parent i) → asks_for item' (ni_parent i)).
Proof.
  induction items as [|it items IH]; intros k f items' f' H Hf Hspec j item item' n Hj Hj' Hcf; [done|].
  simpl in H. destruct (process_item k it f) as [[|[it1 f1]]| |] eqn:Hi; simpl in H; try done.
  destruct (process_from (S k) items f1) as [[|[items2 f2]]| |] eqn:Hr; simpl in H; try done. injection H as <- <-.
  pose proof (is_placed _ _ _ _ (process_item_step _ _ _ _ _ Hi Hf)) as Hf1. destruct j as [|j]; simpl in Hj, Hj'; simplify_eq.
  - destruct (process_item_corrects k item f item' f1 n Hi Hcf) as (i & Hn & Ha); [apply Hspec; [by left|eauto]|].
    destruct (process_from_step items (S k) f1 items2 f2 Hr Hf1) as (_ & Hx & _). destruct (Hx n i Hn) as (i2 & Hn2 & Hp).
    exists i2. by rewrite Hp.
  - eapply (IH (S k) f1 items2 f2 Hr Hf1); [|done..]. intros it' Hin. apply Hspec. by right.
Qed.

(** ** The added configurations *)
Definition missing_config (x : string * nsInfo) : Prop := ni_hasConfig x.2 = false ∧ ni_parent x.2 ≠ "".
#[local] Instance missing_config_dec x : Decision (missing_config x).
Proof. unfold missing_config. apply _. Defined.

(** The document added for a namespace: its parent is the one in the forest, and the
    path is that of the namespace's directory. *)
Definition generated (x : string * nsInfo) (node : RNode) : Prop :=
  ∃ path w, Parse (template x.1 path (ni_parent x.2)) = inr node ∧ getNamespaces path = inr (Some (w ++ [ni_parent x.2; x.1])).

Lemma new_path f n i : placed f → f !! n = Some i → ni_parent i ≠ "" →
  ∃ w, path_loop (S (size f)) f (ni_parent i) (n +:+ "/hierarchyconfiguration.yaml") =
      Done (foldr in_dir "hierarchyconfiguration.yaml" (w ++ [ni_parent i; n])) ∧
    ∀ x, x ∈ w ++ [ni_parent i; n] → is_Some (f !! x).
Proof.
  intros Hf Hn Hp. destruct (Hf n) as [_ [wn Hwn]]; [eauto|].
  destruct Hwn as [n i' Hn' Hp'|n i' w Hn' Hp' Hw]; simplify_eq.
  pose proof (path_loop_spec f (ni_parent i) w (in_dir n "hierarchyconfiguration.yaml") (S (size f)) Hw Hp) as Hl.
  destruct (exists_last (l := w)) as (w0 & p & ->).
  { intros ->. by apply dir_path_last in Hw. }
  assert (p = ni_parent i) as -> by (apply dir_path_last in Hw; rewrite last_snoc in Hw; congruence).
  exists w0. change (w0 ++ [ni_parent i; n]) with (w0 ++ [ni_parent i] ++ [n]). rewrite app_assoc, foldr_app. split.
  - apply Hl. apply dir_path_bound in Hw. lia.
  - intros x [Hx|Hx%list_elem_of_singleton]%elem_of_app; [by eapply dir_path_dom|subst; eauto].
Qed.

Lemma add_configs_spec `{YW : !YamlLaws} f nss : placed f → (∀ n, is_Some (f !! n) → IsDNS1123Label n = []) → (∀ n i, (n, i) ∈ nss → f !! n = Some i) →
  ∃ more, add_configs f nss = Done (inr more) ∧ Forall2 generated (filter missing_config nss) more.
Proof.
  intros Hf Hlegal. induction nss as [|[n i] nss IH]; intros Hin; [by exists []|].
  destruct IH as (more & Hm & Hg); [intros m j Hmj; apply Hin; by right|]. simpl. rewrite filter_cons.
  destruct (decide (missing_config (n, i))) as [[Hc Hp]|Hno]; simpl in *.
  - rewrite Hc, bool_decide_eq_false_2 by done. simpl.
    destruct (new_path f n i Hf (Hin n i (list_elem_of_here _ _)) Hp) as (w & Hpath & Hw). simpl in Hpath. rewrite Hpath. simpl.
    destruct (parse_template w (ni_parent i) n) as [node Hnode]; [apply Forall_forall; eauto|].
    unfold config_path in Hnode. simpl in Hnode. rewrite Hnode, Hm. simpl.
    eexists. split; [done|]. constructor; [|done]. eexists _, w. split; [exact Hnode|].
    apply getNamespaces_dirs; [|by apply slash_free_check|by destruct w].
    apply Forall_forall. intros x Hx. by apply Hf, Hw.
  - assert (ni_hasConfig i || bool_decide (ni_parent i = "") = true) as ->; [|by exists more].
    destruct (ni_hasConfig i) eqn:Hc; [done|]. simpl. apply bool_decide_eq_true. destruct (decide (ni_parent i = "")); [done|]. by destruct Hno.
Qed.

Lemma placed_empty : placed ∅.
Proof. intros n [i Hi]. by rewrite lookup_empty in Hi. Qed.
End run.
