(* ===== verification/TestHarness.v ===== *)
(** * The helpers of the end-to-end tests (pkg/testutils)

    A step of a test runs in a [World] (the cluster, the files) and passes, fails or skips the test, which ends it.
    Running a program, the temporary files and the environment are parameters, as is the behaviour of
    gomega's [Eventually]: it polls, at least once, until the matcher is satisfied or the time is over;
    [attempts] says how many more polls the time allows for, and [tick] what the cluster does in between. *)

From Stdlib Require Import QArith Ascii.
From S2P Require Import Prelude GoStrings.
Open Scope nat_scope.

Inductive verdict (W A : Type) :=
  | Passed (a : A) (w : W)
  | Failed (msg : string) (w : W)
  | Skipped (msg : string) (w : W)
  | Crashed (w : W).
Arguments Passed {_ _} _ _.
Arguments Failed {_ _} _ _.
Arguments Skipped {_ _} _ _.
Arguments Crashed {_ _} _.

Definition Test (W A : Type) : Type := W → verdict W A.
#[export] Instance Test_ret {W} : MRet (Test W) := λ A a w, Passed a w.
#[export] Instance Test_bind {W} : MBind (Test W) := λ A B k m w,
  match m w with
  | Passed a w => k a w
  | Failed msg w => Failed msg w
  | Skipped msg w => Skipped msg w
  | Crashed w => Crashed w
  end.

Lemma Test_bind_Passed {W A B} (m : Test W A) (k : A → Test W B) w b w'' :
  (m ≫= k) w = Passed b w'' → ∃ a w', m w = Passed a w' ∧ k a w' = Passed b w''.
Proof. unfold mbind, Test_bind. destruct (m w); naive_solver. Qed.

(** The state of a test after a step, whatever its verdict. *)
Definition world_of {W A} (v : verdict W A) : W := match v with Passed _ w | Failed _ w | Skipped _ w | Crashed w => w end.

(** [defer]: the deferred step runs in any case; when it fails, that is the verdict. *)
Definition deferred {W A} (m : Test W A) (d : Test W unit) : Test W A := λ w,
  let v := m w in
  match d (world_of v) with
  | Passed _ w' => match v with Passed a _ => Passed a w' | Failed s _ => Failed s w' | Skipped s _ => Skipped s w' | Crashed _ => Crashed w' end
  | Failed s w' => Failed s w'
  | Skipped s w' => Skipped s w'
  | Crashed w' => Crashed w'
  end.

(** What a test of a step sees of the programs it runs: the combined output and the error. *)
Abbreviation result := (string * option string)%type.

Record env (W : Type) := mkEnv {
  exec : option Z → list string → W → result * W;       (* the time limit in seconds, program and arguments *)
  defaultTimeout : Q;                                     (* of Eventually: SetDefaultEventuallyTimeout *)
  attempts : Q → W → nat;
  tick : W → W;
  sleep : Z → W → W;
  tempFile : string → W → (string + string) * W;         (* an error, or the name of the new file *)
  osRemove : string → W → option string * W;
  HNC_REPAIR : string
}.
Arguments exec {_} _ _ _ _. Arguments defaultTimeout {_} _. Arguments attempts {_} _ _ _. Arguments tick {_} _ _. Arguments sleep {_} _ _ _.
Arguments tempFile {_} _ _ _. Arguments osRemove {_} _ _ _. Arguments HNC_REPAIR {_} _.

Section testutils.
  Context {W : Type} (e : env W).
  Abbreviation T := (Test W) (only parsing).

Definition FailTest {A} (msg : string) : T A := λ w, Failed msg w.
Definition SkipTest {A} (msg : string) : T A := λ w, Skipped msg w.

(** ** gomega *)
Fixpoint poll {A} (n : nat) (f : T A) (ok : A → bool) : T A := λ w,
  match f w with
  | Passed a w' =>
      if ok a then Passed a w' else
      match n with O => Failed "timed out" w' | S n => poll n f ok (tick e w') end
  | v => v
  end.
Definition Eventually {A} (f : T A) (ok : A → bool) (timeout : Q) : T A := λ w, poll (attempts e timeout w) f ok w.
Definition Expect (b : bool) : T unit := if b then mret tt else FailTest "unexpected".
(** [Succeed()] on an error value. *)
Definition Succeed (err : option string) : bool := bool_decide (err = None).
(** The values that [mustNotRun] compares: [Equal(nil)] of a function, of which no comparison with nil holds. *)
Inductive actualValue := FuncValue | ErrorValue (err : option string).
Definition EqualNil (v : actualValue) : bool :=
  match v with FuncValue => false | ErrorValue err => bool_decide (err = None) end.

Definition eventuallyTimeout : Q := 5.
Definition testingNamespaceLabel : string := "hnc.x-k8s.io/testNamespace".

(** ** Running commands *)

(** Any argument that starts and ends in a double quote is not split. *)
Definition unsplit (s : string) : bool :=
  bool_decide (2 < String.length s) && HasPrefix s dquote && HasSuffix s dquote.
Definition command_args (cmdln : list string) : list string :=
  cmdln ≫= λ s, if unsplit s then [String.substring 1 (String.length s - 2) s] else Split s " "%char.
Definition run_args (limit : option Z) (cmdln : list string) : T result := λ w,
  match command_args cmdln with
  | [] => Crashed w                                       (* args[0] *)
  | args => let '(r, w') := exec e limit args w in Passed r w'
  end.
Definition RunCommand (cmdln : list string) : T result := run_args None cmdln.
(** [time.Duration(timeout)] drops the fraction. *)
Definition Duration (t : Q) : Z := Z.quot (Qnum t) (Z.pos (Qden t)).
Definition runCommandWithTimeout (timeout : Q) (cmdln : list string) : T result :=
  r ← run_args (Some (Duration timeout)) cmdln;
  mret (match r.2 with
        | Some err => if Contains err "signal: killed" then (r.1, None) else r
        | None => r
        end).

Definition TryRun (cmdln : list string) : T (option string) :=
  r ← RunCommand cmdln;
  mret (match r.2 with
        | Some err => Some ("Error: " +:+ err +:+ nl +:+ "Output: " +:+ r.1)
        | None => None
        end).
Definition TryRunQuietly (cmdln : list string) : T (option string) := r ← RunCommand cmdln; mret r.2.

Definition mustRunWithTimeout (timeout : Q) (cmdln : list string) : T unit :=
  _ ← Eventually (TryRun cmdln) Succeed timeout; mret tt.
Definition MustRun (cmdln : list string) : T unit := mustRunWithTimeout eventuallyTimeout cmdln.
Definition MustRunWithTimeout (timeout : Q) (cmdln : list string) : T unit := mustRunWithTimeout timeout cmdln.
Definition mustNotRun (cmdln : list string) : T unit := Expect (negb (EqualNil FuncValue)).
Definition MustNotRun (cmdln : list string) : T unit := mustNotRun cmdln.

(** ** Outputs *)
Definition missAny (substrs : list string) (teststring : string) : string :=
  let missing := filter (λ s, Contains teststring s = false) substrs in
  match missing with
  | [] => ""
  | _ => "did not output the expected substring(s): " +:+ Join missing ", " +:+ nl +:+ "and instead output: " +:+ teststring
  end.
(** The matcher [beQuiet]. *)
Definition silencer_Match (actual : string) : bool := bool_decide (actual = "").

Definition tryRunShouldContainMultiple (substrs cmdln : list string) : T (string * option string) :=
  r ← RunCommand cmdln; mret (missAny substrs r.1, r.2).
Definition tryRunShouldContainMultipleWithTimeout (substrs : list string) (timeout : Q) (cmdln : list string)
    : T (string * option string) :=
  r ← runCommandWithTimeout timeout cmdln; mret (missAny substrs r.1, r.2).
Definition report (m : string * option string) : string :=
  match m.2 with Some err => "failed: " +:+ err | None => m.1 end.

Definition runShouldContainMultiple (substrs : list string) (seconds : Q) (cmdln : list string) : T unit :=
  _ ← Eventually (m ← tryRunShouldContainMultiple substrs cmdln; mret (report m)) silencer_Match seconds; mret tt.
Definition RunShouldContain (substr : string) := runShouldContainMultiple [substr].
Definition RunShouldContainMultiple := runShouldContainMultiple.
Definition runShouldContainMultipleWithTimeout (substrs : list string) (seconds timeout : Q) (cmdln : list string) : T unit :=
  _ ← Eventually (m ← tryRunShouldContainMultipleWithTimeout substrs timeout cmdln; mret (report m)) silencer_Match seconds;
  mret tt.
Definition runErrorShouldContainMultiple (substrs : list string) (seconds : Q) (cmdln : list string) : T unit :=
  _ ← Eventually (m ← tryRunShouldContainMultiple substrs cmdln;
                  mret (match m.2 with None => "passed but should have failed" | Some _ => m.1 end)) silencer_Match seconds;
  mret tt.
Definition RunErrorShouldContain (substr : string) := runErrorShouldContainMultiple [substr].
Fixpoint undesired (substrs : list string) (stdout : string) : string :=
  match substrs with
  | [] => ""
  | s :: rest =>
      if Contains stdout s then "included the undesired output " +:+ quoted s +:+ ":" +:+ nl +:+ stdout else undesired rest stdout
  end.
Definition runShouldNotContainMultiple (substrs : list string) (seconds : Q) (cmdln : list string) : T unit :=
  _ ← Eventually (r ← RunCommand cmdln;
                  mret (match r.2 with Some err => "failed: " +:+ err | None => undesired substrs r.1 end)) silencer_Match seconds;
  mret tt.
Definition runShouldNotContain (substr : string) := runShouldNotContainMultiple [substr].
Definition RunShouldNotContain (substr : string) := runShouldNotContain substr.

(** ** Fields of objects, by templates of kubectl *)
Definition field_command (resource ns nm field : string) : list string :=
  if decide (ns = "") then ["kubectl get"; resource; nm; "-o template --template={{" +:+ field +:+ "}}"]
  else ["kubectl get"; resource; nm; "-n"; ns; "-o template --template={{" +:+ field +:+ "}}"].
Definition fieldShouldContainMultipleWithTimeout (resource ns nm field : string) (want : list string) (timeout : Q) : T unit :=
  runShouldContainMultiple want timeout (field_command resource ns nm field).
Definition fieldShouldNotContainMultipleWithTimeout (resource ns nm field : string) (want : list string) (timeout : Q) : T unit :=
  runShouldNotContainMultiple want timeout (field_command resource ns nm field).
Definition FieldShouldContain (resource ns nm field want : string) : T unit :=
  fieldShouldContainMultipleWithTimeout resource ns nm field [want] eventuallyTimeout.
Definition FieldShouldNotContain (resource ns nm field want : string) : T unit :=
  fieldShouldNotContainMultipleWithTimeout resource ns nm field [want] eventuallyTimeout.

(** ** YAML *)
Definition writeTempFile (cxt : string) : T string := λ w,
  match tempFile e cxt w with (inr name, w') => Passed name w' | (inl err, w') => Failed err w' end.
Definition removeFile (path : string) : T unit := λ w,
  match osRemove e path w with (None, w') => Passed tt w' | (Some err, w') => Failed err w' end.
Definition MustApplyYAML (s : string) : T unit :=
  filename ← writeTempFile s; deferred (MustRun ["kubectl apply -f"; filename]) (removeFile filename).
Definition MustNotApplyYAML (s : string) : T unit :=
  filename ← writeTempFile s; deferred (MustNotRun ["kubectl apply -f"; filename]) (removeFile filename).

(** ** Namespaces of the tests *)
Definition labelTestingNs (ns : string) : T unit :=
  MustRun ["kubectl label --overwrite ns"; ns; testingNamespaceLabel +:+ "=true"].
Definition CreateNamespace (ns : string) : T unit := _ ← MustRun ["kubectl create ns"; ns]; labelTestingNs ns.
Definition CreateSubnamespace (ns parent : string) : T unit :=
  _ ← MustRun ["kubectl hns create"; ns; "-n"; parent]; labelTestingNs ns.

Definition cleanupTimeout : Q := 30.
(** First loop of [cleanupNamespaces]: the namespaces that exist, made deletable. *)
Fixpoint to_delete (nses : list string) : T (list string) :=
  match nses with
  | [] => mret []
  | ns :: rest =>
      err ← TryRunQuietly ["kubectl get ns"; ns];
      match err with
      | Some _ => to_delete rest
      | None => _ ← MustRunWithTimeout cleanupTimeout ["kubectl annotate ns"; ns; "hnc.x-k8s.io/subnamespace-of-"];
                l ← to_delete rest; mret (ns :: l)
      end
  end.
Fixpoint delete_all (nses : list string) : T unit :=
  match nses with
  | [] => mret tt
  | ns :: rest => _ ← MustRunWithTimeout cleanupTimeout ["kubectl delete ns"; ns]; delete_all rest
  end.
Definition cleanupNamespaces (nses : list string) : T unit := l ← to_delete nses; delete_all l.
Definition CleanupTestNamespaces : T unit :=
  r ← Eventually (RunCommand ["kubectl get ns -o custom-columns=:.metadata.name --no-headers=true"; "-l";
                              testingNamespaceLabel +:+ "=true"]) (λ r, Succeed r.2) (defaultTimeout e);
  cleanupNamespaces (Split r.1 (Ascii.ascii_of_nat 10)).
Definition CleanupTestResourceSyncMode : T unit := MustRun ["kubectl hns config set-resource secrets --mode Ignore"].
Definition CleanupTestCRDIfExists : T unit :=
  let crd := "eetests.e2e.hnc.x-k8s.io" in
  err ← TryRunQuietly ["kubectl get crd"; crd];
  match err with
  | Some _ => mret tt
  | None => _ ← MustRun ["kubectl hns config delete-type --group e2e.hnc.x-k8s.io --resource eetests"];
            _ ← MustRun ["kubectl delete crd"; crd]; RunShouldNotContain crd 10 ["kubectl get crd"]
  end.

(** ** Repairs *)
Definition HasHNCPath : bool := bool_decide (HNC_REPAIR e ≠ "").
Definition CheckHNCPath : T unit :=
  if HasHNCPath then mret tt
  else SkipTest "Environment variable HNC_REPAIR not set. Skipping tests that require repairing HNC.".
Definition RecoverHNC : T unit :=
  if HasHNCPath then
    let a := "recover-test-a" in let b := "recover-test-b" in
    _ ← TryRun ["kubectl delete deployment --all -n hnc-system"];
    err ← TryRun ["kubectl apply -f"; HNC_REPAIR e];
    match err with
    | Some _ => FailTest "COULDN'T REPAIR HNC"
    | None =>
        _ ← (λ w, Passed tt (sleep e 5 w));
        _ ← cleanupNamespaces [a; b];
        _ ← mustRunWithTimeout 30 ["kubectl create ns"; a];
        _ ← mustRunWithTimeout 30 ["kubectl hns create"; b; "-n"; a];
        _ ← mustRunWithTimeout 30 ["kubectl get ns"; b];
        cleanupNamespaces [a; b]
    end
  else mret tt.
End testutils.

(** ** What polling observes *)
Section polling.
  Context {W : Type} (e : env W).

(** After [j] polls whose results were not good. *)
Inductive polled {A} (f : Test W A) (good : A → bool) : nat → W → W → Prop :=
  | polled_now w : polled f good 0 w w
  | polled_again j w a w1 wj : f w = Passed a w1 → good a = false → polled f good j (tick e w1) wj → polled f good (S j) w wj.

(** A good result within [n] more polls. *)
Definition observed {A} (f : Test W A) (good : A → bool) (n : nat) (w : W) (a : A) (w' : W) : Prop :=
  ∃ j wj, j ≤ n ∧ polled f good j w wj ∧ f wj = Passed a w' ∧ good a = true.

Lemma poll_exact {A} n (f : Test W A) good w a w' : poll e n f good w = Passed a w' ↔ observed f good n w a w'.
Proof.
  revert w. induction n as [|n IH]; intros w; simpl; split.
  - destruct (f w) as [b w1| | |] eqn:Hf; [|done..]. destruct (good b) eqn:Hb; [|done]. intros [= <- <-].
    exists 0, w. split_and!; [done|constructor|done|done].
  - intros (j & wj & Hj & Hp & Hf & Hg). assert (j = 0) as -> by lia. inversion Hp; subst. by rewrite Hf, Hg.
  - destruct (f w) as [b w1| | |] eqn:Hf; [|done..]. destruct (good b) eqn:Hb.
    + intros [= <- <-]. exists 0, w. split_and!; [lia|constructor|done|done].
    + intros (j & wj & Hj & Hp & Hfj & Hg)%IH. exists (S j), wj. split_and!; [lia|by econstructor|done|done].
  - intros (j & wj & Hj & Hp & Hfj & Hg). destruct Hp as [w|j w b w1 wj Hf Hb Hp]; [by rewrite Hfj, Hg|].
    rewrite Hf, Hb. apply IH. exists j, wj. split_and!; [lia|done..].
Qed.

(** A check of a report of the result is a check of the result. *)
Lemma polled_map {A B} (f : Test W A) (g : A → B) (good : B → bool) j w wj :
  polled (r ← f; mret (g r)) good j w wj ↔ polled f (λ r, good (g r)) j w wj.
Proof.
  split.
  - induction 1 as [|j w a w1 wj Hf Hg _ IH]; [constructor|].
    apply Test_bind_Passed in Hf as (r & w2 & Hf & [= <- <-]). by econstructor.
  - induction 1 as [|j w a w1 wj Hf Hg _ IH]; [constructor|]. eapply polled_again; [|done|done].
    unfold mbind, Test_bind. by rewrite Hf.
Qed.
Lemma observed_map {A B} (f : Test W A) (g : A → B) (good : B → bool) n w b w' :
  observed (r ← f; mret (g r)) good n w b w' ↔ ∃ a, b = g a ∧ observed f (λ r, good (g r)) n w a w'.
Proof.
  split.
  - intros (j & wj & Hj & Hp & (r & w2 & Hf & [= <- <-])%Test_bind_Passed & Hg). exists r. split; [done|].
    exists j, wj. apply (proj1 (polled_map f g good j w wj)) in Hp. done.
  - intros (a & -> & j & wj & Hj & Hp & Hf & Hg). exists j, wj. apply (proj2 (polled_map f g good j w wj)) in Hp.
    split_and!; [done|done| |done]. unfold mbind, Test_bind. by rewrite Hf.
Qed.
Lemma polled_ext {A} (f : Test W A) (g1 g2 : A → bool) j w wj : (∀ a, g1 a = g2 a) → polled f g1 j w wj → polled f g2 j w wj.
Proof. intros Hg. induction 1 as [|j w a w1 wj Hf Ha _ IH]; [constructor|]. rewrite Hg in Ha. by econstructor. Qed.
Lemma observed_ext {A} (f : Test W A) (g1 g2 : A → bool) n w a w' :
  (∀ a, g1 a = g2 a) → observed f g1 n w a w' ↔ observed f g2 n w a w'.
Proof.
  intros Hg. split; intros (j & wj & Hj & Hp & Hf & Ha); exists j, wj.
  - rewrite Hg in Ha. by apply (polled_ext _ g1 g2) in Hp.
  - rewrite <- Hg in Ha. by apply (polled_ext _ g2 g1) in Hp.
Qed.

Lemma poll_ext {A} n (f f' : Test W A) good w : (∀ w, f w = f' w) → poll e n f good w = poll e n f' good w.
Proof.
  intros Hf. revert w. induction n as [|n IH]; intros w; simpl; rewrite Hf; [done|].
  destruct (f' w) as [a w'| | |]; [|done..]. by destruct (good a).
Qed.

(** A step that waits for a good report of a run. *)
Lemma eventually_report {A B} (f : Test W A) (g : A → B) (h : Test W B) (good : B → bool) (good' : A → bool) timeout w w' :
  (∀ w, h w = (r ← f; mret (g r)) w) → (∀ a, good (g a) = good' a) →
  (_ ← Eventually e h good timeout; mret tt) w = Passed tt w' ↔ ∃ a, observed f good' (attempts e timeout w) w a w'.
Proof.
  intros Hh Hg. split.
  - intros (b & w1 & H & [= <-])%Test_bind_Passed. unfold Eventually in H. rewrite (poll_ext _ _ _ _ _ Hh) in H.
    apply poll_exact, observed_map in H as (a & -> & H). exists a. by apply (observed_ext _ (λ r, good (g r))).
  - intros (a & H). apply (observed_ext _ (λ r, good (g r)) good') in H; [|done].
    assert (Eventually e h good timeout w = Passed (g a) w') as Hp.
    { unfold Eventually. rewrite (poll_ext _ _ _ _ _ Hh). apply poll_exact, observed_map. eauto. }
    unfold mbind, Test_bind. by rewrite Hp.
Qed.
End polling.

Lemma missAny_quiet substrs out : missAny substrs out = "" ↔ ∀ s, s ∈ substrs → Contains out s = true.
Proof.
  unfold missAny. destruct (filter _ substrs) as [|s l] eqn:Hf.
  - split; [|done]. intros _ s Hs. destruct (Contains out s) eqn:Hc; [done|].
    assert (s ∈ filter (λ s, Contains out s = false) substrs) as Hin by by apply list_elem_of_filter.
    rewrite Hf in Hin. by apply elem_of_nil in Hin.
  - split; [done|]. intros Hall. assert (s ∈ filter (λ s, Contains out s = false) substrs) as Hin by (rewrite Hf; by left).
    apply list_elem_of_filter in Hin as [Hc Hs]. by rewrite Hall in Hc.
Qed.
Lemma undesired_quiet substrs out : undesired substrs out = "" ↔ ∀ s, s ∈ substrs → Contains out s = false.
Proof.
  induction substrs as [|s l IH]; simpl; [split; [by intros _ s ?%elem_of_nil|done]|].
  destruct (Contains out s) eqn:Hs.
  - split; [done|]. intros Hall. specialize (Hall s). rewrite Hs in Hall. by discriminate Hall; left.
  - rewrite IH. split; [|intros Hall t Ht; apply Hall; by right]. intros Hall t [->|Ht]%elem_of_cons; auto.
Qed.
