(* ===== verification/IntegTest.v ===== *)
(** * The helpers of the integration tests (internal/integtest/helpers.go)

    Steps of tests as in TestHarness, on a cluster that is read and written through a client.  The state has the cluster
    and the objects that were made, which the clean-up deletes.  Reads are answers of the cluster as it is; writes
    may be rejected.  The objects are recorded as they were sent, which is what a deletion needs of them. *)

From Stdlib Require Import QArith Ascii.
From S2P Require Import Prelude GoStrings Api HncConfig World TestHarness.
Open Scope nat_scope.

(** The error of a write. *)
Inductive writeError := WNotFound | WOther (msg : string).
#[export] Instance writeError_eq_dec : EqDecision writeError.
Proof. solve_decision. Defined.
(** errors.IsNotFound *)
Definition IsNotFound (err : option writeError) : bool := bool_decide (err = Some WNotFound).

Record client (C : Type) := mkClient {
  getHC : NamespacedName → C → ApiResult HierarchyConfiguration;
  createHC : HierarchyConfiguration → C → option writeError * C;
  updateHC : HierarchyConfiguration → C → option writeError * C;
  getNS : string → C → ApiResult K8sNamespace;
  createNS : K8sNamespace → C → option writeError * C;
  updateNS : K8sNamespace → C → option writeError * C;
  getConfig : string → C → ApiResult HNCConfiguration;
  createConfig : HNCConfiguration → C → option writeError * C;
  updateConfig : HNCConfiguration → C → option writeError * C;
  getObj : GroupVersionKind → NamespacedName → C → ApiResult Unstructured;
  createObj : Unstructured → C → option writeError * C;
  updateObj : Unstructured → C → option writeError * C;
  deleteObj : Unstructured → C → option writeError * C
}.
Arguments getHC {_} _ _ _. Arguments createHC {_} _ _ _. Arguments updateHC {_} _ _ _.
Arguments getNS {_} _ _ _. Arguments createNS {_} _ _ _. Arguments updateNS {_} _ _ _.
Arguments getConfig {_} _ _ _. Arguments createConfig {_} _ _ _. Arguments updateConfig {_} _ _ _.
Arguments getObj {_} _ _ _ _. Arguments createObj {_} _ _ _. Arguments updateObj {_} _ _ _. Arguments deleteObj {_} _ _ _.

Record state (C : Type) := mkState { st_cluster : C; st_createdObjects : list Unstructured }.
Arguments mkState {_} _ _. Arguments st_cluster {_} _. Arguments st_createdObjects {_} _.

Definition RoleKind : string := "Role".
Definition RoleBindingKind : string := "RoleBinding".

(** The variable [GVKs]: the kinds of the resources that the tests use. *)
Definition GVKs : gmap string GroupVersionKind := list_to_map [
  ("secrets", mkGVK "" "v1" "Secret");
  (RoleResource, mkGVK RBACGroup "v1" RoleKind);
  (RoleBindingResource, mkGVK RBACGroup "v1" RoleBindingKind);
  ("networkpolicies", mkGVK "networking.k8s.io" "v1" "NetworkPolicy");
  ("resourcequotas", mkGVK "" "v1" "ResourceQuota");
  ("limitranges", mkGVK "" "v1" "LimitRange");
  ("configmaps", mkGVK "" "v1" "ConfigMap");
  ("crontabs", mkGVK "stable.example.com" "v1" "CronTab");
  ("subnamespaceanchors", mkGVK "hnc.x-k8s.io" "v1alpha2" "SubnamespaceAnchor")].
Definition gvk_of (resource : string) : GroupVersionKind := default (mkGVK "" "" "") (GVKs !! resource).

(** [fmt.Sprintf("%x", bytes)] *)
Definition hex_digit (n : nat) : string :=
  String (ascii_of_nat (if decide (n < 10) then 48 + n else 87 + n)) EmptyString.
Definition hex (bytes : list nat) : string :=
  foldr (λ b s, hex_digit (b / 16 `mod` 16) +:+ hex_digit (b `mod` 16) +:+ s) "" bytes.

(** [strings.ReplaceAll]: the occurrences from left to right, without overlaps; an empty [old] matches around each character. *)
Fixpoint replace_from (old new : string) (skip : nat) (s : string) : string :=
  match s with
  | EmptyString => ""
  | String c s' =>
      match skip with
      | S k => replace_from old new k s'
      | O => if HasPrefix s old then new +:+ replace_from old new (String.length old - 1) s'
             else String c (replace_from old new 0 s')
      end
  end.
Fixpoint intersperse (new s : string) : string :=
  match s with EmptyString => new | String c s' => new +:+ String c (intersperse new s') end.
Definition ReplaceAll (s old new : string) : string :=
  if decide (old = "") then intersperse new s else replace_from old new 0 s.

Section integtest.
  Context {C : Type} (k : client C) (e : env (state C)) (random : state C → list nat) (notFoundText : string).
  Abbreviation T := (Test (state C)) (only parsing).

Definition reading {A} (f : C → A) : T A := λ s, Passed (f (st_cluster s)) s.
Definition writing {A} (f : C → A * C) : T A := λ s,
  let '(a, c) := f (st_cluster s) in Passed a (mkState c (st_createdObjects s)).
Definition track (inst : Unstructured) : T unit := λ s, Passed tt (mkState (st_cluster s) (st_createdObjects s ++ [inst])).
Definition created : T (list Unstructured) := λ s, Passed (st_createdObjects s) s.
Definition forget_created : T unit := λ s, Passed tt (mkState (st_cluster s) []).
Definition ok (err : option writeError) : bool := bool_decide (err = None).
Definition ExpectOK (m : T (option writeError)) : T unit := err ← m; Expect (ok err).
Definition Eventually_ {A} (f : T A) (good : A → bool) : T A := Eventually e f good (defaultTimeout e).

(** ** Hierarchies *)
Definition NewHierarchy (nm : string) : HierarchyConfiguration :=
  {| hc_Meta := set_om_NamespacedName nm Singleton blankMeta; hc_Spec := hc_Spec blankHC; hc_Status := hc_Status blankHC |}.
(** The zero object when it cannot be read. *)
Definition GetHierarchy (nm : string) : T HierarchyConfiguration :=
  reading (λ c, match getHC k (mkNN nm Singleton) c with Found h => h | _ => blankHC end).
Definition CanGetHierarchy (nm : string) : T bool :=
  reading (λ c, match getHC k (mkNN nm Singleton) c with Found _ => true | _ => false end).
Definition TryUpdateHierarchy (h : HierarchyConfiguration) : T (option writeError) :=
  writing (if IsZero (om_CreationTimestamp (hc_Meta h)) then createHC k h else updateHC k h).
Definition UpdateHierarchy (h : HierarchyConfiguration) : T unit := ExpectOK (TryUpdateHierarchy h).
Definition NewOrGetHierarchy (nm : string) : T HierarchyConfiguration :=
  r ← reading (getHC k (mkNN nm Singleton));
  match r with
  | Found h => mret h
  | NotFound => mret (NewHierarchy nm)
  | ApiError _ => FailTest "unexpected"
  end.
Definition HasChild (nm cnm : string) : T bool := h ← GetHierarchy nm; mret (bool_decide (cnm ∈ hct_Children (hc_Status h))).
Definition HasCondition (nm tp reason : string) : T bool :=
  h ← GetHierarchy nm;
  mret (existsb (λ c, bool_decide (c_Type c = tp) && bool_decide (c_Reason c = reason)) (hct_Conditions (hc_Status h))).

Definition with_parent (pnm : string) (h : HierarchyConfiguration) : HierarchyConfiguration :=
  {| hc_Meta := hc_Meta h;
     hc_Spec := {| hcs_Parent := pnm; hcs_AllowCascadingDeletion := hcs_AllowCascadingDeletion (hc_Spec h);
                   hcs_Labels := hcs_Labels (hc_Spec h); hcs_Annotations := hcs_Annotations (hc_Spec h) |};
     hc_Status := hc_Status h |}.
(** The children of [pnm] as the polls of [SetParent] see them. *)
Definition children_of (pnm : string) : T (list string) := h ← GetHierarchy pnm; mret (hct_Children (hc_Status h)).
Definition change_parent (nm pnm : string) : T (string * option writeError) :=
  hier ← NewOrGetHierarchy nm; err ← TryUpdateHierarchy (with_parent pnm hier); mret (hcs_Parent (hc_Spec hier), err).
Definition SetParent (nm pnm : string) : T unit :=
  r ← Eventually_ (change_parent nm pnm) (λ r, ok r.2);
  _ ← (if decide (r.1 = "") then mret tt
       else _ ← Eventually_ (children_of r.1) (λ l, bool_decide (nm ∉ l)); mret tt);
  if decide (pnm = "") then mret tt else _ ← Eventually_ (children_of pnm) (λ l, bool_decide (nm ∈ l)); mret tt.

(** ** Namespaces *)
Definition GetNamespace (nm : string) : T K8sNamespace :=
  r ← Eventually_ (reading (getNS k nm)) (λ r, match r with Found _ => true | _ => false end);
  match r with Found ns => mret ns | _ => FailTest "unexpected" end.
Definition UpdateNamespace (ns : K8sNamespace) : T unit := ExpectOK (writing (updateNS k ns)).
Definition ns_GetLabel (from label : string) : T string := ns ← GetNamespace from; mret (sget (items (om_Labels (kn_Meta ns))) label).
Definition ns_GetAnnotation (from key : string) : T string := ns ← GetNamespace from; mret (sget (items (om_Annotations (kn_Meta ns))) key).
(** An assignment to an entry of a nil map panics; deleting from one is fine. *)
Definition AddNamespaceLabel (nm key v : string) : T unit :=
  ns ← GetNamespace nm;
  match om_Labels (kn_Meta ns) with
  | None => λ s, Crashed s
  | Some l => UpdateNamespace {| kn_Meta := set_om_Labels (Some (<[key := v]> l)) (kn_Meta ns) |}
  end.
Definition RemoveNamespaceLabel (nm key : string) : T unit :=
  ns ← GetNamespace nm;
  UpdateNamespace {| kn_Meta := set_om_Labels (delete key <$> om_Labels (kn_Meta ns)) (kn_Meta ns) |}.
Definition CreateNSName (prefix : string) : T string := λ s, Passed (prefix +:+ "-" +:+ hex (random s)) s.
Definition CreateNSWithLabelAnnotation (prefix : string) (l a : gomap string string) : T string :=
  nm ← CreateNSName prefix;
  _ ← ExpectOK (writing (createNS k {| kn_Meta := set_om_Annotations a (set_om_Labels l (meta_named nm)) |}));
  mret nm.
Definition CreateNSWithLabel (prefix : string) (l : gomap string string) : T string := CreateNSWithLabelAnnotation prefix l None.
Definition CreateNS (prefix : string) : T string := CreateNSWithLabelAnnotation prefix None None.
(** From [i]: "a", "b", ..., for the ASCII characters (up to 31 namespaces). *)
Fixpoint CreateNSes_from (i num : nat) : T (list string) :=
  match num with
  | O => mret []
  | S n => nm ← CreateNS (String (ascii_of_nat (97 + i)) EmptyString); nms ← CreateNSes_from (S i) n; mret (nm :: nms)
  end.
Definition CreateNSes (num : nat) : T (list string) := CreateNSes_from 0 num.

(** ** The configuration *)
Definition UpdateHNCConfig (c : HNCConfiguration) : T (option writeError) :=
  writing (if IsZero (om_CreationTimestamp (hn_Meta c)) then createConfig k c else updateConfig k c).
Definition GetHNCConfigWithName (nm : string) : T (option HNCConfiguration) :=
  reading (λ c, match getConfig k nm c with Found cfg => Some cfg | _ => None end).
Definition GetHNCConfig : T (option HNCConfiguration) := GetHNCConfigWithName HNCConfigSingleton.
Definition change_config (f : HNCConfiguration → T (option writeError)) : T (option writeError) :=
  c ← GetHNCConfig; match c with Some c => f c | None => mret (Some (WOther "while reading HNCConfiguration")) end.
Definition ResetHNCConfigToDefault : T unit :=
  _ ← Eventually_ (change_config (λ c, writing (updateConfig k (mkHNCConfig (hn_Meta c) [] [] [])))) ok; mret tt.
Definition AddToHNCConfig (group resource mode : string) : T unit :=
  _ ← Eventually_ (change_config (λ c,
        let spec := {| rsp_GR := mkGR group resource; rsp_Mode := mode |} in
        UpdateHNCConfig (mkHNCConfig (hn_Meta c) (hn_Resources c ++ [spec]) (hn_Statuses c) (hn_Conditions c)))) ok;
  mret tt.

(** ** Objects *)
Definition blankObject (resource nsName name : string) : Unstructured :=
  mkObj (gvk_of resource) (set_om_NamespacedName nsName name blankMeta) None ∅.
Definition GetObject (resource nsName name : string) : T (ApiResult Unstructured) :=
  reading (getObj k (gvk_of resource) (mkNN nsName name)).
Definition HasObject (resource nsName name : string) : T bool :=
  r ← GetObject resource nsName name; mret (match r with Found _ => true | _ => false end).
Definition create_tracked (inst : Unstructured) : T unit := _ ← ExpectOK (writing (createObj k inst)); track inst.
Definition MakeObject (resource nsName name : string) : T unit := create_tracked (blankObject resource nsName name).
Definition MakeObjectWithAnnotations (resource nsName name : string) (a : gomap string string) : T unit :=
  let inst := blankObject resource nsName name in create_tracked (set_u_Meta (set_om_Annotations a (u_Meta inst)) inst).
Definition MakeObjectWithLabels (resource nsName name : string) (l : gomap string string) : T unit :=
  let inst := blankObject resource nsName name in create_tracked (set_u_Meta (set_om_Labels l (u_Meta inst)) inst).
Definition MakeSecrettWithType (nsName name scType : string) : T unit :=
  let inst := blankObject "secrets" nsName name in
  create_tracked (mkObj (u_GVK inst) (u_Meta inst) (u_Status inst) (<["type" := JString scType]> (u_Content inst))).
Definition UpdateObjectWithAnnotations (resource nsName name : string) (a : gomap string string) : T unit :=
  r ← GetObject resource nsName name;
  match r with
  | Found inst => ExpectOK (writing (updateObj k (set_u_Meta (set_om_Annotations a (u_Meta inst)) inst)))
  | _ => FailTest "unexpected"
  end.
Definition DeleteObject (resource nsName name : string) : T unit :=
  _ ← Eventually_ (writing (deleteObj k (blankObject resource nsName name))) IsNotFound; mret tt.
(** The second [Delete] is an argument of [Eventually]: its result is polled, it is not repeated. *)
Fixpoint cleanup_objects (objs : list Unstructured) : T unit :=
  match objs with
  | [] => mret tt
  | obj :: rest =>
      err ← writing (deleteObj k obj);
      _ ← (if ok err then mret tt
           else err2 ← writing (deleteObj k obj); _ ← Eventually_ (mret (IsNotFound err2)) id; mret tt);
      cleanup_objects rest
  end.
Definition CleanupObjects : T unit :=
  objs ← created; _ ← cleanup_objects objs; forget_created.
Definition ObjectInheritedFrom (resource nsName name : string) : T string :=
  r ← GetObject resource nsName name;
  mret (match r with
        | Found inst => sget (items (om_Labels (u_Meta inst))) LabelInheritedFrom
        | NotFound => notFoundText
        | ApiError err => err
        end).
End integtest.

(** [ReplaceStrings]: the table in the order of [range]. *)
Definition ReplaceStrings `{RangeOrder} (str : string) (table : gmap string string) : string :=
  foldl (λ s kv, ReplaceAll s kv.1 kv.2) str (range table).
