(* ===== verification/Instances.v ===== *)
(** * Concrete instances

    Decision procedures for the invariants of the forest, concrete versions of the
    library interfaces (regular expressions, label selectors) and small concrete
    forests, built with the operations of the package, on which the definitions of
    the development are evaluated. *)

From Stdlib Require Import Ascii String.
From S2P Require Import Prelude GoStrings Chains Validation Api Config Selectors Resources Forest ForestWf ForestWalks.
From S2P Require Import ForestReads Sound World HierarchyReconciler HierarchyInvariant.

#[export] Existing Instance canonical_order.

(** ** Deciding the invariants *)
Definition wf_check (f : Forest) : bool :=
  bool_decide (map_Forall (λ nm l, nm ≠ "" ∧ is_Some (f_heap f !! l) ∧ ns_name (deref f l) = nm ∧
      (match ns_parent (deref f l) with
       | None => true
       | Some p => bool_decide (f_namespaces f !! ns_name (deref f p) = Some p ∧ ns_children (deref f p) !! nm = Some l)
       end = true) ∧
      map_Forall (λ c cl, f_namespaces f !! c = Some cl ∧ ns_parent (deref f cl) = Some l) (ns_children (deref f l)) ∧
      (ns_exists (deref f l) = false → ns_parent (deref f l) = None)) (f_namespaces f)) &&
  bool_decide (map_Forall (λ l _, (l < f_next f)%positive) (f_heap f)).

Lemma wf_check_sound f : wf_check f = true → wf f.
Proof.
  unfold wf_check. rewrite andb_true_iff, !bool_decide_eq_true. intros [Hn Hx].
  split; [| | | |intros l [n Hl]; by apply (Hx l n)].
  - intros nm l Hl. destruct (Hn nm l Hl) as (? & ? & ? & _). done.
  - intros nm l p Hl Hp. destruct (Hn nm l Hl) as (_ & _ & _ & Hpar & _). rewrite Hp in Hpar.
    apply bool_decide_eq_true in Hpar as []. eauto.
  - intros nm l c cl Hl Hc. destruct (Hn nm l Hl) as (_ & _ & _ & _ & Hch & _). by apply Hch.
  - intros nm l Hl _ He. destruct (Hn nm l Hl) as (_ & _ & _ & _ & _ & Hg). by apply Hg.
Qed.

Definition acyclic_check (f : Forest) : bool :=
  bool_decide (map_Forall (λ _ l, CycleNames f l = []) (f_namespaces f)).

Lemma acyclic_check_sound f : wf f → acyclic_check f = true → acyclic (parent_name f).
Proof.
  intros Hwf Hc x Hx. apply bool_decide_eq_true in Hc. destruct (in_cycle_has_parent _ _ Hx) as [p Hp].
  apply (up_live f Hwf) in Hp as [[l Hl] _]. by apply (CycleNames_nil_iff f Hwf x l Hl) in Hx; [|by apply (Hc x)].
Qed.

Lemma acyclic_cycles_halted f : acyclic (parent_name f) → cycles_halted f.
Proof. intros Ha x Hx. by destruct (Ha x). Qed.

Definition cycles_check (f : Forest) : bool :=
  bool_decide (map_Forall (λ _ l, CycleNames f l = [] ∨ List.Exists (halted_name f) (AncestryNames f (Some l))) (f_namespaces f)).

Lemma cycles_check_sound f : wf f → cycles_check f = true → cycles_halted f.
Proof.
  intros Hwf Hc x Hx. apply bool_decide_eq_true in Hc. destruct (in_cycle_has_parent _ _ Hx) as [p Hp].
  apply (up_live f Hwf) in Hp as [[l Hl] _]. destruct (Hc x l Hl) as [Hcyc|Hex].
  - by apply (CycleNames_nil_iff f Hwf x l Hl) in Hcyc.
  - apply Exists_exists in Hex as (y & Hy & Hh). exists y. split; [|done]. by apply (AncestryNames_elem f Hwf x l y Hl).
Qed.

(** ** Libraries *)

(** Literal patterns and the pattern that matches everything. *)
#[export] Instance literal_regexps : RegexpLib := {|
  Regexp := string;
  Compile := inr;
  MatchString r s := bool_decide (r = "^.*$") || bool_decide (r = "^" +:+ s +:+ "$")
|}.

(** Selectors that are lists of required or forbidden keys. *)
#[export] Instance presence_selectors : SelectorLib := {|
  Selector := list (bool * string);
  getSelectorFromString s := if decide (s = "") then inr [] else inr (seg_req ∘ TrimSpace <$> Split s ",");
  Empty s := bool_decide (s = []);
  Matches s ls := forallb (λ '(neg, k), if (neg : bool) then bool_decide (ls !! k = None) else bool_decide (is_Some (ls !! k))) s
|}.

(** The presence selectors satisfy the law that tree selectors rely on. *)
Lemma Split_chars s sep c : c ∈ list_ascii_of_string s → c = sep ∨ ∃ w, w ∈ Split s sep ∧ c ∈ list_ascii_of_string w.
Proof.
  induction s as [|d s IH]; [by intros ?%elem_of_nil|]. simpl. intros Hc. destruct (decide (d = sep)) as [->|Hd].
  - apply elem_of_cons in Hc as [->|Hc]; [by left|]. destruct (IH Hc) as [|(w & Hw & ?)]; [by left|right].
    exists w. split; [by right|done].
  - destruct (Split s sep) as [|w ws].
    + apply elem_of_cons in Hc as [->|Hc]; [right; eexists; split; by left|].
      destruct (IH Hc) as [|(w & Hw & _)]; [by left|by apply elem_of_nil in Hw].
    + apply elem_of_cons in Hc as [->|Hc]; [right; eexists; split; [by left|by left]|].
      destruct (IH Hc) as [|(w' & Hw & Hcw)]; [by left|right]. apply elem_of_cons in Hw as [->|Hw].
      * exists (String d w). split; [by left|by right].
      * exists w'. split; [by right|done].
Qed.

Lemma IsQualifiedName_chars v c : IsQualifiedName v = [] → c ∈ list_ascii_of_string v →
  qualified_inner c = true ∨ c = "/"%char.
Proof.
  intros Hq Hc. destruct (Split_chars v "/" c Hc) as [|(w & Hw & Hcw)]; [by right|left]. unfold IsQualifiedName in Hq.
  assert (∀ d, alnum d = true → qualified_inner d = true) as Hal.
  { intros d Hd. unfold qualified_inner. by rewrite Hd. }
  assert (∀ d, lower_alnum d = true → alnum d = true) as Hlo.
  { intros d Hd. unfold alnum. by rewrite Hd. }
  assert (∀ d, dns_inner d = true → qualified_inner d = true) as Hdns.
  { intros d. unfold dns_inner, qualified_inner. destruct (lower_alnum d) eqn:Hl; [rewrite (Hlo _ Hl)|]; [done|].
    simpl. intros ->. by rewrite orb_true_r. }
  destruct (Split v "/") as [|a [|b [|]]]; try done.
  - apply list_elem_of_singleton in Hw as ->. apply app_nil in Hq as [_ Hf]. apply err_if_nil, negb_false_iff in Hf.
    by eapply framed_chars.
  - apply app_nil in Hq as [Hp Hn]. apply app_nil in Hn as [_ Hf]. apply err_if_nil, negb_false_iff in Hf.
    apply elem_of_cons in Hw as [->|Hw%list_elem_of_singleton]; [|subst; by eapply framed_chars].
    destruct (bool_decide (a = "")); [done|]. apply fmap_nil_inv in Hp. unfold IsDNS1123Subdomain in Hp.
    apply app_nil in Hp as [_ Hp]. apply err_if_nil, negb_false_iff in Hp. rewrite forallb_forall in Hp.
    destruct (Split_chars a "." c Hcw) as [->|(w & Hw & Hcw')]; [done|]. apply list_elem_of_In in Hw.
    apply Hdns. eapply framed_chars; [by apply Hp| |done]. intros d Hd. unfold dns_inner. by rewrite Hd.
Qed.

Lemma TrimSpace_black s : (∀ c, c ∈ list_ascii_of_string s → Ascii.is_space c = false) → TrimSpace s = s.
Proof.
  intros Hb. unfold TrimSpace. assert (TrimLeft s = s) as ->.
  { apply TrimLeft_black. destruct s as [|c s]; [done|]. apply Hb. by left. }
  rewrite TrimLeft_black; [apply rev_involutive|].
  assert (∀ s c, c ∈ list_ascii_of_string (String.rev s) → c ∈ list_ascii_of_string s) as Hrev.
  { clear. intros s. induction s as [|d s IH]; [done|]. intros c. rewrite rev_cons.
    assert (∀ a b, list_ascii_of_string (a +:+ b) = list_ascii_of_string a ++ list_ascii_of_string b) as ->.
    { intros a b. induction a as [|x a IHa]; [done|]. rewrite string_app_cons. simpl. by rewrite IHa. }
    intros [Hc%IH|Hc%list_elem_of_singleton]%elem_of_app; [by right|subst; by left]. }
  destruct (String.rev s) as [|c t] eqn:Hr; [done|]. apply Hb, Hrev. rewrite Hr. by left.
Qed.

Definition plain (s : string) : Prop := ∀ c, c ∈ list_ascii_of_string s → Ascii.is_space c = false ∧ c ≠ ","%char.

Lemma Split_Join ws : ws ≠ [] → (∀ w, w ∈ ws → plain w) → TrimSpace <$> Split (Join ws ", ") "," = ws.
Proof.
  assert (∀ w, plain w → TrimSpace w = w) as Hts by (intros w Hw; apply TrimSpace_black; intros c Hc; by apply Hw).
  induction ws as [|w ws IH]; [done|]. intros _ Hp. assert (plain w) as Hw by (apply Hp; by left).
  assert (","%char ∉ list_ascii_of_string w) as Hcomma by (intros Hc; by apply Hw in Hc as []).
  destruct ws as [|w' ws].
  - simpl. destruct (Split_app w "" "," Hcomma) as (x & xs & Hx & Hs). injection Hx as <- <-.
    rewrite string_app_nil_r in Hs. rewrite Hs. simpl. by rewrite Hts.
  - change (Join (w :: w' :: ws) ", ") with (w +:+ ", " +:+ Join (w' :: ws) ", ").
    destruct (Split_app w (", " +:+ Join (w' :: ws) ", ") "," Hcomma) as (x & xs & Hx & Hs). rewrite Hs.
    set (rest := Join (w' :: ws) ", ") in *. rewrite string_app_cons in Hx. cbn [Split] in Hx.
    rewrite decide_True in Hx by done. injection Hx as <- <-.
    rewrite string_app_nil_r, fmap_cons, Hts by done. f_equal.
    specialize (IH (ltac:(done)) (λ y Hy, Hp y (list_elem_of_further _ _ _ Hy))).
    rewrite string_app_nil_l. destruct (Split rest ",") as [|y ys]; [done|]. exact IH.
Qed.

#[export] Instance presence_laws : SelectorLaws.
Proof.
  split. intros rs Hne Hq. exists (seg_req <$> ((λ r, requirement r.1 r.2) <$> rs)).
  set (ws := (λ r, requirement r.1 r.2) <$> rs).
  assert (∀ r, r ∈ rs → r.2 ≠ "" ∧ seg_req (requirement r.1 r.2) = r) as Hreq.
  { intros [neg k] Hr. specialize (Hq _ Hr). simpl in *. destruct k as [|c k]; [done|]. split; [done|].
    destruct neg; unfold requirement; simpl; [done|]. destruct (decide (c = "!"%char)) as [->|]; [exfalso|done].
    apply (IsQualifiedName_chars _ "!"%char) in Hq as [Hx|Hx]; [done|done|by left]. }
  assert (∀ w, w ∈ ws → plain w) as Hplain.
  { intros w ([neg k] & -> & Hr)%list_elem_of_fmap. specialize (Hq _ Hr). simpl in *.
    assert (plain k) as Hk.
    { intros c Hc. destruct (IsQualifiedName_chars k c Hq Hc) as [Hi| ->]; [|done].
      revert Hi. clear. destruct c as [[][][][][][][][]]; vm_compute; done. }
    destruct neg; unfold requirement; [|done]. intros c [->|Hc]%elem_of_cons; [done|by apply Hk]. }
  assert (ws ≠ []) as Hws by (unfold ws; by destruct rs).
  assert (Join ws ", " ≠ "") as Hj.
  { intros Hj. pose proof (Split_Join ws Hws Hplain) as Hs. rewrite Hj in Hs. simpl in Hs.
    destruct rs as [|r [|]]; [done| |done]. unfold ws in Hs. simpl in Hs. injection Hs as Hs.
    destruct (Hreq r) as [Hr _]; [by left|]. destruct r as [[] [|c k]]; try done; by vm_compute in Hs. }
  assert (seg_req <$> ws = rs) as Hrs.
  { unfold ws. rewrite <- list_fmap_compose. rewrite <- (list_fmap_id rs) at 2. apply list_fmap_ext.
    intros i r Hr%list_elem_of_lookup_2. by apply Hreq. }
  split_and!.
  - simpl. rewrite decide_False by done. rewrite list_fmap_compose, Split_Join by done. done.
  - simpl. rewrite Hrs. apply bool_decide_eq_false. done.
  - intros ls. simpl. rewrite Hrs, forallb_forall. split.
    + intros Hall neg k Hin%list_elem_of_In%Hall. destruct neg; by apply bool_decide_eq_true in Hin.
    + intros Hall [neg k] Hin%list_elem_of_In%Hall. destruct neg; by apply bool_decide_eq_true.
Qed.

(** ** Concrete forests *)
Definition at_name (f : Forest) (nm : string) : loc := default 1%positive (f_namespaces f !! nm).
Definition known (nm : string) (f : Forest) : Forest :=
  let f := (Get nm f).2 in (SetExists (at_name f nm) f).2.
Definition child_of (nm pnm : string) (f : Forest) : Forest :=
  SetParent (at_name f nm) (Some (at_name f pnm)) f.

(** a; b under a; c under b; d under a; e a separate root. *)
Definition family : Forest :=
  child_of "d" "a" (child_of "c" "b" (child_of "b" "a"
    (known "e" (known "d" (known "c" (known "b" (known "a" NewForest))))))).

Lemma family_wf : wf family.
Proof. apply wf_check_sound. by vm_compute. Qed.

Lemma family_acyclic : acyclic (parent_name family).
Proof. apply acyclic_check_sound; [apply family_wf|by vm_compute]. Qed.

(** x, y and z form a cycle; w hangs below it. *)
Definition ring : Forest :=
  child_of "w" "z" (child_of "z" "y" (child_of "y" "x" (child_of "x" "z"
    (known "w" (known "z" (known "y" (known "x" NewForest))))))).

(** The same with the conditions the reconciler sets. *)
Definition halted_ring : Forest :=
  SetCondition 0 (at_name ring "y") ConditionActivitiesHalted ReasonInCycle "in a cycle" ring.

Lemma ring_wf : wf ring.
Proof. apply wf_check_sound. by vm_compute. Qed.

Lemma can_reparent_Some f l q qnm : ns_parent (deref f l) ≠ Some q → f_namespaces f !! qnm = Some q → can_reparent f l (Some q).
Proof. intros Hne Hq q' Heq. injection Heq as <-. eauto. Qed.
