(* ===== verification/ForestTheorems.v ===== *)
(** * Theorems on the forest, with concrete instances

    The properties of package internal/forest that its clients rely on, each
    followed by its application to a small forest. *)

From Stdlib Require Import String Ascii.
From S2P Require Import Prelude GoStrings Chains Validation Api Config Selectors Resources Forest ForestWf ForestWalks.
From S2P Require Import Quotas Sound World HierarchyReconciler HierarchyInvariant TestForests Instances.

Section theorems.
  Context `{RO : RangeOrder}.

(** C12. SetParent keeps the forest consistent: if the namespace exists (or is made a root) and the new parent is a
    namespace of the forest other than the present parent, then every name still leads to its object, parent pointers
    and child maps still mirror each other, the namespace has exactly the requested parent, and the parent of every
    other namespace is unchanged. *)
Theorem SetParent_keeps_structure f nm l p :
  wf f → f_namespaces f !! nm = Some l → can_reparent f l p → (p = None ∨ ns_exists (deref f l) = true) →
  wf (SetParent l p f) ∧
  ∀ x, parent_name (SetParent l p f) x = if decide (x = nm) then (λ q, ns_name (deref f q)) <$> p else parent_name f x.
Proof.
  intros Hwf Hl Hp Ho. pose proof (SetParent_reparented f nm l p Hwf Hl Hp) as Hr. split; [|apply (rp_parent _ _ _ _ Hr)].
  eapply reparented_wf; [done..|]. destruct Ho as [->|]; [by left|by right].
Qed.

(** AncestryNames returns, also in a forest with cycles: it lists exactly the namespaces that can be reached by
    following parents (the namespace itself included), ends with the namespace, and no name is listed twice unless the
    walk ran into a cycle, when only its first entry repeats. *)
Theorem AncestryNames_correct f nm l :
  wf f → f_namespaces f !! nm = Some l →
  (∀ x, x ∈ AncestryNames f (Some l) ↔ rtc (up (parent_name f)) nm x) ∧
  last (AncestryNames f (Some l)) = Some nm ∧
  (NoDup (AncestryNames f (Some l)) ∨ NoDup (tail (AncestryNames f (Some l)))).
Proof.
  intros Hwf Hl. split; [intros x; by apply (AncestryNames_elem f Hwf)|].
  destruct (AncestryNames_walk f Hwf nm l Hl) as (Hh & _ & Hend). rewrite head_reverse in Hh. split; [done|].
  destruct Hend as [[Hnd _]|(k & z & Hk & Hnd & _)]; [left|right].
  - rewrite <- (reverse_involutive (AncestryNames _ _)). by apply NoDup_reverse.
  - apply (f_equal reverse) in Hk. rewrite reverse_involutive, reverse_app in Hk. rewrite Hk. by apply NoDup_reverse.
Qed.

(** CycleNames is canonical: all the members of a cycle report the same list, which starts at the smallest name of
    the cycle, so that the condition messages of the members agree. *)
Theorem CycleNames_agree f nm l nm' l' :
  wf f → f_namespaces f !! nm = Some l → f_namespaces f !! nm' = Some l' →
  in_cycle (parent_name f) nm → rtc (up (parent_name f)) nm nm' →
  CycleNames f l = CycleNames f l' ∧
  ∃ s, head (CycleNames f l) = Some s ∧ ∀ x, rtc (up (parent_name f)) nm x → String.le s x.
Proof.
  intros Hwf Hl Hl' Hc Hr. split; [by apply (CycleNames_canonical f Hwf nm l nm' l')|].
  destruct (CycleNames_smallest f Hwf nm l Hl Hc) as (s & ls & Hs & Hrs & Hmin & ->). exists s. split; [|done].
  pose proof (in_cycle_reach _ _ _ Hc Hrs) as Hcs.
  destruct (AncestryNames_cycle f Hwf s ls Hs Hcs) as (c & -> & _). done.
Qed.

(** C13. CanSetParent is exact: in a forest without cycles, the change of parent keeps it free of cycles if and only if
    CanSetParent gives no objection. *)
Theorem CanSetParent_exact f nm l qnm q :
  wf f → f_namespaces f !! nm = Some l → f_namespaces f !! qnm = Some q → ns_parent (deref f l) ≠ Some q →
  acyclic (parent_name f) →
  acyclic (parent_name (SetParent l (Some q) f)) ↔ CanSetParent f l (Some q) = "".
Proof. apply SetParent_acyclic. Qed.

(** DescendantNames returns, also in a forest with cycles: it lists exactly the namespaces strictly below the given
    one, sorted and without repetition (so a namespace is its own descendant exactly on a cycle). *)
Theorem DescendantNames_correct f nm l :
  wf f → f_namespaces f !! nm = Some l →
  (∀ x, x ∈ DescendantNames f l ↔ tc (up (parent_name f)) x nm) ∧
  StronglySorted String.le (DescendantNames f l) ∧ NoDup (DescendantNames f l).
Proof.
  intros Hwf Hl. split; [intros x; by apply (DescendantNames_elem f Hwf)|]. apply DescendantNames_sorted.
Qed.

(** AllowsCascadingDeletion terminates on every namespace, also below or on a cycle, and answers true exactly if
    the flag is set on a namespace reached from it by steps from namespaces that are on no cycle. *)
Theorem AllowsCascadingDeletion_total f nm l :
  wf f → f_namespaces f !! nm = Some l →
  ∃ b, AllowsCascadingDeletion f l = Done b ∧ (b = true ↔ ∃ x, rtc (up_off_cycle f) nm x ∧ acd_name f x).
Proof. intros Hwf Hl. by apply (AllowsCascadingDeletion_terminates f Hwf). Qed.

(** GetHaltedRoot has no cycle check, but terminates as long as every cycle has a halted member, and returns the
    nearest halted namespace on the way up, or the empty string if there is none. *)
Theorem GetHaltedRoot_nearest f nm l :
  wf f → cycles_halted f → f_namespaces f !! nm = Some l →
  GetHaltedRoot f (Some l) = Done (default "" (snd <$> list_find (halted_name f) (reverse (AncestryNames f (Some l))))) .
Proof. intros Hwf Hc Hl. by apply (GetHaltedRoot_first f Hwf nm). Qed.

(** The builder of the forests of the unit tests is right: for every description of up to 256 characters it returns,
    the forest satisfies the invariant of the controllers (also if the description has cycles or parents that are
    missing), and each described namespace exists, with exactly the parent and the kind that its character says. *)
Theorem test_forests_as_described now desc : String.length desc ≤ 256 →
  ∃ f, Create now desc = Done f ∧ sound f ∧
    ∀ i c, list_ascii_of_string desc !! i = Some c →
      parent_name f (letter i) = parent_letter c ∧ ns_IsSub (ns_at f (letter i)) = is_subns c ∧ ns_exists (ns_at f (letter i)) = true.
Proof.
  intros Hlen. destruct (Create_spec now desc Hlen) as (f & E & Hf & Hd). exists f. split_and!; [done..|].
  intros i c Hc. specialize (Hd i c Hc). unfold view in Hd. by simplify_eq.
Qed.
End theorems.

(** ** Applications *)
Lemma SetParent_keeps_structure_witness :
  wf (SetParent (at_name family "c") (Some (at_name family "d")) family) ∧
  parent_name (SetParent (at_name family "c") (Some (at_name family "d")) family) "c" = Some "d".
Proof.
  destruct (SetParent_keeps_structure family "c" (at_name family "c") (Some (at_name family "d"))) as [Hw Hp].
  - apply family_wf.
  - by vm_compute.
  - apply (can_reparent_Some _ _ _ "d"); [by vm_compute|reflexivity].
  - right. by vm_compute.
  - split; [exact Hw|]. rewrite Hp. by vm_compute.
Defined.

Lemma AncestryNames_correct_witness :
  rtc (up (parent_name ring)) "w" "x" ∧ last (AncestryNames ring (f_namespaces ring !! "w")) = Some "w".
Proof.
  destruct (AncestryNames_correct ring "w" (at_name ring "w")) as (He & Hl & _); [apply ring_wf|by vm_compute|].
  split; [apply He|exact Hl]. apply (bool_decide_unpack _). by vm_compute.
Defined.

Lemma CycleNames_agree_witness : CycleNames ring (at_name ring "y") = CycleNames ring (at_name ring "z").
Proof.
  apply (CycleNames_agree ring "y" (at_name ring "y") "z" (at_name ring "z")); [apply ring_wf|reflexivity|reflexivity|..].
  - apply tc_l with "x"; [reflexivity|]. apply tc_l with "z"; [reflexivity|]. apply tc_once. reflexivity.
  - apply rtc_l with "x"; [reflexivity|]. apply rtc_once. reflexivity.
Defined.

Lemma CanSetParent_exact_witness :
  acyclic (parent_name (SetParent (at_name family "c") (Some (at_name family "d")) family)).
Proof.
  apply (CanSetParent_exact family "c" (at_name family "c") "d" (at_name family "d"));
    [apply family_wf|reflexivity|reflexivity|vm_compute; discriminate|apply family_acyclic|reflexivity].
Defined.

Lemma DescendantNames_correct_witness :
  tc (up (parent_name family)) "c" "a" ∧ StronglySorted String.le (DescendantNames family (at_name family "a")).
Proof.
  destruct (DescendantNames_correct family "a" (at_name family "a")) as (He & Hs & _); [apply family_wf|reflexivity|].
  split; [apply He|exact Hs]. apply list_elem_of_In. vm_compute. auto.
Defined.

Lemma AllowsCascadingDeletion_total_witness :
  ∃ b, AllowsCascadingDeletion ring (at_name ring "w") = Done b ∧
    (b = true ↔ ∃ x, rtc (up_off_cycle ring) "w" x ∧ acd_name ring x).
Proof. apply (AllowsCascadingDeletion_total ring "w" (at_name ring "w")); [apply ring_wf|reflexivity]. Defined.

Lemma halted_ring_wf : wf halted_ring.
Proof. apply wf_check_sound. by vm_compute. Qed.

Lemma GetHaltedRoot_nearest_witness : GetHaltedRoot halted_ring (Some (at_name ring "w")) = Done "y".
Proof.
  rewrite (GetHaltedRoot_nearest halted_ring "w"); [reflexivity|apply halted_ring_wf| |reflexivity].
  apply cycles_check_sound; [apply halted_ring_wf|by vm_compute].
Defined.

(** A cycle of a and b, c as a subnamespace of a, and d below a parent that does not exist. *)
Lemma test_forests_as_described_witness :
  ∃ f, Create 0 "baAz" = Done f ∧ sound f ∧ parent_name f "c" = Some "a" ∧ ns_IsSub (ns_at f "c") = true ∧ parent_name f "d" = Some "z".
Proof.
  destruct (test_forests_as_described 0 "baAz") as (f & E & Hf & Hd); [vm_compute; lia|].
  exists f. split; [exact E|]. split; [exact Hf|]. destruct (Hd 2 "A"%char eq_refl) as (Hp & Hs & _). destruct (Hd 3 "z"%char eq_refl) as (Hz & _).
  split; [exact Hp|]. split; [exact Hs|exact Hz].
Defined.
