(* ===== verification/HierarchyTheorems.v ===== *)
(** * Theorems on the hierarchy: its webhooks, its reconciler and its labels

    What the HierarchyConfiguration and Namespace webhooks admit, what the
    reconciler writes to the tree labels of a namespace and what tree selectors
    mean on them, each with an application to a small forest. *)

From Stdlib Require Import Ascii String.
From S2P Require Import Prelude GoStrings Chains Validation Api Config Selectors Resources Forest ForestWf ForestWalks.
From S2P Require Import ForestReads HierarchyValidator NamespaceWebhooks Sound World HierarchyReconciler.
From S2P Require Import HierarchyInvariant TreeLabels Endpoints Instances.

Section theorems.
  Context `{RO : RangeOrder} `{RX : RegexpLib} `{SL : SelectorLib} (cfg : Config).

(** A change of parent that the HierarchyConfiguration webhook admits for a user never closes a cycle: if the
    forest has none, the parent relation with the requested change has none either. *)
Theorem admitted_move_acyclic server req f resp f' : wf f → acyclic (parent_name f) →
  IsHNCServiceAccount cfg (Some (r_ui req)) = false →
  HierarchyValidator.handle cfg server req f = Done (resp, f') → Allowed resp = true →
  acyclic (moved f (om_Namespace (hc_Meta (r_hc req))) (hcs_Parent (hc_Spec (r_hc req)))).
Proof. apply moved_acyclic. Qed.

(** C6. A change of parent that the endpoint of the webhook admits was authorised by the API server.
    - A root, or a namespace whose old parent HNC does not manage: the server granted the user an access review for
      updating the HierarchyConfiguration of the new parent, if there is one, and nothing else was asked.
    - An old parent that HNC has not seen: no access review, but the server confirmed that it does not exist.
    - An old parent that exists and is managed: the server granted the review for a namespace at or above it.  If the
      forest has no cycle of parents, that is the root of the old tree if the namespace becomes a root; else the most
      recent common ancestor of both parents or, if they are in different trees, both the root of the old tree and the
      new parent.
    A configuration that leaves the parent as it is needs no review; users other than HNC itself are meant. *)
Theorem admitted_move_authorised dec getNamespace createReview ad hc f resp f' : wf f →
  IsHNCServiceAccount cfg (Some (ad_UserInfo ad)) = false → dec_HC dec (ad_Object ad) = inr hc →
  Handle_hierarchy cfg dec (realClient getNamespace createReview) ad f = Done (resp, f') → Allowed resp = true →
  let granted nm := createReview (review (ad_UserInfo ad) nm) = (true, None) in
  let above := rtc (up (parent_name f)) in
  let old := parent_name f (om_Namespace (hc_Meta hc)) in
  let new := as_parent (hcs_Parent (hc_Spec hc)) in
  let into := match new with Some p => granted p | None => True end in
  old = new ∨
  match old with
  | None => into
  | Some q =>
      if negb (IsManagedNamespace cfg q) then into
      else if negb (exists_in f q) then getNamespace q = NotFound
      else
        (∃ m, granted m ∧ above q m) ∧
        (acyclic (parent_name f) →
          match new with
          | None => ∃ root, granted root ∧ above q root ∧ parent_name f root = None
          | Some p =>
              (∃ m, granted m ∧ above q m ∧ above p m ∧ ∀ c, above q c → above p c → above m c) ∨
              (∃ root, granted root ∧ granted p ∧ above q root ∧ parent_name f root = None ∧ ∀ c, ¬ (above q c ∧ above p c))
          end)
  end.
Proof.
  intros Hwf Hsa Hdec Hh Ha granted above old new into. unfold Handle_hierarchy, decode_hierarchy in Hh. rewrite Hdec in Hh.
  pose proof (handle_authorised cfg (realClient getNamespace createReview) {| r_hc := hc; r_ui := ad_UserInfo ad |} f resp f' Hwf Hsa Hh Ha)
    as [|Hau]; [by left|right]. simpl in Hau. fold old new in Hau.
  assert (∀ nm, sc_IsAdmin (realClient getNamespace createReview) (ad_UserInfo ad) nm = inr true ↔ granted nm) as Hg
    by (intros; apply client_IsAdmin_true).
  unfold authorised, approved in Hau. unfold into.
  destruct old as [q|], new as [p|]; try destruct (IsManagedNamespace cfg q), (exists_in f q); cbn [negb] in *; try done;
    first [apply (client_Exists_false getNamespace createReview), Hau | by setoid_rewrite Hg in Hau].
Qed.

(** The webhook does not loop, also when the forest has cycles (as long as each has a halted member), and it only
    reads the forest: all that an answer leaves behind are entries for names that were looked up. *)
Theorem hierarchy_webhook_reads server req f : sound f →
  HierarchyValidator.handle cfg server req f ≠ Diverges ∧
  ∀ resp f', HierarchyValidator.handle cfg server req f = Done (resp, f') → extends f f'.
Proof. intros [Hwf Hc]. split; [by apply handle_answers|]. intros resp f'. by apply handle_reads. Qed.

(** C25. The tree labels that syncLabels writes are exactly the ancestors with their distance: if no namespace on the
    way up is external, halted or on a cycle, a key with the suffix of tree labels has the value v in the new object if
    and only if it is the key of the i-th ancestor (the namespace itself being the 0-th) and v is i. *)
Theorem tree_labels_are_ancestors now inst nsInst ns nm w nsInst' w' :
  wf (w_forest w) → f_namespaces (w_forest w) !! nm = Some ns →
  (∀ k, IsManagedLabel cfg k = true → HasSuffix k LabelTreeDepthSuffix = false) →
  (∀ y, rtc (up (parent_name (w_forest w))) nm y → passes (w_forest w) y ∧ ¬ in_cycle (parent_name (w_forest w)) y) →
  syncLabels cfg now inst nsInst ns w = Done (nsInst', w') →
  ∀ k v, HasSuffix k LabelTreeDepthSuffix = true →
    items (ns_Labels nsInst') !! k = Some v ↔
    ∃ i y, reverse (AncestryNames (w_forest w) (Some ns)) !! i = Some y ∧ k = tree_key y ∧ v = Itoa i.
Proof. intros. by eapply syncLabels_exact. Qed.

(** C26. The tree labels that syncLabels writes are legal: under the same conditions, if the namespaces on the way up have
    legal names (fewer than 10^63 of them), every tree label of the new object has a legal label key and a legal label
    value, so that the API server does not reject the object because of them. *)
Theorem tree_labels_well_formed now inst nsInst ns nm w nsInst' w' :
  wf (w_forest w) → f_namespaces (w_forest w) !! nm = Some ns →
  (∀ k, IsManagedLabel cfg k = true → HasSuffix k LabelTreeDepthSuffix = false) →
  (∀ y, rtc (up (parent_name (w_forest w))) nm y → passes (w_forest w) y ∧ ¬ in_cycle (parent_name (w_forest w)) y) →
  (∀ y, rtc (up (parent_name (w_forest w))) nm y → IsDNS1123Label y = []) →
  (N.of_nat (length (AncestryNames (w_forest w) (Some ns))) < 10 ^ 63)%N →
  syncLabels cfg now inst nsInst ns w = Done (nsInst', w') →
  ∀ k v, HasSuffix k LabelTreeDepthSuffix = true → items (ns_Labels nsInst') !! k = Some v →
    IsQualifiedName k = [] ∧ IsValidLabelValue v = [].
Proof.
  intros Hwf Hl Hm Hp Hd Hn Hs k v Hk Hv. eapply syncLabels_exact in Hv as (i & y & Hi & -> & ->); [|done..].
  assert (y ∈ AncestryNames (w_forest w) (Some ns)) as Hy by (apply elem_of_reverse; by eapply list_elem_of_lookup_2).
  split; [apply tree_key_qualified, Hd; by apply (AncestryNames_elem _ Hwf nm ns y Hl)|].
  apply Itoa_label_value. apply lookup_lt_Some in Hi. rewrite length_reverse in Hi. lia.
Qed.

(** C27. Tree labels are a round trip: under the same conditions, reading the written labels back with GetTreeLabels gives
    every ancestor with its distance as a number, as long as the number of ancestors is within 64 bits. *)
Theorem tree_labels_roundtrip now inst nsInst ns nm w nsInst' w' n i y :
  wf (w_forest w) → f_namespaces (w_forest w) !! nm = Some ns →
  (∀ k, IsManagedLabel cfg k = true → HasSuffix k LabelTreeDepthSuffix = false) →
  (∀ y, rtc (up (parent_name (w_forest w))) nm y → passes (w_forest w) y ∧ ¬ in_cycle (parent_name (w_forest w)) y) →
  syncLabels cfg now inst nsInst ns w = Done (nsInst', w') →
  (Z.of_nat (length (AncestryNames (w_forest w) (Some ns))) ≤ int64_max)%Z →
  reverse (AncestryNames (w_forest w) (Some ns)) !! i = Some y →
  GetTreeLabels (set_labels (ns_Labels nsInst') n) !! tree_key y = Some (Z.of_nat i).
Proof.
  intros Hwf Hl Hm Hp Hs Hb Hi. unfold GetTreeLabels. rewrite map_lookup_imap. simpl.
  assert (items (ns_Labels nsInst') !! tree_key y = Some (Itoa i)) as ->.
  { eapply syncLabels_exact; [done..|apply HasSuffix_app|eauto]. }
  simpl. assert (Contains (tree_key y) LabelTreeDepthSuffix = true) as ->.
  { apply Contains_spec. exists y, "". by rewrite string_app_nil_r. }
  f_equal. apply Atoi_Itoa. apply lookup_lt_Some in Hi. rewrite length_reverse in Hi. lia.
Qed.

(** C28. A tree selector with legal segments parses, and on a namespace that carries the tree labels of exactly its
    ancestors it selects as documented: the namespace is in the subtree of the positive segment and in the subtree of
    none of the negated ones. *)
Theorem tree_selector_selects_subtrees `{LW : !SelectorLaws} inst segs f nm (ls : gmap string string) :
  GetTreeSelectorAnnotation inst ≠ "" → Split (GetTreeSelectorAnnotation inst) "," = segs →
  (∀ seg, seg ∈ segs → segment_ok seg) →
  length (filter (λ seg, negated seg = false) (TrimSpace <$> segs)) ≤ 1 →
  (∀ y, is_Some (ls !! tree_key y) ↔ rtc (up (parent_name f)) nm y) →
  ∃ s, GetTreeSelector inst = mret (Some s) ∧ Empty s = false ∧
    (Matches s ls = true ↔ ∀ seg, seg ∈ segs →
      let '(neg, y) := seg_req (TrimSpace seg) in
      if (neg : bool) then ¬ rtc (up (parent_name f)) nm y else rtc (up (parent_name f)) nm y).
Proof.
  intros Hne Hs Hok Hnon Hls. destruct (GetTreeSelector_meaning inst segs Hne Hs Hok Hnon) as (s & Hg & He & Hm).
  exists s. split_and!; [done..|]. rewrite Hm. apply forall_proper. intros seg. apply imp_iff. intros _.
  destruct (seg_req (TrimSpace seg)) as [[] y]; rewrite <- Hls; [|done]. unfold tree_key. apply eq_None_not_Some.
Qed.

(** ShouldPropagate decides as the four exception annotations and the mode say: both selectors must select the
    labels, the object must not be excluded or marked as "none", and propagation must be the default of the mode or be
    asked for by a restricting selector or by "all". *)
Theorem ShouldPropagate_decides inst ls mode sel tree none all :
  GetSelector inst = mret sel → GetTreeSelector inst = mret tree →
  GetNoneSelector inst = mret none → GetAllSelector inst = mret all →
  ShouldPropagate cfg inst ls mode = mret (decision cfg inst ls mode sel tree none all).
Proof. apply ShouldPropagate_decision. Qed.

(** C36. The namespace webhook admits the deletion of a namespace exactly if no anchor in the parent it names claims it
    and cascading deletion is allowed or none of its children is a subnamespace. *)
Theorem namespace_deletion_decision req f l :
  wf f → nr_op req = Delete → f_namespaces f !! name_of (nr_ns req) = Some l →
  ∃ resp f', NamespaceWebhooks.handle cfg req f = Done (resp, f') ∧ extends f f' ∧
    (Allowed resp = true ↔
      (sget (annotations_of (nr_ns req)) SubnamespaceOf = "" ∨
       HasAnchor (ns_at f (sget (annotations_of (nr_ns req)) SubnamespaceOf)) (name_of (nr_ns req)) = false) ∧
      (AllowsCascadingDeletion f l = Done true ∨
       ∀ c, parent_name f c = Some (name_of (nr_ns req)) → ns_IsSub (ns_at f c) = false)).
Proof. apply delete_decision. Qed.

(** The tree labels that the namespace webhook protects from users: the request passes exactly if no tree label
    differs between the old and the new object, with the one exception that a new label with an empty value passes. *)
Theorem tree_labels_protected req : Allowed (illegalTreeLabel req) = true ↔
  ∀ key, Contains key LabelTreeDepthSuffix = true →
    labels_of (nr_ns req) !! key = old_labels req !! key ∨
    (old_labels req !! key = None ∧ labels_of (nr_ns req) !! key = Some "").
Proof. apply illegalTreeLabel_allowed. Qed.

(** The check that reserves the names of external hierarchies never rejects: the keys it compares a namespace name
    with end in the suffix of tree labels, which no legal name contains. *)
Theorem external_names_not_reserved req f : IsDNS1123Label (name_of (nr_ns req)) = [] →
  nameExistsInExternalHierarchy req f = Done (Allow "", f).
Proof. apply nameExists_never. Qed.
End theorems.

(** ** Applications *)
Definition quiet_config : Config := SetHNCNamespace "hnc-system" zeroConfig.
Definition all_admin : serverClient := {| sc_Exists _ := inr true; sc_IsAdmin _ _ := inr true |}.
Definition user : UserInfo := {| ui_Username := "user"; ui_UID := "1"; ui_Groups := []; ui_Extra := ∅ |}.
Definition hierarchy_of (nm parent : string) : HierarchyConfiguration :=
  {| hc_Meta := set_om_NamespacedName nm Singleton blankMeta;
     hc_Spec := {| hcs_Parent := parent; hcs_AllowCascadingDeletion := false; hcs_Labels := []; hcs_Annotations := [] |};
     hc_Status := {| hct_Children := []; hct_Conditions := [] |} |}.

(** The user asks to move c from b to d. *)
Definition move_c : request := {| r_hc := hierarchy_of "c" "d"; r_ui := user |}.

Lemma admitted_move_acyclic_witness : acyclic (moved family "c" "d").
Proof.
  apply (admitted_move_acyclic quiet_config all_admin move_c family (Allow "") family);
    [apply family_wf|apply family_acyclic|reflexivity|by vm_compute|reflexivity].
Defined.

(** The same move as a request: the document is the name of the configuration. *)
Definition plain_decoder : decoder :=
  {| dec_HC s := if decide (s = "move c") then inr (r_hc move_c) else inl "cannot decode";
     dec_Anchor _ := inl ""; dec_Namespace _ := inl ""; dec_Object _ := inl "" |}.
Definition request_move : admissionRequest :=
  {| ad_Name := Singleton; ad_Namespace := "c"; ad_Operation := Update; ad_UserInfo := user; ad_Object := "move c"; ad_OldObject := "";
     ad_Kind := mkGVK "hnc.x-k8s.io" "v1alpha2" "HierarchyConfiguration"; ad_Resource := HierarchyConfigurationGR |}.
(** The user may update the configuration of a only. *)
Definition admin_of_a (r : SubjectAccessReview) : bool * option string := (bool_decide (sar_Namespace r = "a"), None).

Lemma admitted_move_authorised_witness :
  let granted nm := admin_of_a (review user nm) = (true, None) in
  let above := rtc (up (parent_name family)) in
  (∃ m, granted m ∧ above "b" m ∧ above "d" m ∧ ∀ c, above "b" c → above "d" c → above m c) ∨
  (∃ root, granted root ∧ granted "d" ∧ above "b" root ∧ parent_name family root = None ∧ ∀ c, ¬ (above "b" c ∧ above "d" c)).
Proof.
  assert (parent_name family "c" = Some "b") as Hb by (by vm_compute). assert (exists_in family "b" = true) as He by (by vm_compute).
  assert (IsManagedNamespace quiet_config "b" = true) as Hm by (by vm_compute).
  destruct (admitted_move_authorised quiet_config plain_decoder (λ _, NotFound) admin_of_a request_move (r_hc move_c) family (Allow "") family)
    as [Heq|Hau].
  - apply family_wf.
  - reflexivity.
  - reflexivity.
  - by vm_compute.
  - reflexivity.
  - change (parent_name family "c" = Some "d") in Heq. congruence.
  - change (om_Namespace (hc_Meta (r_hc move_c))) with "c" in Hau. rewrite Hb in Hau. cbv beta iota zeta in Hau. rewrite Hm, He in Hau.
    exact (proj2 Hau family_acyclic).
Defined.

Lemma hierarchy_webhook_reads_witness : HierarchyValidator.handle quiet_config all_admin move_c family ≠ Diverges.
Proof.
  apply hierarchy_webhook_reads. split; [apply family_wf|]. apply acyclic_cycles_halted, family_acyclic.
Defined.

Definition plain_ns (nm : string) : K8sNamespace := {| kn_Meta := meta_named nm |}.

Lemma family_names y : rtc (up (parent_name family)) "c" y → y = "c" ∨ y = "b" ∨ y = "a".
Proof.
  intros Hy. apply (AncestryNames_elem family family_wf "c" (at_name family "c") y) in Hy; [|reflexivity].
  replace (AncestryNames _ _) with ["a"; "b"; "c"] in Hy by (by vm_compute). rewrite !elem_of_cons, elem_of_nil in Hy. tauto.
Qed.

Definition passes_check (f : Forest) (y : string) : bool :=
  negb (IsExternal (ns_at f y)) && negb (bool_decide (halted_name f y)) && bool_decide (ns_ManagedLabels (ns_at f y) = None).

Lemma passes_check_sound f y : passes_check f y = true → passes f y.
Proof.
  unfold passes_check. rewrite !andb_true_iff, !negb_true_iff, bool_decide_eq_true, bool_decide_eq_false. intros ((? & ?) & Hm).
  split_and!; [done..|]. intros k _. rewrite Hm. apply lookup_empty.
Qed.

Lemma family_passes y : rtc (up (parent_name family)) "c" y → passes family y.
Proof.
  intros Hy. apply passes_check_sound. apply family_names in Hy as [->|[->| ->]].
  - by vm_compute.
  - by vm_compute.
  - by vm_compute.
Qed.

Lemma tree_labels_are_ancestors_witness :
  ∃ i' w', syncLabels quiet_config 0 (hierarchy_of "c" "b") (plain_ns "c") (at_name family "c") (mkWorld family []) = Done (i', w') ∧
    items (ns_Labels i') !! "a.tree.hnc.x-k8s.io/depth" = Some "2".
Proof.
  destruct (syncLabels quiet_config 0 (hierarchy_of "c" "b") (plain_ns "c") (at_name family "c") (mkWorld family []))
    as [[i' w']| |] eqn:H; [|by vm_compute in H..].
  exists i', w'. split; [reflexivity|].
  apply (tree_labels_are_ancestors quiet_config 0 (hierarchy_of "c" "b") (plain_ns "c") (at_name family "c") "c" (mkWorld family []) i' w').
  - apply family_wf.
  - reflexivity.
  - intros k Hk. by vm_compute in Hk.
  - cbn [w_forest]. intros y Hy. split; [exact (family_passes y Hy)|apply family_acyclic].
  - exact H.
  - reflexivity.
  - exists 2, "a". split_and!; vm_compute; reflexivity.
Defined.

Lemma tree_labels_well_formed_witness :
  ∃ i' w', syncLabels quiet_config 0 (hierarchy_of "c" "b") (plain_ns "c") (at_name family "c") (mkWorld family []) = Done (i', w') ∧
    ∀ k v, HasSuffix k LabelTreeDepthSuffix = true → items (ns_Labels i') !! k = Some v → IsQualifiedName k = [] ∧ IsValidLabelValue v = [].
Proof.
  destruct (syncLabels quiet_config 0 (hierarchy_of "c" "b") (plain_ns "c") (at_name family "c") (mkWorld family []))
    as [[i' w']| |] eqn:H; [|by vm_compute in H..].
  exists i', w'. split; [reflexivity|].
  apply (tree_labels_well_formed quiet_config 0 (hierarchy_of "c" "b") (plain_ns "c") (at_name family "c") "c" (mkWorld family []) i' w').
  - apply family_wf.
  - reflexivity.
  - intros k Hk. by vm_compute in Hk.
  - cbn [w_forest]. intros y Hy. split; [exact (family_passes y Hy)|apply family_acyclic].
  - cbn [w_forest]. intros y Hy. destruct (family_names y Hy) as [->|[->| ->]]; vm_compute; reflexivity.
  - vm_compute. reflexivity.
  - exact H.
Defined.

Lemma tree_labels_roundtrip_witness :
  ∃ i' w', syncLabels quiet_config 0 (hierarchy_of "c" "b") (plain_ns "c") (at_name family "c") (mkWorld family []) = Done (i', w') ∧
    GetTreeLabels (set_labels (ns_Labels i') (newNamespace "c")) !! tree_key "a" = Some 2%Z.
Proof.
  destruct (syncLabels quiet_config 0 (hierarchy_of "c" "b") (plain_ns "c") (at_name family "c") (mkWorld family []))
    as [[i' w']| |] eqn:H; [|by vm_compute in H..].
  exists i', w'. split; [reflexivity|].
  apply (tree_labels_roundtrip quiet_config 0 (hierarchy_of "c" "b") (plain_ns "c") (at_name family "c") "c" (mkWorld family []) i' w' _ 2 "a").
  - apply family_wf.
  - reflexivity.
  - intros k Hk. by vm_compute in Hk.
  - cbn [w_forest]. intros y Hy. split; [exact (family_passes y Hy)|apply family_acyclic].
  - exact H.
  - vm_compute. discriminate.
  - vm_compute. reflexivity.
Defined.

(** A secret for the tree of a, except the tree of c. *)
Definition tree_secret : Unstructured :=
  mkObj (mkGVK "" "v1" "Secret")
    (set_om_Annotations (Some {[AnnotationTreeSelector := "a, !c"]}) (set_om_NamespacedName "a" "creds" blankMeta)) None ∅.

Definition labels_of_b : gmap string string := {["b.tree.hnc.x-k8s.io/depth" := "0"; "a.tree.hnc.x-k8s.io/depth" := "1"]}.

Lemma labels_of_b_spec y : is_Some (labels_of_b !! tree_key y) ↔ rtc (up (parent_name family)) "b" y.
Proof.
  rewrite <- (AncestryNames_elem family family_wf "b" (at_name family "b") y) by reflexivity.
  replace (AncestryNames _ _) with ["a"; "b"] by (by vm_compute).
  rewrite !elem_of_cons, elem_of_nil. unfold labels_of_b. split.
  - intros [v Hv]. rewrite lookup_insert_Some, lookup_singleton_Some in Hv.
    assert (∀ x, x +:+ LabelTreeDepthSuffix = tree_key y → y = x) as Hinj.
    { intros x Hx. symmetry. by apply string_app_inj_r in Hx. }
    destruct Hv as [[Hk _]|[_ [Hk _]]]; [right; left; by apply (Hinj "b")|left; by apply (Hinj "a")].
  - intros [->|[->|[]]]; vm_compute; eauto.
Qed.

Lemma tree_selector_selects_subtrees_witness :
  ∃ s, GetTreeSelector tree_secret = mret (Some s) ∧ Matches s labels_of_b = true.
Proof.
  destruct (tree_selector_selects_subtrees tree_secret ["a"; " !c"] family "b" labels_of_b) as (s & Hg & _ & Hm).
  - by vm_compute.
  - by vm_compute.
  - intros seg Hs. rewrite !elem_of_cons, elem_of_nil in Hs. destruct Hs as [->|[->|[]]]; vm_compute; reflexivity.
  - vm_compute. lia.
  - apply labels_of_b_spec.
  - exists s. split; [exact Hg|]. apply Hm. intros seg Hs. rewrite !elem_of_cons, elem_of_nil in Hs.
    destruct Hs as [->|[->|[]]]; simpl; rewrite <- labels_of_b_spec; vm_compute; [eauto|by intros []].
Defined.

(** Its two selectors, parsed: the first restricts nothing. *)
Definition secret_selectors : Selector * Selector :=
  ([], [(false, "a.tree.hnc.x-k8s.io/depth"); (true, "c.tree.hnc.x-k8s.io/depth")]).

Lemma ShouldPropagate_decides_witness : ShouldPropagate quiet_config tree_secret labels_of_b AllowPropagate = mret true.
Proof.
  rewrite (ShouldPropagate_decides quiet_config tree_secret labels_of_b AllowPropagate (Some secret_selectors.1)
    (Some secret_selectors.2) false false); vm_compute; reflexivity.
Defined.

Lemma namespace_deletion_decision_witness :
  ∃ resp f', NamespaceWebhooks.handle quiet_config {| nr_ns := plain_ns "c"; nr_oldns := None; nr_op := Delete |} family = Done (resp, f') ∧
    Allowed resp = true.
Proof.
  destruct (namespace_deletion_decision quiet_config {| nr_ns := plain_ns "c"; nr_oldns := None; nr_op := Delete |} family (at_name family "c"))
    as (resp & f' & H & _ & Hd); [apply family_wf|reflexivity|reflexivity|].
  exists resp, f'. split; [exact H|]. apply Hd. split; [by left|]. right. intros c Hc.
  exfalso. apply (ChildNames_elem family family_wf "c" (at_name family "c") c) in Hc; [|reflexivity].
  replace (ChildNames _) with (@nil string) in Hc by (by vm_compute). by apply elem_of_nil in Hc.
Defined.

Lemma external_names_not_reserved_witness :
  nameExistsInExternalHierarchy {| nr_ns := plain_ns "c"; nr_oldns := None; nr_op := Create |} family = Done (Allow "", family).
Proof. apply external_names_not_reserved. by vm_compute. Defined.
