(* ===== verification/QuotaTheorems.v ===== *)
(** * Theorems on hierarchical quotas, with concrete instances *)

From S2P Require Import Prelude GoStrings Chains Validation Api Config Selectors Resources Forest ForestWf ForestWalks.
From S2P Require Import Quotas Sound World HierarchyReconciler HierarchyInvariant Instances.

Section theorems.
  Context `{RO : RangeOrder}.

(** The limit on a resource in a namespace is the strictest one set by any HierarchicalResourceQuota of any of its
    ancestors (itself included), and a resource has a limit exactly if one of these quotas names it. *)
Theorem Limits_strictest f l r v : items (Limits f l) !! r = Some v ↔
  (∃ a hrq lm, a ∈ AncestryNames f (Some l) ∧ limits_of (ns_at f a) !! hrq = Some lm ∧ items lm !! r = Some v) ∧
  ∀ a hrq lm v', a ∈ AncestryNames f (Some l) → limits_of (ns_at f a) !! hrq = Some lm →
    items lm !! r = Some v' → (v ≤ v')%Z.
Proof. apply Limits_spec. Qed.

(** C10. A request that TryUseResources admits leaves every resource that it increases, and that the ancestor's subtree
    usage tracks, within every limit of every quota of every ancestor that is not on a cycle of parents.  An ancestor on a
    cycle can be listed, checked and charged twice for one request: there the usage is above the limit by no more than
    the increase that the request asks for (and it can be, see cycle_exceeds_limit). *)
Theorem TryUseResources_admits_within_limits f nm l u f' :
  wf f → f_namespaces f !! nm = Some l → TryUseResources l u f = (None, f') →
  ∀ a hrq lm r lim, a ∈ AncestryNames f (Some l) → limits_of (ns_at f a) !! hrq = Some lm →
    items lm !! r = Some lim → (qty (local_of (deref f l)) r < qty u r)%Z →
    is_Some (items (subtree_of (ns_at f a)) !! r) →
    (qty (subtree_of (ns_at f' a)) r ≤ lim)%Z ∨
    in_cycle (parent_name f) a ∧ (qty (subtree_of (ns_at f' a)) r ≤ lim + (qty u r - qty (local_of (deref f l)) r))%Z.
Proof. apply TryUseResources_within. Qed.

(** C31. A request that TryUseResources rejects changes nothing, and the error names a quota of an ancestor with at
    least one resource whose usage in that subtree, after the request, would be above the limit of that quota. *)
Theorem TryUseResources_rejects_with_reason f l u err f' :
  TryUseResources l u f = (Some err, f') →
  f' = f ∧ ∃ a lm, a ∈ AncestryNames f (Some l) ∧ qe_ns err = ns_name (ns_at f a) ∧
    limits_of (ns_at f a) !! qe_hrq err = Some lm ∧ (qe_exceeded err).*1 ≠ [] ∧
    ∀ r, r ∈ (qe_exceeded err).*1 → ∃ v, items lm !! r = Some v ∧
      (v < qty (subtree_of (ns_at f a)) r + (qty u r - qty (local_of (deref f l)) r))%Z.
Proof.
  unfold TryUseResources. destruct (canUseResources f l u) as [e|] eqn:Hc; [|done]. intros [= <- <-].
  split; [done|]. exact (canUseResources_exceeds f l u e Hc).
Qed.

(** C29. UseResources keeps the books: if the subtree usage of every namespace is the total of the local usages below
    it (for the resources limited there), the same holds after any update of the usage of any namespace. *)
Theorem UseResources_keeps_totals f nm l u :
  wf f → f_namespaces f !! nm = Some l → accounted f → accounted (UseResources l u f).
Proof. apply UseResources_accounted. Qed.

(** C30. RectifySubtreeUsages restores the books from any state: afterwards every stored subtree usage is the total of
    the local usages below it, and a second run finds nothing to update. *)
Theorem RectifySubtreeUsages_restores f :
  wf f → accounted (RectifySubtreeUsages f).2 ∧
  RectifySubtreeUsages (RectifySubtreeUsages f).2 = ([], (RectifySubtreeUsages f).2).
Proof. intros Hwf. split; [by apply RectifySubtreeUsages_accounted|by apply RectifySubtreeUsages_idempotent]. Qed.
End theorems.

(** ** Applications *)
Definition pods (n : Z) : ResourceList := Some {["pods" := n]}.
Definition limited (nm hrq : string) (n : Z) (f : Forest) : Forest := (UpdateLimits (at_name f nm) hrq (pods n) f).2.
Definition consuming (nm : string) (n : Z) (f : Forest) : Forest := UseResources (at_name f nm) (pods n) f.

(** Ten pods for the tree of a, five for the tree of b; two are used in c. *)
Definition budget : Forest := consuming "c" 2 (limited "b" "qb" 5 (limited "a" "qa" 10 family)).

Lemma budget_wf : wf budget.
Proof. apply wf_check_sound. by vm_compute. Qed.

Definition accounted_check (f : Forest) : bool :=
  bool_decide (map_Forall (λ a la, map_Forall (λ r _, qty (subtree_of (deref f la)) r = subtree_total f a r)
    (items (Limits f la))) (f_namespaces f)).

Lemma accounted_check_spec f : accounted_check f = true ↔ accounted f.
Proof.
  unfold accounted_check. rewrite bool_decide_eq_true. split.
  - intros Hc a la r Ha [v Hv]. exact (Hc a la Ha r v Hv).
  - intros Hc a la Ha r v Hv. by apply Hc.
Qed.

Lemma fst_None {A B} (p : option A * B) : p.1 = None → p = (None, p.2).
Proof. destruct p. simpl. by intros ->. Qed.

Lemma budget_acyclic : acyclic (parent_name budget).
Proof. apply acyclic_check_sound; [apply budget_wf|by vm_compute]. Qed.

Lemma TryUseResources_admits_within_limits_witness :
  (qty (subtree_of (ns_at (TryUseResources (at_name family "c") (pods 4) budget).2 "b")) "pods" ≤ 5)%Z.
Proof.
  destruct (TryUseResources_admits_within_limits budget "c" (at_name family "c") (pods 4)
    (TryUseResources (at_name family "c") (pods 4) budget).2) with (a := "b") (hrq := "qb") (lm := pods 5) (r := "pods") (lim := 5%Z)
    as [H|[Hc _]].
  - apply budget_wf.
  - reflexivity.
  - apply fst_None. by vm_compute.
  - apply list_elem_of_In. vm_compute. auto.
  - reflexivity.
  - reflexivity.
  - by vm_compute.
  - exists 2%Z. reflexivity.
  - exact H.
  - destruct (budget_acyclic "b" Hc).
Defined.

(** A cycle of a and b with a limit of ten pods on a: b asks for six, which is admitted, and twelve are charged. *)
Definition crossing : Forest := SetParent (at_name family "b") (Some (at_name family "a")) (SetParent (at_name family "a") (Some (at_name family "b")) family).
Definition looped_budget : Forest := limited "a" "qa" 10 crossing.

(** On a cycle of parents a request can be admitted that puts the subtree usage above the limit: the ancestor on the
    cycle is checked once for the increase but charged twice. *)
Theorem cycle_exceeds_limit :
  let '(err, f') := TryUseResources (at_name family "a") (pods 6) looped_budget in
  err = None ∧ qty (subtree_of (ns_at f' "a")) "pods" = 12%Z ∧ in_cycle (parent_name looped_budget) "a".
Proof.
  cbv zeta. destruct (TryUseResources _ _ _) as [err f'] eqn:Heq. vm_compute in Heq. injection Heq as <- <-.
  split_and!; [done|by vm_compute|]. apply tc_l with "b"; [by vm_compute|]. apply tc_once. by vm_compute.
Qed.

Lemma TryUseResources_rejects_with_reason_witness :
  ∃ a lm, a ∈ AncestryNames budget (Some (at_name family "c")) ∧ limits_of (ns_at budget a) !! "qb" = Some lm.
Proof.
  destruct (TryUseResources_rejects_with_reason budget (at_name family "c") (pods 6)
    {| qe_ns := "b"; qe_hrq := "qb"; qe_exceeded := [("pods", (4, 2, 5)%Z)] |} budget) as (_ & a & lm & Ha & _ & Hl & _).
  - vm_compute. reflexivity.
  - exists a, lm. split; [exact Ha|exact Hl].
Defined.

Lemma UseResources_keeps_totals_witness : accounted (UseResources (at_name family "d") (pods 3) budget).
Proof.
  apply (UseResources_keeps_totals budget "d"); [apply budget_wf|reflexivity|]. apply accounted_check_spec. by vm_compute.
Defined.

Lemma RectifySubtreeUsages_restores_witness : accounted (RectifySubtreeUsages budget).2.
Proof. apply (RectifySubtreeUsages_restores budget), budget_wf. Defined.

(** ** Moving a subtree

    SetParent moves the usage of the namespace itself and not that of its
    descendants.  Here b moves from a to e, two pods are in use in c below b, and
    the books of e miss them until the next rectification. *)
Definition moving : Forest := limited "e" "qe" 10 budget.
Definition moved_subtree : Forest := SetParent (at_name family "b") (Some (at_name family "e")) moving.

(** SetParent does not keep the books when the namespace has descendants with usages: there is a consistent forest
    in which every subtree usage is the total of the usages below it, and after moving a namespace with a child they are
    not; RectifySubtreeUsages then repairs them. *)
Theorem SetParent_breaks_totals :
  wf moving ∧ accounted moving ∧ ¬ accounted moved_subtree ∧
  qty (subtree_of (ns_at moved_subtree "e")) "pods" = 0%Z ∧ subtree_total moved_subtree "e" "pods" = 2%Z ∧
  accounted (RectifySubtreeUsages moved_subtree).2.
Proof.
  assert (wf moving) as Hwf by (apply wf_check_sound; by vm_compute). split_and!; [done|..].
  - apply accounted_check_spec. by vm_compute.
  - rewrite <- accounted_check_spec. by vm_compute.
  - by vm_compute.
  - by vm_compute.
  - apply RectifySubtreeUsages_accounted, wf_check_sound. by vm_compute.
Qed.
