(* ===== verification/AnchorTheorems.v ===== *)
(** * Theorems on subnamespace anchors, with concrete instances

    The life of an anchor: its admission, its reconciliation while it is live, and
    the two steps of its deletion. *)

From S2P Require Import Prelude GoStrings Chains Validation Api Config Selectors Resources Forest ForestWf ForestWalks ForestReads.
From S2P Require Import Sound World Anchor Instances.

Section theorems.
  Context `{RO : RangeOrder} `{RX : RegexpLib} (cfg : Config).

(** A user may create an anchor exactly if its name is a legal namespace name, its managed labels and annotations
    are legal, both namespaces are managed by HNC, and the subnamespace either does not exist or already is a
    subnamespace of that very parent; the webhook always answers and only reads the forest. *)
Theorem anchor_creation_decision f a : wf f →
  ∃ resp g, handle cfg {| ar_anchor := a; ar_op := Create |} f = Done (resp, g) ∧ extends f g ∧
    (Allowed resp = true ↔
      IsDNS1123Label (om_Name (sa_Meta a)) = [] ∧
      ValidateManagedLabels cfg (sa_Labels a) = [] ∧ ValidateManagedAnnotations cfg (sa_Annotations a) = [] ∧
      IsManagedNamespace cfg (om_Namespace (sa_Meta a)) = true ∧ IsManagedNamespace cfg (om_Name (sa_Meta a)) = true ∧
      (ns_exists (ns_at f (om_Name (sa_Meta a))) = true →
         Name f (Parent f (f_namespaces f !! om_Name (sa_Meta a))) = om_Namespace (sa_Meta a) ∧
         ns_IsSub (ns_at f (om_Name (sa_Meta a))) = true)).
Proof. apply handle_create_spec. Qed.

(** C35. What the webhook and the reconciler decide on the deletion of a named anchor, in any state.  The webhook admits
    it exactly if the managed labels and annotations of the anchor are legal and, when its state is Ok, the subnamespace is
    a leaf or allows cascading deletion.  The reconciler of the deleted anchor (created and with HNC's finalizer, while
    the namespace is not being deleted already and HNC itself is not being uninstalled) starts by deleting the
    subnamespace if the state is Ok and the subnamespace is a leaf or allows cascading deletion, and otherwise releases
    the anchor and leaves the namespace alone.  So they agree on anchors in state Ok with legal labels and annotations;
    one whose labels or annotations are not legal (any more) is not admitted, although the reconciler would delete. *)
Theorem anchor_deletion_agreement f a api sns : wf f → om_Name (sa_Meta a) ≠ "" →
  hasFinalizer a = true → IsZero (om_CreationTimestamp (sa_Meta a)) = false →
  an_isDeletingCRD api = inr false → IsZero (om_DeletionTimestamp (kn_Meta sns)) = true →
  ∃ resp g, handle cfg {| ar_anchor := a; ar_op := Delete |} f = Done (resp, g) ∧ extends f g ∧
    (Allowed resp = true ↔
      ValidateManagedLabels cfg (sa_Labels a) = [] ∧ ValidateManagedAnnotations cfg (sa_Annotations a) = [] ∧
      (sa_State a = Ok → deletable f (om_Name (sa_Meta a)))) ∧
    (sa_State a = Ok ∧ deletable f (om_Name (sa_Meta a)) →
      emits (onDeleting api a sns) f (an_deleteNamespace api) [DeleteNamespace sns]) ∧
    (sa_State a ≠ Ok ∨ ¬ deletable f (om_Name (sa_Meta a)) →
      emits (onDeleting api a sns) f (an_writeAnchor api) [UpdateAnchor (removeFinalizer a)]).
Proof.
  intros Hwf Hnm Hfin Hct Hcrd Hz. destruct (handle_delete_spec cfg f a Hwf Hnm) as (resp & g & Hh & Hx & Hd).
  destruct (onDeleting_protocol api a sns false f Hwf Hcrd Hnm Hfin Hct) as (H1 & _ & H3).
  exists resp, g. split_and!; [done..| |].
  - intros [? ?]. by apply H1.
  - intros [?|?]; apply H3; [by left|]. destruct (decide (sa_State a = Ok)); [right|left]; auto.
Qed.

(** The deletion protocol: the reconciler of an anchor that is being deleted removes the namespace first, then waits
    while the namespace is terminating, and releases the anchor (by removing its finalizer) as soon as there is nothing
    to wait for: the anchor is not bound to its namespace, or the namespace may not be deleted. *)
Theorem anchor_deletion_protocol api inst sns crd f : wf f → an_isDeletingCRD api = inr crd →
  om_Name (sa_Meta inst) ≠ "" → hasFinalizer inst = true → IsZero (om_CreationTimestamp (sa_Meta inst)) = false →
  (sa_State inst = Ok ∧ IsZero (om_DeletionTimestamp (kn_Meta sns)) = true ∧ crd = false ∧ deletable f (om_Name (sa_Meta inst)) →
     emits (onDeleting api inst sns) f (an_deleteNamespace api) [DeleteNamespace sns]) ∧
  (sa_State inst = Ok ∧ IsZero (om_DeletionTimestamp (kn_Meta sns)) = false → emits (onDeleting api inst sns) f None []) ∧
  (sa_State inst ≠ Ok ∨ IsZero (om_DeletionTimestamp (kn_Meta sns)) = true ∧ (crd = true ∨ ¬ deletable f (om_Name (sa_Meta inst))) →
     emits (onDeleting api inst sns) f (an_writeAnchor api) [UpdateAnchor (removeFinalizer inst)]).
Proof. apply onDeleting_protocol. Qed.

(** C11. A live anchor converges in two reconciliations: while its namespace is missing, a reconciliation creates the
    namespace, annotated with the parent; once the API server returns that namespace, the next one reports the state Ok
    with the finalizer set, and further ones write the same anchor again. *)
Theorem live_anchor_converges api api' api'' pnm nm inst f : wf f → nm ≠ "" →
  WhyUnmanaged cfg pnm = "" → WhyUnmanaged cfg nm = "" →
  om_Name (sa_Meta inst) = nm → om_Namespace (sa_Meta inst) = pnm →
  IsZero (om_DeletionTimestamp (sa_Meta inst)) = true → IsZero (om_CreationTimestamp (sa_Meta inst)) = false →
  an_getAnchor api pnm nm = Found inst → an_getNamespace api nm = NotFound → an_createNamespace api = None →
  let first := synced inst blankNamespace in
  an_getAnchor api' pnm nm = Found first → an_getNamespace api' nm = Found (subnamespace nm pnm) →
  let second := synced first (subnamespace nm pnm) in
  an_getAnchor api'' pnm nm = Found second → an_getNamespace api'' nm = Found (subnamespace nm pnm) →
  sa_State first = Missing ∧ sa_State second = Ok ∧ hasFinalizer second = true ∧
  emits (Reconcile cfg api pnm nm) f (an_writeAnchor api) [CreateNamespace (subnamespace nm pnm); UpdateAnchor first] ∧
  emits (Reconcile cfg api' pnm nm) f (an_writeAnchor api') [UpdateAnchor second] ∧
  emits (Reconcile cfg api'' pnm nm) f (an_writeAnchor api'') [UpdateAnchor second].
Proof.
  intros Hwf Hne Hp Hn <- <- Hz Hc Hg1 Hs1 Hcr first Hg2 Hs2 second Hg3 Hs3.
  destruct (synced_Meta inst blankNamespace) as (Hn1 & Hp1 & Hd1 & Hc1). fold first in Hn1, Hp1, Hd1, Hc1.
  destruct (synced_Meta first (subnamespace (om_Name (sa_Meta inst)) (om_Namespace (sa_Meta inst)))) as (_ & _ & Hd2 & Hc2).
  fold second in Hd2, Hc2. rewrite Hd1 in Hd2. rewrite Hc1 in Hc2.
  destruct (Reconcile_live cfg api _ _ inst f Hwf Hg1 Hp Hn Hz Hc) as [_ H1].
  destruct (Reconcile_live cfg api' _ _ first f Hwf Hg2 Hp Hn) as [H2 _]; [by rewrite Hd1|by rewrite Hc1|].
  destruct (Reconcile_live cfg api'' _ _ second f Hwf Hg3 Hp Hn) as [H3 _]; [by rewrite Hd2|by rewrite Hc2|].
  split_and!; [done| | |by apply H1|by apply H2|].
  - unfold second, synced. change (sa_State (updateState first (subnamespace (om_Name (sa_Meta inst)) (om_Namespace (sa_Meta inst)))) = Ok).
    rewrite updateState_Ok, <- Hn1, <- Hp1. apply subnamespace_bound. by rewrite Hn1.
  - apply ContainsFinalizer_Add.
  - unfold second. rewrite <- synced_stable. by apply H3.
Qed.
End theorems.

(** ** Applications *)
Definition anchor_of (nm pnm : string) (st : SubnamespaceAnchorState) : SubnamespaceAnchor :=
  {| sa_Meta := mkMeta nm pnm None None [MetaGroup] (Some 1%Z) None "1"; sa_Labels := []; sa_Annotations := []; sa_State := st |}.

Definition anchor_config : Config := SetHNCNamespace "hnc-system" zeroConfig.

(** An API server with the anchor [a] and the answer [sns] for its namespace. *)
Definition anchor_server (a : SubnamespaceAnchor) (sns : ApiResult K8sNamespace) : anchorApi :=
  {| an_getAnchor _ _ := Found a; an_getNamespace _ := sns; an_isDeletingCRD := inr false;
     an_writeAnchor := None; an_createNamespace := None; an_deleteNamespace := None |}.

Lemma anchor_creation_decision_witness :
  ∃ resp g, handle anchor_config {| ar_anchor := anchor_of "f" "e" ""; ar_op := Create |} family = Done (resp, g) ∧ Allowed resp = true.
Proof.
  destruct (anchor_creation_decision anchor_config family (anchor_of "f" "e" "") family_wf) as (resp & g & H & _ & Hd).
  exists resp, g. split; [exact H|]. apply Hd. split_and!; [reflexivity..|]. by vm_compute.
Defined.

Lemma leaf_deletable : deletable family "c".
Proof.
  left. intros c Hc. apply (ChildNames_elem family family_wf "c" (at_name family "c") c) in Hc; [|reflexivity].
  replace (ChildNames _) with (@nil string) in Hc by (by vm_compute). by apply elem_of_nil in Hc.
Qed.

(** The leaf c below b: admitted and deleted with a legal anchor; refused and deleted with an illegal label. *)
Definition labelled_anchor : SubnamespaceAnchor :=
  {| sa_Meta := sa_Meta (anchor_of "c" "b" Ok); sa_Labels := [{| kvp_Key := "team"; kvp_Value := "x" |}]; sa_Annotations := []; sa_State := Ok |}.

Lemma anchor_deletion_agreement_witness :
  ∃ r g r' g', handle anchor_config {| ar_anchor := anchor_of "c" "b" Ok; ar_op := Delete |} family = Done (r, g) ∧
    Allowed r = true ∧
    emits (onDeleting (anchor_server (anchor_of "c" "b" Ok) NotFound) (anchor_of "c" "b" Ok) (subnamespace "c" "b")) family None
      [DeleteNamespace (subnamespace "c" "b")] ∧
    handle anchor_config {| ar_anchor := labelled_anchor; ar_op := Delete |} family = Done (r', g') ∧ Allowed r' ≠ true ∧
    emits (onDeleting (anchor_server labelled_anchor NotFound) labelled_anchor (subnamespace "c" "b")) family None
      [DeleteNamespace (subnamespace "c" "b")].
Proof.
  destruct (anchor_deletion_agreement anchor_config family (anchor_of "c" "b" Ok) (anchor_server (anchor_of "c" "b" Ok) NotFound)
    (subnamespace "c" "b")) as (r & g & H & _ & Ha & He & _); [apply family_wf|discriminate|reflexivity..|].
  destruct (anchor_deletion_agreement anchor_config family labelled_anchor (anchor_server labelled_anchor NotFound)
    (subnamespace "c" "b")) as (r' & g' & H' & _ & Ha' & He' & _); [apply family_wf|discriminate|reflexivity..|].
  exists r, g, r', g'. split_and!; [exact H| |apply He|exact H'| |apply He'].
  - apply Ha. split; [by vm_compute|]. split; [by vm_compute|]. intros _. apply leaf_deletable.
  - split; [reflexivity|apply leaf_deletable].
  - intros (Hl & _)%Ha'. by vm_compute in Hl.
  - split; [reflexivity|apply leaf_deletable].
Defined.

Lemma anchor_deletion_protocol_witness :
  emits (onDeleting (anchor_server (anchor_of "c" "b" Ok) NotFound) (anchor_of "c" "b" Ok) (subnamespace "c" "b")) family None
    [DeleteNamespace (subnamespace "c" "b")].
Proof.
  apply (anchor_deletion_protocol (anchor_server (anchor_of "c" "b" Ok) NotFound) (anchor_of "c" "b" Ok) (subnamespace "c" "b") false family);
    [apply family_wf|reflexivity|discriminate|reflexivity|reflexivity|].
  split_and!; [reflexivity|reflexivity|reflexivity|apply leaf_deletable].
Defined.

Lemma live_anchor_converges_witness :
  sa_State (synced (synced (anchor_of "f" "e" "") blankNamespace) (subnamespace "f" "e")) = Ok.
Proof.
  apply (live_anchor_converges anchor_config (anchor_server (anchor_of "f" "e" "") NotFound)
    (anchor_server (synced (anchor_of "f" "e" "") blankNamespace) (Found (subnamespace "f" "e")))
    (anchor_server (synced (synced (anchor_of "f" "e" "") blankNamespace) (subnamespace "f" "e")) (Found (subnamespace "f" "e")))
    "e" "f" (anchor_of "f" "e" "") family); [apply family_wf|discriminate|reflexivity..].
Defined.
