(* ===== verification/PropagationTheorems.v ===== *)
(** * Theorems on the propagation of objects, with concrete instances

    The reconciler of a type implements the abstract specification of file
    Propagation ([desired], [verdict]); objects of users are safe, written copies are
    stable, the reconciler in a loop with the API server converges, and the webhook
    protects copies and the objects below a source. *)

From S2P Require Import Prelude GoStrings Chains Validation Api Config Selectors Resources Forest ForestWf ForestWalks ForestReads.
From S2P Require Import Sound World Objects Propagation Convergence ObjectsValidator Instances.

Section theorems.
  Context `{RO : RangeOrder} `{RX : RegexpLib} `{SL : SelectorLib} (cfg : Config)
    (gvk : GroupVersionKind) (mode : SynchronizationMode).

(** The copy that the specification asks for is the source of the topmost proper ancestor that has one of that name
    which propagates to the namespace: no source above it propagates. *)
Theorem desired_is_topmost f dst onm src : desired cfg gvk mode f dst onm = Some src ↔
  ∃ above anc below, proper_ancestors f dst = above ++ anc :: below ∧
    GetSourceObject (ns_at f anc) gvk onm = Some src ∧ propagates cfg gvk mode f dst src = true ∧
    ∀ a s, a ∈ above → GetSourceObject (ns_at f a) gvk onm = Some s → propagates cfg gvk mode f dst s = false.
Proof. apply desired_Some. Qed.

Context (api : objectApi).

(** C2. The reconciler implements the specification, whatever the API server answers to its writes. Reconciling a
    name of a synchronised type whose object the API server returned, or does not know, in a managed namespace that
    exists, returns with the error the server gave ([answered]) and writes exactly what the decision on the object
    asks for ([performed]): nothing if the namespace is halted or the object is up to date; a deletion of a copy
    without a source; a creation or an update to the copy of the topmost source; and, if the server refuses the update
    of a role binding as invalid, then also its deletion and, if that succeeds, its creation. The invariant of the
    forest is kept, no other namespace changes, and the object remains a source in the forest exactly if it exists and
    is not a copy. ([ready] names the conditions: a sound forest, an object that is not being deleted, a known type,
    and no tree selector that makes the parser panic.) *)
Theorem object_reconcile_refines nnm inst f l t root :
  IsManagedNamespace cfg (nn_namespace nnm) = true → mode ≠ Ignore →
  read gvk api nnm inst → ready cfg gvk mode f inst l t → GetHaltedRoot f (Some l) = Done root →
  let v := act_unless root (decision cfg gvk mode f inst l t) in
  ∃ f' evs, runs (Reconcile cfg gvk mode api nnm) f (answered api v) f' evs ∧ writes evs = performed api v ∧
    sound f' ∧ sources_ok f' ∧ (∀ x, x ≠ l → deref f' x = deref f x) ∧
    GetSourceObject (deref f' l) gvk (om_Name (u_Meta inst)) = remains cfg gvk mode f inst t.
Proof.
  intros Hm Hmode Hget Hrd Hroot v.
  destruct (Reconcile_runs cfg gvk mode api nnm inst f l t root Hm Hmode Hget Hrd Hroot) as (f' & evs & Hr & Hw & Hst).
  exists f', evs. destruct Hst as [Hv ? ? _ _ ?]. split_and!; try done. eapply sound_vitals; [exact Hv|]. by apply (rd_sound _ _ _ _ _ _ _ Hrd).
Qed.

(** C5. Objects of users are safe: reconciling an object without the inherited-from label writes nothing at all, or the
    type can be propagated, the namespace is not halted, and everything that is written is the copy of a source of that
    name in a proper ancestor that propagates to the namespace.  That is one update; only if the API server refuses the
    update of a role binding as invalid, the object is also deleted and, if the deletion succeeds, the copy is created
    in its place.  (The type is synchronised and the namespace managed, else nothing is reconciled; [ready] is as above:
    the object is not being deleted, and no tree selector makes the parser panic.) *)
Theorem user_objects_safe nnm inst f l t root :
  IsManagedNamespace cfg (nn_namespace nnm) = true → mode ≠ Ignore →
  ob_get api nnm = Found inst → ready cfg gvk mode f inst l t → u_exists inst = true →
  GetHaltedRoot f (Some l) = Done root → hasPropagatedLabel inst = false →
  ∃ err f' evs, runs (Reconcile cfg gvk mode api nnm) f err f' evs ∧
    (writes evs = [] ∨
     CanPropagate t = true ∧ root = "" ∧
     ∃ anc src, tc (up (parent_name f)) (om_Namespace (u_Meta inst)) anc ∧
        GetSourceObject (ns_at f anc) gvk (om_Name (u_Meta inst)) = Some src ∧
        propagates cfg gvk mode f (om_Namespace (u_Meta inst)) src = true ∧
        let copy := copy_of src (om_Namespace (u_Meta inst)) (om_ResourceVersion (u_Meta inst)) in
        writes evs = UpdateObj copy ::
          (if refused api copy then DeleteObj copy :: (if decide (ob_delete api = None) then [CreateObj copy] else []) else [])).
Proof.
  intros Hm Hmode Hget Hrd He Hroot Hlab.
  destruct (Reconcile_existing cfg gvk mode api nnm inst f l t root Hm Hmode Hget Hrd He Hroot) as (err & f' & evs & Hr & Hw & _).
  exists err, f', evs. split; [done|]. rewrite Hw. apply user_verdict; [by apply (rd_sound _ _ _ _ _ _ _ Hrd)|done..].
Qed.

(** Copies are stable: once the API server holds an object that agrees with the copy the reconciler wrote for the
    desired source (same content, same inherited-from label), reconciling it writes nothing. *)
Theorem written_copy_stable nnm o f l t root src ns rv :
  IsManagedNamespace cfg (nn_namespace nnm) = true → mode ≠ Ignore →
  ob_get api nnm = Found o → ready cfg gvk mode f o l t → u_exists o = true →
  GetHaltedRoot f (Some l) = Done root →
  desired cfg gvk mode f (om_Namespace (u_Meta o)) (om_Name (u_Meta o)) = Some src →
  canonical o = canonical (copy_of src ns rv) →
  GetLabel (u_Meta o) LabelInheritedFrom = GetLabel (u_Meta (copy_of src ns rv)) LabelInheritedFrom →
  ∃ err f' evs, runs (Reconcile cfg gvk mode api nnm) f err f' evs ∧ writes evs = [] ∧
    GetSourceObject (deref f' l) gvk (om_Name (u_Meta o)) = None.
Proof.
  intros Hm Hmode Hget Hrd He Hroot Hd Hc Hl.
  destruct (Reconcile_existing cfg gvk mode api nnm o f l t root Hm Hmode Hget Hrd He Hroot) as (err & f' & evs & Hr & Hw & Hst).
  exists err, f', evs. split; [done|]. rewrite Hd in Hw, Hst. pose proof (copy_up_to_date o src ns rv He Hc Hl) as Hu.
  assert (is_copy o (Some src) (CanPropagate t) = true) as Hcp.
  { unfold is_copy. apply orb_true_iff. left. unfold hasPropagatedLabel. apply bool_decide_eq_true. rewrite Hl.
    unfold copy_of, set_u_Label. simpl. rewrite GetLabel_SetLabel. eauto. }
  split.
  - rewrite Hw. unfold act_unless, verdict. rewrite Hcp, Hu. by destruct (decide _).
  - destruct Hst as [_ _ _ _ _ ->]. unfold kept. by rewrite Hcp.
Qed.

(** Missing copies are created: reconciling a name that the API server does not know, in a namespace that is not
    halted and had no such source, creates exactly the copy of the desired source, or issues a deletion if there is none;
    if the forest had it as a source, the source is forgotten and nothing is written. *)
Theorem missing_copy_created nnm f l t :
  IsManagedNamespace cfg (nn_namespace nnm) = true → mode ≠ Ignore →
  ob_get api nnm = NotFound → ready cfg gvk mode f (blankObject gvk nnm) l t →
  GetHaltedRoot f (Some l) = Done "" →
  ∃ err f' evs, runs (Reconcile cfg gvk mode api nnm) f err f' evs ∧
    GetSourceObject (deref f' l) gvk (nn_name nnm) = None ∧
    writes evs =
      if HasSourceObject (deref f l) gvk (nn_name nnm) then []
      else match desired cfg gvk mode f (nn_namespace nnm) (nn_name nnm) with
           | Some src => [CreateObj (copy_of src (nn_namespace nnm) "")]
           | None => [DeleteObj (as_copy (blankObject gvk nnm))]
           end.
Proof.
  intros Hm Hmode Hget Hrd Hroot.
  destruct (Reconcile_missing cfg gvk mode api nnm f l t "" Hm Hmode Hget Hrd Hroot) as (err & f' & evs & Hr & Hst & Hw).
  exists err, f', evs. split_and!; [done|apply Hst|]. rewrite Hw. destruct (HasSourceObject _ _ _); [done|].
  unfold act_unless, verdict, is_copy. rewrite decide_True, as_copy_label by done. simpl.
  by destruct (desired cfg gvk mode f (nn_namespace nnm) (nn_name nnm)).
Qed.

(** ** The loop *)

(** C3. The loop converges: run the reconciler against a store that takes its writes, in any order of visits in which each
    path from the root to a namespace of [xs] occurs in this order (each namespace twice).  The run returns, and then each
    of these namespaces holds an up-to-date copy of the topmost source in the store that propagates to it, or no copy if
    there is none; and no further visits of any namespaces change the objects in them. *)
Theorem propagation_converges `{AL : ApiServerLaws} name f cl sched (xs : list string) :
  mode = Propagate ∨ mode = AllowPropagate ∨ mode = Remove → name ≠ "" →
  loop_ok cfg gvk mode name f cl → Forall (visitable cfg f) sched →
  (∀ x, x ∈ xs → visitable cfg f x ∧ twice (AncestryNames f (f_namespaces f !! x)) `sublist_of` sched) →
  ∃ f' cl', follow cfg gvk mode name sched (f, cl) = Done (f', cl') ∧ (∀ x, x ∈ xs → converged cfg gvk mode f cl' x) ∧
    ∀ more, Forall (visitable cfg f) more → ∃ f'' cl'', follow cfg gvk mode name more (f', cl') = Done (f'', cl'') ∧
      ∀ x, x ∈ xs → cl'' !! x = cl' !! x.
Proof. intros. by apply paths_converge. Qed.

(** ** The webhook *)
Context (getNS : string → ApiResult K8sNamespace).

(** C17. The webhook protects copies: an update of an object with the inherited-from label that it admits for a user does
    not make a copy out of date with its source (so the reconciler has nothing to repair), and the label stays. *)
Theorem admitted_update_keeps_copies req f resp f' from src :
  rq_op req = Update → GetLabel (u_Meta (rq_oldObj req)) LabelInheritedFrom = Some from →
  u_exists (rq_obj req) = u_exists (rq_oldObj req) →
  ObjectsValidator.handle cfg getNS req f = Done (resp, f') → Allowed resp = true →
  f' = f ∧ GetLabel (u_Meta (rq_obj req)) LabelInheritedFrom = Some from ∧
  up_to_date (rq_obj req) src = up_to_date (rq_oldObj req) src.
Proof.
  intros Hop Hold Hex H Ha. unfold ObjectsValidator.handle in H. rewrite Hold in H. rewrite decide_False in H by (by intros []).
  injection H as <- <-. apply (handleInherited_update getNS req _ _ Hop) in Ha as (_ & Hc & Hl & _).
  split_and!; [done|by unfold GetLabel in *; rewrite Hl|]. unfold up_to_date. by rewrite Hex, Hc, Hl.
Qed.

(** C18. Exactly which source objects the webhook admits: those with no unknown annotation of HNC, whose new propagation
    exceptions all parse and of which there is at most one, and whose name no source in a descendant has, or whose
    selectors and mode do not select the labels of the namespace of the source itself ([conflicts_below]); the webhook
    leaves the forest as it is.  (The selectors are evaluated on the labels of the source's own namespace, not on those of
    the descendant that the copy would go to, although the comment at hasConflict speaks of the latter: see
    conflict_check_uses_source_labels for a source that is admitted and then propagated over an object.) *)
Theorem source_admission_exact f req l : wf f →
  GetLabel (u_Meta (rq_obj req)) LabelInheritedFrom = None → GetLabel (u_Meta (rq_oldObj req)) LabelInheritedFrom = None →
  f_namespaces f !! om_Namespace (u_Meta (rq_obj req)) = Some l →
  validateTreeSelectorChange (rq_obj req) (rq_oldObj req) ≠ Panics →
  ShouldPropagate cfg (rq_obj req) (items (ns_labels (deref f l))) (syncType (u_GVK (rq_obj req)) f) ≠ Panics →
  ∃ resp, ObjectsValidator.handle cfg getNS req f = Done (resp, f) ∧
    (Allowed resp = true ↔
      (∀ key, is_Some (items (om_Annotations (u_Meta (rq_obj req))) !! key) → illegal_annotation key = false) ∧
      changes_parse (rq_obj req) (rq_oldObj req) ∧
      (isSelectorChange (rq_obj req) (rq_oldObj req) = true → length (exceptions (rq_obj req)) ≤ 1) ∧
      conflicts_below cfg f (rq_obj req) l = []).
Proof. apply handle_source. Qed.
End theorems.

(** ** Applications *)
Definition secretGVK : GroupVersionKind := mkGVK "" "v1" "Secret".
Definition secret (nm ns data : string) (lbls annots : gmap string string) : Unstructured :=
  mkObj secretGVK (mkMeta nm ns (Some lbls) (Some annots) [] (Some 1%Z) None "7") None {["data" := JOther data]}.
Definition objects_config : Config := SetHNCNamespace "hnc-system" zeroConfig.
Definition secrets : TypeSyncer := {| ts_GVK := secretGVK; ts_Mode := Propagate; ts_propagatedObjects := ∅ |}.

(** The namespace a has a secret named creds, and secrets are propagated. *)
Definition creds : Unstructured := secret "creds" "a" "s3cret" ∅ ∅.
Definition stocked : Forest := SetSourceObject (at_name family "a") (cleanSource objects_config creds) (AddTypeSyncer secrets family).

Definition sources_check (f : Forest) : bool :=
  bool_decide (map_Forall (λ nm l, map_Forall (λ (_ : GroupVersionKind) objs, map_Forall (λ onm o,
    om_Namespace (u_Meta o) = nm ∧ om_Name (u_Meta o) = onm) objs) (ns_sourceObjects (deref f l))) (f_namespaces f)).

Lemma sources_check_sound f : sources_check f = true → sources_ok f.
Proof.
  intros Hc%bool_decide_eq_true nm l g onm o Hl Ho. unfold GetSourceObject in Ho.
  destruct (ns_sourceObjects (deref f l) !! g) as [objs|] eqn:Hg; [|done]. exact (Hc nm l Hl g objs Hg onm o Ho).
Qed.

Lemma parse_check_sound cfg gvk mode f d on :
  forallb (λ src, negb (bool_decide (ShouldPropagate cfg src (items (ns_labels (ns_at f d))) mode = Panics))) (candidates gvk f d on) = true →
  selectors_parse cfg gvk mode f d on.
Proof. rewrite forallb_forall. intros Hp src Hin%list_elem_of_In%Hp. by apply negb_true_iff, bool_decide_eq_false in Hin. Qed.

Definition ready_check (cfg : Config) (gvk : GroupVersionKind) (mode : SynchronizationMode) (f : Forest) (inst : Unstructured) (l : loc) : bool :=
  let dst := om_Namespace (u_Meta inst) in
  wf_check f && cycles_check f && sources_check f &&
  bool_decide (f_namespaces f !! dst = Some l ∧ om_Name (u_Meta inst) ≠ "" ∧ u_GVK inst = gvk) &&
  ns_exists (deref f l) && IsZero (om_DeletionTimestamp (u_Meta inst)) &&
  forallb (λ src, negb (bool_decide (ShouldPropagate cfg src (items (ns_labels (ns_at f dst))) mode = Panics)))
    (candidates gvk f dst (om_Name (u_Meta inst))).

Lemma ready_check_sound cfg gvk mode f inst l t : ready_check cfg gvk mode f inst l = true → GetTypeSyncer gvk f = Some t →
  ready cfg gvk mode f inst l t.
Proof.
  unfold ready_check. rewrite !andb_true_iff, bool_decide_eq_true. intros ((((((Hw & Hc) & Hs) & Hl & Hn & Hg) & He) & Hz) & Hp) Ht.
  apply wf_check_sound in Hw. split; try done.
  - split; [done|]. by apply cycles_check_sound.
  - by apply sources_check_sound.
  - by apply parse_check_sound.
Qed.

(** The API server with one answer for every name, accepting all writes. *)
Definition object_server (o : ApiResult Unstructured) : objectApi :=
  {| ob_get _ := o; ob_create := None; ob_update := None; ob_delete := None |}.

(** A stale copy of creds in c, and a secret of the same name that a user made there. *)
Definition stale_copy : Unstructured := secret "creds" "c" "old" {[LabelInheritedFrom := "a"]} ∅.
Definition own_secret : Unstructured := secret "creds" "c" "mine" ∅ ∅.
Definition fresh_copy : Unstructured := secret "creds" "c" "s3cret" {[LabelInheritedFrom := "a"; LabelManagedByApps := MetaGroup]} ∅.
Definition in_c : NamespacedName := mkNN "c" "creds".

Lemma ready_in_c o : om_Namespace (u_Meta o) = "c" → ready_check objects_config secretGVK Propagate stocked o (at_name family "c") = true →
  ready objects_config secretGVK Propagate stocked o (at_name family "c") secrets.
Proof. intros _ Hc. by apply ready_check_sound. Qed.

Lemma desired_is_topmost_witness :
  desired objects_config secretGVK Propagate stocked "c" "creds" = Some (cleanSource objects_config creds).
Proof.
  apply desired_is_topmost. exists [], "a", ["b"]. split_and!; [by vm_compute|by vm_compute|by vm_compute|].
  intros a s Ha. exfalso. exact (not_elem_of_nil a Ha).
Defined.

Lemma object_reconcile_refines_witness :
  (∃ f' evs, runs (Reconcile objects_config secretGVK Propagate (object_server (Found stale_copy)) in_c) stocked None f' evs ∧
    writes evs = [UpdateObj (copy_of (cleanSource objects_config creds) "c" "7")]) ∧
  (∃ f' evs, runs (Reconcile objects_config secretGVK Propagate (object_server NotFound) in_c) stocked None f' evs ∧
    writes evs = [CreateObj (copy_of (cleanSource objects_config creds) "c" "")]).
Proof.
  split.
  - destruct (object_reconcile_refines objects_config secretGVK Propagate (object_server (Found stale_copy)) in_c stale_copy stocked
      (at_name family "c") secrets "") as (f' & evs & Hr & Hw & _).
    + reflexivity.
    + discriminate.
    + by left.
    + apply ready_in_c; [reflexivity|by vm_compute].
    + by vm_compute.
    + exists f', evs. split; [exact Hr|]. rewrite Hw. by vm_compute.
  - destruct (object_reconcile_refines objects_config secretGVK Propagate (object_server NotFound) in_c (blankObject secretGVK in_c) stocked
      (at_name family "c") secrets "") as (f' & evs & Hr & Hw & _).
    + reflexivity.
    + discriminate.
    + by right.
    + apply ready_in_c; [reflexivity|by vm_compute].
    + by vm_compute.
    + exists f', evs. split; [exact Hr|]. rewrite Hw. by vm_compute.
Defined.

(** A role binding that a user made in c, which has the name of one in a; the API server does not let its role change. *)
Definition rbGVK : GroupVersionKind := mkGVK "rbac.authorization.k8s.io" "v1" "RoleBinding".
Definition binding (ns role : string) : Unstructured :=
  mkObj rbGVK (mkMeta "admins" ns (Some ∅) (Some ∅) [] (Some 1%Z) None "7") None {["roleRef" := JOther role]}.
Definition bindings : TypeSyncer := {| ts_GVK := rbGVK; ts_Mode := Propagate; ts_propagatedObjects := ∅ |}.
Definition bound : Forest :=
  SetSourceObject (at_name family "a") (cleanSource objects_config (binding "a" "edit")) (AddTypeSyncer bindings family).
Definition strict_server (o : ApiResult Unstructured) : objectApi :=
  {| ob_get _ := o; ob_create := None; ob_update := Some (ErrInvalid "cannot change roleRef"); ob_delete := None |}.
Definition admins_in_c : NamespacedName := mkNN "c" "admins".

Lemma above_step {par : string → option string} x y : tc (up par) x y → ∃ p, par x = Some p ∧ (y = p ∨ tc (up par) p y).
Proof. inversion_clear 1; eauto. Qed.

Lemma bound_above_c anc : tc (up (parent_name bound)) "c" anc → anc = "b" ∨ anc = "a".
Proof.
  assert (parent_name bound "c" = Some "b" ∧ parent_name bound "b" = Some "a" ∧ parent_name bound "a" = None) as (Hc & Hb & Ha)
    by (by vm_compute).
  intros (p & Hp & [->|Ht])%above_step; [left; congruence|]. rewrite Hc in Hp. injection Hp as <-.
  apply above_step in Ht as (q & Hq & [->|Ht]); [right; congruence|]. rewrite Hb in Hq. injection Hq as <-.
  apply above_step in Ht as (r & Hr & _). congruence.
Qed.

Lemma user_objects_safe_witness :
  (∃ err f' evs, runs (Reconcile objects_config secretGVK Propagate (object_server (Found own_secret)) in_c) stocked err f' evs ∧
    ∀ o, DeleteObj o ∉ writes evs) ∧
  (∃ err f' evs, runs (Reconcile objects_config rbGVK Propagate (strict_server (Found (binding "c" "view"))) admins_in_c) bound err f' evs ∧
    (writes evs = [] ∨ ∃ copy, u_Content copy !! "roleRef" = Some (JOther "edit") ∧ writes evs = [UpdateObj copy; DeleteObj copy; CreateObj copy])).
Proof.
  split.
  - destruct (user_objects_safe objects_config secretGVK Propagate (object_server (Found own_secret)) in_c own_secret stocked
      (at_name family "c") secrets "") as (err & f' & evs & Hr & Hw).
    + reflexivity.
    + discriminate.
    + reflexivity.
    + apply ready_in_c; [reflexivity|by vm_compute].
    + reflexivity.
    + by vm_compute.
    + reflexivity.
    + exists err, f', evs. split; [exact Hr|]. intros o.
      destruct Hw as [->|(_ & _ & anc & src & _ & _ & _ & ->)]; [apply not_elem_of_nil|]. by intros ?%list_elem_of_singleton.
  - destruct (user_objects_safe objects_config rbGVK Propagate (strict_server (Found (binding "c" "view"))) admins_in_c (binding "c" "view") bound
      (at_name family "c") bindings "") as (err & f' & evs & Hr & Hw).
    + reflexivity.
    + discriminate.
    + reflexivity.
    + apply ready_check_sound; by vm_compute.
    + reflexivity.
    + by vm_compute.
    + reflexivity.
    + exists err, f', evs. split; [exact Hr|]. destruct Hw as [->|(_ & _ & anc & src & Hup & Hs & _ & ->)]; [by left|right].
      apply bound_above_c in Hup as [->| ->]; vm_compute in Hs; [discriminate|]. injection Hs as <-.
      eexists. split; [|vm_compute; reflexivity]. vm_compute. reflexivity.
Defined.

Lemma written_copy_stable_witness :
  ∃ err f' evs, runs (Reconcile objects_config secretGVK Propagate (object_server (Found fresh_copy)) in_c) stocked err f' evs ∧ writes evs = [].
Proof.
  destruct (written_copy_stable objects_config secretGVK Propagate (object_server (Found fresh_copy)) in_c fresh_copy stocked
    (at_name family "c") secrets "" (cleanSource objects_config creds) "c" "7") as (err & f' & evs & Hr & Hw & _).
  - reflexivity.
  - discriminate.
  - reflexivity.
  - apply ready_in_c; [reflexivity|by vm_compute].
  - reflexivity.
  - by vm_compute.
  - by vm_compute.
  - by vm_compute.
  - by vm_compute.
  - exists err, f', evs. split; [exact Hr|exact Hw].
Defined.

Lemma missing_copy_created_witness :
  ∃ err f' evs, runs (Reconcile objects_config secretGVK Propagate (object_server NotFound) in_c) stocked err f' evs ∧
    writes evs = [CreateObj (copy_of (cleanSource objects_config creds) "c" "")].
Proof.
  destruct (missing_copy_created objects_config secretGVK Propagate (object_server NotFound) in_c stocked (at_name family "c") secrets)
    as (err & f' & evs & Hr & _ & Hw).
  - reflexivity.
  - discriminate.
  - reflexivity.
  - apply ready_in_c; [reflexivity|by vm_compute].
  - by vm_compute.
  - exists err, f', evs. split; [exact Hr|]. rewrite Hw. by vm_compute.
Defined.

(** The user touches nothing but the resource version of the copy. *)
Definition harmless_update : request :=
  {| rq_obj := set_u_ResourceVersion "8" fresh_copy; rq_oldObj := fresh_copy; rq_op := Update; rq_gr := "secrets" |}.

Lemma admitted_update_keeps_copies_witness :
  up_to_date (rq_obj harmless_update) (cleanSource objects_config creds) = up_to_date fresh_copy (cleanSource objects_config creds).
Proof.
  apply (admitted_update_keeps_copies objects_config (λ _, NotFound) harmless_update stocked
    (Allow "no illegal updates to propagated object") stocked "a"); by vm_compute.
Defined.

Definition new_source : request :=
  {| rq_obj := secret "other" "a" "x" ∅ ∅; rq_oldObj := emptyObject; rq_op := Create; rq_gr := "secrets" |}.

Lemma source_admission_exact_witness :
  ∃ resp, ObjectsValidator.handle objects_config (λ _, NotFound) new_source stocked = Done (resp, stocked) ∧ Allowed resp = true.
Proof.
  destruct (source_admission_exact objects_config (λ _, NotFound) stocked new_source (at_name family "a")) as (resp & H & Hd).
  - apply wf_check_sound. by vm_compute.
  - reflexivity.
  - reflexivity.
  - by vm_compute.
  - by vm_compute.
  - by vm_compute.
  - exists resp. split; [exact H|]. apply Hd. split; [|split; [|split]].
    + intros key [v Hv]. change ((∅ : gmap string string) !! key = Some v) in Hv. by rewrite lookup_empty in Hv.
    + split; [reflexivity|split; [reflexivity|split; reflexivity]].
    + intros _. apply Nat.leb_le. by vm_compute.
    + vm_compute. reflexivity.
Defined.

(** ** A loop *)
#[export] Instance plain_server : ApiServer := {|
  store _ o := mkObj (u_GVK o) (let m := u_Meta o in mkMeta (om_Name m) (om_Namespace m) (om_Labels m) (om_Annotations m)
    (om_Finalizers m) (Some 1%Z) None "8") (u_Status o) (u_Content o);
  terminate o := o
|}.
#[export] Instance plain_server_laws : ApiServerLaws.
Proof. by split. Qed.

(** Secrets of the same name: a source in a, a copy of an unknown source in b, and a user's own in c. *)
Definition secrets_of_family : gmap string Unstructured :=
  {["a" := creds; "b" := secret "creds" "b" "lost" {[LabelInheritedFrom := "z"]} ∅; "c" := own_secret]}.
Definition family_of_secrets : Forest := AddTypeSyncer secrets family.
Definition down_the_family : list string := ["a"; "a"; "b"; "b"; "d"; "c"; "c"; "d"].

(** All of them end up with the secret of a. *)
Definition contents_after (sched : list string) : gmap string (gmap string jval) :=
  match follow objects_config secretGVK Propagate "creds" sched (family_of_secrets, secrets_of_family) with
  | Done (_, cl) => u_Content <$> cl
  | _ => ∅
  end.

Example loop_of_secrets : contents_after down_the_family =
  let s3cret := {["data" := JOther "s3cret"]} in {["a" := s3cret; "b" := s3cret; "c" := s3cret; "d" := s3cret]}.
Proof. vm_compute. reflexivity. Qed.

Lemma family_visitable x : x ∈ ["a"; "b"; "c"; "d"] → visitable objects_config family_of_secrets x.
Proof.
  intros Hx. repeat (apply elem_of_cons in Hx as [->|Hx]; [eexists; (split; [vm_compute; reflexivity|]); split_and!; vm_compute; reflexivity|]).
  by apply elem_of_nil in Hx.
Qed.

Lemma creds_stored x data : stored_at objects_config secretGVK Propagate "creds" x (secret "creds" x data ∅ ∅).
Proof. split; [done..|by vm_compute|]. intros _ labels. by vm_compute. Qed.

Lemma copy_stored x data from : stored_at objects_config secretGVK Propagate "creds" x (secret "creds" x data {[LabelInheritedFrom := from]} ∅).
Proof. split; [done..|]. intros H. by vm_compute in H. Qed.

Lemma no_sources x : source secretGVK "creds" family_of_secrets x = None.
Proof.
  unfold source, ns_at. destruct (f_namespaces family_of_secrets !! x) as [l|] eqn:Hl; [|done].
  assert (map_Forall (λ _ l, GetSourceObject (deref family_of_secrets l) secretGVK "creds" = None) (f_namespaces family_of_secrets)) as Hn
    by (apply (bool_decide_eq_true_1 _); by vm_compute).
  by apply (Hn x l).
Qed.

Lemma family_loop_ok : loop_ok objects_config secretGVK Propagate "creds" family_of_secrets secrets_of_family.
Proof.
  assert (wf family_of_secrets) as Hwf by (apply wf_check_sound; by vm_compute). split.
  - split; [done|]. apply cycles_check_sound; [done|by vm_compute].
  - apply sources_check_sound. by vm_compute.
  - exists secrets. by vm_compute.
  - intros x o Hs. by rewrite no_sources in Hs.
  - intros x o Ho. unfold secrets_of_family in Ho.
    apply lookup_insert_Some in Ho as [[<- <-]|[_ Ho]]; [apply creds_stored|].
    apply lookup_insert_Some in Ho as [[<- <-]|[_ Ho]]; [apply copy_stored|].
    apply lookup_singleton_Some in Ho as [<- <-]. apply creds_stored.
Qed.

Lemma down_visitable : Forall (visitable objects_config family_of_secrets) down_the_family.
Proof. unfold down_the_family. repeat constructor; apply family_visitable; repeat (first [by left|right]). Qed.

Lemma path_of_c : twice (AncestryNames family_of_secrets (f_namespaces family_of_secrets !! "c")) = ["a"; "a"; "b"; "b"; "c"; "c"].
Proof. by vm_compute. Qed.
Lemma path_of_d : twice (AncestryNames family_of_secrets (f_namespaces family_of_secrets !! "d")) = ["a"; "a"; "d"; "d"].
Proof. by vm_compute. Qed.

Lemma propagation_converges_witness :
  ∃ f' cl', follow objects_config secretGVK Propagate "creds" down_the_family (family_of_secrets, secrets_of_family) = Done (f', cl') ∧
    converged objects_config secretGVK Propagate family_of_secrets cl' "c" ∧ converged objects_config secretGVK Propagate family_of_secrets cl' "d".
Proof.
  destruct (propagation_converges objects_config secretGVK Propagate "creds" family_of_secrets secrets_of_family down_the_family ["c"; "d"])
    as (f' & cl' & H & Hc & _).
  - left. reflexivity.
  - discriminate.
  - exact family_loop_ok.
  - exact down_visitable.
  - intros x Hx. split; [apply family_visitable; by right; right|].
    apply elem_of_cons in Hx as [->|Hx%list_elem_of_singleton]; [rewrite path_of_c|subst x; rewrite path_of_d]; unfold down_the_family; repeat constructor.
  - exists f', cl'. split; [exact H|]. split; apply Hc; [left|right; left].
Defined.
