(* ===== verification/ConfigTheorems.v ===== *)
(** * Theorems on the HNC configuration, with concrete instances

    The modes of the propagated types: which ones a reconciliation of the
    configuration establishes, and what the webhook checks before it admits one. *)

From S2P Require Import Prelude GoStrings Chains Validation Api Config Selectors Resources Forest ForestWf ForestWalks ForestReads.
From S2P Require Import Sound World Objects Propagation HncConfig HncConfigFacts HncConfigValidator Instances PropagationTheorems.

Section theorems.
  Context `{RO : RangeOrder} `{RX : RegexpLib} `{SL : SelectorLib}.

(** C19. The configuration takes effect: if the API server knows the types that HNC enforces (roles and role bindings),
    reconciling the types of a configuration succeeds; then synchronising the object reconcilers returns, changes no
    namespace and, if it reports no error, leaves every kind in the mode that [spec.resources] asks for ([configured]): an
    enforced kind in Propagate whatever the configuration says, any other kind in the mode of its first entry that can be
    mapped to it (unknown modes count as Ignore, an empty one as Propagate), and a kind without an entry in Ignore if it was
    synchronised before, else unknown.  The exception is a new kind whose reconciler cannot be set up: it stays unknown
    although no error is returned (the code reports it in a condition). *)
Theorem configured_modes_in_effect (mapper : GroupResource → mapError + GroupVersionKind) now api inst f :
  (∀ t, t ∈ EnforcedTypes → ∃ gvk, mapper (rsp_GR t) = inr gvk) →
  ∃ inst1 tb, reconcileTypes mapper now inst = (inst1, tb, None) ∧
    ∃ inst' err f' evs, runs (syncObjectReconcilers now api tb inst1) f (inst', err) f' evs ∧ same_namespaces f f' ∧
      (err = None → ∀ g, mode_of f' g =
        match configured mapper (hn_Resources inst) g with
        | Some m => if decide (mode_of f g = None ∧ ca_setup api g ≠ None) then None else Some (GetValidateMode m)
        | None => (λ _, Ignore) <$> mode_of f g
        end).
Proof.
  intros Hmap. destruct (reconcileTypes_represents mapper now inst Hmap) as (inst1 & tb & Ht & Hok & Hrep).
  exists inst1, tb. split; [done|]. by apply (syncObjectReconcilers_configured mapper).
Qed.

(** A failed change of mode is not repeated: SetMode records the new mode before it enqueues the objects, so when the
    enqueuing fails and the caller tries again with any API server, the second call does nothing. *)
Theorem failed_mode_change_not_repeated gvk mode lst lst' f err f' evs : is_Some (GetTypeSyncer gvk f) →
  runs (SetMode gvk mode lst) f err f' evs → runs (SetMode gvk mode lst') f' None f' [].
Proof. apply SetMode_again. Qed.

(** C22. The search for conflicts terminates on every well-formed forest, cycles included, and is exact on the trees: it
    reports nothing if and only if no source in a namespace below a root would be overwritten by a source of that name in
    an ancestor.  ([parses] excludes sources whose tree selector makes the parser panic: the search panics on them.) *)
Theorem conflict_search_exact cfg f gvk mode : wf f → sources_ok f → parses cfg f gvk mode →
  ∃ cs, checkConflictsForGVK cfg f gvk mode = Done cs ∧
  (cs = [] ↔ ∀ x y r onm, rtc (up (parent_name f)) x r → parent_name f r = None → is_Some (f_namespaces f !! r) →
     tc (up (parent_name f)) x y → is_Some (source_at f gvk x onm) → ¬ overwrites cfg f gvk mode y x onm).
Proof. intros Hwf Hok Hp. by apply checkConflictsForGVK_spec. Qed.
End theorems.

(** ** Applications *)
Definition rbacGVK (r : string) : GroupVersionKind := mkGVK RBACGroup "v1" (if decide (r = RoleResource) then "Role" else "RoleBinding").
Definition mapper (gr : GroupResource) : mapError + GroupVersionKind :=
  if decide (gr_Group gr = RBACGroup) then inr (rbacGVK (gr_Resource gr))
  else if decide (gr_Resource gr = "secrets") then inr secretGVK
  else inl (NoMatch "no such resource").

(** The administrator asks for secrets, and for roles to be ignored. *)
Definition wishes : HNCConfiguration :=
  mkHNCConfig (meta_named HNCConfigSingleton)
    [{| rsp_GR := mkGR "" "secrets"; rsp_Mode := AllowPropagate |};
     {| rsp_GR := mkGR RBACGroup RoleResource; rsp_Mode := Ignore |}] [] [].

Definition config_server : configApi :=
  {| ca_get := Found wishes; ca_webhooks := inr [ObjectsWebhookName]; ca_patch := None; ca_isDeletingCRD := inr false;
     ca_create := None; ca_update := None; ca_list _ _ := inr []; ca_setup _ := None |}.

Lemma configured_modes_in_effect_witness :
  ∃ inst1 tb inst' err f' evs, reconcileTypes mapper 0 wishes = (inst1, tb, None) ∧
    runs (syncObjectReconcilers 0 config_server tb inst1) stocked (inst', err) f' evs ∧
    (err = None → mode_of f' secretGVK = Some AllowPropagate ∧ mode_of f' (rbacGVK RoleResource) = Some Propagate).
Proof.
  destruct (configured_modes_in_effect mapper 0 config_server wishes stocked) as (inst1 & tb & Ht & inst' & err & f' & evs & Hr & _ & He).
  - intros t Hin. unfold EnforcedTypes in Hin. rewrite !elem_of_cons, elem_of_nil in Hin. destruct Hin as [->|[->|[]]]; eexists; reflexivity.
  - exists inst1, tb, inst', err, f', evs. split; [exact Ht|]. split; [exact Hr|]. intros Hn. split; rewrite (He Hn); vm_compute; reflexivity.
Defined.

(** The mode changes although the list of objects cannot be read. *)
Definition disturbed : Forest := upd_syncer secretGVK (set_ts_Mode AllowPropagate) stocked.

Lemma failed_mode_change_not_repeated_witness :
  runs (SetMode secretGVK AllowPropagate (λ _, inl "timeout")) stocked (Some "timeout") disturbed [] ∧
  runs (SetMode secretGVK AllowPropagate (λ _, inr [own_secret])) disturbed None disturbed [].
Proof.
  assert (runs (SetMode secretGVK AllowPropagate (λ _, inl "timeout")) stocked (Some "timeout") disturbed []) as Hr.
  { intros tr. rewrite app_nil_r. by vm_compute. }
  split; [exact Hr|]. apply (failed_mode_change_not_repeated secretGVK AllowPropagate (λ _, inl "timeout") _ stocked (Some "timeout") disturbed []);
    [vm_compute; eauto|exact Hr].
Defined.

(** A secret of the same name in c. *)
Definition contested : Forest := SetSourceObject (at_name family "c") (cleanSource objects_config own_secret) stocked.

Definition parses_check (f : Forest) : bool :=
  bool_decide (map_Forall (λ _ l, map_Forall (λ (_ : GroupVersionKind) objs, map_Forall (λ _ o,
    match GetTreeSelector o with Panics => false | _ => true end = true) objs) (ns_sourceObjects (deref f l))) (f_namespaces f)).

Lemma parses_by_tree cfg f gvk mode : parses_check f = true → parses cfg f gvk mode.
Proof.
  intros Hc%bool_decide_eq_true x y onm o Ho. apply ShouldPropagate_safe. unfold source_at, GetSourceObject, ns_at in Ho.
  destruct (f_namespaces f !! y) as [l|] eqn:Hl; [|done].
  destruct (ns_sourceObjects (deref f l) !! gvk) as [objs|] eqn:Hg; [|done].
  specialize (Hc y l Hl gvk objs Hg onm o Ho). simpl in Hc. by destruct (GetTreeSelector o).
Qed.

Lemma conflict_search_exact_witness :
  ∃ cs, checkConflictsForGVK objects_config contested secretGVK Propagate = Done cs ∧
    (cs = [] → ¬ overwrites objects_config contested secretGVK Propagate "a" "c" "creds").
Proof.
  destruct (conflict_search_exact objects_config contested secretGVK Propagate) as (cs & Hcs & Hiff).
  - apply wf_check_sound. by vm_compute.
  - apply sources_check_sound. by vm_compute.
  - apply parses_by_tree. by vm_compute.
  - exists cs. split; [exact Hcs|]. intros Hn. apply (proj1 Hiff Hn "c" "a" "a" "creds").
    + apply rtc_l with "b"; [reflexivity|]. apply rtc_once. reflexivity.
    + reflexivity.
    + vm_compute. eauto.
    + apply tc_l with "b"; [reflexivity|]. apply tc_once. reflexivity.
    + vm_compute. eauto.
Defined.
