(* ===== verification/HrqTheorems.v ===== *)
(** * Theorems on the quota controllers, with concrete instances

    What one reconciliation of a HierarchicalResourceQuota or of the ResourceQuota of
    a namespace does, and what the status webhook admits. *)

From S2P Require Import Prelude GoStrings Chains Validation Api Config Selectors Resources Forest ForestWf ForestWalks ForestReads.
From S2P Require Import Sound World Quotas HrqControllers Instances QuotaTheorems.

Section theorems.
  Context `{RO : RangeOrder} (qstring : Quantity → string).

(** C33. One reconciliation of a live HierarchicalResourceQuota records its limits in the forest and writes the object
    exactly if its status is out of date (the recorded limits or the usage of the subtree).  If that write is refused,
    the reconciliation ends with its error and enqueues nothing, although the limits are recorded; otherwise it enqueues
    the ResourceQuotas of the namespace and of all its descendants exactly if the limits have changed.  A second update
    with the same limits, as in a retry, finds nothing changed. *)
Theorem hrq_reconcile_exact api f ns nm l inst : sound f → f_namespaces f !! ns = Some l →
  hr_get api (mkNN ns nm) = Found inst → om_Namespace (hq_Meta inst) = ns → om_Name (hq_Meta inst) = nm → isDeleted inst = false →
  let '(changed, f') := UpdateLimits l nm (hq_SpecHard inst) f in
  let err := if hrq_stale f l inst then hr_update api else None in
  runs (ReconcileHRQ qstring api (mkNN ns nm)) f err f'
    ((if hrq_stale f l inst then [UpdateHRQ (hrq_synced qstring f l inst)] else []) ++
     (if (changed : bool) && bool_decide (err = None) then TriggerRQ <$> (DescendantNames f' l ++ [ns]) else [])) ∧
  limits_of (deref f' l) !! nm = (if (changed : bool) then Some (hq_SpecHard inst) else limits_of (deref f l) !! nm) ∧
  (UpdateLimits l nm (hq_SpecHard inst) f').1 = false.
Proof.
  intros Hf Hl Hget Hns Hnm Hd. pose proof (ReconcileHRQ_runs qstring api f ns nm l inst Hf Hl Hget Hns Hnm Hd) as Hruns.
  assert (is_Some (f_heap f !! l)) as Hlh by (destruct Hf as [Hwf _]; by eapply wf_name).
  pose proof (UpdateLimits_again l nm (hq_SpecHard inst) f Hlh) as Hagain.
  pose proof (UpdateLimits_records l nm (hq_SpecHard inst) f Hlh) as Hrec.
  destruct (UpdateLimits l nm (hq_SpecHard inst) f) as [changed f']. by split_and!.
Qed.

(** If the API server refuses the update of a HierarchicalResourceQuota whose limits have changed, then no later
    reconciliation of the object with the same limits enqueues the ResourceQuotas that depend on them, whatever the API
    server answers and whatever the usages are by then: the forest has the new limits already. *)
Theorem refused_update_loses_triggers api api' f ns nm l inst inst' e :
  sound f → f_namespaces f !! ns = Some l → hr_get api (mkNN ns nm) = Found inst → om_Namespace (hq_Meta inst) = ns →
  om_Name (hq_Meta inst) = nm → isDeleted inst = false →
  hrq_stale f l inst = true → hr_update api = Some e →
  hr_get api' (mkNN ns nm) = Found inst' → om_Namespace (hq_Meta inst') = ns → om_Name (hq_Meta inst') = nm → isDeleted inst' = false →
  hq_SpecHard inst' = hq_SpecHard inst →
  ∃ f1 f2 err evs, runs (ReconcileHRQ qstring api (mkNN ns nm)) f (Some e) f1 [UpdateHRQ (hrq_synced qstring f l inst)] ∧
    runs (ReconcileHRQ qstring api' (mkNN ns nm)) f1 err f2 evs ∧ ∀ n, TriggerRQ n ∉ evs.
Proof.
  intros Hf Hl Hget Hns Hnm Hd Hst Hup Hget' Hns' Hnm' Hd' Hsp.
  pose proof (ReconcileHRQ_runs qstring api f ns nm l inst Hf Hl Hget Hns Hnm Hd) as H1.
  assert (is_Some (f_heap f !! l)) as Hlh by (destruct Hf as [Hwf _]; by eapply wf_name).
  pose proof (UpdateLimits_again l nm (hq_SpecHard inst) f Hlh) as Hagain.
  pose proof (UpdateLimits_vitals l nm (hq_SpecHard inst) f) as Hvit.
  destruct (UpdateLimits l nm (hq_SpecHard inst) f) as [changed f1]. cbn [fst snd] in *.
  rewrite Hst, Hup in H1. cbv zeta in H1. rewrite bool_decide_false, andb_false_r, app_nil_r in H1 by done.
  pose proof (ReconcileHRQ_runs qstring api' f1 ns nm l inst') as H2. rewrite Hsp in H2.
  specialize (H2 (sound_vitals _ _ Hvit Hf)). rewrite (proj1 Hvit) in Hl. specialize (H2 Hl Hget' Hns' Hnm' Hd').
  destruct (UpdateLimits l nm (hq_SpecHard inst) f1) as [changed' f2]. cbn in Hagain. subst changed'. cbn in H2. rewrite app_nil_r in H2.
  exists f1, f2. do 2 eexists. split_and!; [exact H1|exact H2|]. intros n.
  destruct (hrq_stale f1 l inst'); [by intros ?%list_elem_of_singleton|by intros ?%elem_of_nil].
Qed.

(** C34. One reconciliation of the ResourceQuota of a namespace, whether or not the object exists and whatever the API
    server answers to its write: it records the usage in the forest, enqueues exactly the quotas of the namespace and its
    ancestors, and then asks for at most one write, that of the limits that the forest has for the namespace.  The object
    is created or updated if they differ from its own, and deleted if it has none and the forest has none; an object
    whose last limit has just disappeared is thus first updated to empty limits, not deleted.  The reconciliation ends
    with an error exactly if the write is refused; a refused creation or update is reported on the quotas of the
    namespace and its ancestors that can be read. *)
Theorem rq_reconcile_exact api f ns l inst : wf f → f_namespaces f !! ns = Some l →
  rq_getSingleton api ns = inr inst → om_Namespace (rq_Meta inst) = ns →
  let f' := UseResources l (rq_Used inst) f in
  let writes := rq_writes inst (Limits f l) in
  (∃ err, runs (ReconcileRQ api (mkNN ns ResourceQuotaSingleton)) f err f'
      (triggers (allSubtreeHRQs f' l) ++ writes ++ (writes ≫= rq_warnings api (allSubtreeHRQs f' l) ns)) ∧
    (err = None ↔ Forall (λ e, rq_refused api e = None) writes)) ∧
  ∀ a q, mkNN a q ∈ allSubtreeHRQs f' l ↔ a ∈ AncestryNames f' (Some l) ∧ is_Some (limits_of (ns_at f' a) !! q).
Proof.
  intros Hwf Hl Hg Hn f' writes. split; [|intros a q; apply elem_of_allSubtreeHRQs].
  exact (ReconcileRQ_runs api f ns l inst Hwf Hl Hg Hn).
Qed.

End theorems.

(** ** Applications *)
Definition show : Quantity → string := ItoaZ.
Definition quota_b (n used : Z) : HierarchicalResourceQuota :=
  mkHRQ (mkMeta "qb" "b" None None [] (Some 1%Z) None "1") (pods n) (pods n) (pods used) "" "".
Lemma budget_sound : sound budget.
Proof. split; [apply budget_wf|apply cycles_check_sound; [apply budget_wf|by vm_compute]]. Qed.

Definition hrq_server (q : HierarchicalResourceQuota) : hrqApi := {| hr_get _ := Found q; hr_update := None |}.

(** The quota of b is raised to eight pods: the object is up to date, the limits are not. *)
Lemma hrq_reconcile_exact_witness :
  let f' := (UpdateLimits (at_name family "b") "qb" (pods 8) budget).2 in
  runs (ReconcileHRQ show (hrq_server (quota_b 8 2)) (mkNN "b" "qb")) budget None f' [TriggerRQ "c"; TriggerRQ "b"].
Proof.
  pose proof (hrq_reconcile_exact show (hrq_server (quota_b 8 2)) budget "b" "qb" (at_name family "b") (quota_b 8 2)) as H.
  specialize (H budget_sound eq_refl eq_refl eq_refl eq_refl eq_refl).
  assert ((UpdateLimits (at_name family "b") "qb" (pods 8) budget).1 = true) as Hc by (by vm_compute).
  assert (hrq_stale budget (at_name family "b") (quota_b 8 2) = false) as Hst by (by vm_compute).
  assert (DescendantNames (UpdateLimits (at_name family "b") "qb" (pods 8) budget).2 (at_name family "b") = ["c"]) as Hd by (by vm_compute).
  change (hq_SpecHard (quota_b 8 2)) with (pods 8) in H.
  destruct (UpdateLimits (at_name family "b") "qb" (pods 8) budget) as [changed f']. cbn [fst snd] in *.
  rewrite Hc, Hst, Hd in H. exact (proj1 H).
Defined.

(** The same quota with an old status, and an API server that refuses the update. *)
Definition stale_quota_b : HierarchicalResourceQuota :=
  mkHRQ (mkMeta "qb" "b" None None [] (Some 1%Z) None "1") (pods 8) (pods 5) (pods 2) "" "".
Definition refusing_server : hrqApi := {| hr_get _ := Found stale_quota_b; hr_update := Some "conflict" |}.

Lemma refused_update_loses_triggers_witness : ∃ f1 f2 err evs,
  runs (ReconcileHRQ show refusing_server (mkNN "b" "qb")) budget (Some "conflict") f1
    [UpdateHRQ (hrq_synced show budget (at_name family "b") stale_quota_b)] ∧
  runs (ReconcileHRQ show (hrq_server stale_quota_b) (mkNN "b" "qb")) f1 err f2 evs ∧ ∀ n, TriggerRQ n ∉ evs.
Proof.
  apply (refused_update_loses_triggers show refusing_server (hrq_server stale_quota_b) budget "b" "qb" (at_name family "b") stale_quota_b stale_quota_b);
    first [exact budget_sound|reflexivity|by vm_compute].
Defined.

Definition quota_of_c (lim used : Z) : ResourceQuota :=
  mkRQ (mkMeta ResourceQuotaSingleton "c" None None [] (Some 1%Z) None "1") (pods lim) (pods used).
Definition rq_server (q : ResourceQuota) (update : option string) : rqApi :=
  {| ra_get _ := Found q; ra_getHRQ nnm := if decide (nn_name nnm = "qb") then Found (quota_b 5 2) else NotFound;
     ra_create := None; ra_update := update; ra_delete := None |}.

(** The update is refused, and the quota of b, the only one that can be read, gets a warning. *)
Lemma rq_reconcile_exact_witness :
  ∃ err, runs (ReconcileRQ (rq_server (quota_of_c 9 3) (Some "rq: conflict")) (mkNN "c" ResourceQuotaSingleton)) budget err
    (UseResources (at_name family "c") (pods 3) budget)
    ([TriggerHRQ "a" "qa"; TriggerHRQ "b" "qb"] ++ [UpdateRQ (set_SpecHard (Limits budget (at_name family "c")) (quota_of_c 9 3));
      WarnHRQ (quota_b 5 2) (rq_warning "c" "rq: conflict")]) ∧ err ≠ None.
Proof.
  destruct (rq_reconcile_exact (rq_server (quota_of_c 9 3) (Some "rq: conflict")) budget "c" (at_name family "c") (quota_of_c 9 3))
    as [(err & H & Herr) _]; [apply budget_wf|reflexivity..|].
  exists err. change (rq_Used (quota_of_c 9 3)) with (pods 3) in H.
  assert (allSubtreeHRQs (UseResources (at_name family "c") (pods 3) budget) (at_name family "c") = [mkNN "a" "qa"; mkNN "b" "qb"]) as Ht by (by vm_compute).
  assert (rq_writes (quota_of_c 9 3) (Limits budget (at_name family "c")) =
    [UpdateRQ (set_SpecHard (Limits budget (at_name family "c")) (quota_of_c 9 3))]) as Hw.
  { unfold rq_writes. assert (Equals (Limits budget (at_name family "c")) (rq_SpecHard (quota_of_c 9 3)) = false) as -> by (by vm_compute).
    reflexivity. }
  rewrite Ht, Hw in H. rewrite Hw, Forall_singleton in Herr. split; [exact H|]. rewrite Herr. discriminate.
Defined.

(** A quota object whose last limit is gone is updated, not deleted. *)
Definition unlimited_c : ResourceQuota := quota_of_c 5 2.
Theorem obsolete_singleton_updated_first :
  items (Limits family (at_name family "c")) = ∅ ∧
  rq_writes unlimited_c (Limits family (at_name family "c")) = [UpdateRQ (set_SpecHard (Limits family (at_name family "c")) unlimited_c)].
Proof. split; by vm_compute. Qed.

