(* ===== verification/SystemTheorems.v ===== *)
(** * Theorems on the whole system, with concrete instances

    The invariant of the shared forest under every interleaving of the controllers
    and webhooks, and what the components rely on because of it. *)

From S2P Require Import Prelude GoStrings Chains Validation Api Config Selectors Resources Forest ForestWf ForestWalks Quotas.
From S2P Require Import ForestReads HierarchyValidator Sound World Objects Propagation HncConfig HierarchyReconciler HierarchyInvariant.
From S2P Require Import ParentSync System Instances HierarchyTheorems PropagationTheorems ConfigTheorems HrqTheorems.

Section theorems.
  Context `{RO : RangeOrder} `{RX : RegexpLib} `{SL : SelectorLib} (cfg : Config) (qstring : Quantity → string)
    (mapper : GroupResource → mapError + GroupVersionKind).

(** C1. The invariant of the system: whatever sequence of reconciliations and admission requests has run, with whatever
    answers of the API server, the names, parent pointers and child maps of the forest are consistent and every cycle of
    parents has a member in which all activity is halted. *)
Theorem reachable_forests_sound f : reachable cfg qstring mapper f → wf f ∧ cycles_halted f.
Proof. apply reachable_sound. Qed.

(** C7. The hierarchy reconciler never panics or hangs: in every reachable forest, its run on any namespace returns and
    leads to a reachable forest again. *)
Theorem hierarchy_reconciler_total f now api nm : reachable cfg qstring mapper f → faithful api → nm ≠ "" →
  ∃ r w, HierarchyReconciler.Reconcile cfg now api nm (mkWorld f []) = Done (r, w) ∧ reachable cfg qstring mapper (w_forest w).
Proof.
  intros Hr Hf Hne. pose proof (reachable_sound _ _ _ _ Hr) as Hs.
  destruct (Reconcile_ok cfg now api nm Hf Hne (mkWorld f []) Hs) as (r & w & Hw & _). exists r, w. split; [done|].
  eapply rtc_r; [exact Hr|]. by eapply step_hierarchy.
Qed.

(** C8. The forest follows the configuration: in every reachable forest, the reconciliation of a managed namespace gives
    it exactly the parent that is asked for (none if it is managed externally, else the one of its subnamespace
    annotation unless it is being deleted, else the one of its HierarchyConfiguration) and changes the parent of no other
    namespace. *)
Theorem reconciliation_establishes_parent f now api nm i hc del anms : reachable cfg qstring mapper f → faithful api → nm ≠ "" →
  IsManagedNamespace cfg nm = true → aa_getNamespace api nm = Found i →
  getSingleton api nm = inr (hc, del) → (del = true → IsZero (om_CreationTimestamp (hc_Meta hc)) = false) →
  getAnchorNames api nm = inr anms →
  (∀ err, aa_getAnchor api (sget (items (ns_Annotations i)) SubnamespaceOf) nm ≠ ApiError err) →
  ∃ r w, HierarchyReconciler.Reconcile cfg now api nm (mkWorld f []) = Done (r, w) ∧
    ∀ x, parent_name (w_forest w) x = if decide (x = nm) then wanted_parent i hc else parent_name f x.
Proof.
  intros Hr Hfa Hne Hm Hi Hs Hd Ha Hpa.
  destruct (Reconcile_parent cfg now api nm i hc del anms (mkWorld f []) Hfa Hne (reachable_sound _ _ _ _ Hr) Hm Hi Hs Hd Ha Hpa)
    as (r & w & Hw & _ & Hp). exists r, w. split; [exact Hw|exact Hp].
Qed.

(** C9. No writes around cycles: in every reachable forest, reconciling any name of an object, in a namespace that is on a
    cycle of parents or below one, returns and writes nothing to the API server: no missing copy is created, no stale copy
    is updated and no obsolete copy is deleted, whatever the server answers (the object, that there is none, or an error).
    The conditions on the name are those of a running system: its type is known, the server answers with the object of
    that name, and no source of that name above the namespace has a tree selector that makes the parser panic. *)
Theorem no_writes_below_cycles gvk mode api nnm f t y : reachable cfg qstring mapper f →
  sources_ok f → nn_name nnm ≠ "" → GetTypeSyncer gvk f = Some t →
  selectors_parse cfg gvk mode f (nn_namespace nnm) (nn_name nnm) →
  (∀ o, ob_get api nnm = Found o → om_Namespace (u_Meta o) = nn_namespace nnm ∧ om_Name (u_Meta o) = nn_name nnm ∧
     u_GVK o = gvk ∧ u_exists o = true) →
  rtc (up (parent_name f)) (nn_namespace nnm) y → in_cycle (parent_name f) y →
  ∃ err f' evs, runs (Objects.Reconcile cfg gvk mode api nnm) f err f' evs ∧ writes evs = [].
Proof.
  intros Hr Hok Hne Ht Hp Hfa Hy Hc. pose proof (reachable_sound _ _ _ _ Hr) as [Hwf Hch]. destruct (Hch y Hc) as (z & Hz & Hh).
  assert (is_Some (f_namespaces f !! nn_namespace nnm)) as [l Hl].
  { apply tc_up_inv in Hc as (w & Hw & _). destruct (up_live f Hwf _ _ Hw) as [Hly _].
    inversion Hy as [|? w' ? Hw']; subst; [done|]. by destruct (up_live f Hwf _ _ Hw'). }
  destruct (GetHaltedRoot_blocked f Hwf Hch _ l z Hl ltac:(by etrans) Hh) as (root & Hroot & Hroot').
  by eapply Reconcile_halted.
Qed.

(** ** Moves of namespaces, through the webhook and the reconciler *)

(** The API server has the configuration [hc] for the namespace, which HNC manages and which is no subnamespace. *)
Record serves (api : apiAnswers) (nm : string) (hc : HierarchyConfiguration) : Prop := {
  sv_faithful : faithful api;
  sv_name : nm ≠ "";
  sv_managed : IsManagedNamespace cfg nm = true;
  sv_namespace : ∃ i, aa_getNamespace api nm = Found i ∧ external_ns i = false ∧ subnamespace_of i = "" ∧
    ∀ err, aa_getAnchor api (sget (items (ns_Annotations i)) SubnamespaceOf) nm ≠ ApiError err;
  sv_singleton : getSingleton api nm = inr (hc, false);
  sv_anchors : ∃ anms, getAnchorNames api nm = inr anms
}.

(** A user asks for a configuration, the webhook admits it, and the reconciler of the namespace finds it in the API server. *)
Inductive move (f : Forest) : Forest → Prop :=
  | admitted_and_reconciled server req resp f1 now api r w :
      IsHNCServiceAccount cfg (Some (r_ui req)) = false →
      HierarchyValidator.handle cfg server req f = Done (resp, f1) → Allowed resp = true →
      serves api (om_Namespace (hc_Meta (r_hc req))) (r_hc req) →
      HierarchyReconciler.Reconcile cfg now api (om_Namespace (hc_Meta (r_hc req))) (mkWorld f1 []) = Done (r, w) →
      move f (w_forest w).

Lemma move_reaches f f' : reachable cfg qstring mapper f → move f f' → reachable cfg qstring mapper f'.
Proof.
  intros Hr Hm. destruct Hm as [server req resp f1 now api r w _ Hh _ Hsv Hrec].
  eapply rtc_r; [eapply rtc_r; [exact Hr|by eapply step_hierarchy_webhook]|].
  eapply step_hierarchy; [apply Hsv|apply Hsv|exact Hrec].
Qed.

Lemma move_acyclic f f' : sound f → acyclic (parent_name f) → move f f' → acyclic (parent_name f').
Proof.
  intros Hs Hac Hm. destruct Hm as [server req resp f1 now api r w Hsa Hh Ha Hsv Hrec].
  pose proof (moved_acyclic cfg server req f resp f1 (proj1 Hs) Hac Hsa Hh Ha) as Hmv.
  assert (extends f f1) as Hx by (eapply handle_reads; [apply Hs|exact Hh]).
  destruct (sv_namespace _ _ _ Hsv) as (i & Hi & Hext & Hsub & Hanch). destruct (sv_anchors _ _ _ Hsv) as [anms Hanms].
  destruct (Reconcile_parent cfg now api _ i _ false anms (mkWorld f1 []) (sv_faithful _ _ _ Hsv) (sv_name _ _ _ Hsv)
    (sound_extends _ _ Hx Hs) (sv_managed _ _ _ Hsv) Hi (sv_singleton _ _ _ Hsv) ltac:(done) Hanms Hanch) as (r' & w' & Hrec' & _ & Hp).
  rewrite Hrec in Hrec'. injection Hrec' as <- <-.
  assert (∀ x, parent_name (w_forest w) x = moved f (om_Namespace (hc_Meta (r_hc req))) (hcs_Parent (hc_Spec (r_hc req))) x) as Heq.
  { intros x. rewrite (Hp x). unfold moved, wanted_parent. rewrite Hext, Hsub. simpl.
    destruct (decide (x = _)); [done|]. by rewrite (extends_parent f f1 (proj1 Hs) Hx). }
  intros x Hc. apply (Hmv x). revert Hc. apply tc_mono. intros a b. unfold up. by rewrite Heq.
Qed.

(** C4. Moves never close a cycle: start from a forest that the system can reach and that has no cycle, let users ask for
    any configurations of namespaces, and let the reconciler act on those that the webhook admits, one after the other.
    The forest never has a cycle of parents, and each of them is a forest that the system can reach. *)
Theorem admitted_moves_never_cycle f f' : reachable cfg qstring mapper f → acyclic (parent_name f) → rtc move f f' →
  reachable cfg qstring mapper f' ∧ acyclic (parent_name f').
Proof.
  intros Hr Hac Hm. induction Hm as [|f g h Hfg _ IH]; [done|]. apply IH; [by eapply move_reaches|].
  eapply move_acyclic; [by eapply reachable_sound|done|done].
Qed.
End theorems.

(** ** Applications *)

(** The forest after a run, and whether the run returned. *)
Definition after {Ev A} (m : M (World Ev) A) (f : Forest) : Forest :=
  match m (mkWorld f []) with Done (_, w) => w_forest w | _ => f end.
Definition returned {Ev A} (m : M (World Ev) A) (f : Forest) : bool :=
  match m (mkWorld f []) with Done _ => true | _ => false end.

Lemma returned_Done {Ev A} (m : M (World Ev) A) f : returned m f = true → ∃ r w, m (mkWorld f []) = Done (r, w) ∧ w_forest w = after m f.
Proof. unfold returned, after. destruct (m (mkWorld f [])) as [[r w]| |]; [eauto|done..]. Qed.

(** An API server in which [nm] has the parent [parent]. *)
Definition hierarchy_server (nm parent : string) : apiAnswers :=
  {| aa_getNamespace x := if decide (x = nm) then Found (plain_ns nm) else NotFound;
     aa_getHC _ := Found (hierarchy_of nm parent); aa_isDeletingCRD := inr false; aa_listAnchors _ := Found [];
     aa_getAnchor _ _ := NotFound; aa_createHC := None; aa_updateHC := None; aa_updateNS := None |}.

Lemma hierarchy_server_faithful nm parent : faithful (hierarchy_server nm parent).
Proof. intros x i. simpl. destruct (decide (x = nm)) as [->|]; [|done]. by intros [= <-]. Qed.

Definition sync (nm parent : string) (f : Forest) : Forest :=
  after (HierarchyReconciler.Reconcile quiet_config 0 (hierarchy_server nm parent) nm) f.

(** Two namespaces ask for each other as parents, and secrets are configured. *)
Definition entangled : Forest := after (HncConfig.Reconcile mapper 0 config_server) (sync "q" "p" (sync "p" "q" NewForest)).

Lemma sync_reachable nm parent f : nm ≠ "" →
  returned (HierarchyReconciler.Reconcile quiet_config 0 (hierarchy_server nm parent) nm) f = true →
  reachable quiet_config show mapper f → reachable quiet_config show mapper (sync nm parent f).
Proof.
  intros Hne (r & w & Hw & Hf)%returned_Done Hr. unfold sync. rewrite <- Hf. eapply rtc_r; [exact Hr|].
  eapply step_hierarchy; [apply hierarchy_server_faithful|exact Hne|exact Hw].
Qed.

Lemma entangled_reachable : reachable quiet_config show mapper entangled.
Proof.
  assert (reachable quiet_config show mapper (sync "q" "p" (sync "p" "q" NewForest))) as Hr.
  { apply sync_reachable; [done|by vm_compute|]. apply sync_reachable; [done|by vm_compute|]. apply rtc_refl. }
  destruct (returned_Done (HncConfig.Reconcile mapper 0 config_server) (sync "q" "p" (sync "p" "q" NewForest))) as (r & w & Hw & Hf); [by vm_compute|].
  unfold entangled. rewrite <- Hf. eapply rtc_r; [exact Hr|]. eapply step_config. exact Hw.
Qed.

Lemma reachable_forests_sound_witness : wf entangled ∧ cycles_halted entangled.
Proof. exact (reachable_forests_sound quiet_config show mapper entangled entangled_reachable). Defined.

Lemma hierarchy_reconciler_total_witness :
  ∃ r w, HierarchyReconciler.Reconcile quiet_config 0 (hierarchy_server "r" "q") "r" (mkWorld entangled []) = Done (r, w) ∧
    reachable quiet_config show mapper (w_forest w).
Proof.
  apply (hierarchy_reconciler_total quiet_config show mapper entangled 0 (hierarchy_server "r" "q") "r");
    [apply entangled_reachable|apply hierarchy_server_faithful|discriminate].
Defined.

Lemma reconciliation_establishes_parent_witness :
  ∃ r w, HierarchyReconciler.Reconcile quiet_config 0 (hierarchy_server "r" "q") "r" (mkWorld entangled []) = Done (r, w) ∧
    parent_name (w_forest w) "r" = Some "q".
Proof.
  destruct (reconciliation_establishes_parent quiet_config show mapper entangled 0 (hierarchy_server "r" "q") "r" (plain_ns "r")
    (hierarchy_of "r" "q") false []) as (r & w & Hw & Hp).
  - apply entangled_reachable.
  - apply hierarchy_server_faithful.
  - discriminate.
  - reflexivity.
  - reflexivity.
  - reflexivity.
  - discriminate.
  - reflexivity.
  - discriminate.
  - exists r, w. split; [exact Hw|]. rewrite (Hp "r"). reflexivity.
Defined.

(** Three namespaces without parents. *)
Definition three_roots : Forest := sync "r" "" (sync "q" "" (sync "p" "" NewForest)).
Lemma three_roots_reachable : reachable quiet_config show mapper three_roots.
Proof. repeat (apply sync_reachable; [done|by vm_compute|]). apply rtc_refl. Qed.

Definition request_parent (nm parent : string) : request := {| r_hc := hierarchy_of nm parent; r_ui := user |}.
Lemma server_serves nm parent : nm ≠ "" → IsManagedNamespace quiet_config nm = true →
  serves quiet_config (hierarchy_server nm parent) nm (hierarchy_of nm parent).
Proof.
  intros Hne Hm. split; [apply hierarchy_server_faithful|done|done| |reflexivity|by exists []].
  exists (plain_ns nm). simpl. rewrite decide_True by done. by split_and!.
Qed.
(** What the webhook and the reconciler do with a request. *)
Definition admitted_now (nm parent : string) (f : Forest) : option Forest :=
  match HierarchyValidator.handle quiet_config all_admin (request_parent nm parent) f with
  | Done (resp, f') => if Allowed resp then Some f' else None
  | _ => None
  end.
Lemma move_here nm parent f f1 : nm ≠ "" → IsManagedNamespace quiet_config nm = true → admitted_now nm parent f = Some f1 →
  returned (HierarchyReconciler.Reconcile quiet_config 0 (hierarchy_server nm parent) nm) f1 = true →
  move quiet_config f (sync nm parent f1).
Proof.
  unfold admitted_now. intros Hne Hm Ha (r & w & Hw & Hf)%returned_Done.
  destruct (HierarchyValidator.handle _ _ _ _) as [[resp g]| |] eqn:Hh; [|done..]. destruct (Allowed resp) eqn:Hal; [|done].
  injection Ha as ->. unfold sync. rewrite <- Hf.
  eapply (admitted_and_reconciled _ _ all_admin (request_parent nm parent)); [reflexivity|exact Hh|exact Hal|by apply server_serves|exact Hw].
Qed.

(** r is moved below q, and then q below p. *)
Definition moved_r : Forest := sync "r" "q" (default NewForest (admitted_now "r" "q" three_roots)).
Definition moved_q : Forest := sync "q" "p" (default NewForest (admitted_now "q" "p" moved_r)).

Lemma admitted_moves_never_cycle_witness :
  parent_name moved_q "r" = Some "q" ∧ parent_name moved_q "q" = Some "p" ∧
  reachable quiet_config show mapper moved_q ∧ acyclic (parent_name moved_q).
Proof.
  split; [by vm_compute|]. split; [by vm_compute|].
  apply (admitted_moves_never_cycle quiet_config show mapper three_roots moved_q).
  - apply three_roots_reachable.
  - apply acyclic_check_sound; [apply (reachable_sound _ _ _ _ three_roots_reachable)|by vm_compute].
  - assert (admitted_now "r" "q" three_roots = Some (default NewForest (admitted_now "r" "q" three_roots))) as H1 by by vm_compute.
    assert (admitted_now "q" "p" moved_r = Some (default NewForest (admitted_now "q" "p" moved_r))) as H2 by by vm_compute.
    eapply rtc_l; [eapply (move_here "r" "q"); [discriminate|reflexivity|exact H1|by vm_compute]|].
    eapply rtc_l; [eapply (move_here "q" "p"); [discriminate|reflexivity|exact H2|by vm_compute]|]. apply rtc_refl.
Defined.

Definition first_admitted : Forest := default NewForest (admitted_now "p" "q" three_roots).
Definition both_admitted : Forest := default NewForest (admitted_now "q" "p" first_admitted).
Definition crossed : Forest := sync "q" "p" (sync "p" "q" both_admitted).
(** Moves must not overlap for that: two requests that are admitted before either is reconciled can close a cycle, in which
    the reconciler then halts all activity; once the first is reconciled the second is rejected. *)
Theorem overlapping_moves_cycle :
  is_Some (admitted_now "p" "q" three_roots) ∧ is_Some (admitted_now "q" "p" first_admitted) ∧
  in_cycle (parent_name crossed) "p" ∧ halted_name crossed "q" ∧
  admitted_now "q" "p" (sync "p" "q" first_admitted) = None.
Proof.
  split_and!; [by vm_compute; eexists..| | |by vm_compute].
  - apply tc_l with "q"; [by vm_compute|]. apply tc_once. by vm_compute.
  - by vm_compute.
Qed.

(** The secret of q, which is on the cycle with p, is what p should have a copy of. *)
Definition secret_of_q : objectApi := object_server (Found (secret "creds" "q" "s3cret" ∅ ∅)).
Definition stocked_cycle : Forest := after (Objects.Reconcile quiet_config secretGVK Propagate secret_of_q (mkNN "q" "creds")) entangled.
Definition creds_in_p : NamespacedName := mkNN "p" "creds".

Lemma stocked_cycle_reachable : reachable quiet_config show mapper stocked_cycle.
Proof.
  destruct (returned_Done (Objects.Reconcile quiet_config secretGVK Propagate secret_of_q (mkNN "q" "creds")) entangled)
    as (r & w & Hw & Hf); [by vm_compute|].
  unfold stocked_cycle. rewrite <- Hf. eapply rtc_r; [apply entangled_reachable|]. eapply step_object. exact Hw.
Qed.

Lemma no_writes_below_cycles_witness :
  is_Some (desired quiet_config secretGVK Propagate stocked_cycle "p" "creds") ∧
  ∃ err f' evs, runs (Objects.Reconcile quiet_config secretGVK Propagate (object_server NotFound) creds_in_p) stocked_cycle err f' evs ∧
    writes evs = [].
Proof.
  split; [vm_compute; eauto|].
  assert (∃ t, GetTypeSyncer secretGVK stocked_cycle = Some t) as [t Ht] by (vm_compute; eauto).
  apply (no_writes_below_cycles quiet_config show mapper secretGVK Propagate (object_server NotFound) creds_in_p stocked_cycle t "p").
  - apply stocked_cycle_reachable.
  - apply sources_check_sound. by vm_compute.
  - discriminate.
  - exact Ht.
  - apply parse_check_sound. by vm_compute.
  - discriminate.
  - apply rtc_refl.
  - apply tc_l with "q"; [by vm_compute|]. apply tc_once. by vm_compute.
Defined.
