(* ===== verification/TreeApiTheorems.v ===== *)
(** * Theorems on the aggregated API server, with concrete instances

    The table of resource types follows the cluster, listed types can be requested, a
    list of a tree has the objects of exactly the namespaces in the subtree whatever the
    schedule of the concurrent requests, a watch of a tree forwards the events of its
    namespaces in their order and always ends, and only authenticated clients are served. *)

From Stdlib Require Import Ascii String.
From S2P Require Import Prelude GoStrings Chains Validation Api Config Selectors Resources Forest ForestWf.
From S2P Require Import TreeLabels Discovery TreeApi TreeWatch Flags ApiExtServer Instances.

(** C23. The table of resource types converges as long as refreshes do not overlap (each has stored its answer before the
    next asks the discovery API): whenever nothing is left to do (no event, refresh or retry is outstanding) the list is
    the one for what the cluster has, and each of its types is found under its name with its current entry; and from every
    state such a state can be reached without further changes of the cluster: no refresh is lost, failed ones included.
    (When refreshes overlap the table can stay out of date, see overlapping_refreshes_stale, and types that are gone are
    still found, see removed_types_still_found.) *)
Theorem resource_table_converges h d n s : rtc (exclusive h) (starting d n) s →
  (settled s → up_to_date h s) ∧
  ∃ s', rtc (exclusive h) s s' ∧ settled s' ∧ w_cluster s' = w_cluster s ∧ up_to_date h s'.
Proof.
  intros Hr. assert (length (w_inflight s) ≤ 1) as Hlen.
  { apply rtc_inv_r in Hr as [<-|(s1 & _ & _ & ?)]; [simpl; lia|done]. }
  assert (∀ s', rtc (exclusive h) s s' → settled s' → up_to_date h s') as Hup.
  { intros s' Hr' Hset. destruct (watch_invariant h (starting d n) s') as [??]; [done|left; simpl; lia|by etrans|].
    by apply settled_fresh. }
  split; [by apply Hup|]. destruct (settles h s Hlen) as (s' & Hr' & Hset & Hd). exists s'. eauto.
Qed.

(** Listed types can be requested: in every state of the watcher, overlapping refreshes included, a request under
    the name of a listed type is understood as that type: the group and resource that make up the name, with the version
    of a listed entry of that name. *)
Theorem listed_resources_requestable h d n s r : rtc (wstep h) (starting d n) s → r ∈ List (w_watcher s) →
  HasPrefix (ar_Name r) "." = false →
  ∃ r' group name, r' ∈ List (w_watcher s) ∧ ar_Name r' = ar_Name r ∧ qualified group name = ar_Name r ∧
    gvrFromVars (w_watcher s) (ar_Name r) = inr (group, ar_Version r', name).
Proof.
  intros Hr Hin Hp. assert (covered (w_watcher s)) as Hc by (eapply covered_reachable; [done|by intros ? ?%elem_of_nil]).
  destruct (Hc r Hin) as (r' & Hin' & Hnm & Hl).
  destruct (gvrFromVars_lookup _ _ _ Hp Hl) as (g & nm & Hg & Hq). by exists r', g, nm.
Qed.

Section lists.
  Context (kindFor : string * string * string → serverError + string).
  Context (Parse : string → string + (gmap string string → bool)) (DecodeParameters : list (string * string) → ListOptions).

(** What the handler relies on in the label library: a label key parses to the selector for its presence. *)
Definition parses_keys : Prop := ∀ k, IsQualifiedName k = [] → ∃ sel, Parse k = inr sel ∧ ∀ ls, sel ls = true ↔ is_Some (ls !! k).

(** What the API server promises for the lists of the namespaces: an answer that is not a table has objects of the
    namespace that match the selectors of the request ([matching]), and all of them if the request has no limit and is not
    the continuation of another. *)
Record lists (client : resourceClient) (opts : ListOptions) (matching : string → list Unstructured) : Prop := {
  ls_list ns : rc_List client opts (Some ns) ≠ inr None;
  ls_sound ns l o : rc_List client opts (Some ns) = inr (Some l) → o ∈ ul_Items l → o ∈ matching ns;
  ls_complete ns l o : rc_List client opts (Some ns) = inr (Some l) → lo_Limit opts = 0%Z → lo_Continue opts = "" →
    ul_rows l = [] → o ∈ matching ns → o ∈ ul_Items l
}.

Lemma listHandler_body gvr client namespaces opts ops gvr' kind rv its :
  listHandler kindFor gvr client namespaces opts (Done ops) → WriteJson (ListBody gvr' kind rv its) ∈ ops →
  ∃ answers latest gathered_items, Forall2 (λ ns a, rc_List client opts (Some ns) = inr a) namespaces answers ∧
    (∃ columns, gathered (omap id answers) gathered_items [] latest columns) ∧ sortItems gathered_items its ∧
    Done ops = respond kindFor gvr client its [] latest None ∧ gvr' = gvr.
Proof.
  intros Hl Hin. inversion Hl as [answers items rows latest columns its' rows' Hall Hg Hsi Hsr Heq|ns err _ _ Heq|ns err _ _ _ Heq].
  - exists answers, latest, items. unfold respond in *.
    destruct (if decide _ then _ else _) as [[err|rv']| |]; [|..|done|done].
    + injection Heq as <-. by apply list_elem_of_singleton in Hin.
    + destruct rows' as [|r rows'].
      2:{ injection Heq as <-. by apply list_elem_of_singleton in Hin. }
      assert (rows = []) as -> by (destruct Hsr as [Hp _]; by apply Permutation_nil_l in Hp).
      destruct (kindFor gvr) as [err|k]; injection Heq as <-; apply list_elem_of_singleton in Hin; [done|].
      injection Hin as <- <- <- <-. split_and!; eauto.
  - subst. by apply list_elem_of_singleton in Hin.
  - subst. by apply list_elem_of_singleton in Hin.
Qed.

(** The namespaces with the tree label of a namespace are those of its subtree. *)
Lemma tree_namespaces_subtree f cache namespace sel :
  (∀ ls, sel ls = true ↔ is_Some (ls !! (namespace +:+ hnsLabelSuffix))) →
  (∀ x ls, (x, ls) ∈ cache → is_Some (ls !! tree_key namespace) ↔ rtc (up (parent_name f)) x namespace) →
  ∀ x, x ∈ tree_namespaces sel cache ↔ (∃ ls, (x, ls) ∈ cache) ∧ rtc (up (parent_name f)) x namespace.
Proof.
  intros Hsel Hcache x. unfold tree_namespaces. rewrite list_elem_of_fmap. split.
  - intros ([y ls] & -> & [Hm Hc]%list_elem_of_filter). split; [by exists ls|]. apply (Hcache _ ls Hc), Hsel, Hm.
  - intros [(ls & Hc) Hr]. exists (x, ls). split; [done|]. apply list_elem_of_filter. split; [|done].
    apply Hsel, (Hcache x ls); done.
Qed.

(** C14. A list of a tree is exact: if the tree labels in the namespace cache are those that the reconciler maintains, then
    whatever the schedule of the requests to the namespaces, an answer with items has, sorted by namespace and name, exactly
    the objects that the API server answers for the named namespace and each of its descendants, asked with the options of
    the request (its selectors and its limit); no namespace of the subtree failed to answer.  So by what the API server
    promises for lists, all of them are matching objects of the subtree, and if the request has no limit and continues no
    other they are all the matching objects.  (With a limit each namespace may be cut off, and the answer has no token to
    continue with: see limited_list_truncated.) *)
Theorem tree_list_exact f apis clientGetter cache namespace resource query ops gvr kind rv its :
  parses_keys → IsDNS1123Label namespace = [] →
  (∀ x ls, (x, ls) ∈ cache → is_Some (ls !! tree_key namespace) ↔ rtc (up (parent_name f)) x namespace) →
  NamespaceHandler kindFor Parse DecodeParameters apis clientGetter (inr cache) namespace resource query (Done ops) →
  WriteJson (ListBody gvr kind rv its) ∈ ops →
  let opts := DecodeParameters query in
  let subtree x := (∃ ls, (x, ls) ∈ cache) ∧ rtc (up (parent_name f)) x namespace in
  ∃ client, gvrFromVars apis resource = inr gvr ∧ clientGetter gvr = inr client ∧ StronglySorted item_le its ∧
    (∀ x, subtree x → ∃ a, rc_List client opts (Some x) = inr a) ∧
    (∀ o, o ∈ its ↔ ∃ x l, subtree x ∧ rc_List client opts (Some x) = inr (Some l) ∧ o ∈ ul_Items l) ∧
    ∀ matching, lists client opts matching →
      (∀ o, o ∈ its → ∃ x, subtree x ∧ o ∈ matching x) ∧
      (lo_Limit opts = 0%Z → lo_Continue opts = "" → ∀ o, o ∈ its ↔ ∃ x, subtree x ∧ o ∈ matching x).
Proof.
  intros Hparse Hdns Hcache Hh Hin opts subtree. unfold NamespaceHandler in Hh. fold opts in Hh.
  destruct (gvrFromVars apis resource) as [err|g]; [injection Hh as ->; by apply list_elem_of_singleton in Hin|].
  destruct (clientGetter g) as [err|client] eqn:Hcl; [injection Hh as ->; by apply list_elem_of_singleton in Hin|].
  destruct (Hparse (namespace +:+ hnsLabelSuffix)) as (sel & Hp & Hsel); [by apply tree_key_qualified|].
  rewrite Hp in Hh. destruct (lo_Watch opts).
  { destruct (getWatchers _ _ _); injection Hh as ->; by apply list_elem_of_singleton in Hin. }
  destruct (listHandler_body _ _ _ _ _ _ _ _ _ Hh Hin) as (answers & latest & items & Hall & (columns & Hi & Hrows & _) & [Hperm Hs] & _ & ->).
  assert (∀ x, x ∈ tree_namespaces sel cache ↔ subtree x) as Hns by (intros x; by apply tree_namespaces_subtree).
  assert (∀ x, subtree x → ∃ a, a ∈ answers ∧ rc_List client opts (Some x) = inr a) as Hans.
  { intros x [i Hi']%Hns%list_elem_of_lookup. destruct (Forall2_lookup_l _ _ _ _ _ Hall Hi') as (a & Ha & ?).
    exists a. split; [by eapply list_elem_of_lookup_2|done]. }
  assert (∀ o, o ∈ its ↔ ∃ x l, subtree x ∧ rc_List client opts (Some x) = inr (Some l) ∧ o ∈ ul_Items l) as Hits.
  { intros o. rewrite Hperm, (interleaving_elem _ _ _ Hi). setoid_rewrite list_elem_of_fmap. split.
    - intros (l' & (l & -> & (oa & Ha & Hid)%list_elem_of_omap) & Ho). unfold id in Hid. subst oa.
      apply list_elem_of_lookup in Ha as [i Hi'].
      destruct (Forall2_lookup_r _ _ _ _ _ Hall Hi') as (x & Hx & Hl). apply list_elem_of_lookup_2, Hns in Hx. by exists x, l.
    - intros (x & l & Hx & Hl & Ho). destruct (Hans x Hx) as (a & Ha & Ha'). rewrite Hl in Ha'. injection Ha' as <-.
      exists (ul_Items l). split; [|done]. exists l. split; [done|]. apply list_elem_of_omap. by exists (Some l). }
  exists client. split_and!; [done..| |done|].
  - intros x Hx. destruct (Hans x Hx) as (a & _ & ?). eauto.
  - intros matching [Hl1 Hl2 Hl3].
    assert (∀ o, o ∈ its → ∃ x, subtree x ∧ o ∈ matching x) as Hsound by (intros o (x & l & Hx & Hl & Ho)%Hits; eauto).
    split; [done|]. intros Hlim Hcont o. split; [apply Hsound|]. intros (x & Hx & Ho). apply Hits.
    destruct (Hans x Hx) as (a & Ha & Hl). destruct a as [l|]; [|by destruct (Hl1 x)]. exists x, l. split_and!; [done..|].
    eapply Hl3; try done. assert (∀ r, r ∉ ul_rows l) as Hno; [|by apply elem_of_nil_inv].
    intros r Hr. apply (not_elem_of_nil r). apply (interleaving_elem _ _ _ Hrows). exists (ul_rows l). split; [|done].
    apply list_elem_of_fmap. exists l. split; [done|]. apply list_elem_of_omap. by exists (Some l).
Qed.

Lemma latest_version_perm l l' : l ≡ₚ l' → latest_version l = latest_version l'.
Proof.
  intros Hp. destruct (latest_version_max l) as (H1 & H2 & H3), (latest_version_max l') as (H1' & H2' & H3').
  apply Z.le_antisymm.
  - destruct H3 as [->|H3]; [done|]. apply H2'. by rewrite <- Hp.
  - destruct H3' as [->|H3']; [done|]. apply H2. by rewrite Hp.
Qed.

(** The answer does not depend on the schedule: if the API server lists each namespace's own objects under distinct
    names, any two runs of the handler on the same answers that return items return the same list, with the same
    resource version. *)
Theorem tree_list_deterministic gvr client namespaces opts ops1 ops2 b1 b2 : NoDup namespaces →
  (∀ ns l, rc_List client opts (Some ns) = inr (Some l) → NoDup (object_key <$> ul_Items l) ∧
     ∀ o, o ∈ ul_Items l → om_Namespace (u_Meta o) = ns) →
  listHandler kindFor gvr client namespaces opts (Done ops1) → listHandler kindFor gvr client namespaces opts (Done ops2) →
  (∃ kind rv its, b1 = ListBody gvr kind rv its) → (∃ kind rv its, b2 = ListBody gvr kind rv its) →
  WriteJson b1 ∈ ops1 → WriteJson b2 ∈ ops2 → ops1 = ops2.
Proof.
  intros Hnd Hobj Hl1 Hl2 (k1 & rv1 & its1 & ->) (k2 & rv2 & its2 & ->) Hin1 Hin2.
  destruct (listHandler_body _ _ _ _ _ _ _ _ _ Hl1 Hin1) as (as1 & z1 & i1 & Ha1 & (c1 & Hi1 & _ & (v1 & Hv1 & ->) & _) & Hs1 & He1 & _).
  destruct (listHandler_body _ _ _ _ _ _ _ _ _ Hl2 Hin2) as (as2 & z2 & i2 & Ha2 & (c2 & Hi2 & _ & (v2 & Hv2 & ->) & _) & Hs2 & He2 & _).
  assert (as2 = as1) as ->.
  { clear -Ha1 Ha2. revert as2 Ha2. induction Ha1 as [|ns a nss as1 Ha _ IH]; inversion 1 as [|? a' ? as2' Ha' ?]; subst; [done|].
    f_equal; [congruence|by apply IH]. }
  assert (Done ops1 = Done ops2) as [= ->]; [|done]. rewrite He1, He2.
  f_equal; [|apply latest_version_perm; by rewrite (interleaving_perm _ _ Hv1), (interleaving_perm _ _ Hv2)].
  apply (sorted_unique i1 i2); [by rewrite (interleaving_perm _ _ Hi1), (interleaving_perm _ _ Hi2)| |done|done].
  rewrite (interleaving_perm _ _ Hi1). clear -Ha1 Hnd Hobj.
  induction Ha1 as [|ns [l|] nss as1 Ha Hrest IH]; [constructor| |by apply NoDup_cons in Hnd as [_ ?]; apply IH].
  apply NoDup_cons in Hnd as [Hns Hnd]. simpl. rewrite fmap_app. destruct (Hobj ns l Ha) as [Hkeys Hnss].
  apply NoDup_app. split_and!; [done| |by apply IH].
  intros key (o & -> & Ho)%list_elem_of_fmap (o' & Hk & (l' & Hl' & Ho')%concat_elem)%list_elem_of_fmap.
  apply list_elem_of_fmap in Hl' as (l2 & -> & (oa & Ha2 & Hid)%list_elem_of_omap). unfold id in Hid. subst.
  apply list_elem_of_lookup in Ha2 as [i Hi]. destruct (Forall2_lookup_r _ _ _ _ _ Hrest Hi) as (ns' & Hn' & Hl2).
  destruct (Hobj ns' l2 Hl2) as [_ Hnss']. apply Hns. injection Hk as Hk _. rewrite (Hnss o Ho), (Hnss' o' Ho') in Hk. subst.
  by eapply list_elem_of_lookup_2.
Qed.
End lists.

(** Only authenticated clients are served: the request reaches the next handler exactly if it came with a client
    certificate whose common name is on the list in the extension's config map; in that case nothing else is answered. *)
Theorem authentication_exact Unmarshal peers config :
  (∀ l, Unmarshal "" ≠ inr l) →
  (ServeNext ∈ AuthenticateMiddleware Unmarshal peers config ↔
    ∃ cn rest data names allowed, peers = cn :: rest ∧ config = inr data ∧ data !! allowedCNKey = Some names ∧
      Unmarshal names = inr allowed ∧ cn ∈ allowed) ∧
  (ServeNext ∈ AuthenticateMiddleware Unmarshal peers config → AuthenticateMiddleware Unmarshal peers config = [ServeNext]).
Proof.
  intros Hempty. destruct peers as [|cn rest]; simpl.
  { rewrite list_elem_of_singleton. split; [split; [done|by intros (? & ? & ? & ? & ? & ? & _)]|done]. }
  destruct config as [err|data]; simpl.
  { rewrite list_elem_of_singleton. split; [split; [done|by intros (? & ? & ? & ? & ? & _ & ? & _)]|done]. }
  unfold sget. destruct (data !! allowedCNKey) as [names|] eqn:Hd; simpl.
  - destruct (Unmarshal names) as [err|allowed] eqn:Hu.
    { rewrite list_elem_of_singleton. split; [split; [done|]|done].
      intros (? & ? & ? & ? & ? & _ & [= <-] & ? & ? & _). congruence. }
    case_bool_decide as Hin; rewrite list_elem_of_singleton.
    + split; [split; [|done]|done]. intros _. by exists cn, rest, data, names, allowed.
    + split; [split; [done|]|done]. intros (? & ? & ? & ? & ? & [= <- <-] & [= <-] & ? & ? & ?). congruence.
  - destruct (Unmarshal "") as [err|l] eqn:Hu; [|by destruct (Hempty l)].
    rewrite !elem_of_cons, elem_of_nil. split; [split|]; [by intros [?|[?|?]]| |by intros [?|[?|?]]].
    intros (? & ? & ? & ? & ? & _ & [= <-] & ? & _). congruence.
Qed.

(** ** Concrete instances *)
Definition no_hash (_ _ _ : string) : string := "".

(** A cluster with the secrets of the core group and one custom resource. *)
Definition small_cluster : list APIResourceList :=
  [mkResourceList "v1" [mkDiscovered "secrets" "Secret" []]; mkResourceList "example.com/v2" [mkDiscovered "widgets" "Widget" ["wd"]]].

(** The first refresh fails and waits to be retried. *)
Definition after_failure : watch_state := mkWatch (mkWatcher 1 [] ∅ true) small_cluster 0 0 [].

Lemma after_failure_reachable : rtc (exclusive no_hash) (starting small_cluster 0) after_failure.
Proof.
  eapply rtc_l; [split; [apply ws_event|simpl; lia]|].
  eapply rtc_l; [split; [apply (ws_start no_hash _ _ _ _ [] (inl "timeout")); [done|done]|simpl; lia]|].
  eapply rtc_l; [split; [apply (ws_finish no_hash _ _ _ _ [] (inl "timeout") [])|simpl; lia]|]. reflexivity.
Qed.

Lemma resource_table_converges_witness :
  ∃ s, rtc (exclusive no_hash) after_failure s ∧ settled s ∧ ar_Name <$> List (w_watcher s) = ["secrets"; "example.com.widgets"] ∧
    ∃ r, Discovery.Get (w_watcher s) "secrets" "" = Some r ∧ ar_Version r = "v1".
Proof.
  destruct (resource_table_converges no_hash small_cluster 0 after_failure after_failure_reachable) as [_ (s & Hr & Hs & Hd & Hup & Hmap)].
  exists s. split; [exact Hr|]. split; [exact Hs|]. rewrite Hup. rewrite Hd in *. split; [vm_compute; reflexivity|].
  assert (∃ r, resourceMap (setAPIResources no_hash (inr small_cluster) WatchAPIResources).2 !! "secrets" = Some r ∧ ar_Version r = "v1")
    as (r & Hl & Hv) by (eexists; split; [vm_compute; reflexivity|reflexivity]).
  exists r. split; [|exact Hv]. exact (lookup_weaken _ _ _ _ Hl Hmap).
Defined.

Definition small_table : apiResourceWatcher := (setAPIResources no_hash (inr small_cluster) WatchAPIResources).2.

Lemma small_table_reachable : rtc (wstep no_hash) (starting small_cluster 0) (mkWatch small_table small_cluster 0 0 []).
Proof.
  eapply rtc_l; [apply ws_event|].
  eapply rtc_l; [apply (ws_start no_hash _ _ _ _ [] (inr small_cluster)); [done|by intros ? [= ->]]|].
  eapply rtc_l; [apply (ws_finish no_hash _ _ _ _ [] (inr small_cluster) [])|].
  replace (mkWatch _ _ _ _ _) with (mkWatch small_table small_cluster 0 0 []) by (vm_compute; reflexivity). reflexivity.
Qed.

Lemma listed_resources_requestable_witness :
  ∃ group name, qualified group name = "example.com.widgets" ∧
    gvrFromVars small_table "example.com.widgets" = inr (group, "v2", name).
Proof.
  destruct (listed_resources_requestable no_hash small_cluster 0 _
    (apiResource no_hash "example.com" "v2" (mkDiscovered "widgets" "Widget" ["wd"])) small_table_reachable)
    as (r & g & n & Hr & Hn & Hq & Hg).
  - vm_compute. right. left.
  - vm_compute. reflexivity.
  - exists g, n. split; [exact Hq|]. replace "v2" with (ar_Version r); [exact Hg|].
    change (r ∈ [apiResource no_hash "" "v1" (mkDiscovered "secrets" "Secret" []);
      apiResource no_hash "example.com" "v2" (mkDiscovered "widgets" "Widget" ["wd"])]) in Hr.
    rewrite !elem_of_cons, elem_of_nil in Hr. destruct Hr as [->|[->|[]]]; [discriminate Hn|reflexivity].
Defined.

(** The namespaces of the small forest with their tree labels, and one secret in each. *)
Definition labels_for (nm : string) : gmap string string :=
  list_to_map ((λ anc, (tree_key anc, "")) <$> AncestryNames family (Some (at_name family nm))).
Definition family_cache : list (string * gmap string string) := (λ nm, (nm, labels_for nm)) <$> ["e"; "d"; "c"; "b"; "a"].

Definition secret_in (nm : string) : Unstructured :=
  mkObj (mkGVK "" "v1" "Secret") (set_om_NamespacedName nm "creds" blankMeta) None ∅.
Definition secrets_client : resourceClient :=
  {| rc_List _ ns := match ns with Some nm => inr (Some (mkUList [secret_in nm] [] None "7" "")) | None => inr (Some (mkUList [] [] None "9" "")) end;
     rc_Watch _ _ := None |}.
(** A decoder of queries that knows the flag for watches and the limit. *)
Definition decode_query (q : list (string * string)) : ListOptions :=
  mkListOptions "" "" (bool_decide (("watch", "true") ∈ q)) false "" "" None (if decide (("limit", "1") ∈ q) then 1%Z else 0%Z) "".
Definition parse_key (k : string) : string + (gmap string string → bool) :=
  if decide (IsQualifiedName k = []) then inr (λ ls, bool_decide (is_Some (ls !! k))) else inl "invalid key".

Lemma parse_key_parses : parses_keys parse_key.
Proof.
  intros k Hk. unfold parse_key. rewrite decide_True by done. eexists. split; [reflexivity|].
  intros ls. apply bool_decide_eq_true.
Qed.

Lemma family_cache_labels x ls : (x, ls) ∈ family_cache →
  is_Some (ls !! tree_key "b") ↔ rtc (up (parent_name family)) x "b".
Proof.
  intros (nm & Heq & Hnm)%list_elem_of_fmap. apply pair_equal_spec in Heq as [-> ->].
  assert (f_namespaces family !! nm = Some (at_name family nm)) as Hl.
  { rewrite !elem_of_cons, elem_of_nil in Hnm. destruct Hnm as [->|[->|[->|[->|[->|[]]]]]]; reflexivity. }
  rewrite <- (AncestryNames_elem family family_wf nm _ "b" Hl).
  rewrite <- (bool_decide_eq_true (is_Some _)), <- (bool_decide_eq_true ("b" ∈ _)). clear Hl. apply Bool.eq_iff_eq_true.
  rewrite !elem_of_cons, elem_of_nil in Hnm.
  destruct Hnm as [->|[->|[->|[->|[->|[]]]]]]; vm_compute; reflexivity.
Qed.

Definition kind_of_secrets (_ : string * string * string) : serverError + string := inr "Secret".

(** The answers of b and c arrive in this order or in the other. *)
Definition tree_of_b : list httpOp := [WriteJson (ListBody ("", "v1", "secrets") "SecretList" "7" [secret_in "b"; secret_in "c"])].

Lemma tree_of_b_listed :
  listHandler kind_of_secrets ("", "v1", "secrets") secrets_client ["c"; "b"] noOptions (Done tree_of_b).
Proof.
  apply (lh_respond kind_of_secrets ("", "v1", "secrets") secrets_client ["c"; "b"] noOptions
    [Some (mkUList [secret_in "c"] [] None "7" ""); Some (mkUList [secret_in "b"] [] None "7" "")]
    [secret_in "c"; secret_in "b"] [] 7%Z None [secret_in "b"; secret_in "c"] []).
  - repeat constructor.
  - split_and!.
    + apply (interleaving_concat [[secret_in "c"]; [secret_in "b"]]).
    + apply (interleaving_concat [[]; []]).
    + exists [7%Z; 7%Z]. split; [apply (interleaving_concat [[7%Z]; [7%Z]])|vm_compute; reflexivity].
    + right. eexists. split; [left|reflexivity].
  - split; [apply Permutation_swap|]. repeat constructor.
  - split; [reflexivity|constructor].
Qed.

Lemma tree_of_b_handled : NamespaceHandler kind_of_secrets parse_key decode_query small_table (λ _, inr secrets_client) (inr family_cache) "b" "secrets" []
  (Done tree_of_b).
Proof.
  unfold NamespaceHandler.
  replace (gvrFromVars small_table "secrets") with (inr ("", "v1", "secrets") : string + string * string * string) by (vm_compute; reflexivity).
  replace (parse_key ("b" +:+ hnsLabelSuffix)) with
    (inr (λ ls, bool_decide (is_Some (ls !! ("b" +:+ hnsLabelSuffix)))) : string + (gmap string string → bool)) by reflexivity.
  cbv iota beta zeta.
  replace (tree_namespaces _ family_cache) with ["c"; "b"] by (vm_compute; reflexivity). exact tree_of_b_listed.
Qed.

Lemma secrets_client_lists opts : lists secrets_client opts (λ ns, [secret_in ns]).
Proof. split; simpl; try done; intros ns l o [= <-]; done. Qed.

Lemma tree_list_exact_witness :
  StronglySorted item_le [secret_in "b"; secret_in "c"] ∧
  ∀ o, o ∈ [secret_in "b"; secret_in "c"] ↔
    ∃ x, ((∃ ls, (x, ls) ∈ family_cache) ∧ rtc (up (parent_name family)) x "b") ∧ o ∈ [secret_in x].
Proof.
  destruct (tree_list_exact kind_of_secrets parse_key decode_query family small_table (λ _, inr secrets_client) family_cache "b" "secrets" []
    tree_of_b ("", "v1", "secrets") "SecretList" "7" [secret_in "b"; secret_in "c"]) as (client & _ & [= <-] & Hs & _ & _ & H).
  - exact parse_key_parses.
  - reflexivity.
  - exact family_cache_labels.
  - exact tree_of_b_handled.
  - left.
  - split; [exact Hs|]. apply (H (λ ns, [secret_in ns]) (secrets_client_lists _)); reflexivity.
Defined.

Lemma tree_list_deterministic_witness :
  listHandler kind_of_secrets ("", "v1", "secrets") secrets_client ["c"; "b"] noOptions (Done tree_of_b) ∧
  ∀ ops rv its, listHandler kind_of_secrets ("", "v1", "secrets") secrets_client ["c"; "b"] noOptions (Done ops) →
    WriteJson (ListBody ("", "v1", "secrets") "SecretList" rv its) ∈ ops → ops = tree_of_b.
Proof.
  split; [exact tree_of_b_listed|]. intros ops rv its Hl Hin.
  apply (tree_list_deterministic kind_of_secrets ("", "v1", "secrets") secrets_client ["c"; "b"] noOptions ops tree_of_b
    (ListBody ("", "v1", "secrets") "SecretList" rv its) (ListBody ("", "v1", "secrets") "SecretList" "7" [secret_in "b"; secret_in "c"])).
  - apply (bool_decide_unpack _). vm_compute. exact I.
  - intros ns l Hls. injection Hls as <-. split; [apply NoDup_singleton|]. intros o Ho. apply list_elem_of_singleton in Ho as ->. reflexivity.
  - exact Hl.
  - exact tree_of_b_listed.
  - eauto.
  - eauto.
  - exact Hin.
  - left.
Defined.

(** A decoder for a list with one name. *)
Definition one_name (s : string) : string + list string := if decide (s = "") then inl "unexpected end of JSON input" else inr [s].

Lemma authentication_exact_witness :
  ServeNext ∈ AuthenticateMiddleware one_name ["front-proxy"] (inr {[allowedCNKey := "front-proxy"]}) ∧
  ServeNext ∉ AuthenticateMiddleware one_name ["mallory"] (inr {[allowedCNKey := "front-proxy"]}).
Proof.
  assert (∀ l, one_name "" ≠ inr l) as He by (intros l Hl; vm_compute in Hl; discriminate Hl).
  split.
  - apply (proj1 (authentication_exact one_name ["front-proxy"] (inr {[allowedCNKey := "front-proxy"]}) He)).
    exists "front-proxy", [], {[allowedCNKey := "front-proxy"]}, "front-proxy", ["front-proxy"]. repeat split. left.
  - intros Hin. apply (proj1 (authentication_exact one_name ["mallory"] (inr {[allowedCNKey := "front-proxy"]}) He)) in Hin.
    destruct Hin as (cn & rest & data & names & allowed & Hp & Hd & Hk & Hu & Hin). injection Hp as <- <-. injection Hd as <-.
    injection Hk as <-. vm_compute in Hu. injection Hu as <-. apply list_elem_of_singleton in Hin. discriminate Hin.
Defined.

(** ** Watches *)
Section watches.
  Context {Event WatchEvent : Type} (Convert : Event → string + WatchEvent).

(** C15. A watch of a tree loses, repeats and reorders nothing: in every state of every schedule, what has been written
    to the client (and the event that is just being written) is an interleaving of the first events of the watches, each in
    its order.  When the handler returns, all its goroutines have ended and nothing is left in the channel; unless the
    client went away or an event could not be converted, every watch was closed and all of its events were forwarded.
    The error that is answered, once, is the one of an event that could not be converted. *)
Theorem watch_forwards_in_order (sources : list (source Event)) s : rtc (wh_step Convert sources) (wh_start sources) s →
  (∃ sent, Forall2 (λ src l, ∃ before, before `prefix_of` src_events src ∧ converted Convert before l) sources sent ∧
     interleaving sent (forwarded (wh_calls s) ++ in_hand (wh_writer s)) ∧
     (wh_handler s = Returned → wh_writer s = Finished ∧ Forall (.= Stopped) (wh_watchers s) ∧
        failures (wh_calls s) = option_list (wh_err s) ∧
        (wh_left s = false → wh_err s = None →
         Forall2 (λ src l, src_closes src = true ∧ converted Convert (src_events src) l) sources sent))) ∧
  (∀ msg, wh_err s = Some msg → ∃ src event, src ∈ sources ∧ event ∈ src_events src ∧ convertEvent Convert event = inl msg).
Proof.
  intros (sent & [H1 H2 H3 H4 H5 [H6 _]])%wh_inv_reachable. split; [|done].
  exists sent. split_and!; [by eapply sent_prefix|done|]. intros Hh. rewrite Hh in *.
  split_and!; [by apply H6|by apply H5|done|]. intros Hl He. rewrite Hl, He in H1.
  eapply sent_all; [exact H1|by apply H5].
Qed.

(** C16. A watch of a tree ends: no schedule of its goroutines goes on forever, and a schedule that stops has returned from
    the handler, or waits, with everything written, for a watch that is open; the goroutines never block each other.  Once
    the client has gone away or an event cannot be converted, only the return is left.  When the handler has returned, all
    goroutines of the group and the one that writes have ended, so that none of them is left blocked. *)
Theorem watch_always_ends (sources : list (source Event)) s : rtc (wh_step Convert sources) (wh_start sources) s →
  Acc (flip (wh_step Convert sources)) s ∧
  (wh_handler s = Returned ∨ idle sources s ∨ ∃ s', wh_step Convert sources s s' ∧ wh_left s' = wh_left s) ∧
  (ctx_done (wh_left s) (wh_err s) → ¬ idle sources s) ∧
  (wh_handler s = Returned → Forall (.= Stopped) (wh_watchers s) ∧ wh_writer s = Finished ∧ ∀ s', ¬ wh_step Convert sources s s').
Proof.
  intros Hr. destruct (wh_inv_reachable _ _ _ Hr) as (sent & Hi).
  split_and!; [apply wh_step_wf|by eapply wh_progress| |].
  - intros Hd (_ & Hl & He & _). rewrite Hl, He in Hd. by destruct Hd as [?|[? ?]].
  - intros Hh. destruct Hi as [_ _ _ _ H5 [H6 _]]. apply H6 in Hh as Hw. split_and!; [apply H5; by rewrite Hh|done|].
    intros s' Hs. destruct Hs; simpl in *; done.
Qed.
End watches.

(** Two watches that close, with one event each. *)
Definition non_empty (s : string) : string + string := if decide (s = "") then inl "no kind" else inr s.
Definition two_watches : list (source string) := [mkSource ["x"] true; mkSource ["y"] true].
Definition merged : whState string string :=
  mkWh [Stopped; Stopped] Finished Returned false None [Header; Forwarded "y"; Forwarded "x"] ["client disconnected"].

Tactic Notation "watch_step" uconstr(c) := eapply rtc_l; [eapply c; first [reflexivity | repeat constructor]|simpl].

Lemma merged_reached : rtc (wh_step non_empty two_watches) (wh_start two_watches) merged.
Proof.
  watch_step (wh_receive _ _ 0). watch_step (wh_receive _ _ 1). watch_step wh_header.
  watch_step (wh_send _ _ 1). watch_step wh_write. watch_step (wh_send _ _ 0).
  watch_step (wh_closed _ _ 0). watch_step (wh_closed _ _ 1). watch_step wh_waited.
  watch_step wh_write. watch_step wh_close. watch_step wh_drained. watch_step wh_done. reflexivity.
Qed.

Lemma watch_forwards_in_order_witness : ∃ sent, interleaving sent ["y"; "x"] ∧
  Forall2 (λ src l, src_closes src = true ∧ converted non_empty (src_events src) l) two_watches sent.
Proof.
  destruct (watch_forwards_in_order non_empty two_watches merged merged_reached) as [(sent & _ & Hi & Hr) _].
  exists sent. split; [exact Hi|]. apply Hr; reflexivity.
Defined.

Lemma watch_always_ends_witness : wh_handler merged = Returned ∧ Forall (.= Stopped) (wh_watchers merged) ∧
  ¬ ∃ s', wh_step non_empty two_watches merged s'.
Proof.
  destruct (watch_always_ends non_empty two_watches merged merged_reached) as (_ & _ & _ & Hend).
  destruct (Hend eq_refl) as (Hst & _ & Hno). split; [reflexivity|]. split; [exact Hst|]. intros (s' & Hs). exact (Hno s' Hs).
Defined.

(** ** Requests from the wire *)
Section served.
  Context (kindFor : string * string * string → serverError + string).
  Context (Parse : string → string + (gmap string string → bool)) (DecodeParameters : list (string * string) → ListOptions).
  Context (Unmarshal : string → string + list string) (MarshalTypes : list APIResource → option string).

(** C24. What the process serves: every answer with data of the cluster goes to a client whose first certificate has one of
    the names in the cluster's extension configuration.  It is the answer of the handler for the path: the list of types
    for the group itself, the objects of all namespaces for a resource, and the ones of a namespace's tree for a resource
    in a namespace, with the names as they are in the path; no other path has an answer with data. *)
Theorem data_only_for_allowed_clients b r out rp : serves kindFor Parse DecodeParameters Unmarshal MarshalTypes b r out → rp ∈ out → carries_data rp →
  (∃ cn rest data allowed, rq_peers r = cn :: rest ∧ be_config b = inr data ∧
     Unmarshal (sget data allowedCNKey) = inr allowed ∧ cn ∈ allowed) ∧
  (∃ rt vars, Match (rq_path r) = Some (rt, vars)) ∧
  (rq_path r = pathPrefix → rp ∈ DiscoveryHandler MarshalTypes (be_apis b)) ∧
  (∀ resource, one_segment resource → rq_path r = resource_path resource →
     ∃ ops op, rp = Reply op ∧ op ∈ ops ∧ Forwarder DecodeParameters (be_apis b) (be_clients b (rq_accept r)) resource (rq_query r) = Done ops) ∧
  (∀ ns resource, one_segment ns → one_segment resource → rq_path r = namespace_path ns resource →
     ∃ ops op, rp = Reply op ∧ op ∈ ops ∧
       NamespaceHandler kindFor Parse DecodeParameters (be_apis b) (be_clients b (rq_accept r)) (be_namespaces b) ns resource (rq_query r) (Done ops)).
Proof.
  intros Hs Hin Hd. destruct Hs as [_|rt vars hout Hm Hh]; [by apply list_elem_of_singleton in Hin as ->|].
  destruct (served_only_next _ _ _ _ _ Hin Hd) as (cn & rest & data & allowed & Hp & Hc & Hu & Ha & Hin').
  split_and!; [by exists cn, rest, data, allowed|eauto|..].
  - intros Hpath. rewrite Hpath in Hm. vm_compute in Hm. injection Hm as <- <-. simpl in Hh. by subst.
  - intros resource Hr Hpath. rewrite Hpath, Match_resource in Hm by done. injection Hm as <- <-.
    destruct Hh as (ops & Hf & ->). apply list_elem_of_fmap in Hin' as (op & -> & Hop). by exists ops, op.
  - intros ns resource Hn Hr Hpath. rewrite Hpath, Match_namespace in Hm by done. injection Hm as <- <-.
    destruct Hh as (ops & Hf & ->). apply list_elem_of_fmap in Hin' as (op & -> & Hop). by exists ops, op.
Qed.
End served.

Definition family_backend : backend :=
  mkBackend small_table (λ _ _, inr secrets_client) (inr family_cache) (inr {[allowedCNKey := "front-proxy"]}).
Definition secrets_of_b : request := mkRequest (namespace_path "b" "secrets") "application/json" [] ["front-proxy"].

Lemma secrets_of_b_served : serves kind_of_secrets parse_key decode_query one_name (λ _, None) family_backend secrets_of_b (Reply <$> tree_of_b).
Proof.
  pose proof (sv_route kind_of_secrets parse_key decode_query one_name (λ _, None) family_backend secrets_of_b NamespaceRoute
    (<["namespace" := "b"]> {["resource" := "secrets"]}) (Reply <$> tree_of_b)) as Hsv.
  apply Hsv; [by apply Match_namespace|]. exists tree_of_b. split; [exact tree_of_b_handled|done].
Qed.

Lemma data_only_for_allowed_clients_witness : ∃ cn rest, rq_peers secrets_of_b = cn :: rest ∧ cn = "front-proxy".
Proof.
  destruct (data_only_for_allowed_clients kind_of_secrets parse_key decode_query one_name (λ _, None) family_backend secrets_of_b
    (Reply <$> tree_of_b) (Reply (WriteJson (ListBody ("", "v1", "secrets") "SecretList" "7" [secret_in "b"; secret_in "c"])))
    secrets_of_b_served) as [(cn & rest & data & allowed & Hp & Hd & Hu & Ha) _].
  - left.
  - exact I.
  - exists cn, rest. split; [exact Hp|]. injection Hd as <-. vm_compute in Hu. injection Hu as <-. apply list_elem_of_singleton in Ha. exact Ha.
Defined.
