(* ===== verification/PluginTheorems.v ===== *)
(** * Theorems on the kubectl plugin and the statistics, with concrete instances *)

From S2P Require Import Prelude GoStrings Chains Validation Api Config Selectors Resources Forest ForestWf ForestWalks.
From S2P Require Import World Objects HncConfig HrqControllers Kubectl KubectlFacts Stats Instances.
From S2P Require Import TreeApi KubectlViews.

(** C38. The tree command terminates and is complete: if the API server shows the forest (children and cycles in the
    status of each namespace), printing the tree of any namespace, also of one on a cycle, returns with at most one line
    per namespace, and the printed namespaces are exactly those that hang below its children that are not on a cycle; so
    a namespace that is not on a cycle is printed with all its descendants, each exactly once. *)
Theorem tree_command_complete `{RO : RangeOrder} cl f x l hier prefix s : wf f → shows_forest cl f →
  f_namespaces f !! x = Some l → shows cl f x hier →
  ∃ names s' lines,
    printSubtree cl (S (S (size (f_namespaces f)))) prefix hier (bool_decide (has_cycle_condition hier)) s = Done (Some tt, s') ∧
    k_events s' = k_events s ++ (Println <$> lines) ∧ Forall2 line_for names lines ∧ NoDup names ∧
    (∀ y, y ∈ names ↔ ∃ c, up (parent_name f) c x ∧ ¬ in_cycle (parent_name f) c ∧ rtc (up (parent_name f)) y c) ∧
    (¬ in_cycle (parent_name f) x → ∀ y, y ∈ names ↔ tc (up (parent_name f)) y x).
Proof.
  intros Hwf Hshow Hl Hs. destruct (printSubtree_any cl f Hwf Hshow x l hier Hl Hs) as (names & Hp & Hnd & Hiff).
  destruct (Hp prefix s) as (s' & lines & [Hrun Hev] & Hlines). exists names, s', lines. split_and!; [done..|].
  intros Hx y. rewrite Hiff, <- (below_tc f Hwf x l y Hl Hx). unfold below.
  destruct (children_of f Hwf x l Hl) as [_ Hch]. by setoid_rewrite Hch.
Qed.

(** C37. The set command sends exactly what it says: with contradictory flags it fails and sends nothing; otherwise it
    sends one write, of the configuration with the requested parent and cascading deletion, exactly if that differs from
    the present one, and it fails exactly if that write fails. *)
Theorem set_command_exact cl u nnm hc s : getHierarchy cl nnm s = Done (Some hc, s) →
  ∃ r s', updateHC cl u nnm s = Done (r, s') ∧
    requests s' = requests s ++
      (if contradictory u then [] else if decide (requested u hc = hc) then [] else [write_of (requested u hc)]) ∧
    (r = None ↔ contradictory u = true ∨ requested u hc ≠ hc ∧ cl_writeHierarchy cl ≠ None).
Proof.
  intros Hget. destruct (contradictory u) eqn:Hc.
  - destruct (updateHC_contradictory cl u nnm hc s Hget Hc) as (s' & Hrun & Hr). exists None, s'. rewrite app_nil_r. split_and!; [done..|]. tauto.
  - destruct (updateHC_spec cl u nnm hc s Hget Hc) as (s' & Hrun & Hr). eexists _, s'. split; [exact Hrun|]. split; [done|].
    destruct (decide (requested u hc = hc)), (cl_writeHierarchy cl); naive_solver.
Qed.

(** The counters are exact modulo 2^32: a sequence of operations panics exactly if it counts a stop, a write or an
    overwrite for a kind before the first start for that kind, and otherwise every counter is the number of its
    operations (starts minus stops for the running ones), wrapped to 32 bits. *)
Theorem stat_counters_exact `{RO : RangeOrder} suppress ops :
  (run suppress ops init = Panics ↔ ¬ well_started ops) ∧
  (well_started ops → ∃ s, run suppress ops init = Done s ∧
    totalHierConfigReconciles (st_stats s) = wrap32 (tally hc_started ops) ∧
    curHierConfigReconciles (st_stats s) = wrap32 (tally hc_running ops) ∧
    hierConfigWrites (st_stats s) = wrap32 (tally hc_written ops) ∧
    namespaceWrites (st_stats s) = wrap32 (tally ns_written ops) ∧
    ∀ gk, objects (st_stats s) !! gk = object_of ops gk).
Proof.
  destruct (run_counted suppress ops) as [(Hw & s & Hrun & Hc)|[Hw Hrun]].
  - split; [split; [by rewrite Hrun|done]|]. intros _. by exists s.
  - split; [done|]. done.
Qed.

(** ** Concrete instances *)

(** The API server shows the forest [family]. *)
Definition status_of (nm : string) : HierarchyConfiguration :=
  {| hc_Meta := set_om_NamespacedName nm Singleton blankMeta; hc_Spec := hc_Spec blankHC;
     hc_Status := {| hct_Children := ChildNames (deref family (at_name family nm)); hct_Conditions := [] |} |}.
Definition family_cluster : cluster :=
  {| cl_namespace nm := inr {| kn_Meta := meta_named nm |}; cl_namespaces := inr ["a"; "b"; "c"; "d"; "e"];
     cl_hierarchy nm := Found (status_of nm); cl_anchors _ := NotFound; cl_config := NotFound;
     cl_writeHierarchy := None; cl_createAnchor := None; cl_deleteAnchor := None; cl_writeConfig := None |}.
Definition fresh_state : kState := mkK ∅ [] false [].

Lemma family_shown nm : shows family_cluster family nm (status_of nm).
Proof.
  split_and!; [by eexists|done|done|..].
  - intros l Hl. assert (at_name family nm = l) as <- by exact (f_equal (default 1%positive) Hl). reflexivity.
  - split; [by intros ?%Exists_nil|]. intros Hc. by apply family_acyclic in Hc.
Qed.

Lemma tree_command_complete_witness :
  ∃ names s' lines, printSubtree family_cluster 7 "" (status_of "a") false fresh_state = Done (Some tt, s') ∧
    k_events s' = Println <$> lines ∧ Forall2 line_for names lines ∧ NoDup names ∧
    ∀ y, y ∈ names ↔ tc (up (parent_name family)) y "a".
Proof.
  destruct (tree_command_complete family_cluster family "a" (at_name family "a") (status_of "a") "" fresh_state)
    as (names & s' & lines & Hrun & Hev & Hl & Hnd & _ & Hall).
  - exact family_wf.
  - intros x _. exists (status_of x). exact (family_shown x).
  - reflexivity.
  - exact (family_shown "a").
  - exists names, s', lines. split; [exact Hrun|]. split; [exact Hev|]. split; [exact Hl|]. split; [exact Hnd|].
    apply Hall. exact (family_acyclic "a").
Defined.

(** The same tree, evaluated. *)
Example tree_of_a :
  match printSubtree family_cluster 7 "" (status_of "a") false fresh_state with
  | Done (_, s') => k_events s' = [Println "├── b"; Println "│   └── c"; Println "└── d"]
  | _ => False
  end.
Proof. by vm_compute. Qed.

Definition move_to_e : hcUpdates := {| up_root := false; up_parent := "e"; up_allowCD := true; up_forbidCD := false |}.

Lemma set_command_exact_witness :
  ∃ r s', updateHC family_cluster move_to_e "b" fresh_state = Done (r, s') ∧
    requests s' = [CreateHierarchy (set_hc_Spec "e" true (status_of "b"))].
Proof.
  destruct (set_command_exact family_cluster move_to_e "b" (status_of "b") fresh_state) as (r & s' & Hrun & Hreq & _).
  - reflexivity.
  - exists r, s'. split; [exact Hrun|]. rewrite Hreq. reflexivity.
Defined.

(** ** Tables *)

(** The events that describe shows: only events of HNC, the most recent first, at most one per reason and object; and
    every event of HNC in the namespace is represented by one of the same reason and object that is at least as recent.
    It reports that there are none exactly when there are none. *)
Theorem recent_events_shown events view : describeEvents events view →
  match view with
  | NoEvents => ∀ e, e ∈ events → from_hnc e = false
  | EventTable shown =>
      shown ≠ [] ∧ StronglySorted event_le shown ∧ NoDup (event_key <$> shown) ∧
      (∀ e, e ∈ shown → e ∈ events ∧ from_hnc e = true) ∧
      (∀ e, e ∈ events → from_hnc e = true → ∃ e', e' ∈ shown ∧ event_key e' = event_key e ∧ (ev_LastTimestamp e ≤ ev_LastTimestamp e')%Z)
  end.
Proof.
  destruct 1 as [Hn|sorted Hn Hp Hs].
  - intros e He. apply not_true_is_false. intros Hh. apply (filter_nil_not_elem_of _ _ e Hn Hh He).
  - assert (∀ e, e ∈ sorted ↔ e ∈ events ∧ from_hnc e = true) as Hin.
    { intros e. rewrite Hp, list_elem_of_filter. tauto. }
    assert (∀ e, e ∈ events → from_hnc e = true →
      ∃ e', e' ∈ show_events ∅ sorted ∧ event_key e' = event_key e ∧ (ev_LastTimestamp e ≤ ev_LastTimestamp e')%Z) as Hlatest.
    { intros e He Hh. apply show_events_latest; [done|by apply Hin|set_solver]. }
    split_and!; [|by apply show_events_sorted|apply show_events_keys| |done].
    + intros Hnil. destruct (filter (λ e, from_hnc e = true) events) as [|e rest] eqn:Hf; [done|].
      destruct (proj1 (list_elem_of_filter (λ e, from_hnc e = true) events e)) as [Hh He]; [rewrite Hf; left|].
      destruct (Hlatest e He Hh) as (e' & He' & _). rewrite Hnil in He'. by apply elem_of_nil in He'.
    + intros e [He _]%show_events_incl. by apply Hin.
Qed.

(** The quotas that are shown: the named ones of the namespace, in the order of the names, all of the namespace when no name
    is given, and all of the cluster when all namespaces are asked for. *)
Theorem quotas_shown `{RangeOrder} getOne listIn qstring age fl args withNs labels rows :
  Run getOne listIn qstring age fl args = QuotaTable withNs labels rows →
  ∃ items, rows = printHierarchicalResourceQuotaList qstring age items ∧ items ≠ [] ∧
    match fl_allNamespaces fl with
    | Some _ => withNs = true ∧ listIn "" = inr items
    | None => withNs = false ∧
        if decide (args ≠ [] ∧ fl_namespace fl ≠ "") then Forall2 (λ name q, getOne (fl_namespace fl) name = inr q) args items
        else listIn (fl_namespace fl) = inr items
    end.
Proof.
  unfold Run, getHRQ. destruct (fl_allNamespaces fl) as [b|]; simpl.
  - rewrite decide_False by (intros [_ ?]; done). destruct (listIn "") as [err|[|q items]]; [done..|].
    intros [= <- _ <-]. by exists (q :: items).
  - assert (∀ names l, get_named getOne (fl_namespace fl) names = inr l → Forall2 (λ name q, getOne (fl_namespace fl) name = inr q) names l) as Hnamed.
    { induction names as [|n names IH]; intros l; simpl; [by intros [= <-]|]. destruct (getOne _ n) eqn:?; [done|].
      destruct (get_named _ _ names) eqn:?; [done|]. intros [= <-]. constructor; [done|by apply IH]. }
    case_decide; [destruct (get_named getOne (fl_namespace fl) args) as [err|[|q items]] eqn:E; [done..|]|
      destruct (listIn (fl_namespace fl)) as [err|[|q items]]; [done..|]];
      intros [= <- _ <-]; exists (q :: items); (split_and!; [done..|]); try done; by apply Hnamed.
Qed.

(** A watch with get starts at the version of the list that was printed. *)
Theorem get_watches_from_list PrintObj PrintEvent newDoer resource out err :
  getCmd PrintObj PrintEvent newDoer true [resource] = (out, err) → out ≠ [] →
  ∃ l events more, gc_List (newDoer resource) = inr l ∧ out = ShownList l :: more ∧
    (gc_Watch (newDoer resource) (if decide (ul_ResourceVersion l = "") then "0" else ul_ResourceVersion l) = inr events ∧
       more `prefix_of` (ShownEvent <$> events) ∧ (err = None → more = ShownEvent <$> events) ∨ more = []).
Proof.
  simpl. unfold doer_get. destruct (gc_List (newDoer resource)) as [e|l] eqn:Hl; [by intros [= <- <-]|].
  destruct (PrintObj l); [by intros [= <- <-]|]. unfold doer_watch.
  destruct (gc_Watch _ _) as [e|events] eqn:Hw; [intros [= <- <-] _; exists l, [], []; by split_and!; [..|right]|].
  destruct (print_events PrintEvent events) as [more e] eqn:Hp. intros [= <- <-] _. exists l, events, more. split_and!; [done..|]. left.
  split; [done|]. clear -Hp. revert more e Hp. induction events as [|o events IH]; intros more e; simpl; [by intros [= <- <-]|].
  destruct (PrintEvent o); [intros [= <- <-]; split; [apply prefix_nil|done]|].
  destruct (print_events PrintEvent events) as [m e'] eqn:He. intros [= <- <-]. destruct (IH m e' eq_refl) as [Hpre Hall].
  split; [by apply prefix_cons|]. intros ->. by rewrite (Hall eq_refl).
Qed.

Definition sample_events : list Event := [
  mkEvent "hnc.x-k8s.io" "CannotPropagate" "Secret" "acme" "token" "first" 10;
  mkEvent "kubelet" "Pulled" "Pod" "acme" "web" "pulled" 30;
  mkEvent "hnc.x-k8s.io" "CannotPropagate" "Secret" "acme" "token" "again" 20
].

Lemma recent_events_shown_witness : ∃ shown, describeEvents sample_events (EventTable shown) ∧ NoDup (event_key <$> shown) ∧
  ∀ e, e ∈ shown → from_hnc e = true.
Proof.
  set (sorted := [mkEvent "hnc.x-k8s.io" "CannotPropagate" "Secret" "acme" "token" "again" 20;
    mkEvent "hnc.x-k8s.io" "CannotPropagate" "Secret" "acme" "token" "first" 10]).
  assert (describeEvents sample_events (EventTable (show_events ∅ sorted))) as Hd.
  { apply de_table.
    - vm_compute. discriminate.
    - apply Permutation_swap.
    - repeat constructor. vm_compute. discriminate. }
  exists (show_events ∅ sorted). split; [exact Hd|].
  destruct (recent_events_shown sample_events (EventTable (show_events ∅ sorted)) Hd) as (_ & _ & Hk & Hin & _).
  split; [exact Hk|]. intros e He. apply (Hin e He).
Defined.
