(* ===== verification/ToolTheorems.v ===== *)
(** * Theorems on the migration tool, with concrete instances *)

From S2P Require Import Prelude GoStrings Chains Validation Selectors Migration Instances.

(** ** The migration tool *)

(** C39. What a successful run of the migration tool does, when the directories have legal names of namespaces and
    the configurations have a spec: if the
    tool accepts the objects, the inferred parents are exactly those that the directories say; it then returns; and it
    adds exactly one configuration for each namespace below another that no configuration which it read was for, with the
    inferred parent and a path from which the tool reads back the namespaces from the root down to that one.  A
    configuration is for the namespace that its metadata names when it is read, which need not be that of its directory:
    it now asks for the inferred parent of that namespace (if that is plain text).  So a configuration in the directory of
    another namespace is corrected for the wrong one (see misplaced_configuration), and one that names no namespace is a
    panic (see config_without_namespace_panics). *)
Theorem migration_complete `{RO : RangeOrder} `{YW : YamlLaws} items items1 f :
  processItems items = Done (inr (items1, f)) → (∀ item n, item ∈ items → n ∈ dirs_of item → IsDNS1123Label n = []) →
  (∀ item, item ∈ items → is_Some (config_for item) → hasSpec item) →
  (∀ n p, (∃ i, f !! n = Some i ∧ ni_parent i = p) ↔ ∃ item, item ∈ items ∧ (p, n) ∈ edges "" (dirs_of item)) ∧
  (∀ k item item' n, items !! k = Some item → items1 !! k = Some item' → config_for item = Some n →
     ∃ i, f !! n = Some i ∧ (plainText (ni_parent i) → asks_for item' (ni_parent i))) ∧
  ∃ more missing, process items = Done (inr (items1 ++ more)) ∧ Forall2 generated missing more ∧ NoDup missing.*1 ∧
    ∀ n i, (n, i) ∈ missing ↔ f !! n = Some i ∧ ni_parent i ≠ "" ∧ ¬ ∃ item, item ∈ items ∧ config_for item = Some n.
Proof.
  intros H Hlegal Hspec. pose proof (process_from_step items 0 ∅ items1 f H placed_empty) as (Hpl & _ & He & Ho & Hc).
  assert (∀ n i, f !! n = Some i → ∃ item, item ∈ items ∧ (ni_parent i, n) ∈ edges "" (dirs_of item)) as Hback.
  { intros n i Hi. destruct (Ho n i Hi) as [(j & Hj & _)|?]; [by rewrite lookup_empty in Hj|done]. }
  split_and!.
  - intros n p. split; [|intros (item & Hin & Hed); by eapply He]. intros (i & Hi & <-). by apply Hback.
  - by apply (process_from_corrects items 0 ∅ items1 f H placed_empty Hspec).
  - destruct (add_configs_spec f (range f) Hpl) as (more & Hm & Hg); [|by intros n i ?%elem_of_range|].
    { intros n [i Hi]. destruct (Hback n i Hi) as (item & Hin & Hed). by eapply Hlegal, elem_of_zip_r. }
    exists more, (filter missing_config (range f)). split_and!; [|done| |].
    + unfold process. rewrite H. simpl. unfold addConfigs. by rewrite Hm.
    + eapply sublist_NoDup; [apply (NoDup_keys f)|]. unfold keys_of. apply fmap_sublist, sublist_filter.
    + intros n i. rewrite list_elem_of_filter, elem_of_range. unfold missing_config. simpl. split.
      * intros [[Hb Hp] Hi]. split_and!; [done..|]. intros (item & Hin & Hcf). assert (ni_hasConfig i = true); [|congruence].
        apply (Hc n i Hi). left. eauto.
      * intros (Hi & Hp & Hno). split_and!; [|done..]. apply not_true_iff_false. intros Hb. apply (Hc n i Hi) in Hb as [?|(j & Hj & _)]; [done|].
        by rewrite lookup_empty in Hj.
Qed.

(** Documents as records: the metadata, the field spec.parent, and the text of a document that was parsed. *)
Record document := { d_meta : ResourceMeta; d_parent : option string; d_text : string }.

#[export] Instance record_documents : YamlLib := {|
  RNode := document;
  GetMeta d := inr (d_meta d);
  SetK8sNamespace x d := inr {| d_meta := {| rm_APIVersion := rm_APIVersion (d_meta d); rm_Kind := rm_Kind (d_meta d);
    rm_Name := rm_Name (d_meta d); rm_Namespace := x; rm_Annotations := rm_Annotations (d_meta d) |}; d_parent := d_parent d; d_text := d_text d |};
  specError _ := None;
  specParent d := inr (default "" (d_parent d));
  setSpecParent p d := Done (inr match d_parent d with
    | Some _ => {| d_meta := d_meta d; d_parent := Some p; d_text := d_text d |}
    | None => d
    end);
  Parse text := inr {| d_meta := {| rm_APIVersion := ""; rm_Kind := ""; rm_Name := ""; rm_Namespace := ""; rm_Annotations := ∅ |};
    d_parent := None; d_text := text |}
|}.

#[export] Instance record_laws : YamlLaws.
Proof.
  refine (Build_YamlLaws record_documents (λ d, is_Some (d_parent d)) (λ _, True) _ _ _).
  - intros p d d' [t Ht] _ H. simpl in H. rewrite Ht in H. injection H as <-. by exists p.
  - intros x d d' H. simpl in H. injection H as <-. done.
  - intros ws p n _. eexists. reflexivity.
Defined.

Definition object_at (path apiVersion kind nm ns : string) (parent : option string) : document := {|
  d_meta := {| rm_APIVersion := apiVersion; rm_Kind := kind; rm_Name := nm; rm_Namespace := ns; rm_Annotations := {[pathAnnotation := path]} |};
  d_parent := parent; d_text := "" |}.

(** A repository with three directories, one of which has a configuration with another parent. *)
Definition repository : list document := [
  object_at "namespaces/acme/np-deny.yaml" "networking.k8s.io/v1" "NetworkPolicy" "np-deny" "" None;
  object_at "namespaces/acme/eng/hc.yaml" "hnc.x-k8s.io/v1alpha2" "HierarchyConfiguration" "hierarchy" "eng" (Some "elsewhere");
  object_at "namespaces/acme/eng/team-a/namespace.yaml" "v1" "Namespace" "team-a" "" None;
  object_at "cluster/role.yaml" "rbac.authorization.k8s.io/v1" "ClusterRole" "reader" "" None].

Definition migrated : list document * gmap string nsInfo := Eval vm_compute in
  match processItems repository with Done (inr r) => r | _ => ([], ∅) end.

Lemma migrated_eq : processItems repository = Done (inr migrated).
Proof. vm_compute. reflexivity. Qed.

(** The added document, evaluated. *)
Example added_config : match process repository with Done (inr docs) => d_text <$> drop 4 docs | _ => [] end =
  [template "team-a" "namespaces/acme/eng/team-a/hierarchyconfiguration.yaml" "eng"].
Proof. vm_compute. reflexivity. Qed.

Lemma repository_legal item n : item ∈ repository → n ∈ dirs_of item → IsDNS1123Label n = [].
Proof.
  assert (forallb (λ it, forallb (λ x, bool_decide (IsDNS1123Label x = [])) (dirs_of it)) repository = true) as Hb by (vm_compute; reflexivity).
  intros Hit%list_elem_of_In Hn%list_elem_of_In. rewrite forallb_forall in Hb. specialize (Hb item Hit). rewrite forallb_forall in Hb. specialize (Hb n Hn). by apply bool_decide_eq_true in Hb.
Qed.

Lemma migration_complete_witness :
  ∃ more missing, process repository = Done (inr (migrated.1 ++ more)) ∧ Forall2 generated missing more ∧ ("team-a", mkInfo "eng" false) ∈ missing.
Proof.
  destruct (migration_complete (YW := record_laws) repository migrated.1 migrated.2) as (_ & _ & more & missing & H & Hg & _ & Hin).
  - exact migrated_eq.
  - apply repository_legal.
  - intros item Hin [n Hn]. repeat (apply elem_of_cons in Hin as [->|Hin]; [first [discriminate Hn|eexists; reflexivity]|]). by apply elem_of_nil in Hin.
  - exists more, missing. split; [exact H|]. split; [exact Hg|]. apply Hin. split; [vm_compute; reflexivity|]. split; [discriminate|].
    intros (item & Hin' & Hcf). repeat (apply elem_of_cons in Hin' as [->|Hin']; [vm_compute in Hcf; discriminate Hcf|]). by apply elem_of_nil in Hin'.
Defined.

(** ** Configurations that are not for their directory *)

(** The configuration in the directory of eng, copied from team-a below it. *)
Definition misplaced : list document := [
  object_at "namespaces/acme/eng/team-a/namespace.yaml" "v1" "Namespace" "team-a" "" None;
  object_at "namespaces/acme/eng/hc.yaml" "hnc.x-k8s.io/v1alpha2" "HierarchyConfiguration" "hierarchy" "team-a" (Some "acme")].

(** The tool moves it to eng, corrects its parent to that of team-a, which is eng itself, adds a second configuration
    for eng with the right parent, and adds none for team-a. *)
Theorem misplaced_configuration : match process misplaced with
  | Done (inr [_; hc; new]) => rm_Namespace (d_meta hc) = "eng" ∧ d_parent hc = Some "eng" ∧
      d_text new = template "eng" "namespaces/acme/eng/hierarchyconfiguration.yaml" "acme"
  | _ => False
  end.
Proof. vm_compute. split_and!; reflexivity. Qed.
