(* ===== verification/ManagerTheorems.v ===== *)
(** * Theorems on the manager process, with concrete instances

    What a command line configures, in which order the process starts, and which reconcilers an event on an object wakes. *)

From Stdlib Require Import Ascii String.
From S2P Require Import Prelude GoStrings Flags Validation Api Config Selectors Resources Forest HncConfig Setup ManagerMain Instances.

Section command_line.
  Context `{RX : RegexpLib} (ParseDuration : string → option Z).

(** C21. The command line of the manager: arguments [--flag=value] for known flags with readable values are all used, in
    their order.  A flag that can be repeated collects all its values and every other one keeps the last; flags that are
    not given keep their defaults.  The process goes on exactly when the flags are legal: every exclusion label is a key
    and a value around one equals sign, every pattern compiles and none that names managed labels or annotations matches
    HNC's own group, and webhooks are not both required and forbidden.  The configuration is then the one that the flags
    describe. *)
Theorem command_line_configures settings v :
  Forall (λ nv, name_ok nv.1 = true) settings → set_all (flags ParseDuration) settings Vars.defaults = Some v →
  let args := (λ nv, assign nv.1 nv.2) <$> settings in
  (∀ x, Vars.v_array v x = given (array_flag x) settings) ∧
  (∀ x, Vars.v_string v x = latest Some (string_flag x) settings (Vars.v_string Vars.defaults x)) ∧
  (∀ x, Vars.v_bool v x = latest ParseBool (bool_flag x) settings (Vars.v_bool Vars.defaults x)) ∧
  (∀ x, Vars.v_int v x = latest ParseInt0 (int_flag x) settings (Vars.v_int Vars.defaults x)) ∧
  ((∃ c, parseFlags ParseDuration args zeroConfig = Launched (v, c)) ↔ legal v) ∧
  (∀ v' c, parseFlags ParseDuration args zeroConfig = Launched (v', c) → v' = v ∧ configured v c).
Proof.
  intros Hok Hset args. destruct (settings_read _ _ _ _ Hset) as (Ha & Hs & Hb & Hi & _).
  assert (Parse (flags ParseDuration) args Vars.defaults = Parsed v []) as Hp.
  { pose proof (Parse_assignments _ _ [] _ _ Hok Hset) as Hp. by rewrite app_nil_r in Hp. }
  destruct (configure_spec v) as [Hl Hc]. unfold parseFlags. rewrite Hp.
  split_and!; [done..| |].
  - rewrite <- Hl. destruct (configure v zeroConfig); naive_solver.
  - intros v' c. destruct (configure v zeroConfig) eqn:E; [intros [= <- <-]|done..]. by split; [|apply Hc].
Qed.
End command_line.


(** ** Events *)
Definition wakes (m : Manager) (kind : watchedKind) (obj : ObjectMeta) : list (watchedKind * NamespacedName) :=
  m_controllers m ≫= λ c, pair (ctl_For c) <$> requests c kind obj.

(** What an event wakes, once everything is registered: a change of a namespace wakes the reconciler of its hierarchy
    and, for a subnamespace, the one of its anchor; a change of an anchor wakes its own reconciler and those of the
    hierarchies of both namespaces; changes of hierarchy configurations and quotas wake their own reconcilers; and a change
    of the installed types wakes the reconciler of the configuration. *)
Theorem events_wake v m obj : fully_wired v m → let self := mkNN (om_Namespace obj) (om_Name obj) in
  wakes m NamespaceKind obj =
    (if decide (annotation obj SubnamespaceOf = "") then []
     else [(SubnamespaceAnchorKind, mkNN (annotation obj SubnamespaceOf) (om_Name obj))]) ++
    [(HierarchyConfigurationKind, mkNN (om_Name obj) Singleton)] ∧
  wakes m SubnamespaceAnchorKind obj =
    [(SubnamespaceAnchorKind, self); (HierarchyConfigurationKind, mkNN (om_Namespace obj) Singleton);
     (HierarchyConfigurationKind, mkNN (om_Name obj) Singleton)] ∧
  wakes m HierarchyConfigurationKind obj = [(HierarchyConfigurationKind, self)] ∧
  wakes m HNCConfigurationKind obj = [(HNCConfigurationKind, self)] ∧
  wakes m CRDKind obj = [(HNCConfigurationKind, mkNN "" HNCConfigSingleton)] ∧
  wakes m ResourceQuotaKind obj = (if Vars.v_bool v Vars.enableHRQ then [(ResourceQuotaKind, self)] else []) ∧
  wakes m HRQKind obj = (if Vars.v_bool v Vars.enableHRQ then [(HRQKind, self)] else []).
Proof.
  intros (_ & Hc & _) self. unfold wakes. rewrite Hc. unfold expected_controllers. simpl.
  destruct (Vars.v_bool v Vars.enableHRQ); split_and!; try reflexivity; unfold requests; simpl;
    rewrite ?(decide_True (P:=NamespaceKind = NamespaceKind)), ?(decide_False (P:=NamespaceKind = _)) by done;
    unfold anchor_nsMapFn; by destruct (decide (annotation obj SubnamespaceOf = "")).
Qed.

(** ** The throttle of the API client *)

(** The burst is one and a half times the rate, for every rate up to 2^22, where the 32-bit floats of the client's
    configuration are exact. *)
Lemma float32_small z : (Z.abs z < 2 ^ 24)%Z → float32 z = z.
Proof.
  intros Hz. unfold float32. rewrite decide_True; [done|].
  destruct (decide (Z.abs z = 0%Z)) as [->|Hne]; [simpl; lia|]. apply Z.log2_lt_pow2 in Hz; lia.
Qed.

Lemma burst_exact v : (Z.abs (Vars.v_int v Vars.qps) ≤ 2 ^ 22)%Z → Burst v = Z.quot (3 * Vars.v_int v Vars.qps) 2.
Proof. intros Hq. unfold Burst, QPS. rewrite (float32_small (Vars.v_int v Vars.qps)), float32_small by lia. done. Qed.

(** ** Instances *)
Definition quiet_env : setupEnv := mkEnv None None (λ _, None) (λ _, None).

Definition some_settings : list (string * string) := [
  ("excluded-namespace", "kube-system"); ("nopropagation-label", "team=a"); ("excluded-namespace", "kube-public");
  ("apiserver-qps-throttle", "0x64"); ("managed-namespace-label", "team"); ("enable-hrq", "true")
].

Definition no_duration (s : string) : option Z := None.

Lemma some_settings_read : ∃ v, set_all (flags no_duration) some_settings Vars.defaults = Some v ∧ legal v.
Proof.
  eexists. split; [reflexivity|]. split.
  - intros label Hl. apply list_elem_of_singleton in Hl as ->. eexists. reflexivity.
  - eexists. reflexivity.
  - intros p Hp. apply list_elem_of_singleton in Hp as ->. exists "^team$". split; [reflexivity|vm_compute; reflexivity].
  - intros Hw. discriminate Hw.
Qed.

Lemma command_line_configures_witness : ∃ v c,
  parseFlags no_duration ["--excluded-namespace=kube-system"; "--nopropagation-label=team=a"; "--excluded-namespace=kube-public";
    "--apiserver-qps-throttle=0x64"; "--managed-namespace-label=team"; "--enable-hrq=true"] zeroConfig = Launched (v, c) ∧
  Vars.v_array v Vars.excludedNamespaces = ["kube-system"; "kube-public"] ∧ Vars.v_int v Vars.qps = 100%Z ∧
  Vars.v_bool v Vars.enableHRQ = true ∧ configured v c.
Proof.
  destruct some_settings_read as (v & Hv & Hl).
  destruct (command_line_configures no_duration some_settings v) as (Ha & _ & Hb & Hi & Hg & Hc).
  - repeat constructor.
  - exact Hv.
  - destruct (proj2 Hg Hl) as [c Hp]. exists v, c. split; [exact Hp|]. split; [exact (Ha Vars.excludedNamespaces)|].
    split; [exact (Hi Vars.qps)|]. split; [exact (Hb Vars.enableHRQ)|]. apply (Hc v c Hp).
Defined.

(** The process with the default flags. *)
Definition quiet_process : processEnv := mkProcessEnv None None None None None None.

Lemma default_start : ∃ p0 p, main quiet_env quiet_process Vars.defaults = Launched p0 ∧
  rtc (start_step quiet_env quiet_process Vars.defaults) p0 p ∧ p_starter p = Wired ∧ p_started p = true.
Proof.
  destruct (Create_run quiet_env (options_of Vars.defaults) blank_manager eq_refl) as ([e m] & Hc & _ & _ & _ & Hok & _). simpl in Hok.
  assert (e = None) as -> by (apply Hok; split; [by right|done]).
  exists (mkProcess true [] WaitingForCerts false blank_manager Running), (mkProcess true [] Wired true m Running).
  split; [done|]. split; [|done]. eapply rtc_l; [apply st_start|]. eapply rtc_l; [by apply st_wired|]. done.
Qed.


Lemma events_wake_witness : ∃ m, fully_wired Vars.defaults m ∧
  wakes m SubnamespaceAnchorKind (set_om_NamespacedName "acme" "team" blankMeta) =
    [(SubnamespaceAnchorKind, mkNN "acme" "team"); (HierarchyConfigurationKind, mkNN "acme" Singleton);
     (HierarchyConfigurationKind, mkNN "team" Singleton)].
Proof.
  exists (mkManager (expected_webhooks (options_of Vars.defaults)) (expected_controllers (options_of Vars.defaults)) [] [] None
    (set_listeners (expected_listeners (options_of Vars.defaults)) NewForest)).
  split; [repeat split|]. apply (events_wake Vars.defaults); repeat split.
Defined.
