(* ===== verification/SupportTheorems.v ===== *)
(** * Deep copies and test helpers: the theorems, with applications to concrete data *)

From Stdlib Require Import QArith Ascii.
From S2P Require Import Prelude GoStrings Api HncConfig World GoMemory DeepCopy TestHarness IntegTest.
Open Scope nat_scope.

(** ** Deep copies *)

(** The value that a pointer refers to. *)
Definition value_of (t : gotype) (p : option addr) (h : mem) : option (option (struct t Val)) :=
  fst <$> load_ptr (load t) p h.

Lemma value_of_load t p h v F : load_ptr (load t) p h = Some (v, F) → value_of t p h = Some v.
Proof. unfold value_of. by intros ->. Qed.

(** C40. Deep copies are copies and share nothing.  For every type of the API: when a pointer refers to an object in
    memory with some value, DeepCopy returns a pointer to a new address without changing any cell that was there, and
    DeepCopyObject returns the same pointer with its type.  The new object has the same value, whatever is then written to the
    memory that was there before; and the old object keeps its value, whatever is written to the memory that was not.
    A nil pointer gives a nil pointer and a nil object. *)
Theorem deep_copy_isolated `{RO : RangeOrder} t l h v : value_of t (Some l) h = Some v →
  ∃ l' h', DeepCopy_of t (Some l) h = Done (Some l', h') ∧
    DeepCopyObject_of t (Some l) h = Done (Some (t, l'), h') ∧
    l' ∉ dom h ∧ h ⊆ h' ∧
    (∀ ws, (∀ a, a ∈ ws.*1 → a ∈ dom h) → value_of t (Some l') (write_all ws h') = Some v) ∧
    (∀ ws, (∀ a, a ∈ ws.*1 → a ∉ dom h) → value_of t (Some l) (write_all ws h') = Some v) ∧
    DeepCopy_of t None h = Done (None, h) ∧ DeepCopyObject_of t None h = Done (None, h).
Proof.
  unfold value_of at 1. destruct (load_ptr (load t) (Some l) h) as [[v' F]|] eqn:Hl; [|done]. intros [= ->].
  pose proof (copies_ok (ld:=load_ptr (load t)) (copy:=copy_ptr (zero t) (DeepCopyInto t)) _ _ _ _ Hl) as (p & h' & Hc & Hsub & G & HG & HD).
  destruct p as [l'|].
  2: { exfalso. simpl in Hl. apply L_bind_inv in Hl as (? & ? & ? & _ & (? & ? & ? & _ & Hr & _)%L_bind_inv & _).
       injection HG as <- _. by injection Hr. }
  assert (l' ∈ G) as Hin.
  { simpl in HG. apply L_bind_inv in HG as (x & F1 & F2 & Hp & _ & ->). unfold peek in Hp.
    destruct (_ ≫= _); [|done]. injection Hp as _ <-. set_solver. }
  exists l', h'. split_and!; try done.
  - unfold DeepCopyObject_of. rewrite DeepCopy_of_eq, (M_bind_Done _ _ _ _ _ Hc). done.
  - set_solver.
  - intros ws Hws. eapply value_of_load, local_eq; [done|]. intros a Ha. apply write_all_other. set_solver.
  - intros ws Hws. eapply value_of_load, local_eq; [by apply (local_mono _ h)|].
    intros a Ha. apply write_all_other. apply local_dom in Hl. set_solver.
Qed.

(** A HierarchyConfiguration with a label: the object at 1, its labels at 2, the labels of its metadata at 3. *)
Definition hc_memory : mem := list_to_map [
  (1%positive, CVar GHierarchyConfiguration
    (mkResource (R:=Mem) zeroTypeMeta
      (mkObjectMeta (R:=Mem) "hierarchy" "" "team" "" "" "7" 1 None None None (Some 3%positive) None None None None)
      (mkHierarchyConfigurationSpec (R:=Mem) "org" false (Some (mkSlice 2 1 1)) None)
      (mkHierarchyConfigurationStatus (R:=Mem) None None)));
  (2%positive, CArr GMetaKVP [{| kvp_Key := "x"; kvp_Value := "0" |}; {| kvp_Key := "env"; kvp_Value := "prod" |}]);
  (3%positive, CMap GString {["app" := "web"]})].
Definition hc_value : HierarchyConfigurationT Val :=
  mkResource (R:=Val) zeroTypeMeta
    (mkObjectMeta (R:=Val) "hierarchy" "" "team" "" "" "7" 1 None None None (Some {["app" := "web"]}) None None None None)
    (mkHierarchyConfigurationSpec (R:=Val) "org" false (Some [{| kvp_Key := "env"; kvp_Value := "prod" |}]) None)
    (mkHierarchyConfigurationStatus (R:=Val) None None).

(** The label is changed in the original after the copy was made. *)
Lemma deep_copy_isolated_witness :
  let '(l', h') := match HierarchyConfiguration_DeepCopy (RO:=canonical_order) (Some 1%positive) hc_memory with
                   | Done (Some l', h') => (l', h') | _ => (1%positive, ∅) end in
  value_of GHierarchyConfiguration (Some l') (write_all [(2%positive, CArr GMetaKVP [])] h') = Some (Some hc_value).
Proof.
  destruct (@deep_copy_isolated canonical_order GHierarchyConfiguration 1%positive hc_memory (Some hc_value))
    as (l' & h' & Hc & _ & _ & _ & Hw & _).
  { vm_compute. reflexivity. }
  unfold HierarchyConfiguration_DeepCopy. rewrite Hc. apply Hw. intros a [->|[]%elem_of_nil]%elem_of_cons.
  apply elem_of_dom. vm_compute. eexists. reflexivity.
Defined.

(** ** The helpers of the end-to-end tests *)
Definition succeeds (r : result) : bool := bool_decide (r.2 = None).
Definition contains_all (substrs : list string) (r : result) : bool := forallb (Contains r.1) substrs.
Definition contains_none (substrs : list string) (r : result) : bool := forallb (λ s, negb (Contains r.1 s)) substrs.

Lemma bool_decide_quiet (s : string) (b : bool) : (s = "" ↔ b = true) → silencer_Match s = b.
Proof. intros H. unfold silencer_Match. destruct b; [apply bool_decide_eq_true; tauto|apply bool_decide_eq_false; naive_solver]. Qed.
Lemma missAny_contains substrs r : silencer_Match (missAny substrs r.1) = contains_all substrs r.
Proof.
  apply bool_decide_quiet. rewrite missAny_quiet. unfold contains_all. rewrite forallb_forall.
  by setoid_rewrite list_elem_of_In.
Qed.
Lemma undesired_contains substrs r : silencer_Match (undesired substrs r.1) = contains_none substrs r.
Proof.
  apply bool_decide_quiet. rewrite undesired_quiet. unfold contains_none. rewrite forallb_forall.
  setoid_rewrite negb_true_iff. by setoid_rewrite list_elem_of_In.
Qed.

(** What the helpers of the end-to-end tests certify.  A step passes exactly when, within its time, a run of the command
    satisfies it: the command succeeds (MustRun), succeeds and its output has all the given texts, fails with all the
    given texts, or succeeds with none of them.  The runs before it did not satisfy it, and nothing is run after it. *)
Theorem helpers_certify {W} (e : env W) cmdln substrs seconds w w' :
  let seen good := ∃ r, observed e (RunCommand e cmdln) good (attempts e seconds w) w r w' in
  (mustRunWithTimeout e seconds cmdln w = Passed tt w' ↔ seen succeeds) ∧
  (runShouldContainMultiple e substrs seconds cmdln w = Passed tt w' ↔ seen (λ r, succeeds r && contains_all substrs r)) ∧
  (runErrorShouldContainMultiple e substrs seconds cmdln w = Passed tt w' ↔
     seen (λ r, negb (succeeds r) && contains_all substrs r)) ∧
  (runShouldNotContainMultiple e substrs seconds cmdln w = Passed tt w' ↔ seen (λ r, succeeds r && contains_none substrs r)).
Proof.
  split_and!.
  - eapply (eventually_report e (RunCommand e cmdln)); [reflexivity|]. by intros [out [err|]].
  - eapply (eventually_report e (RunCommand e cmdln) (λ r, report (missAny substrs r.1, r.2))).
    + intros v. unfold tryRunShouldContainMultiple, mbind, Test_bind. by destruct (RunCommand e cmdln v).
    + intros [out [err|]]; [done|]. apply (missAny_contains substrs (out, None)).
  - eapply (eventually_report e (RunCommand e cmdln)
      (λ r, match r.2 with None => "passed but should have failed" | Some _ => missAny substrs r.1 end)).
    + intros v. unfold tryRunShouldContainMultiple, mbind, Test_bind. by destruct (RunCommand e cmdln v).
    + intros [out [err|]]; [|done]. apply (missAny_contains substrs (out, Some err)).
  - eapply (eventually_report e (RunCommand e cmdln)); [reflexivity|].
    intros [out [err|]]; [done|]. apply (undesired_contains substrs (out, None)).
Qed.

(** A command that succeeds from the second run on, in a cluster whose state is the number of runs. *)
Definition flaky : env nat := {|
  exec := λ _ args n, if decide (n = 0) then (("try again", Some "exit status 1"), 1) else ((Join args " ", None), S n);
  defaultTimeout := 2%Q; attempts := λ _ _, 3; tick := id; sleep := λ _ n, n;
  tempFile := λ _ n, (inr "/tmp/e2e.yaml", n); osRemove := λ _ n, (None, n); HNC_REPAIR := "" |}.
Lemma helpers_certify_example :
  runShouldContainMultiple flaky ["get ns"; "team"] 2 ["kubectl get"; "ns team"] 0 = Passed tt 2 ∧
  runShouldNotContainMultiple flaky ["team"] 2 ["kubectl get"; "ns team"] 0 = Failed "timed out" 4.
Proof. split; vm_compute; reflexivity. Qed.

(** ** Arguments of commands *)
Lemma HasPrefix_dquote s : HasPrefix (dquote +:+ s) dquote = true.
Proof. by destruct s. Qed.
Lemma substring_all s t : String.substring 0 (String.length s) (s +:+ t) = s.
Proof. induction s as [|c s IH]; [by destruct t|]. change (String c (String.substring 0 (String.length s) (s +:+ t)) = String c s). by rewrite IH. Qed.

(** Arguments in double quotes reach the program as they are, whatever is in them, unless they are empty. *)
Theorem quoted_args_roundtrip args : (∀ a, a ∈ args → a ≠ "") →
  command_args ((λ a, dquote +:+ a +:+ dquote) <$> args) = args.
Proof.
  induction args as [|a args IH]; intros Hne; [done|]. unfold command_args in *. csimpl.
  assert (2 < String.length (dquote +:+ a +:+ dquote)) as Hlen.
  { change (2 < S (String.length (a +:+ dquote))). rewrite string_length_app. change (String.length dquote) with 1.
    destruct a; [by destruct (Hne ""); [left|]|]. simpl. lia. }
  assert (unsplit (dquote +:+ a +:+ dquote) = true) as ->.
  { unfold unsplit. rewrite bool_decide_true, HasPrefix_dquote by done. rewrite !andb_true_l.
    change (dquote +:+ a +:+ dquote) with (String "034" a +:+ dquote). apply HasSuffix_app. }
  rewrite IH by (intros b Hb; apply Hne; by right). simpl. f_equal.
  change (String.substring 0 (S (String.length (a +:+ dquote)) - 2) (a +:+ dquote) = a).
  rewrite string_length_app. change (String.length dquote) with 1.
  replace (S (String.length a + 1) - 2) with (String.length a) by lia. apply substring_all.
Qed.

(** ** The helpers of the integration tests *)
Section integration.
  Context {C : Type} (k : client C) (e : env (state C)).
Definition children_in (pnm : string) (c : C) : list string :=
  hct_Children (hc_Status (match getHC k (mkNN pnm Singleton) c with Found h => h | _ => blankHC end)).

Lemma eventually_passed {A} (f : Test (state C) A) good s a s' :
  Eventually_ e f good s = Passed a s' → ∃ s1, f s1 = Passed a s' ∧ good a = true.
Proof. intros (j & s1 & _ & _ & Hf & Hg)%poll_exact. eauto. Qed.

Lemma eventually_children pnm (P : list string → bool) s u s' :
  (_ ← Eventually_ e (children_of k pnm) P; mret u) s = Passed tt s' → P (children_in pnm (st_cluster s')) = true.
Proof.
  intros (l & s1 & H & Hr)%Test_bind_Passed. injection Hr as _ <-.
  apply eventually_passed in H as (s2 & Hf & HP). injection Hf as <- <-. done.
Qed.

(** What a passed SetParent certifies: the API server took the hierarchy of the namespace, as it was last read or new,
    with the parent; later the old parent did not list the namespace, and at the end the new one does. *)
Theorem set_parent_certifies nm pnm s s' : IntegTest.SetParent k e nm pnm s = Passed tt s' →
  ∃ s1 h s2 s3,
    (getHC k (mkNN nm Singleton) (st_cluster s1) = Found h ∨
     getHC k (mkNN nm Singleton) (st_cluster s1) = NotFound ∧ h = NewHierarchy nm) ∧
    TryUpdateHierarchy k (with_parent pnm h) s1 = Passed None s2 ∧
    (hcs_Parent (hc_Spec h) ≠ "" → nm ∉ children_in (hcs_Parent (hc_Spec h)) (st_cluster s3)) ∧
    (pnm ≠ "" → nm ∈ children_in pnm (st_cluster s')).
Proof.
  intros ([old err] & s2 & Hc & ([] & s3 & Ho & Hn)%Test_bind_Passed)%Test_bind_Passed. simpl in Ho.
  apply eventually_passed in Hc as (s1 & (h & s1' & Hh & (err' & s2' & Hu & Hr)%Test_bind_Passed)%Test_bind_Passed & Hok).
  injection Hr as <- <- <-. simpl in Hok. apply bool_decide_eq_true in Hok as ->.
  apply Test_bind_Passed in Hh as (r & s1'' & Hr & Hh). injection Hr as <- <-.
  assert (s1' = s1 ∧ (getHC k (mkNN nm Singleton) (st_cluster s1) = Found h ∨
     getHC k (mkNN nm Singleton) (st_cluster s1) = NotFound ∧ h = NewHierarchy nm)) as [-> Hget].
  { destruct (getHC k (mkNN nm Singleton) (st_cluster s1)) as [h'| |] eqn:Hg; [| |done]; injection Hh as <- <-; auto. }
  exists s1, h, s2', s3. split_and!; [done|done| |].
  - intros Hne. rewrite decide_False in Ho by done. apply eventually_children, bool_decide_eq_true in Ho. done.
  - intros Hne. rewrite decide_False in Hn by done. apply eventually_children, bool_decide_eq_true in Hn. done.
Qed.
End integration.

(** ** Observations *)

(** MustNotRun gives gomega the function that would run the command, and not its result: a function is never equal to nil,
    so the step passes whatever the command would do, and the command is not run. *)
Theorem must_not_run_runs_nothing {W} (cmdln : list string) (w : W) : MustNotRun cmdln w = Passed tt w.
Proof. done. Qed.

(** So does MustNotApplyYAML, which only writes and removes a file. *)
Theorem must_not_apply_applies_nothing {W} (e : env W) s name w1 w2 w3 :
  tempFile e s w1 = (inr name, w2) → osRemove e name w2 = (None, w3) → MustNotApplyYAML e s w1 = Passed tt w3.
Proof.
  intros H1 H2. unfold MustNotApplyYAML, mbind, Test_bind, writeTempFile. rewrite H1. unfold deferred, removeFile. simpl.
  by rewrite H2.
Qed.

(** The clean-up of the integration tests does not repeat a deletion: when the first one fails and the second succeeds, the
    object is gone and the step fails. *)
Definition one_object : Unstructured := blankObject "secrets" "team" "token".
Definition slow_deletion : client (nat * bool) := {|
  getHC := λ _ _, NotFound; createHC := λ _ c, (None, c); updateHC := λ _ c, (None, c);
  getNS := λ _ _, NotFound; createNS := λ _ c, (None, c); updateNS := λ _ c, (None, c);
  getConfig := λ _ _, NotFound; createConfig := λ _ c, (None, c); updateConfig := λ _ c, (None, c);
  getObj := λ _ _ (c : nat * bool), if c.2 then Found one_object else NotFound; createObj := λ _ c, (None, c); updateObj := λ _ c, (None, c);
  deleteObj := λ _ (c : nat * bool), if decide (c.1 = 0) then (Some (WOther "timeout"), (1, c.2)) else (None, (c.1, false)) |}.
Definition patient : env (state (nat * bool)) := {|
  exec := λ _ _ s, (("", None), s); defaultTimeout := 4%Q; attempts := λ _ _, 100; tick := id; sleep := λ _ s, s;
  tempFile := λ _ s, (inr "", s); osRemove := λ _ s, (None, s); HNC_REPAIR := "" |}.
Theorem cleanup_fails_after_late_deletion :
  CleanupObjects slow_deletion patient (mkState (0, true) [one_object]) = Failed "timed out" (mkState (1, false) [one_object]).
Proof. vm_compute. reflexivity. Qed.

(** An argument in double quotes that is empty keeps its quotes. *)
Theorem empty_quoted_argument : command_args ["kubectl get ns"; dquote +:+ dquote] = ["kubectl"; "get"; "ns"; dquote +:+ dquote].
Proof. vm_compute. reflexivity. Qed.
