(* ===== verification/Observations.v ===== *)
(** * Observations

    Concrete runs in which the code does something other than what its comments or
    its callers expect. *)

From S2P Require Import Setup ManagerMain ManagerTheorems.
From S2P Require Import Prelude GoStrings Chains Validation Api Config Selectors Resources Forest ForestWf ForestWalks ForestReads.
From S2P Require Import Sound World Objects Propagation ObjectsValidator HncConfig HncConfigValidator Instances PropagationTheorems.
From S2P Require Import Discovery TreeApi TreeWatch TreeApiTheorems Stats Migration ToolTheorems HrqControllers Kubectl KubectlViews.

(** The namespace b, with its tree labels, already has a secret named token. *)
Definition token_in_b : Unstructured := secret "token" "b" "mine" ∅ ∅.
Definition labelled : Forest :=
  (SetLabels (at_name family "b") (Some {["b.tree.hnc.x-k8s.io/depth" := "0"; "a.tree.hnc.x-k8s.io/depth" := "1"]})
    (SetSourceObject (at_name family "b") (cleanSource objects_config token_in_b) stocked)).2.

(** A user creates a secret of that name in a, for the tree of b only. *)
Definition token_for_b : Unstructured := secret "token" "a" "theirs" ∅ {[AnnotationTreeSelector := "b"]}.
Definition create_token : request :=
  {| rq_obj := token_for_b; rq_oldObj := emptyObject; rq_op := Create; rq_gr := "secrets" |}.

(** The check for conflicts evaluates the selectors of a new source on the labels of the namespace of the source
    instead of those of the descendant, so it admits a source that is then propagated over the object of a user. *)
Theorem conflict_check_uses_source_labels :
  ObjectsValidator.handle objects_config (λ _, NotFound) create_token labelled = Done (Allow "source object", labelled) ∧
  let f := SetSourceObject (at_name family "a") (cleanSource objects_config token_for_b) labelled in
  desired objects_config secretGVK Propagate f "b" "token" = Some (cleanSource objects_config token_for_b).
Proof. split; [by vm_compute|]. cbv zeta. by vm_compute. Qed.

(** A tree selector with an empty segment makes the parser panic. *)
Definition trailing_comma : Unstructured := secret "token" "a" "x" ∅ {[AnnotationTreeSelector := "b,"]}.

Theorem blank_segment_panics : GetTreeSelector trailing_comma = Panics.
Proof. by vm_compute. Qed.

(** The types that the configuration webhook checks before a mode change leave out the
    empty mode, which the reconciler treats as Propagate, and types that go from
    AllowPropagate to Propagate. *)
Definition allowing : Forest := upd_syncer secretGVK (set_ts_Mode AllowPropagate) stocked.
Theorem unchecked_mode_changes :
  getNewPropagateTypes family {[secretGVK := ""]} = ∅ ∧ GetValidateMode "" = Propagate ∧
  getNewPropagateTypes allowing {[secretGVK := Propagate]} = ∅.
Proof. split_and!; by vm_compute. Qed.

(** Two refreshes that overlap can leave the table out of date although nothing is left to do: the one that asked
    before a change of the cluster stores its answer last. *)
Theorem overlapping_refreshes_stale :
  ∃ s, rtc (wstep no_hash) (starting [] 0) s ∧ settled s ∧ w_cluster s = small_cluster ∧ List (w_watcher s) = [].
Proof.
  exists (mkWatch (mkWatcher 0 [] (resourceMap small_table) false) small_cluster 0 0 []).
  split_and!; [|done|done|done].
  eapply rtc_l; [apply ws_event|].
  eapply rtc_l; [apply (ws_start no_hash _ _ _ _ [] (inr [])); [done|by intros ? [= ->]]|].
  eapply rtc_l; [apply (ws_change no_hash _ _ small_cluster)|].
  eapply rtc_l; [apply ws_event|].
  eapply rtc_l; [apply (ws_start no_hash _ _ _ _ [inr []] (inr small_cluster)); [done|by intros ? [= ->]]|].
  eapply rtc_l; [apply (ws_finish no_hash _ _ _ _ [inr []] (inr small_cluster) [])|].
  eapply rtc_l; [apply (ws_finish no_hash _ _ _ _ [] (inr []) [])|]. reflexivity.
Qed.

(** Types that the cluster no longer has are still found under their names: a refresh replaces the list but only adds
    to the table that requests are looked up in. *)
Theorem removed_types_still_found d a resource group : is_Some (Discovery.Get a resource group) →
  is_Some (Discovery.Get (setAPIResources no_hash (inr d) a).2 resource group).
Proof. unfold Discovery.Get. case_decide; apply setAPIResources_mono. Qed.

(** A watch on a namespace without tree labels (one that does not exist, or that HNC does not manage) becomes a watch on
    all namespaces; a list of the same namespace is empty. *)
Theorem watch_of_unlabelled_namespace_is_global :
  NamespaceHandler kind_of_secrets parse_key decode_query small_table (λ _, inr secrets_client) (inr family_cache) "nowhere" "secrets"
    [("watch", "true")] (Done [Watching (decode_query [("watch", "true")]) [None]]).
Proof. by vm_compute. Qed.

(** An API server that has two secrets in each namespace and pages its answers. *)
Definition second_in (nm : string) : Unstructured := mkObj (mkGVK "" "v1" "Secret") (set_om_NamespacedName nm "more" blankMeta) None ∅.
Definition paging_client : resourceClient :=
  {| rc_List opts ns := match ns with
       | Some nm => inr (Some (if decide (lo_Limit opts = 1%Z) then mkUList [secret_in nm] [] None "7" "next"
                               else mkUList [secret_in nm; second_in nm] [] None "7" ""))
       | None => inr (Some (mkUList [] [] None "9" ""))
       end;
     rc_Watch _ _ := None |}.

(** The limit of a request is passed on to the list of every namespace, and the tokens to continue are dropped: the answer
    for a tree is cut off in each namespace, and it does not say so.  (kubectl sets a limit of 500.) *)
Theorem limited_list_truncated : ∃ its,
  NamespaceHandler kind_of_secrets parse_key decode_query small_table (λ _, inr paging_client) (inr family_cache) "c" "secrets"
    [("limit", "1")] (Done [WriteJson (ListBody ("", "v1", "secrets") "SecretList" "7" its)]) ∧
  its = [secret_in "c"] ∧ rc_List paging_client noOptions (Some "c") = inr (Some (mkUList [secret_in "c"; second_in "c"] [] None "7" "")).
Proof.
  exists [secret_in "c"]. split; [|split; reflexivity]. unfold NamespaceHandler.
  replace (gvrFromVars small_table "secrets") with (inr ("", "v1", "secrets") : string + string * string * string) by (vm_compute; reflexivity).
  replace (parse_key ("c" +:+ hnsLabelSuffix)) with
    (inr (λ ls, bool_decide (is_Some (ls !! ("c" +:+ hnsLabelSuffix)))) : string + (gmap string string → bool)) by reflexivity.
  cbv iota beta zeta. replace (tree_namespaces _ family_cache) with ["c"] by (vm_compute; reflexivity).
  apply (lh_respond kind_of_secrets ("", "v1", "secrets") paging_client ["c"] (decode_query [("limit", "1")])
    [Some (mkUList [secret_in "c"] [] None "7" "next")] [secret_in "c"] [] 7%Z None [secret_in "c"] []).
  - repeat constructor.
  - split_and!; [apply (interleaving_concat [[secret_in "c"]])|apply (interleaving_concat [[]])| |right; eexists; split; [left|reflexivity]].
    exists [7%Z]. split; [apply (interleaving_concat [[7%Z]])|vm_compute; reflexivity].
  - split; [done|]. repeat constructor.
  - split; [reflexivity|constructor].
Qed.

(** Two increments that overlap count once; one after the other they count twice. *)
Theorem increments_can_be_lost :
  schedule [Load 0; Load 1; Store 0 1; Store 1 1] 0 = 1%Z ∧ schedule [Load 0; Store 0 1; Load 1; Store 1 1] 0 = incr (incr 0).
Proof. by vm_compute. Qed.

(** The migration tool sets the namespace of a configuration that has none, but then looks it up under the namespace it
    had before: a nil pointer. *)
Theorem config_without_namespace_panics :
  process [object_at "namespaces/acme/hc.yaml" "hnc.x-k8s.io/v1alpha2" "HierarchyConfiguration" "hierarchy" "" (Some "")] = Panics.
Proof. by vm_compute. Qed.

(** A watch that returns has always logged that the client disconnected, because the wait for the group cancels the context
    that is tested; here no client has. *)
Theorem watch_end_logged_as_disconnect : rtc (wh_step non_empty two_watches) (wh_start two_watches) merged ∧
  wh_left merged = false ∧ wh_err merged = None ∧ wh_log merged = ["client disconnected"].
Proof. split; [exact merged_reached|done]. Qed.

(** The error of a watch can be written while the other goroutine still writes an event: the error is in the middle of the
    stream. *)
Theorem watch_error_inside_stream : ∃ s,
  rtc (wh_step non_empty [mkSource ["x"] true; mkSource [""] true]) (wh_start [mkSource ["x"] true; mkSource [""] true]) s ∧
  wh_handler s = Returned ∧ wh_calls s = [Header; Failed "no kind"; Forwarded "x"].
Proof.
  exists (mkWh [Stopped; Stopped] Finished Returned false (Some "no kind") [Header; Failed "no kind"; Forwarded "x"] ["client disconnected"]).
  split; [|split; reflexivity].
  watch_step (wh_receive _ _ 0). watch_step wh_header. watch_step (wh_send _ _ 0). watch_step (wh_closed _ _ 0).
  watch_step (wh_fail _ _ 1). watch_step wh_waited. watch_step wh_write. watch_step wh_close. watch_step wh_drained.
  watch_step wh_done. reflexivity.
Qed.

(** Both certificate rotators close the channel that the start waits for, and the second close panics: with certificates
    managed by HNC, the process never runs with both rotators done. *)
Theorem rotators_never_both_ready env pe v p0 p : main env pe v = Launched p0 → rtc (start_step env pe v) p0 p →
  rotates_certs v = true → p_status p = Running → p_pending p ≠ [].
Proof.
  intros Hm Hr Hx Hs. pose proof (si_internal _ _ _ (start_inv_reachable _ _ _ _ _ Hm Hr) Hx Hs) as Hl.
  intros Hn. rewrite Hn in Hl. by destruct (p_ready p).
Qed.

Definition internal_certs : Vars.vars := Vars.set_bool Vars.internalCert true Vars.defaults.

Theorem second_rotator_panics : ∃ p0 p,
  main quiet_env quiet_process internal_certs = Launched p0 ∧
  rtc (start_step quiet_env quiet_process internal_certs) p0 p ∧ p_status p = Panicked SecondClose ∧ p_pending p = [].
Proof.
  eexists _, (mkProcess true [] WaitingForCerts true _ (Panicked SecondClose)). split; [reflexivity|]. split; [|done].
  eapply rtc_l; [apply st_start|]. eapply rtc_l; [apply (st_ready _ _ _ _ [])|]. eapply rtc_l; [apply (st_ready_again _ _ _ _ [])|]. reflexivity.
Qed.

(** The controllers are wired when the first of the two rotators has its certificates, while the other one's are missing. *)
Theorem wired_with_certs_missing : ∃ p0 p,
  main quiet_env quiet_process internal_certs = Launched p0 ∧
  rtc (start_step quiet_env quiet_process internal_certs) p0 p ∧ p_starter p = Wired ∧ length (p_pending p) = 1.
Proof.
  assert (∃ r1 r2 m0, main quiet_env quiet_process internal_certs = Launched (mkProcess false [r1; r2] WaitingForCerts false m0 Running) ∧
    unwired m0) as (r1 & r2 & m0 & Hm & Hw) by (do 3 eexists; split; [reflexivity|by split_and!]).
  destruct (Create_run quiet_env (options_of internal_certs) m0 (proj1 Hw)) as ([e m] & Hc & _ & _ & _ & Hok & _). simpl in Hok.
  assert (e = None) as -> by (apply Hok; split; [by right|done]).
  exists (mkProcess false [r1; r2] WaitingForCerts false m0 Running), (mkProcess true [r2] Wired true m Running). split_and!; [done| |done..].
  eapply rtc_l; [apply st_start|]. eapply rtc_l; [apply (st_ready _ _ _ _ [])|]. eapply rtc_l; [by apply st_wired|]. reflexivity.
Qed.

(** When metrics are not exported to Stackdriver there is no cleanup to defer, and main panics when the manager stops. *)
Theorem no_stackdriver_panics pe v : Vars.v_bool v Vars.enableStackdriver = false ∨ pe_newExporter pe ≠ None →
  after_main pe v = Panicked InCleanup.
Proof. unfold after_main, enableMetrics. destruct (Vars.v_bool v Vars.enableStackdriver), (pe_newExporter pe); naive_solver. Qed.

(** The quota command looks at whether its flags are given, not at their values, and ignores names when all namespaces are
    asked for. *)
Theorem all_namespaces_false_lists_all `{RangeOrder} getOne listIn qstring age ns labels args :
  Run getOne listIn qstring age (mkHrqFlags ns (Some false) labels) args = Run getOne listIn qstring age (mkHrqFlags "" (Some true) labels) [].
Proof. unfold Run, getHRQ. simpl. rewrite !decide_False by (intros [? ?]; done). done. Qed.
